(* ===== verification/_CoqProject ===== *)
-Q . S2P
Prelude.v
Locks.v
CircuitBreaker.v
TokenBucket.v
RateLimiter.v
Str.v
Float.v
Types.v
Json.v
Errors.v
Sse.v
Config.v
Tracing.v
Rbac.v
NetGuard.v
Roles.v
Strategy.v
Plugin.v
Pii.v
FixedWindow.v
Budget.v
Policy.v
Sql.v
Jwt.v
KeyStore.v
KeySql.v
KeyRefine.v
ModelStore.v
ModelRefine.v
Provider.v
Clients.v
HttpPool.v
Sink.v
Failover.v
Usage.v
Auditing.v
AuditSink.v
MetricsRegistry.v
Cache.v
Gateway.v
AdminHandlers.v
Access.v
Http.v
Proxy.v
Router.v
Route.v
Stream.v
Api.v
Handlers.v
HandlerLaws.v
Traffic.v
Wire.v
LogSql.v
Startup.v
Server.v
