(* ===== verification/Prelude.v ===== *)
(** * Himadri: a verification development for the AI gateway (root file)

    Himadri (src/crates/) is a gateway in front of language-model providers.
    A client sends an OpenAI-style request; the gateway authenticates it, checks
    the caller's limits, budgets, guardrails and roles, runs its plugins,
    chooses the provider endpoints to try, tries them in order behind circuit
    breakers, guards and audits the answer, and accounts for it. Administrators
    manage keys, models and endpoints, and replace the configuration, while
    requests run. This library is a shallow embedding of that program: each
    function of the source that decides something is a function of the same
    name here.

    ** Files

    Leaves:
    - Prelude.v (this file): [result] and its bind, machine-width integers,
      hints. [u64] values are [Z] in [0, 2^64); wrapping, saturating and checked
      operations are written out.
    - Str.v, Float.v: the [str] operations the source uses, on UTF-8 bytes; IEEE
      binary64 and binary32 as the Standard Library's [spec_float], and Rust's
      stable sort.
    - Types.v, Json.v, Errors.v: himadri-core/types.rs; its serialization and
      the operations on JSON documents; himadri-core/error.rs and
      himadri-provider/error.rs with statuses and messages.

    Limits and breakers, each with its contract:
    - CircuitBreaker.v: himadri-circuitbreaker/lib.rs. The class
      [CircuitBreakerTrait] with [CircuitBreakerLaws] is what Failover.v is
      proved against; [Module Spec] is the three-state automaton that the
      counters refine.
    - TokenBucket.v, RateLimiter.v: himadri-ratelimit. The sequential bucket,
      [Module Concurrent] with its atomic accesses as a step relation, the
      sharded limiter refined by one flat map, and the class [RateLimiting] that
      Policy.v uses.
    - FixedWindow.v, Budget.v: himadri-plugins/rate_limit.rs and budget.rs,
      with [Module Interleaved] for the two steps of a counter update.

    Decisions:
    - Config.v: config.rs and scope.rs; loading, defaults, the deprecation shim,
      the organisation and team chain.
    - Rbac.v, Roles.v, NetGuard.v, Policy.v: rbac.rs, roles.rs, net_guard.rs
      with env.rs and provider_registry.rs, gateway/policy.rs.
    - Strategy.v: strategy.rs and latency_store.rs.
    - Plugin.v, Cache.v: himadri-plugin, and the plugins max_token.rs,
      word_filter.rs, logger.rs, cache.rs.
    - Pii.v: himadri-plugins/pii_engine.rs and pii_guardrail.rs, the two
      guardrails over the class [PiiEngine].

    Identity and administration (himadri-auth, himadri-admin):
    - Jwt.v: jwt.rs, oidc.rs, admin_login.rs.
    - Access.v: himadri-admin/middleware.rs and himadri/combined_auth.rs.
    - Sql.v: statements over tables with constraints and connections that may
      fail, as a monad, and what it means that a table represents a map.
    - KeyStore.v, KeySql.v, KeyRefine.v: store.rs. The in-memory key store with
      its two maps, its specification as one map ([Module Spec]) and its
      accesses one by one ([Module Interleaved]); the SQLite and Postgres stores
      and the choice of a backend; their refinement of the same specification.
    - ModelStore.v, ModelRefine.v: models.rs, crypto.rs, provider_store.rs and
      postgres_provider_store.rs ([SqliteModels], [PgModels]), and their common
      contract ([Module Contract]).
    - AdminHandlers.v: handlers.rs over the two store traits of model_store.rs.
    - Usage.v, Auditing.v: usage_store.rs and request_log.rs,
      himadri-observability, gateway/audit.rs.
    - AuditSink.v: the audit log's file sink (himadri-observability/audit.rs): its
      task and the unflushed writes of its files, as a step relation with the callers.
    - MetricsRegistry.v: himadri-observability/metrics.rs, the families and
      their registration.
    - LogSql.v: the request log in Postgres (postgres_backends.rs), its queue
      and its writer as a step relation.

    Providers (himadri-provider):
    - Provider.v: the client trait, the registry and the presets.
    - Sse.v: sse.rs, from bytes to events, with UTF-8 decoding.
    - Clients.v: what the compatible, Anthropic and Gemini clients send and how
      they read answers, streams and errors; the settings of http_client.rs.
    - HttpPool.v: the pool of http_client.rs, transparent to them.
    - Sink.v: load-test-sink/main.rs, the stand-in provider of load tests, and
      what the compatible client reads from it.

    The gateway (himadri/src/gateway/):
    - Failover.v: [with_failover] of route.rs, routing keys and API keys.
    - Gateway.v: mod.rs, config.rs and rebuild.rs; the state as the record
      [Gateway] and the administrative operations.
    - Route.v, Stream.v: route.rs and stream.rs, the two request paths, which
      call everything above.
    - Locks.v: which locks each call of the gateway takes, in order, and where
      it waits; the workers, the queues and the grants as the step relation
      [step]. It needs no other file but this one.
    - Traffic.v: rebuilds, reloads and rollbacks of Gateway.v and the failover
      loop of requests, access by access over the state they share
      ([traffic_step]).

    The process (himadri/src/):
    - Http.v: what handlers.rs decides without the gateway: error answers, the
      caller's address, the metrics and login tokens, the admin gate, the legacy
      completion format, the events of a streamed answer.
    - Proxy.v: gateway/proxy.rs and the passthrough handler.
    - Router.v: build_router of main.rs, the table of routes with their layers,
      and CORS.
    - Api.v: the handlers of completions, embeddings, model lists and statistics
      over Route.v and Stream.v.
    - Handlers.v, HandlerLaws.v: the admin handlers over the gateway and the
      stores, with the rebuild that follows each change; the stores they assume
      ([StoreLaws]) made from the contract of ModelRefine.v.
    - Wire.v: wire/mode.rs, wire/plugins.rs and the registration of providers;
      the state the plugins share is its record [Process].
    - Tracing.v: tracing_setup.rs (himadri-observability) and the guard main holds.
    - Startup.v: main of main.rs from the command line to the assembled process,
      and the opening of the stores (provider_backend.rs).
    - Server.v: the assembled process answering requests: [serve_request]
      composes the routes of Router.v, their layers and every handler over one
      state, with the cells the source shares.

    ** State, effects and outside

    Stateful code passes its state: an operation takes the record and returns
    the new one, with [result] for Rust's [Result] and [option] where the source
    panics. A lock held for a whole operation makes it one step. Where several
    threads meet without one, the atomic accesses are steps of a relation and
    the theorems quantify over interleavings: [Concurrent] (token bucket),
    [Interleaved] (window counter, key store), [key_steps] (the unlocked key
    swap of a rebuild), [log_step] (the Postgres log), [trail_step] (the audit
    sink), [traffic_step] (requests and administration), and [step] of Locks.v,
    whose scheduler, lock grants and answers are arbitrary. Elsewhere a request
    or an administrative call runs alone. A SQL statement is atomic, over its table and the connection's
    planned faults, each of which fails a statement before it runs or after;
    operations of several statements can stop between them.

    Code that is not the repository's is an argument: clocks (the reading is
    passed in, or read from the outside world [W] by a function), random draws,
    hashes (ahash, SHA-256), regular expressions, [str::to_lowercase], the JSON
    parser and printer, files and environment variables, the HTTP library, the
    moka cache, redact-core, and the iteration order of a [HashMap], for which
    theorems assume only that it is a permutation. Where a theorem needs a law
    of such code it is a field of a class with an instance at the concrete
    inputs: [TimeText] and [JsonText] (texts in columns read back), [Cipher]
    (base64 and AES-GCM open what they sealed), [JwtLibrary] (a token opens
    under its own secret while its claims are valid, and is refused when they are not). In Route.v the providers are client records acting
    on [W]; that file gathers its arguments in one record, [Outside].

    ** What the theorems show

    - Requests: guards run in order and the first failure decides
      ([prepare_request_spec]); the loop tries candidates in order until one
      does not fall through, and always returns ([failover_spec]); the order
      names no endpoint twice and loses none, unless the strategy is to use the first alone
      ([select_ordered_spec]); an outcome
      is audited once, except when no endpoint serves the model
      ([route_audited]); the cache holds only what was returned, under a key no
      other scope shares ([route_caches_returned], [cache_key_isolates]); a
      stream is accounted once whether it ends or is dropped
      ([stream_accounted_once]).
    - Limits: the bucket's admissions are bounded under every interleaving
      ([concurrent_admission_bound]), its calls in flight always finish
      ([calls_finish]), the limiter is bounded per key
      ([key_admission_bound]); a window is exact when calls do not overlap
      ([fixed_window_exact]) and not otherwise ([fixed_window_stale_overrun]); a
      budget overshoots by one request at most ([budget_overshoot_one_request]).
    - Breakers: they refine the automaton ([breaker_refines_automaton]), probes
      are bounded, a request touches its own breakers only, soft errors never
      open one ([failover_soft_errors_never_open]), and a half-open breaker
      whose probes report nothing stays stuck ([half_open_probes_wedge]).
    - Content: the PII guardrail rewrites every scanned text in place and
      nothing else ([pii_redacts_in_place]), blocks by naming types only
      ([pii_blocks_by_type]) and fails closed ([pii_response_fails_closed]).
    - Providers: a compatible provider receives every field of the client's request
      and no other ([compatible_body_forwards], [embedding_body_forwards]); events are read the same however the network
      cuts them between characters ([sse_chunking_irrelevant], [sse_round_trip]), a cut
      character being lost ([sse_split_character_lost]); usage without a
      count panics ([missing_count_panics]); the client reads from the load-test
      sink what it was set to say ([client_reads_sink]).
    - Identity: a request goes on only with a valid token, as its principal, whichever
      key store there is ([middleware_sound]), refusals are audited
      ([refusals_audited]), roles are those of the claims ([jwt_roles_spec]), the login
      opens what it issued until it expires ([login_round_trip]).
    - Stores: all three key stores implement one map ([memory_store_refines],
      [sqlite_store_refines], [postgres_store_refines]) in which a retired
      secret stays retired ([retired_secret_rejected]), except that overlapping
      calls on the in-memory store undo a revocation
      ([rotate_undoes_revoke]); the two model stores agree
      ([model_stores_parity]) but for instants finer than a microsecond, texts that do
      not fit a Postgres column ([long_name_differs]) and a deletion that fails half-way
      ([interrupted_delete_differs]); endpoint keys survive encryption
      ([endpoint_key_round_trip]).
    - Administration: a rebuild installs the buildable endpoints
      ([rebuild_targets_spec]) and never leaves a kept endpoint without a key
      ([rebuild_key_window]); the public catalogue lists what a rebuild routes
      ([listed_models_are_routed]); recorded versions are immutable and can be
      rolled back to ([rollback_restores]).
    - Access: glob patterns, role unions and scoped guardrails are decided as
      they read ([pattern_matches_spec], [rbac_check_spec],
      [org_guardrails_cumulative]); the URL guard refuses internal IPv4 literals
      ([guard_decides_ipv4]) and misses their IPv6-mapped form
      ([guard_allows_mapped_ipv4]).
    - Records: counters, usage records and log agree ([accounting_agrees]), the
      audit queue is bounded and content stripped, statistics are exact; the
      audit files hold the lines of what was accepted, by day
      ([audit_trail_complete]), though not always in order or whole
      ([audit_lines_reordered], [audit_line_torn]); the
      Postgres log loses nothing it accepted under every interleaving
      ([request_log_conservation]), its writer empties it ([request_log_drains]),
      and its queries select what they say ([pg_listing]).
    - Calls together: holders of a lock exclude each other ([locks_exclude]);
      calls that keep the documented lock order always return
      ([gateway_calls_return]); the passthrough does not keep it, and can stall
      the gateway or hang the process ([passthrough_stalls_gateway],
      [passthrough_hangs_process]). Administrative calls that do not overlap
      are atomic to requests ([administration_linearizes]) and, when no configuration names
      an endpoint, leave every live endpoint its client ([live_targets_resolve]); however they overlap,
      credentials stay with their endpoint ([credentials_stay_with_endpoint])
      and a kept endpoint keeps its key ([kept_endpoint_keeps_key]). What
      overlapping does break is shown by runs: a removed endpoint is called
      without a key, a new URL with the old key, and rebuilds undo each other
      ([removed_endpoint_called_without_key], [old_key_sent_to_new_url],
      [overlapping_rebuilds_lose_key], [overlapping_rebuilds_stale]).
    - The edge: a method and path reach one handler behind its layers
      ([dispatch_gated]); without credentials only four endpoints answer
      ([anonymous_surface]); an admin handler runs for admin principals only
      ([admin_gate_sound]), and any other request changes nothing they
      administer, with any key store ([only_admins_administer]); a client cannot choose the
      address it is limited by ([remote_ip_unspoofable]); legacy completions are chat completions
      ([completions_are_chat]).
    - The admin API: the live targets are always those of the database
      ([routing_follows_database]), whatever else is asked of the process
      ([server_follows_database]), as long as no configuration names an endpoint (one that
      does can revive it, [saved_config_revives_endpoint]) and the stores can be listed; a refused
      request changes nothing of the gateway ([failed_request_keeps_gateway]), and no answer holds an
      endpoint's key ([answers_hide_keys]).
    - The process: where authentication is required it is enforced
      ([required_auth_enforced]); a strict process routes by the database alone
      ([strict_boot_isolated]); it starts in the state the admin API maintains
      ([boot_in_step]); the guardrail runs before everything else that reads a
      request ([guardrail_decides_request]) and, when its engine cannot be built, the
      process starts only if nothing mentions scanning ([guardrails_fail_closed]); tracing never stops it and flushes its spans
      once ([spans_flushed_once]), with a ratio between 0 and 1
      ([clamp_ratio_bounds]).

    Besides these, lemmas such as [breaker_open_recovery],
    [stale_clients_survive_reload] or [cache_hit_reinserted] state behaviour of
    one component that the properties above do not need.

    ** Fuel

    Recursion is structural except in a few loops: the load balancer's draws
    without replacement ([lb_loop], whose fuel is the number of endpoints left,
    one of which leaves the list per round: [lb_loop_spec]), trimming and
    splitting at white space ([trim_start_fuel], [words_fuel], whose fuel is the
    length of the string, of which each round takes at least a byte), and the
    lines of a network buffer ([sse_scan], whose fuel is the length of the
    buffer plus one; a round takes at least the newline: [sse_scan_spec]).

    ** Not modelled

    The moka cache; spans and log events, the OpenTelemetry and Prometheus
    libraries and the tracing sink of the audit log; the engine of the regular
    expressions; the listener, signals and the background refresh of signing
    keys; the TypeScript dashboard. Traffic.v leaves the limiter, the latency
    store and the plugins out of the interleaving: they do not decide with what
    client and key a target is called. Axum's extractors are outside: a handler of Handlers.v
    is given the body it would have been given. Log lines have a counterpart
    only where they are all a function does ([log_provider_routing_mode]); timers
    have none, and an HTTP client is what its builder was told. Of Postgres columns, a
    text too long by trailing spaces alone counts as too long, and a NUL inside a JSONB
    document is not refused.

    ** Plan

    Next: the limiter, the latency store and the stores' mutations as further
    accesses of Traffic.v, under Locks.v's scheduler; the text of the metrics. *)

From stdpp Require Export base gmap strings list fin_maps relations.
From Stdlib Require Export ZArith Lia.

#[global] Open Scope Z_scope.

(** ** Results

    Rust's [Result<T, E>], with the [?] operator as a bind notation. *)

Inductive result (A E : Type) : Type :=
  | Ok (a : A)
  | Err (e : E).
Arguments Ok {A E} a.
Arguments Err {A E} e.

Declare Scope himadri_scope.
Delimit Scope himadri_scope with himadri.
#[global] Open Scope himadri_scope.

Notation "'let?' x ':=' m 'in' k" :=
  (match m with Ok x => k | Err err => Err err end)
  (at level 10, x pattern, m at level 100, k at level 200) : himadri_scope.

Definition is_ok {A E} (r : result A E) : bool :=
  match r with Ok _ => true | Err _ => false end.

Definition map_err {A E F} (f : E -> F) (r : result A E) : result A F :=
  match r with Ok a => Ok a | Err e => Err (f e) end.

Definition ok_or {A E} (o : option A) (e : E) : result A E :=
  match o with Some a => Ok a | None => Err e end.

#[global] Instance result_eq_dec {A E} `{EqDecision A, EqDecision E} :
  EqDecision (result A E).
Proof. solve_decision. Defined.

(** ** Machine integers

    A [u64] (or [u32]) value is a [Z]; the operations the source applies to
    it are written out at their width. *)

Definition U64_MAX : Z := 2 ^ 64 - 1.
Definition U32_MAX : Z := 2 ^ 32 - 1.

Definition u64 (x : Z) : Prop := 0 <= x <= U64_MAX.
Definition u32 (x : Z) : Prop := 0 <= x <= U32_MAX.

Definition wrap_u64 (x : Z) : Z := x mod 2 ^ 64.
Definition wrap_u32 (x : Z) : Z := x mod 2 ^ 32.

Definition saturating_add_u64 (a b : Z) : Z := Z.min (a + b) U64_MAX.
Definition saturating_sub_u64 (a b : Z) : Z := Z.max (a - b) 0.
Definition saturating_mul_u64 (a b : Z) : Z := Z.min (a * b) U64_MAX.
Definition checked_sub_u64 (a b : Z) : option Z :=
  if b <=? a then Some (a - b) else None.

Lemma wrap_u64_small x : u64 x -> wrap_u64 x = x.
Proof. unfold u64, wrap_u64, U64_MAX. intros. apply Z.mod_small. lia. Qed.

Lemma wrap_u64_range x : u64 (wrap_u64 x).
Proof.
  unfold u64, wrap_u64, U64_MAX.
  pose proof (Z.mod_pos_bound x (2 ^ 64)). lia.
Qed.

Lemma saturating_add_u64_range a b : u64 a -> u64 b -> u64 (saturating_add_u64 a b).
Proof. unfold u64, saturating_add_u64. lia. Qed.

Lemma saturating_sub_u64_range a b : u64 a -> u64 b -> u64 (saturating_sub_u64 a b).
Proof. unfold u64, saturating_sub_u64. lia. Qed.

Lemma saturating_mul_u64_range a b : u64 a -> u64 b -> u64 (saturating_mul_u64 a b).
Proof. unfold u64, saturating_mul_u64. nia. Qed.

Lemma checked_sub_u64_Some a b c :
  checked_sub_u64 a b = Some c <-> b <= a /\ c = a - b.
Proof.
  unfold checked_sub_u64. destruct (Z.leb_spec b a); split.
  - intros [= <-]. lia.
  - intros [_ ->]. done.
  - done.
  - lia.
Qed.

Lemma checked_sub_u64_None a b : checked_sub_u64 a b = None <-> a < b.
Proof. unfold checked_sub_u64. destruct (Z.leb_spec b a); split; done || lia. Qed.

Create HintDb himadri.
#[export] Hint Resolve wrap_u64_range saturating_add_u64_range
  saturating_sub_u64_range saturating_mul_u64_range : himadri.

(** ** Tactics *)

(** Split every boolean comparison on [Z] met in the goal or context into its
    two arithmetic cases. *)
Ltac zcases :=
  repeat match goal with
  | |- context [Z.leb ?a ?b] => destruct (Z.leb_spec a b)
  | |- context [Z.ltb ?a ?b] => destruct (Z.ltb_spec a b)
  | |- context [Z.eqb ?a ?b] => destruct (Z.eqb_spec a b)
  | H : context [Z.leb ?a ?b] |- _ => destruct (Z.leb_spec a b)
  | H : context [Z.ltb ?a ?b] |- _ => destruct (Z.ltb_spec a b)
  | H : context [Z.eqb ?a ?b] |- _ => destruct (Z.eqb_spec a b)
  end.

(** Case analysis on the scrutinee of the innermost [match]/[if]. *)
Ltac dmatch :=
  match goal with
  | |- context [match ?x with _ => _ end] =>
      lazymatch x with
      | context [match _ with _ => _ end] => fail
      | _ => destruct x eqn:?
      end
  end.

Ltac dmatch_in H :=
  match type of H with
  | context [match ?x with _ => _ end] =>
      lazymatch x with
      | context [match _ with _ => _ end] => fail
      | _ => destruct x eqn:?
      end
  end.
