(* ===== verification/Locks.v ===== *)
(** * The locks of the gateway
    (src/crates/himadri/src/gateway/mod.rs, route.rs, stream.rs, proxy.rs, rebuild.rs, config.rs)

    Which locks each call of the gateway takes, in what order, and where it waits for
    something outside while it holds them. A call is the sequence of its acquisitions,
    releases and awaits; many calls run on the workers of the runtime. The asynchronous
    locks of [Gateway] yield the worker while they wait; a guard of a [DashMap] holds the
    lock of a shard and blocks the worker of whoever wants it. What a lock grants when
    several calls want it is an argument, of which the laws of a readers-writer lock are
    assumed. *)

From S2P Require Import Prelude.

(** ** Locks and calls *)

Inductive MapName := ProvidersMap | BreakersMap | KeysMap.

(** The [RwLock] fields, and the shards of the [DashMap] fields. *)
Inductive Lock :=
  | LStrategy | LConfig | LTargets | LHistory
  | LShard (m : MapName) (shard : nat).

Inductive Mode := Shared | Exclusive.

#[export] Instance MapName_eq_dec : EqDecision MapName.
Proof. solve_decision. Defined.
#[export] Instance Lock_eq_dec : EqDecision Lock.
Proof. solve_decision. Defined.
#[export] Instance Mode_eq_dec : EqDecision Mode.
Proof. solve_decision. Defined.

(** The order documented at [struct Gateway]; shards come last. *)
Definition rank (l : Lock) : nat :=
  match l with LStrategy => 0 | LConfig => 1 | LTargets => 2 | LHistory => 3 | LShard _ _ => 4 end.

(** Whether a wait for the lock keeps the worker. *)
Definition blocking (l : Lock) : bool := match l with LShard _ _ => true | _ => false end.

(** [Await]: something outside must answer, a provider, a plugin or a store. *)
Inductive Action := Acquire (l : Lock) (m : Mode) | Release (l : Lock) | Await.

Definition drop_lock (l : Lock) (held : list (Lock * Mode)) : list (Lock * Mode) :=
  List.filter (fun p => negb (bool_decide (p.1 = l))) held.

(** A call that acquires in order, waits for nobody while it holds a shard, and
    releases what it holds. *)
Fixpoint disciplined (held : list (Lock * Mode)) (rest : list Action) : bool :=
  match rest with
  | [] => bool_decide (held = [])
  | Acquire l m :: k => forallb (fun p => (rank p.1 <? rank l)%nat) held && disciplined ((l, m) :: held) k
  | Release l :: k => bool_decide (l ∈ held.*1) && disciplined (drop_lock l held) k
  | Await :: k => negb (existsb (fun p => blocking p.1) held) && disciplined held k
  end.

(** *** What the calls take *)

Definition locked (l : Lock) (m : Mode) : list Action := [Acquire l m; Release l].

(** A plugin that runs; whether it reads the configuration. *)
Definition plugin_locks (reads : bool) : list Action :=
  Await :: if reads then locked LConfig Shared else [].

(** The guards, then, where they let the request pass, the plugins. *)
Definition prepare_request_locks (plugins : option (list bool)) : list Action :=
  (locked LConfig Shared ++ concat (plugin_locks <$> default [] plugins))%list.

(** The strategy is held while it orders the targets, if any serves the model. *)
Definition select_targets_locks (eligible : bool) : list Action :=
  ([Acquire LStrategy Shared; Acquire LTargets Shared; Release LTargets] ++
   if eligible then [Await; Release LStrategy] ++ locked LConfig Shared else [Release LStrategy])%list.

(** The key of a target, with the shard that holds it where it is not read from the
    environment. *)
Definition api_key_locks (key : option nat) : list Action :=
  match key with Some s => locked (LShard KeysMap s) Shared | None => [] end.

(** How far one candidate gets: its client, its key, the provider. *)
Inductive Reached := NoClient | NoKey (key : option nat) | Sent (key : option nat).

Definition client_locks (a : nat * Reached) : list Action :=
  (locked (LShard ProvidersMap a.1) Shared ++
   match a.2 with
   | NoClient => []
   | NoKey key => api_key_locks key
   | Sent key => api_key_locks key ++ [Await]
   end)%list.

(** The shard of the breaker; nothing more where it is open. Breaker and latency are
    recorded after the answer. *)
Definition attempt_locks (a : nat * option (nat * Reached)) : list Action :=
  (locked (LShard BreakersMap a.1) Exclusive ++ [Await] ++
   match a.2 with Some c => client_locks c ++ [Await; Await] | None => [] end)%list.

Definition with_failover_locks (record_latency : bool) (attempts : list (nat * option (nat * Reached)))
    : list Action :=
  ((if record_latency then locked LStrategy Shared else []) ++ concat (attempt_locks <$> attempts))%list.

(** What becomes of a completion once its plugins have run. *)
Inductive Routed :=
  | Settled                                             (* refused, or found in the cache *)
  | Unserved
  | Denied                                              (* RBAC allows no target *)
  | Attempted (attempts : list (nat * option (nat * Reached))).

Definition routed_locks (record_latency : bool) (r : Routed) : list Action :=
  match r with
  | Settled => []
  | Unserved => select_targets_locks false
  | Denied => select_targets_locks true
  | Attempted attempts => (select_targets_locks true ++ with_failover_locks record_latency attempts)%list
  end.

(** [lookup]: whether the cache is asked; [after]: the plugins and guardrails that run on
    the response. *)
Definition route_locks (plugins : option (list bool)) (lookup : bool) (r : Routed) (after : list bool)
    : list Action :=
  (prepare_request_locks plugins ++ (if lookup then [Await] else []) ++ routed_locks true r ++
   concat (plugin_locks <$> after))%list.

Definition route_stream_locks (plugins : option (list bool)) (r : Routed) : list Action :=
  (prepare_request_locks plugins ++ routed_locks false r)%list.

(** Refused by a guard, without targets, or with the candidates tried. *)
Definition embed_locks (r : option (option (list (nat * Reached)))) : list Action :=
  (locked LConfig Shared ++
   match r with
   | None => []
   | Some None => locked LTargets Shared
   | Some (Some attempts) =>
       locked LTargets Shared ++ locked LConfig Shared ++ concat (client_locks <$> attempts)
   end)%list.

Definition each_shard (m : MapName) (shards : list nat) : list Action :=
  concat ((fun s => locked (LShard m s) Exclusive) <$> shards).

(** What a rebuild that is applied changes: the shards of the keys it brings and of the
    clients it prunes. The tables of keys and breakers have [shards] shards, each of which
    a [retain] or [clear] visits. *)
Definition rebuild_apply_locks (shards : nat) (keys pruned : list nat) : list Action :=
  (each_shard KeysMap keys ++ each_shard KeysMap (seq 0 shards) ++
   [Acquire LConfig Exclusive; Acquire LTargets Exclusive; Release LTargets; Release LConfig] ++
   each_shard BreakersMap (seq 0 shards) ++ each_shard ProvidersMap pruned)%list.

(** The two lists are read first; [owner] where [db_owns_routing] is asked; then the
    shards of the clients built. *)
Definition rebuild_locks (shards : nat) (owner : bool) (clients : list nat)
    (applied : option (list nat * list nat)) : list Action :=
  ([Await; Await] ++ (if owner then locked LTargets Shared else []) ++ each_shard ProvidersMap clients ++
   match applied with Some (keys, pruned) => rebuild_apply_locks shards keys pruned | None => [] end)%list.

Definition apply_config_locks (shards : nat) : list Action :=
  ([Acquire LStrategy Exclusive; Acquire LConfig Exclusive; Acquire LTargets Exclusive;
    Release LStrategy; Release LConfig; Release LTargets] ++ each_shard BreakersMap (seq 0 shards))%list.

(** [valid]: whether the configuration passes validation. *)
Definition reload_config_locks (shards : nat) (valid : bool) : list Action :=
  if valid then (apply_config_locks shards ++ locked LHistory Exclusive)%list else [].

Definition rollback_config_locks (shards : nat) (found : bool) : list Action :=
  (locked LHistory Shared ++ reload_config_locks shards found)%list.

(** The passthrough keeps the guard of the targets, and the one of the first target's
    client, until the provider has answered. *)
Definition proxy_locks (client : option (nat * Reached)) : list Action :=
  match client with
  | None => locked LTargets Shared
  | Some (s, NoClient) =>
      ([Acquire LTargets Shared] ++ locked (LShard ProvidersMap s) Shared ++ [Release LTargets])%list
  | Some (s, NoKey key) =>
      ([Acquire LTargets Shared; Acquire (LShard ProvidersMap s) Shared] ++ api_key_locks key ++
       [Release (LShard ProvidersMap s); Release LTargets])%list
  | Some (s, Sent key) =>
      ([Acquire LTargets Shared; Acquire (LShard ProvidersMap s) Shared] ++ api_key_locks key ++
       [Await; Release (LShard ProvidersMap s); Release LTargets])%list
  end.

Inductive Call :=
  | CallRoute (plugins : option (list bool)) (lookup : bool) (r : Routed) (after : list bool)
  | CallStream (plugins : option (list bool)) (r : Routed)
  | CallEmbed (r : option (option (list (nat * Reached))))
  | CallRebuild (shards : nat) (owner : bool) (clients : list nat) (applied : option (list nat * list nat))
  | CallReload (shards : nat) (valid : bool)
  | CallRollback (shards : nat) (found : bool)
  | CallGetConfig
  | CallConfigHistory
  | CallProxy (client : option (nat * Reached)).

Definition call_locks (c : Call) : list Action :=
  match c with
  | CallRoute plugins lookup r after => route_locks plugins lookup r after
  | CallStream plugins r => route_stream_locks plugins r
  | CallEmbed r => embed_locks r
  | CallRebuild shards owner clients applied => rebuild_locks shards owner clients applied
  | CallReload shards valid => reload_config_locks shards valid
  | CallRollback shards found => rollback_config_locks shards found
  | CallGetConfig => locked LConfig Shared
  | CallConfigHistory => locked LHistory Shared
  | CallProxy client => proxy_locks client
  end.

Definition is_passthrough (c : Call) : bool := match c with CallProxy _ => true | _ => false end.

(** ** The runtime *)

(** A call is [Ready] for a worker, [Running] on one, [Waiting] for an asynchronous lock,
    [Awaiting] an answer from outside, or has [Returned]. *)
Inductive Status := Ready | Running | Waiting | Awaiting | Returned.

#[export] Instance Status_eq_dec : EqDecision Status.
Proof. solve_decision. Defined.

Record Thread := { th_status : Status; th_held : list (Lock * Mode); th_rest : list Action }.

(** The calls, and who waits for which asynchronous lock, oldest first. *)
Record Sys := { sys_threads : list Thread; sys_queue : list ((Lock * Mode) * nat) }.

Definition spawn (script : list Action) : Thread :=
  {| th_status := Ready; th_held := []; th_rest := script |}.

Definition start_all (scripts : list (list Action)) : Sys :=
  {| sys_threads := spawn <$> scripts; sys_queue := [] |}.

(** Those who hold a lock, and those who asked for it. *)
Definition held_modes (l : Lock) (held : list (Lock * Mode)) : list Mode :=
  snd <$> List.filter (fun p => bool_decide (p.1 = l)) held.

Definition holders (l : Lock) (ts : list Thread) : list Mode :=
  concat ((fun th => held_modes l (th_held th)) <$> ts).

Definition asked (l : Lock) (q : list ((Lock * Mode) * nat)) : list Mode := held_modes l q.*1.

Definition on_worker (ts : list Thread) : nat :=
  length (List.filter (fun th => bool_decide (th_status th = Running)) ts).

(** What happens: a worker takes a call, a call on a worker goes on, a waiting call is
    granted its lock, the outside answers. *)
Inductive Event := Poll (t : nat) | Act (t : nat) | Grant (i : nat) | Answer (t : nat).

Definition set_thread (t : nat) (th : Thread) (st : Sys) : Sys :=
  {| sys_threads := <[t := th]> (sys_threads st); sys_queue := sys_queue st |}.

Section Runtime.
(** [allows l hs ws m]: whether [l], held in the modes [hs], is given in mode [m] to the
    one who asked after [ws]. *)
Context (allows : Lock -> list Mode -> list Mode -> Mode -> bool) (workers : nat).

Definition act (t : nat) (th : Thread) (st : Sys) : option Sys :=
  match th_rest th with
  | [] => Some (set_thread t {| th_status := Returned; th_held := th_held th; th_rest := [] |} st)
  | Release l :: k =>
      Some (set_thread t {| th_status := Running; th_held := drop_lock l (th_held th); th_rest := k |} st)
  | Await :: k =>
      Some (set_thread t {| th_status := Awaiting; th_held := th_held th; th_rest := th_rest th |} st)
  | Acquire l m :: k =>
      if blocking l then
        if allows l (holders l (sys_threads st)) [] m then
          Some (set_thread t {| th_status := Running; th_held := (l, m) :: th_held th; th_rest := k |} st)
        else None
      else
        Some {| sys_threads := <[t := {| th_status := Waiting; th_held := th_held th; th_rest := th_rest th |}]>
                  (sys_threads st);
                sys_queue := (sys_queue st ++ [((l, m), t)])%list |}
  end.

Definition grant (i : nat) (st : Sys) : option Sys :=
  match sys_queue st !! i with
  | Some ((l, m), t) =>
      match sys_threads st !! t with
      | Some th =>
          if allows l (holders l (sys_threads st)) (asked l (take i (sys_queue st))) m then
            Some {| sys_threads := <[t := {| th_status := Ready; th_held := (l, m) :: th_held th;
                                             th_rest := tail (th_rest th) |}]> (sys_threads st);
                    sys_queue := (take i (sys_queue st) ++ drop (S i) (sys_queue st))%list |}
          else None
      | None => None
      end
  | None => None
  end.

Definition exec (e : Event) (st : Sys) : option Sys :=
  match e with
  | Poll t =>
      match sys_threads st !! t with
      | Some th =>
          if bool_decide (th_status th = Ready) && (on_worker (sys_threads st) <? workers)%nat then
            Some (set_thread t {| th_status := Running; th_held := th_held th; th_rest := th_rest th |} st)
          else None
      | None => None
      end
  | Act t =>
      match sys_threads st !! t with
      | Some th => if bool_decide (th_status th = Running) then act t th st else None
      | None => None
      end
  | Grant i => grant i st
  | Answer t =>
      match sys_threads st !! t with
      | Some th =>
          if bool_decide (th_status th = Awaiting) then
            Some (set_thread t {| th_status := Ready; th_held := th_held th; th_rest := tail (th_rest th) |} st)
          else None
      | None => None
      end
  end.

Definition step (st st' : Sys) : Prop := exists e, exec e st = Some st'.

Fixpoint exec_all (es : list Event) (st : Sys) : option Sys :=
  match es with
  | [] => Some st
  | e :: es => match exec e st with Some st => exec_all es st | None => None end
  end.

(** Nothing can happen any more. *)
Definition halted (st : Sys) : Prop := forall e, exec e st = None.
End Runtime.

(** The laws of a readers-writer lock: a writer is alone, a reader meets no writer, and a
    free lock goes to whoever asked first. *)
Class LockPolicy (allows : Lock -> list Mode -> list Mode -> Mode -> bool) := {
  admit_exclusive l hs ws : allows l hs ws Exclusive = true -> hs = [];
  admit_shared l hs ws : allows l hs ws Shared = true -> Exclusive ∉ hs;
  admit_free l m : allows l [] [] m = true;
}.

(** ** Transitions *)

Section Proofs.
Context {allows : Lock -> list Mode -> list Mode -> Mode -> bool} `{!LockPolicy allows} {workers : nat}.

Local Abbreviation exec := (exec allows workers).
Local Abbreviation step := (step allows workers).
Local Abbreviation halted := (halted allows workers).

(** The transitions one by one: the call they move, and how. *)
Inductive moves (ts : list Thread) (q : list ((Lock * Mode) * nat)) :
    Event -> nat -> Thread -> Thread -> list ((Lock * Mode) * nat) -> Prop :=
  | moves_poll t held rest : (on_worker ts < workers)%nat ->
      moves ts q (Poll t) t {| th_status := Ready; th_held := held; th_rest := rest |}
        {| th_status := Running; th_held := held; th_rest := rest |} q
  | moves_return t held :
      moves ts q (Act t) t {| th_status := Running; th_held := held; th_rest := [] |}
        {| th_status := Returned; th_held := held; th_rest := [] |} q
  | moves_release t l held k :
      moves ts q (Act t) t {| th_status := Running; th_held := held; th_rest := Release l :: k |}
        {| th_status := Running; th_held := drop_lock l held; th_rest := k |} q
  | moves_await t held k :
      moves ts q (Act t) t {| th_status := Running; th_held := held; th_rest := Await :: k |}
        {| th_status := Awaiting; th_held := held; th_rest := Await :: k |} q
  | moves_seize t l m held k : blocking l = true -> allows l (holders l ts) [] m = true ->
      moves ts q (Act t) t {| th_status := Running; th_held := held; th_rest := Acquire l m :: k |}
        {| th_status := Running; th_held := (l, m) :: held; th_rest := k |} q
  | moves_ask t l m held k : blocking l = false ->
      moves ts q (Act t) t {| th_status := Running; th_held := held; th_rest := Acquire l m :: k |}
        {| th_status := Waiting; th_held := held; th_rest := Acquire l m :: k |}
        (q ++ [((l, m), t)])%list
  | moves_grant pre post t l m th : q = (pre ++ ((l, m), t) :: post)%list ->
      allows l (holders l ts) (asked l pre) m = true ->
      moves ts q (Grant (length pre)) t th
        {| th_status := Ready; th_held := (l, m) :: th_held th; th_rest := tail (th_rest th) |}
        (pre ++ post)%list
  | moves_answer t held rest :
      moves ts q (Answer t) t {| th_status := Awaiting; th_held := held; th_rest := rest |}
        {| th_status := Ready; th_held := held; th_rest := tail rest |} q.

Lemma exec_moves e st st' : exec e st = Some st' ->
  exists t th th', sys_threads st !! t = Some th /\
    moves (sys_threads st) (sys_queue st) e t th th' (sys_queue st') /\
    sys_threads st' = <[t := th']> (sys_threads st).
Proof.
  destruct st as [ts q]; cbn [sys_threads sys_queue]. destruct e as [t|t|i|t]; cbn [Locks.exec sys_threads].
  - destruct (ts !! t) as [[s held rest]|] eqn:Et; [|done]. cbn [th_status].
    case_bool_decide as Hs; [|done]. destruct (Nat.ltb_spec (on_worker ts) workers); [|done].
    intros [= <-]. cbn in Hs. subst s. do 3 eexists. split_and!; [done| |done]. by constructor.
  - destruct (ts !! t) as [[s held rest]|] eqn:Et; [|done]. cbn [th_status].
    case_bool_decide as Hs; [|done]. cbn in Hs. subst s.
    destruct rest as [|[l m|l|] k]; cbn [act th_rest th_held].
    + intros [= <-]. do 3 eexists. split_and!; [done|constructor|done].
    + destruct (blocking l) eqn:Eb; [destruct (allows _ _ _ _) eqn:Ea; [|done]|];
        intros [= <-]; do 3 eexists; (split_and!; [done| |done]); by constructor.
    + intros [= <-]. do 3 eexists. split_and!; [done|constructor|done].
    + intros [= <-]. do 3 eexists. split_and!; [done|constructor|done].
  - unfold grant. cbn [sys_queue sys_threads]. destruct (q !! i) as [[[l m] t]|] eqn:Ei; [|done].
    destruct (ts !! t) as [th|] eqn:Et; [|done]. destruct (allows _ _ _ _) eqn:Ea; [|done].
    intros [= <-]. exists t, th. eexists. split_and!; [done| |done]. cbn [sys_queue].
    assert (i = length (take i q)) as Hi by (rewrite length_take_le; [done|]; apply lookup_lt_Some in Ei; lia).
    rewrite Hi at 1. econstructor; [|done]. by rewrite take_drop_middle.
  - destruct (ts !! t) as [[s held rest]|] eqn:Et; [|done]. cbn [th_status].
    case_bool_decide as Hs; [|done]. cbn in Hs. subst s. intros [= <-].
    do 3 eexists. split_and!; [done|constructor|done].
Qed.

(** *** Who holds what *)

Lemma held_modes_elem l held m : m ∈ held_modes l held <-> (l, m) ∈ held.
Proof.
  unfold held_modes. rewrite list_elem_of_fmap. split.
  - intros ([l' m'] & -> & [Hin Heq]%list_elem_of_In%filter_In). apply bool_decide_eq_true in Heq.
    cbn in Heq. subst l'. by apply list_elem_of_In.
  - intros Hin. exists (l, m). split; [done|]. apply list_elem_of_In, filter_In.
    split; [by apply list_elem_of_In|by apply bool_decide_eq_true].
Qed.

Lemma holders_elem l ts m :
  m ∈ holders l ts <-> exists t th, ts !! t = Some th /\ (l, m) ∈ th_held th.
Proof.
  unfold holders. rewrite list_elem_of_In, in_concat. setoid_rewrite <- list_elem_of_In. split.
  - intros (ms & (th & -> & Hth)%list_elem_of_fmap & Hm).
    apply list_elem_of_lookup in Hth as [t Ht]. exists t, th. by rewrite <- held_modes_elem.
  - intros (t & th & Ht & Hm). exists (held_modes l (th_held th)). split; [|by apply held_modes_elem].
    apply list_elem_of_fmap. exists th. split; [done|]. by eapply list_elem_of_lookup_2.
Qed.

Lemma holders_nil l ts :
  holders l ts = [] <-> forall t th m, ts !! t = Some th -> (l, m) ∉ th_held th.
Proof.
  split.
  - intros Hnil t th m Ht Hin. assert (m ∈ holders l ts) as Hm by (apply holders_elem; eauto).
    rewrite Hnil in Hm. by apply not_elem_of_nil in Hm.
  - intros Hno. destruct (holders l ts) as [|m ms] eqn:E; [done|].
    assert (m ∈ holders l ts) as (t & th & Ht & Hin)%holders_elem by (rewrite E; by left).
    by destruct (Hno t th m Ht).
Qed.

Lemma drop_lock_elem l held p : p ∈ drop_lock l held -> p ∈ held.
Proof. unfold drop_lock. by intros [? _]%list_elem_of_In%filter_In; apply list_elem_of_In. Qed.

(** What a call holds after a transition it held before, or was just admitted to. *)
Lemma moves_held ts q e t th th' q' l m : moves ts q e t th th' q' ->
  (l, m) ∈ th_held th' -> (l, m) ∈ th_held th \/ exists ws, allows l (holders l ts) ws m = true.
Proof.
  intros Hm. destruct Hm; cbn [th_held]; intros Hin; eauto using drop_lock_elem;
    (apply elem_of_cons in Hin as [[= -> ->]|Hin]; eauto).
Qed.

(** *** Well-formed states *)

Record sys_ok (st : Sys) : Prop := {
  so_excl : forall l t1 th1 t2 th2 m, sys_threads st !! t1 = Some th1 -> sys_threads st !! t2 = Some th2 ->
    (l, Exclusive) ∈ th_held th1 -> (l, m) ∈ th_held th2 -> t1 = t2 /\ m = Exclusive;
  so_queue : forall l m t, ((l, m), t) ∈ sys_queue st -> exists held k, blocking l = false /\
    sys_threads st !! t = Some {| th_status := Waiting; th_held := held; th_rest := Acquire l m :: k |};
  so_nodup : NoDup (sys_queue st).*2;
  so_waits : forall t th, sys_threads st !! t = Some th -> th_status th = Waiting -> t ∈ (sys_queue st).*2;
  so_awaits : forall t th, sys_threads st !! t = Some th -> th_status th = Awaiting ->
    exists k, th_rest th = Await :: k;
  so_returned : forall t th, sys_threads st !! t = Some th -> th_status th = Returned -> th_rest th = [];
}.

Lemma start_all_ok scripts : sys_ok (start_all scripts).
Proof.
  assert (forall t th, (spawn <$> scripts) !! t = Some th -> th_status th = Ready /\ th_held th = []) as Hs.
  { intros t th. rewrite list_lookup_fmap. destruct (scripts !! t); [|done]. by intros [= <-]. }
  split; cbn [start_all sys_threads sys_queue].
  - intros l t1 th1 t2 th2 m H1 _ Hin. destruct (Hs _ _ H1) as [_ Hn]. rewrite Hn in Hin.
    by apply not_elem_of_nil in Hin.
  - intros l m t Hin. by apply not_elem_of_nil in Hin.
  - constructor.
  - intros t th H Hw. destruct (Hs _ _ H) as [Hr _]. congruence.
  - intros t th H Hw. destruct (Hs _ _ H) as [Hr _]. congruence.
  - intros t th H Hw. destruct (Hs _ _ H) as [Hr _]. congruence.
Qed.

(** Nobody held the lock a call is admitted to exclusively, and no writer the one it is
    admitted to as a reader. *)
Lemma admitted_alone l ts ws m t th m' : allows l (holders l ts) ws m = true ->
  ts !! t = Some th -> (l, m') ∈ th_held th -> m = Shared /\ m' = Shared.
Proof.
  intros Ha Ht Hin. destruct m.
  - apply admit_shared in Ha. destruct m'; [done|]. exfalso. apply Ha, holders_elem. eauto.
  - apply admit_exclusive in Ha. by destruct (proj1 (holders_nil l ts) Ha t th m' Ht).
Qed.

Lemma moves_excl ts q e t th th' q' : moves ts q e t th th' q' -> ts !! t = Some th ->
  sys_ok {| sys_threads := ts; sys_queue := q |} ->
  forall l t1 th1 t2 th2 m, <[t := th']> ts !! t1 = Some th1 -> <[t := th']> ts !! t2 = Some th2 ->
    (l, Exclusive) ∈ th_held th1 -> (l, m) ∈ th_held th2 -> t1 = t2 /\ m = Exclusive.
Proof.
  intros Hm Ht Hok l t1 th1 t2 th2 m H1 H2 He Hh.
  pose proof (fun m => moves_held _ _ _ _ _ _ _ l m Hm) as Hheld.
  assert (forall u thu mu, <[t := th']> ts !! u = Some thu -> (l, mu) ∈ th_held thu ->
    (exists thu', ts !! u = Some thu' /\ (l, mu) ∈ th_held thu') \/
    (u = t /\ exists ws, allows l (holders l ts) ws mu = true)) as Hcase.
  { intros u thu mu Hu Hin. destruct (decide (u = t)) as [->|Hne].
    - rewrite list_lookup_insert_eq in Hu by (by eapply lookup_lt_Some). injection Hu as <-.
      destruct (Hheld _ Hin); eauto.
    - rewrite list_lookup_insert_ne in Hu by done. eauto. }
  destruct (Hcase t1 th1 Exclusive H1 He) as [(o1 & Ho1 & Hin1)|(-> & ws1 & Ha1)];
    destruct (Hcase t2 th2 m H2 Hh) as [(o2 & Ho2 & Hin2)|(-> & ws2 & Ha2)].
  - by eapply (so_excl _ Hok l t1 o1 t2 o2).
  - by destruct (admitted_alone _ _ _ _ _ _ _ Ha2 Ho1 Hin1).
  - by destruct (admitted_alone _ _ _ _ _ _ _ Ha1 Ho2 Hin2).
  - split; [done|]. destruct m; [|done].
    apply admit_exclusive in Ha1.
    rewrite list_lookup_insert_eq in H1, H2 by (by eapply lookup_lt_Some).
    injection H1 as <-. injection H2 as <-.
    assert (forall m', (l, m') ∉ th_held th) as Hno by (intros m'; by apply (proj1 (holders_nil l ts) Ha1 t th m' Ht)).
    clear -Hm He Hh Hno.
    destruct Hm; cbn [th_held] in *;
      try (exfalso; eapply Hno; by first [exact He|eapply drop_lock_elem, He]);
      apply elem_of_cons in He as [[= -> <-]|He]; try (by destruct (Hno _ He));
      apply elem_of_cons in Hh as [[=]|Hh]; by destruct (Hno _ Hh).
Qed.

Lemma moves_ok ts q e t th th' q' : moves ts q e t th th' q' -> ts !! t = Some th ->
  sys_ok {| sys_threads := ts; sys_queue := q |} ->
  sys_ok {| sys_threads := <[t := th']> ts; sys_queue := q' |}.
Proof.
  intros Hm Ht Hok. pose proof (lookup_lt_Some _ _ _ Ht) as Hlt.
  pose proof (moves_excl _ _ _ _ _ _ _ Hm Ht Hok) as Hexcl.
  destruct Hok as [_ Hq Hnd Hw Ha Hr]. cbn [sys_threads sys_queue] in *.
  assert (th_status th <> Waiting -> t ∉ q.*2) as Hout.
  { intros Hs ([[l m] u] & -> & Hin)%list_elem_of_fmap. destruct (Hq _ _ _ Hin) as (held & k & _ & Hu).
    cbn in *. rewrite Ht in Hu. by injection Hu as ->. }
  split; cbn [sys_threads sys_queue]; [done|..].
  - (* queue *)
    intros l m u Hin. destruct (decide (u = t)) as [->|Hne].
    + rewrite list_lookup_insert_eq by done. destruct Hm; cbn [th_status] in *;
        try (exfalso; apply Hout; [done|]; apply list_elem_of_fmap; by exists ((l, m), t)).
      * apply elem_of_app in Hin as [Hin|[= -> ->]%list_elem_of_singleton]; [|by do 2 eexists].
        exfalso. apply Hout; [done|]. apply list_elem_of_fmap. by exists ((l, m), t).
      * exfalso. subst q. rewrite fmap_app, fmap_cons in Hnd. cbn in Hnd.
        apply NoDup_app in Hnd as (_ & Hd & [Hn _]%NoDup_cons).
        apply elem_of_app in Hin as [Hin|Hin].
        -- apply (Hd t); [|by left]. apply list_elem_of_fmap. by exists ((l, m), t).
        -- apply Hn, list_elem_of_fmap. by exists ((l, m), t).
    + rewrite list_lookup_insert_ne by done. apply Hq. destruct Hm; try done.
      * by apply elem_of_app in Hin as [Hin|[= -> -> ->]%list_elem_of_singleton].
      * subst q. apply elem_of_app in Hin as [Hin|Hin]; apply elem_of_app; [by left|by right; right].
  - (* one entry a call *)
    destruct Hm; try done.
    + rewrite fmap_app. apply NoDup_app. split_and!; [done| |apply NoDup_singleton].
      intros u Hu ->%list_elem_of_singleton. by apply Hout.
    + subst q. rewrite fmap_app, fmap_cons in Hnd. rewrite fmap_app.
      apply NoDup_app in Hnd as (H1 & H2 & [_ H3]%NoDup_cons).
      apply NoDup_app. split_and!; [done| |done]. intros u Hu Hu'. apply (H2 u Hu). by right.
  - (* who waits is queued *)
    intros u thu Hu Hs. destruct (decide (u = t)) as [->|Hne].
    + rewrite list_lookup_insert_eq in Hu by done. injection Hu as <-.
      destruct Hm; cbn [th_status] in *; try done.
      rewrite fmap_app. apply elem_of_app. right. by left.
    + rewrite list_lookup_insert_ne in Hu by done. specialize (Hw u thu Hu Hs).
      destruct Hm; try done.
      * rewrite fmap_app. apply elem_of_app. by left.
      * subst q. rewrite fmap_app, fmap_cons in Hw. rewrite fmap_app. apply elem_of_app.
        apply elem_of_app in Hw as [Hw|[->|Hw]%elem_of_cons]; [by left|done|by right].
  - intros u thu Hu Hs. destruct (decide (u = t)) as [->|Hne];
      [|rewrite list_lookup_insert_ne in Hu by done; by eapply Ha].
    rewrite list_lookup_insert_eq in Hu by done. injection Hu as <-.
    destruct Hm; cbn [th_status th_rest] in *; try done. by eexists.
  - intros u thu Hu Hs. destruct (decide (u = t)) as [->|Hne];
      [|rewrite list_lookup_insert_ne in Hu by done; by eapply Hr].
    rewrite list_lookup_insert_eq in Hu by done. injection Hu as <-.
    by destruct Hm; cbn [th_status th_rest] in *.
Qed.

Lemma sys_step_ok st st' : step st st' -> sys_ok st -> sys_ok st'.
Proof.
  intros [e (t & th & th' & Ht & Hm & Hts)%exec_moves] Hok.
  destruct st as [ts q], st' as [ts' q']. cbn in *. subst ts'. by eapply moves_ok.
Qed.

Lemma run_ok st st' : rtc step st st' -> sys_ok st -> sys_ok st'.
Proof. induction 1; eauto using sys_step_ok. Qed.

(** *** Discipline *)

Definition holds_shard (th : Thread) : bool := existsb (fun p => blocking p.1) (th_held th).

(** Every call goes on in discipline, and leaves its worker with no shard in hand. *)
Definition sys_disciplined (st : Sys) : Prop :=
  forall t th, sys_threads st !! t = Some th ->
    disciplined (th_held th) (th_rest th) = true /\
    (th_status th <> Running -> holds_shard th = false).

Lemma start_all_disciplined scripts :
  Forall (fun s => disciplined [] s = true) scripts -> sys_disciplined (start_all scripts).
Proof.
  intros Hs t th. cbn. rewrite list_lookup_fmap. destruct (scripts !! t) as [s|] eqn:E; [|done].
  intros [= <-]. split; [exact (Forall_lookup_1 _ _ _ _ Hs E)|done].
Qed.

Lemma rank_max l : (rank l <= 4)%nat.
Proof. destruct l; cbn; lia. Qed.

(** What is asked for asynchronously is asked for with no shard in hand. *)
Lemma asks_without_shard held l m k : blocking l = false ->
  disciplined held (Acquire l m :: k) = true -> existsb (fun p => blocking p.1) held = false.
Proof.
  intros Hb [Hr _]%andb_prop. apply not_true_iff_false. intros (p & Hp & Hbp)%existsb_exists.
  rewrite forallb_forall in Hr. apply Hr, Nat.ltb_lt in Hp.
  assert (rank p.1 = 4)%nat as Hp4 by (by destruct p as [[] ?]).
  destruct l; [cbn in Hp; lia..|done].
Qed.

Lemma step_disciplined st st' : step st st' -> sys_ok st -> sys_disciplined st -> sys_disciplined st'.
Proof.
  intros [e (t & th & th' & Ht & Hm & Hts)%exec_moves] Hok Hd u thu Hu.
  destruct st as [ts q], st' as [ts' q']. cbn [sys_threads sys_queue] in *. subst ts'.
  destruct (decide (u = t)) as [->|Hne]; [|rewrite list_lookup_insert_ne in Hu by done; by eapply Hd].
  rewrite list_lookup_insert_eq in Hu by (by eapply lookup_lt_Some). injection Hu as <-.
  destruct (Hd t th Ht) as [Hdt Hst]. unfold holds_shard in *.
  destruct Hm as [| |t l held k|t held k|t l m held k Hb Ha|t l m held k Hb|pre post t l m th Hq Ha|t held rest];
    cbn [th_held th_rest th_status] in *.
  - split; [done|by intros []].
  - apply bool_decide_eq_true in Hdt as ->. by split.
  - by apply andb_prop in Hdt as [_ ?].
  - split; [done|]. intros _. apply andb_prop in Hdt as [H _]. by apply negb_true_iff in H.
  - by apply andb_prop in Hdt as [_ ?].
  - split; [done|]. intros _. by eapply asks_without_shard.
  - destruct (so_queue _ Hok l m t) as (held & k & Hb & Hth).
    { cbn. rewrite Hq. apply elem_of_app. right. by left. }
    cbn in Hth. rewrite Ht in Hth. injection Hth as ->. cbn [th_held th_rest th_status tail] in *.
    split; [by apply andb_prop in Hdt as [_ ?]|]. intros _. cbn [existsb fst].
    rewrite Hb. by eapply asks_without_shard.
  - destruct (so_awaits _ Hok t _ Ht eq_refl) as [k Hk]. cbn in Hk. subst rest. cbn [tail].
    split; [by apply andb_prop in Hdt as [_ ?]|]. intros _. by apply Hst.
Qed.

Lemma run_disciplined st st' : rtc step st st' -> sys_ok st -> sys_disciplined st -> sys_disciplined st'.
Proof. induction 1; eauto using sys_step_ok, step_disciplined. Qed.

(** *** Progress *)

Lemma halted_awaiting st t th : halted st -> sys_threads st !! t = Some th -> th_status th <> Awaiting.
Proof. intros Hh Ht Hs. specialize (Hh (Answer t)). cbn in Hh. by rewrite Ht, bool_decide_true in Hh. Qed.

(** A call that holds a shard is on a worker, about to release. *)
Lemma shard_holder_releases st t th : sys_disciplined st -> sys_threads st !! t = Some th ->
  holds_shard th = true -> th_status th = Running /\ exists l k, th_rest th = Release l :: k.
Proof.
  intros Hd Ht Hs. destruct (Hd t th Ht) as [Hdt Hst]. split.
  - destruct (decide (th_status th = Running)) as [|Hn]; [done|]. by rewrite Hst in Hs.
  - unfold holds_shard in Hs. destruct (th_rest th) as [|[l m|l|] k]; cbn [disciplined] in Hdt.
    + apply bool_decide_eq_true in Hdt. by rewrite Hdt in Hs.
    + exfalso. apply andb_prop in Hdt as [Hr _]. apply existsb_exists in Hs as ([l' ?] & Hin & Hb).
      rewrite forallb_forall in Hr. apply Hr, Nat.ltb_lt in Hin. cbn [fst] in Hin, Hb.
      assert (rank l' = 4)%nat as H4 by (by destruct l'). pose proof (rank_max l). lia.
    + by do 2 eexists.
    + by rewrite Hs in Hdt.
Qed.

Lemma halted_running st t th : halted st -> sys_disciplined st -> sys_threads st !! t = Some th ->
  th_status th <> Running.
Proof.
  intros Hh Hd.
  assert (forall u thu, sys_threads st !! u = Some thu -> th_status thu = Running ->
    exists l m k, th_rest thu = Acquire l m :: k /\ blocking l = true /\
      allows l (holders l (sys_threads st)) [] m = false) as Hstuck.
  { intros u thu Hu Hs. pose proof (Hh (Act u)) as Hact. cbn in Hact.
    rewrite Hu, bool_decide_true in Hact by done. unfold act in Hact.
    destruct (th_rest thu) as [|[l m|l|] k]; try done. destruct (blocking l) eqn:Eb; [|done].
    destruct (allows _ _ _ _) eqn:Ea; [done|]. by do 3 eexists. }
  intros Ht Hs. destruct (Hstuck t th Ht Hs) as (l & m & k & _ & Hb & Ha).
  destruct (holders l (sys_threads st)) as [|m' ms] eqn:Eh; [by rewrite admit_free in Ha|].
  assert (m' ∈ holders l (sys_threads st)) as (u & thu & Hu & Hin)%holders_elem by (rewrite Eh; by left).
  assert (holds_shard thu = true) as Hsh.
  { apply existsb_exists. exists (l, m'). split; [by apply list_elem_of_In|done]. }
  destruct (shard_holder_releases _ _ _ Hd Hu Hsh) as [Hr (l' & k' & Hrel)].
  destruct (Hstuck u thu Hu Hr) as (? & ? & ? & Hacq & _). congruence.
Qed.

Lemma halted_ready st t th : (0 < workers)%nat -> halted st -> sys_disciplined st ->
  sys_threads st !! t = Some th -> th_status th <> Ready.
Proof.
  intros Hw Hh Hd Ht Hs. pose proof (Hh (Poll t)) as Hp. cbn [Locks.exec] in Hp.
  rewrite Ht, bool_decide_true in Hp by done.
  assert (on_worker (sys_threads st) = 0)%nat as H0.
  { unfold on_worker. apply length_zero_iff_nil. destruct (List.filter _ _) as [|x xs] eqn:E; [done|].
    assert (In x (x :: xs)) as Hin by apply in_eq. rewrite <- E in Hin.
    apply filter_In in Hin as [Hin Hx%bool_decide_eq_true].
    apply list_elem_of_In, list_elem_of_lookup in Hin as [u Hu].
    by destruct (halted_running _ _ _ Hh Hd Hu). }
  rewrite H0, (proj2 (Nat.ltb_lt _ _) Hw) in Hp. done.
Qed.

(** The first of those who ask for a lock. *)
Lemma first_asker l q m t : ((l, m), t) ∈ q ->
  exists pre m' t' post, q = (pre ++ ((l, m'), t') :: post)%list /\ asked l pre = [].
Proof.
  induction q as [|[[l' m'] t'] q IH]; intros Hin; [by apply not_elem_of_nil in Hin|].
  destruct (decide (l' = l)) as [->|Hne].
  - by exists [], m', t', q.
  - apply elem_of_cons in Hin as [[= -> -> ->]|Hin]; [done|].
    destruct (IH Hin) as (pre & m2 & t2 & post & -> & Ha). exists (((l', m'), t') :: pre), m2, t2, post.
    split; [done|]. unfold asked, held_modes in *. cbn. by rewrite bool_decide_false.
Qed.

Lemma halted_waiting st t th : (0 < workers)%nat -> halted st -> sys_ok st -> sys_disciplined st ->
  sys_threads st !! t = Some th -> th_status th <> Waiting.
Proof.
  intros Hw Hh Hok Hd Ht Hs.
  apply (so_waits _ Hok t) in Hs as ([[l m] t0] & -> & Hin)%list_elem_of_fmap; [|done]. clear th Ht.
  revert m t0 Hin. remember (4 - rank l)%nat as n eqn:Hn. revert l Hn.
  induction n as [n IH] using lt_wf_ind; intros l -> m t Hin.
  destruct (first_asker _ _ _ _ Hin) as (pre & m' & t' & post & Hq & Hahead).
  destruct (so_queue _ Hok l m' t') as (held & k & Hb & Ht').
  { rewrite Hq. apply elem_of_app. right. by left. }
  pose proof (Hh (Grant (length pre))) as Hg. cbn in Hg. unfold grant in Hg.
  rewrite Hq, list_lookup_middle in Hg by done. rewrite Ht', take_app_length, Hahead in Hg.
  destruct (holders l (sys_threads st)) as [|mh ms] eqn:Eh; [by rewrite admit_free in Hg|].
  assert (mh ∈ holders l (sys_threads st)) as (u & thu & Hu & Hhold)%holders_elem by (rewrite Eh; by left).
  destruct (Hd u thu Hu) as [Hdu _].
  destruct (th_status thu) eqn:Esu.
  - by destruct (halted_ready _ _ _ Hw Hh Hd Hu).
  - by destruct (halted_running _ _ _ Hh Hd Hu).
  - pose proof (so_waits _ Hok _ _ Hu Esu) as ([[l2 m2] u'] & Heq & Hin2)%list_elem_of_fmap.
    cbn in Heq. subst u'. destruct (so_queue _ Hok _ _ _ Hin2) as (held2 & k2 & _ & Hu2).
    rewrite Hu in Hu2. injection Hu2 as ->. cbn [th_held th_rest] in *.
    apply andb_prop in Hdu as [Hr _]. rewrite forallb_forall in Hr.
    apply list_elem_of_In, Hr, Nat.ltb_lt in Hhold. cbn in Hhold.
    eapply (IH (4 - rank l2)%nat); [|done|exact Hin2].
    pose proof (rank_max l2). lia.
  - by destruct (halted_awaiting _ _ _ Hh Hu).
  - rewrite (so_returned _ Hok _ _ Hu Esu) in Hdu. apply bool_decide_eq_true in Hdu.
    rewrite Hdu in Hhold. by apply not_elem_of_nil in Hhold.
Qed.

Lemma halted_returned st : (0 < workers)%nat -> halted st -> sys_ok st -> sys_disciplined st ->
  Forall (fun th => th_status th = Returned) (sys_threads st).
Proof.
  intros Hw Hh Hok Hd. apply Forall_lookup. intros t th Ht. destruct (th_status th) eqn:Es; [..|done].
  - by destruct (halted_ready _ _ _ Hw Hh Hd Ht).
  - by destruct (halted_running _ _ _ Hh Hd Ht).
  - by destruct (halted_waiting _ _ _ Hw Hh Hok Hd Ht).
  - by destruct (halted_awaiting _ _ _ Hh Ht).
Qed.

(** *** Termination *)

Definition weight (th : Thread) : nat :=
  4 * length (th_rest th) +
  match th_status th with Ready => 3 | Running => 2 | Waiting | Awaiting => 1 | Returned => 0 end.

Definition measure (st : Sys) : nat := sum_list_with weight (sys_threads st).

Lemma measure_insert ts t th th' : ts !! t = Some th -> (weight th' < weight th)%nat ->
  (sum_list_with weight (<[t := th']> ts) < sum_list_with weight ts)%nat.
Proof.
  revert t. induction ts as [|x ts IH]; intros [|t];
    cbn [lookup list_lookup insert list_insert sum_list_with]; [done..|intros [= ->]; lia|].
  intros Ht Hw. by apply Nat.add_lt_mono_l, IH.
Qed.

Lemma step_measure st st' : step st st' -> sys_ok st -> (measure st' < measure st)%nat.
Proof.
  intros [e (t & th & th' & Ht & Hm & Hts)%exec_moves] Hok.
  unfold measure. rewrite Hts. apply (measure_insert _ _ th); [done|].
  destruct Hm as [| | | | | |pre post t l m th Hq Ha|t held rest]; unfold weight; cbn [th_rest th_status length]; try lia.
  - destruct (so_queue _ Hok l m t) as (held & k & _ & Hth).
    { rewrite Hq. apply elem_of_app. right. by left. }
    rewrite Ht in Hth. injection Hth as ->. cbn. lia.
  - destruct (so_awaits _ Hok t _ Ht eq_refl) as [k Hk]. cbn in Hk. subst rest. cbn. lia.
Qed.

Lemma nsteps_measure n st st' : nsteps step n st st' -> sys_ok st ->
  (n + measure st' <= measure st)%nat /\ sys_ok st' /\ (sys_disciplined st -> sys_disciplined st').
Proof.
  induction 1 as [st|n st1 st2 st3 Hs Hn IH]; intros Hok; [by split_and!; [lia|..]|].
  pose proof (step_measure _ _ Hs Hok). pose proof (sys_step_ok _ _ Hs Hok) as Hok2.
  destruct (IH Hok2) as (? & ? & Hd). split_and!; [lia|done|]. eauto using step_disciplined.
Qed.

(** *** The calls *)

Lemma drop_lock_fst l held : (drop_lock l held).*1 = List.filter (fun x => negb (bool_decide (x = l))) held.*1.
Proof. induction held as [|p held IH]; [done|]. cbn. destruct (negb _); cbn; by f_equal. Qed.

Lemma disciplined_app h s1 s2 : disciplined h s1 = true -> disciplined [] s2 = true ->
  disciplined h (s1 ++ s2) = true.
Proof.
  revert h. induction s1 as [|[l m|l|] k IH]; intros h; cbn [disciplined app].
  - by intros ->%bool_decide_eq_true.
  - intros [-> ?]%andb_prop ?. by apply IH.
  - intros [-> ?]%andb_prop ?. by apply IH.
  - intros [-> ?]%andb_prop ?. by apply IH.
Qed.

Lemma disciplined_concat {A} (f : A -> list Action) xs : (forall x, disciplined [] (f x) = true) ->
  disciplined [] (concat (f <$> xs)) = true.
Proof. intros Hf. induction xs as [|x xs IH]; [done|]. cbn. by apply disciplined_app. Qed.

Lemma locked_disciplined l m : disciplined [] (locked l m) = true.
Proof.
  cbn. unfold drop_lock. cbn. rewrite (bool_decide_true (l = l)) by done.
  by rewrite bool_decide_true by by left.
Qed.

Lemma each_shard_disciplined m shards : disciplined [] (each_shard m shards) = true.
Proof. apply disciplined_concat. intros s. apply locked_disciplined. Qed.
End Proofs.

Create HintDb locks.
#[export] Hint Resolve disciplined_app locked_disciplined each_shard_disciplined : locks.

(** Splits a call into the pieces it is made of. *)
Ltac disc :=
  repeat first
    [ apply disciplined_app | apply locked_disciplined | apply each_shard_disciplined
    | apply disciplined_concat; intros ? | reflexivity ].

Lemma plugin_disciplined reads : disciplined [] (plugin_locks reads) = true.
Proof. by destruct reads. Qed.

Lemma api_key_disciplined key : disciplined [] (api_key_locks key) = true.
Proof. destruct key; cbn [api_key_locks]; disc. Qed.

Lemma client_disciplined a : disciplined [] (client_locks a) = true.
Proof.
  destruct a as [s []]; unfold client_locks; cbn [fst snd]; disc; apply api_key_disciplined.
Qed.

Lemma attempt_disciplined a : disciplined [] (attempt_locks a) = true.
Proof.
  destruct a as [s c]. unfold attempt_locks. cbn [fst snd]. apply disciplined_app; [apply locked_disciplined|].
  apply disciplined_app; [done|]. destruct c as [c|]; [|done].
  apply disciplined_app; [apply client_disciplined|done].
Qed.

Lemma routed_disciplined lat r : disciplined [] (routed_locks lat r) = true.
Proof.
  destruct r as [| | |attempts]; [done..|]. cbn [routed_locks]. apply disciplined_app; [done|].
  unfold with_failover_locks. apply disciplined_app; [by destruct lat|].
  apply disciplined_concat, attempt_disciplined.
Qed.

Lemma prepare_disciplined plugins : disciplined [] (prepare_request_locks plugins) = true.
Proof.
  unfold prepare_request_locks. apply disciplined_app; [disc|]. apply disciplined_concat, plugin_disciplined.
Qed.

Lemma reload_disciplined shards valid : disciplined [] (reload_config_locks shards valid) = true.
Proof.
  destruct valid; [|done]. unfold reload_config_locks, apply_config_locks.
  apply disciplined_app; [apply disciplined_app; [done|]|]; disc.
Qed.

Lemma rebuild_disciplined shards owner clients applied :
  disciplined [] (rebuild_locks shards owner clients applied) = true.
Proof.
  unfold rebuild_locks. apply disciplined_app; [done|]. apply disciplined_app; [by destruct owner|].
  apply disciplined_app; [disc|]. destruct applied as [[keys pruned]|]; [|done].
  unfold rebuild_apply_locks. do 2 (apply disciplined_app; [disc|]). apply disciplined_app; [done|]. disc.
Qed.

(** Every call but the passthrough keeps the documented order, and waits for nobody
    while it holds a shard. *)
Lemma calls_disciplined c : is_passthrough c = false -> disciplined [] (call_locks c) = true.
Proof.
  destruct c as [plugins lookup r after|plugins r|r|shards owner clients applied|shards valid|shards found| | |client];
    cbn [call_locks]; intros Hp; try done.
  - unfold route_locks. apply disciplined_app; [apply prepare_disciplined|]. apply disciplined_app; [by destruct lookup|].
    apply disciplined_app; [apply routed_disciplined|]. apply disciplined_concat, plugin_disciplined.
  - unfold route_stream_locks. apply disciplined_app; [apply prepare_disciplined|apply routed_disciplined].
  - unfold embed_locks. destruct r as [[attempts|]|]; [|disc..]. do 3 (apply disciplined_app; [disc|]).
    apply disciplined_concat, client_disciplined.
  - apply rebuild_disciplined.
  - apply reload_disciplined.
  - unfold rollback_config_locks. apply disciplined_app; [done|apply reload_disciplined].
Qed.

(** ** Properties *)

Section Properties.
Context {allows : Lock -> list Mode -> list Mode -> Mode -> bool} `{!LockPolicy allows} {workers : nat}.

Local Abbreviation exec := (exec allows workers).
Local Abbreviation step := (step allows workers).
Local Abbreviation halted := (halted allows workers).

Definition gateway_boot (calls : list Call) : Sys := start_all (call_locks <$> calls).

(** Exclusion. Whatever calls run, passthroughs included, however they are
    interleaved, a lock that is held exclusively is held by one call only. *)
Theorem locks_exclude calls st l t1 th1 t2 th2 m :
  rtc step (gateway_boot calls) st ->
  sys_threads st !! t1 = Some th1 -> sys_threads st !! t2 = Some th2 ->
  (l, Exclusive) ∈ th_held th1 -> (l, m) ∈ th_held th2 -> t1 = t2 /\ m = Exclusive.
Proof. intros Hr. eapply so_excl, run_ok, start_all_ok. exact Hr. Qed.

(** C8: Calls return. Any number of requests, streams, embeddings, rebuilds, reloads and
    rollbacks, on any number of workers and under any lock policy, never deadlock: whatever
    is scheduled, a run takes no more transitions than four for each acquisition,
    release and answer and three for each call, and when nothing can happen any more every
    call has returned. *)
Theorem gateway_calls_return calls n st :
  (0 < workers)%nat -> Forall (fun c => is_passthrough c = false) calls ->
  nsteps step n (gateway_boot calls) st ->
  (n <= sum_list_with (fun c => 4 * length (call_locks c) + 3) calls)%nat /\
  (halted st -> Forall (fun th => th_status th = Returned) (sys_threads st)).
Proof.
  intros Hw Hc Hn. destruct (nsteps_measure _ _ _ Hn (start_all_ok _)) as (Hle & Hok & Hd). split.
  - assert (measure (gateway_boot calls) = sum_list_with (fun c => 4 * length (call_locks c) + 3) calls)%nat
      as Hm; [|lia].
    clear. unfold measure, gateway_boot, start_all. cbn [sys_threads].
    induction calls as [|c calls IH]; [done|]. cbn [fmap list_fmap sum_list_with]. by rewrite IH.
  - intros Hh. apply (halted_returned _ Hw Hh Hok), Hd, start_all_disciplined.
    apply Forall_fmap. eapply Forall_impl; [exact Hc|]. intros c. apply calls_disciplined.
Qed.

(** *** The passthrough *)

(** Call [p] awaits its provider with the targets in hand; call [r], a rebuild or a
    reload, has the configuration and waits for the targets. *)
Definition stalled (p r : nat) (st : Sys) : Prop :=
  (exists held rest, sys_threads st !! p =
     Some {| th_status := Awaiting; th_held := held; th_rest := rest |} /\ (LTargets, Shared) ∈ held) /\
  (exists held k, sys_threads st !! r =
     Some {| th_status := Waiting; th_held := held; th_rest := Acquire LTargets Exclusive :: k |} /\
     (LConfig, Exclusive) ∈ held).

Definition wants_config (th : Thread) : Prop := exists m k, th_rest th = Acquire LConfig m :: k.

Lemma stalled_step p r e st st' : sys_ok st -> stalled p r st -> e <> Answer p -> exec e st = Some st' ->
  stalled p r st' /\
  forall t th, sys_threads st !! t = Some th -> wants_config th ->
    exists th', sys_threads st' !! t = Some th' /\ th_rest th' = th_rest th.
Proof.
  intros Hok [(ph & prest & Hp & Hpt) (rh & rk & Hr & Hrc)] He (u & th & th' & Hu & Hm & Hts)%exec_moves.
  assert (forall m ws, allows LConfig (holders LConfig (sys_threads st)) ws m = true -> False) as Hcfg.
  { intros m ws Ha. by destruct (admitted_alone _ _ _ _ _ _ _ Ha Hr Hrc). }
  assert (u <> p) as Hup.
  { intros ->. rewrite Hp in Hu. injection Hu as <-.
    inversion Hm as [| | | | | |pre post ? l m ? Hq Ha| ]; subst; [|done].
    destruct (so_queue _ Hok l m p) as (? & ? & _ & Hth);
      [rewrite Hq; apply elem_of_app; right; by left|]. by rewrite Hp in Hth. }
  assert (u <> r) as Hur.
  { intros ->. rewrite Hr in Hu. injection Hu as <-.
    inversion Hm as [| | | | | |pre post ? l m ? Hq Ha| ]; subst.
    destruct (so_queue _ Hok l m r) as (? & ? & _ & Hth);
      [rewrite Hq; apply elem_of_app; right; by left|]. rewrite Hr in Hth. injection Hth as <- <- <- <-.
    by destruct (admitted_alone _ _ _ _ _ _ _ Ha Hp Hpt). }
  unfold stalled. rewrite Hts. split.
  - split; [exists ph, prest|exists rh, rk]; by rewrite list_lookup_insert_ne.
  - intros t tht Ht (m & k & Hrest). destruct (decide (t = u)) as [->|Hne].
    2:{ rewrite list_lookup_insert_ne by done. by exists tht. }
    rewrite Hu in Ht. injection Ht as <-. rewrite list_lookup_insert_eq by (by eapply lookup_lt_Some).
    eexists. split; [done|]. destruct Hm as [| | | |t l m' held k' Hb Ha| |pre post t l m' th Hq Ha|t held rest];
      cbn [th_rest] in *; try done.
    + by injection Hrest as -> -> ->.
    + destruct (so_queue _ Hok l m' t) as (? & ? & _ & Hth);
        [rewrite Hq; apply elem_of_app; right; by left|]. rewrite Hu in Hth. injection Hth as ->.
      cbn in Hrest. injection Hrest as -> -> ->. by destruct (Hcfg _ _ Ha).
    + destruct (so_awaits _ Hok t _ Hu eq_refl) as [? Hk]. cbn in Hk. congruence.
Qed.

Lemma stall_persists p r es st st' : sys_ok st -> stalled p r st ->
  Answer p ∉ es -> exec_all allows workers es st = Some st' ->
  stalled p r st' /\
  forall t th, sys_threads st !! t = Some th -> wants_config th ->
    exists th', sys_threads st' !! t = Some th' /\ th_rest th' = th_rest th.
Proof.
  revert st. induction es as [|e es IH]; intros st Hok Hst Hno; cbn [exec_all].
  - intros [= <-]. split; [done|]. intros t th Ht _. by exists th.
  - apply not_elem_of_cons in Hno as [He Hno]. destruct (exec e st) as [st1|] eqn:E; [|done]. intros Hrun.
    destruct (stalled_step _ _ _ _ _ Hok Hst (not_eq_sym He) E) as [Hst1 Hkeep].
    destruct (IH st1 (sys_step_ok _ _ (ex_intro _ e E) Hok) Hst1 Hno Hrun) as [Hst' Hkeep'].
    split; [done|]. intros t th Ht Hw. destruct (Hkeep t th Ht Hw) as (th1 & Ht1 & Hr1).
    destruct (Hkeep' t th1 Ht1) as (th2 & Ht2 & Hr2).
    { unfold wants_config. by rewrite Hr1. }
    exists th2. split; [done|]. congruence.
Qed.

(** *** A call that runs alone *)

(** What a call that starts with [held] holds after it has gone through [pre], each lock
    taken once at a time. *)
Fixpoint alone (held : list (Lock * Mode)) (pre : list Action) : option (list (Lock * Mode)) :=
  match pre with
  | [] => Some held
  | Acquire l m :: k => if decide (l ∈ held.*1) then None else alone ((l, m) :: held) k
  | Release l :: k => alone (drop_lock l held) k
  | Await :: k => alone held k
  end.

Lemma alone_app h a b : alone h (a ++ b) = alone h a ≫= fun h' => alone h' b.
Proof.
  revert h. induction a as [|[l m|l|] a IH]; intros h; cbn [alone app]; [done| |done|done].
  by destruct (decide _).
Qed.

Lemma alone_chain a b h : alone [] a = Some [] -> alone [] b = Some h -> alone [] (a ++ b) = Some h.
Proof. intros Ha Hb. by rewrite alone_app, Ha. Qed.

Lemma alone_locked l m : alone [] (locked l m) = Some [].
Proof. cbn. rewrite decide_False by apply not_elem_of_nil. cbn. by rewrite bool_decide_true. Qed.

Lemma alone_each_shard m shards : alone [] (each_shard m shards) = Some [].
Proof.
  induction shards as [|s shards IH]; [done|]. unfold each_shard. cbn [fmap list_fmap concat].
  by rewrite alone_app, alone_locked.
Qed.

(** Nobody but [t] is on a worker or has one of the locks that [pre] takes, and nobody waits. *)
Record quiet (t : nat) (pre : list Action) (st : Sys) : Prop := {
  qu_queue : sys_queue st = [];
  qu_others : forall u th, u <> t -> sys_threads st !! u = Some th ->
    th_status th <> Running /\ forall l m m', Acquire l m ∈ pre -> (l, m') ∉ th_held th;
}.

Definition on_turn (s : Status) : Prop := s = Ready \/ s = Running.

Lemma quiet_insert t pre pre' th st : quiet t pre st -> (forall x, x ∈ pre' -> x ∈ pre) ->
  quiet t pre' (set_thread t th st).
Proof.
  intros [Hq Ho] Hsub. split; [done|]. intros u thu Hu. cbn [set_thread sys_threads].
  rewrite list_lookup_insert_ne by done. intros Hl. destruct (Ho u thu Hu Hl) as [H1 H2]. split; [done|].
  intros l m m' Hin. by apply (H2 l m), Hsub.
Qed.

Lemma quiet_idle t pre st th : (0 < workers)%nat -> quiet t pre st -> sys_threads st !! t = Some th ->
  th_status th <> Running -> (on_worker (sys_threads st) < workers)%nat.
Proof.
  intros Hw [_ Ho] Ht Hs. assert (on_worker (sys_threads st) = 0)%nat as ->; [|done].
  unfold on_worker. destruct (List.filter _ _) as [|x l] eqn:E; [done|]. exfalso.
  assert (x ∈ List.filter (fun th => bool_decide (th_status th = Running)) (sys_threads st)) as Hx
    by (rewrite E; left).
  apply list_elem_of_In, filter_In in Hx as [Hx%list_elem_of_In Hr%bool_decide_eq_true].
  apply list_elem_of_lookup in Hx as [u Hu]. destruct (decide (u = t)) as [->|Hne]; [congruence|].
  by destruct (Ho u x Hne Hu).
Qed.

Lemma set_thread_twice t th th' st : set_thread t th' (set_thread t th st) = set_thread t th' st.
Proof. unfold set_thread. cbn. by rewrite list_insert_insert_eq. Qed.

Lemma set_thread_lookup t th th' st : sys_threads st !! t = Some th ->
  sys_threads (set_thread t th' st) !! t = Some th'.
Proof. intros Ht. cbn. apply list_lookup_insert_eq. by eapply lookup_lt_Some. Qed.

Lemma step_exec e st st' : exec e st = Some st' -> rtc step st st'.
Proof. intros He. apply rtc_once. by exists e. Qed.

(** It gets a worker. *)
Lemma get_worker t pre st s h k : (0 < workers)%nat -> quiet t pre st -> on_turn s ->
  sys_threads st !! t = Some {| th_status := s; th_held := h; th_rest := k |} ->
  rtc step st (set_thread t {| th_status := Running; th_held := h; th_rest := k |} st).
Proof.
  intros Hw Hq [->| ->] Ht.
  - apply (step_exec (Poll t)). cbn [Locks.exec]. rewrite Ht, bool_decide_true by done.
    assert (on_worker (sys_threads st) < workers)%nat as Hlt by (by eapply quiet_idle).
    apply Nat.ltb_lt in Hlt. by rewrite Hlt.
  - unfold set_thread. rewrite list_insert_id by done. by destruct st.
Qed.

Lemma quiet_free t pre st l m th : quiet t pre st -> Acquire l m ∈ pre ->
  sys_threads st !! t = Some th -> l ∉ (th_held th).*1 -> allows l (holders l (sys_threads st)) [] m = true.
Proof.
  intros [_ Ho] Hin Ht Hl. assert (holders l (sys_threads st) = []) as ->; [|apply admit_free].
  apply holders_nil. intros u thu m' Hu. destruct (decide (u = t)) as [->|Hne].
  - rewrite Ht in Hu. injection Hu as <-. intros Hm. apply Hl. apply list_elem_of_fmap. by exists (l, m').
  - destruct (Ho u thu Hne Hu) as [_ Hn]. by apply (Hn l m).
Qed.

(** It takes a lock that is free: a shard at once, an asynchronous lock by a grant. *)
Lemma take_free t k0 st h l m k : quiet t (Acquire l m :: k0) st -> l ∉ h.*1 ->
  sys_threads st !! t = Some {| th_status := Running; th_held := h; th_rest := Acquire l m :: k |} ->
  exists s, on_turn s /\ (blocking l = false -> s = Ready) /\
    rtc step st (set_thread t {| th_status := s; th_held := (l, m) :: h; th_rest := k |} st).
Proof.
  intros Hq Hl Ht.
  pose proof (quiet_free _ _ _ _ _ _ Hq (ltac:(by left)) Ht Hl) as Ha. destruct (blocking l) eqn:Eb.
  - exists Running. split; [by right|]. split; [done|]. apply (step_exec (Act t)). cbn [Locks.exec].
    rewrite Ht, bool_decide_true by done. cbn [act th_rest th_held]. by rewrite Eb, Ha.
  - exists Ready. split; [by left|]. split; [done|].
    set (th1 := {| th_status := Waiting; th_held := h; th_rest := Acquire l m :: k |}).
    assert (exec (Act t) st = Some {| sys_threads := <[t := th1]> (sys_threads st);
                                      sys_queue := [((l, m), t)] |}) as He.
    { cbn [Locks.exec]. rewrite Ht, bool_decide_true by done. cbn [act th_rest th_held].
      by rewrite Eb, (qu_queue _ _ _ Hq). }
    etrans; [by eapply step_exec|]. apply (step_exec (Grant 0)). cbn [Locks.exec]. unfold grant.
    cbn [sys_queue sys_threads lookup list_lookup]. rewrite list_lookup_insert_eq by (by eapply lookup_lt_Some).
    assert (holders l (<[t:=th1]> (sys_threads st)) = []) as ->.
    { apply holders_nil. intros u thu m' Hu. destruct (decide (u = t)) as [->|Hne].
      - rewrite list_lookup_insert_eq in Hu by (by eapply lookup_lt_Some). injection Hu as <-. intros Hm. apply Hl.
        apply list_elem_of_fmap. by exists (l, m').
      - rewrite list_lookup_insert_ne in Hu by done. destruct (qu_others _ _ _ Hq u thu Hne Hu) as [_ Hn].
        apply (Hn l m). by left. }
    cbn [take asked held_modes fmap list_fmap List.filter]. rewrite admit_free. unfold set_thread. cbn.
    rewrite list_insert_insert_eq. by rewrite (qu_queue _ _ _ Hq).
Qed.

(** A call goes through [pre] alone when nobody is in its way. *)
Lemma run_alone t pre : (0 < workers)%nat -> forall st s h k h', quiet t pre st -> on_turn s ->
  sys_threads st !! t = Some {| th_status := s; th_held := h; th_rest := (pre ++ k)%list |} ->
  alone h pre = Some h' ->
  exists s', on_turn s' /\ rtc step st (set_thread t {| th_status := s'; th_held := h'; th_rest := k |} st).
Proof.
  intros Hw. induction pre as [|a pre IH]; intros st s h k h' Hq Hs Ht Ha.
  { injection Ha as <-. exists s. split; [done|]. unfold set_thread. rewrite list_insert_id by done. by destruct st. }
  pose proof (get_worker _ _ _ _ _ _ Hw Hq Hs Ht) as Hgo. cbn [app] in Ht, Hgo.
  set (st1 := set_thread t {| th_status := Running; th_held := h; th_rest := a :: (pre ++ k)%list |} st) in Hgo.
  assert (sys_threads st1 !! t = Some {| th_status := Running; th_held := h; th_rest := a :: (pre ++ k)%list |})
    as Ht1 by (by eapply set_thread_lookup).
  assert (quiet t (a :: pre) st1) as Hq1 by (by eapply quiet_insert).
  assert (forall s1 h1, on_turn s1 -> alone h1 pre = Some h' ->
    rtc step st1 (set_thread t {| th_status := s1; th_held := h1; th_rest := (pre ++ k)%list |} st1) ->
    exists s', on_turn s' /\ rtc step st (set_thread t {| th_status := s'; th_held := h'; th_rest := k |} st))
    as Hnext.
  { intros s1 h1 Hs1 Ha1 Hrun. set (th1 := {| th_status := s1; th_held := h1; th_rest := (pre ++ k)%list |}) in Hrun.
    destruct (IH (set_thread t th1 st1) s1 h1 k h') as (s' & Hs' & Hrun'); [|done| |done|].
    - eapply quiet_insert; [exact Hq1|]. intros x Hx. by right.
    - by eapply set_thread_lookup.
    - exists s'. split; [done|]. unfold st1 in Hrun'. rewrite !set_thread_twice in Hrun'.
      etrans; [exact Hgo|]. etrans; [exact Hrun|].
      unfold st1. by rewrite set_thread_twice. }
  destruct a as [l m|l|]; cbn [alone] in Ha.
  - destruct (decide (l ∈ h.*1)) as [|Hl]; [done|].
    destruct (take_free _ _ _ _ _ _ _ Hq1 Hl Ht1) as (s1 & Hs1 & _ & Hrun). by eapply Hnext.
  - eapply (Hnext Running); [by right|exact Ha|]. apply (step_exec (Act t)). cbn [Locks.exec].
    by rewrite Ht1, bool_decide_true.
  - eapply (Hnext Ready); [by left|exact Ha|].
    set (th2 := {| th_status := Awaiting; th_held := h; th_rest := Await :: (pre ++ k)%list |}).
    etrans.
    + apply (step_exec (Act t) st1 (set_thread t th2 st1)). cbn [Locks.exec]. by rewrite Ht1, bool_decide_true.
    + apply (step_exec (Answer t)). cbn [Locks.exec]. erewrite set_thread_lookup by exact Ht1.
      rewrite bool_decide_true by done. by rewrite set_thread_twice.
Qed.

(** *** How the gateway comes to stall *)

(** The calls that change the configuration or the targets: a rebuild that is applied, a
    reload or rollback that is valid. *)
Definition writes_config (c : Call) : bool :=
  match c with
  | CallRebuild _ _ _ (Some _) | CallReload _ true | CallRollback _ true => true
  | _ => false
  end.

Lemma writes_config_script c : writes_config c = true -> exists pre h k,
  call_locks c = (pre ++ (Acquire LConfig Exclusive :: Acquire LTargets Exclusive :: k))%list /\
  alone [] pre = Some h /\ (LConfig ∉ h.*1) /\ (forall l m, (l, m) ∈ h -> l = LStrategy).
Proof.
  destruct c as [| | |shards owner clients [[keys pruned]|]|shards []|shards []| | |]; try done; intros _.
  - exists ([Await; Await] ++ (if owner then locked LTargets Shared else []) ++ each_shard ProvidersMap clients ++
            each_shard KeysMap keys ++ each_shard KeysMap (seq 0 shards))%list, []. eexists.
    split_and!.
    + cbn [call_locks]. unfold rebuild_locks, rebuild_apply_locks. rewrite <- !app_assoc. reflexivity.
    + repeat apply alone_chain; [done|destruct owner; [apply alone_locked|done]|apply alone_each_shard..].
    + apply not_elem_of_nil.
    + by intros l m ?%not_elem_of_nil.
  - exists [Acquire LStrategy Exclusive], [(LStrategy, Exclusive)]. eexists.
    split_and!; [reflexivity|done|by intros ?%list_elem_of_singleton|]. by intros l m [= -> _]%list_elem_of_singleton.
  - exists [Acquire LHistory Shared; Release LHistory; Acquire LStrategy Exclusive], [(LStrategy, Exclusive)]. eexists.
    split_and!; [reflexivity|done|by intros ?%list_elem_of_singleton|]. by intros l m [= -> _]%list_elem_of_singleton.
Qed.

Lemma sent_script s key : exists h,
  alone [] ([Acquire LTargets Shared; Acquire (LShard ProvidersMap s) Shared] ++ api_key_locks key)%list = Some h /\
  (LTargets, Shared) ∈ h.
Proof.
  exists [(LShard ProvidersMap s, Shared); (LTargets, Shared)]. split; [|right; by left].
  destruct key as [k|]; cbn [app alone api_key_locks locked fmap list_fmap fst];
    rewrite !decide_False by (rewrite ?elem_of_cons, ?elem_of_nil; naive_solver); [|done].
  unfold drop_lock. cbn. by rewrite bool_decide_true.
Qed.

Lemma boot_lookup calls t c : calls !! t = Some c ->
  sys_threads (gateway_boot calls) !! t = Some (spawn (call_locks c)).
Proof. intros Hc. unfold gateway_boot, start_all. cbn. by rewrite !list_lookup_fmap, Hc. Qed.

Lemma boot_quiet calls t pre : quiet t pre (gateway_boot calls).
Proof.
  split; [done|]. intros u th _. unfold gateway_boot, start_all. cbn. rewrite !list_lookup_fmap.
  destruct (calls !! u) as [c|]; [|done]. intros [= <-]. split; [done|]. intros l m m' _. apply not_elem_of_nil.
Qed.

(** The writer runs until it has the configuration. *)
Lemma writer_reaches calls r c : (0 < workers)%nat -> calls !! r = Some c -> writes_config c = true ->
  exists h k, (forall l m, (l, m) ∈ h -> l = LConfig \/ l = LStrategy) /\ (LConfig, Exclusive) ∈ h /\
    rtc step (gateway_boot calls)
      (set_thread r {| th_status := Ready; th_held := h; th_rest := Acquire LTargets Exclusive :: k |}
         (gateway_boot calls)).
Proof.
  intros Hw Hr Hc. destruct (writes_config_script c Hc) as (pre & h & k & Hscript & Hpre & Hcfg & Hh).
  pose proof (boot_lookup _ _ _ Hr) as Hbr. unfold spawn in Hbr. rewrite Hscript in Hbr.
  destruct (run_alone r pre Hw _ Ready [] _ h (boot_quiet calls r _) (or_introl eq_refl) Hbr Hpre)
    as (s0 & Hs0 & Hrun0).
  set (k0 := Acquire LConfig Exclusive :: Acquire LTargets Exclusive :: k) in *.
  set (st0 := set_thread r _ _) in Hrun0.
  assert (quiet r [Acquire LConfig Exclusive] st0) as Hq0 by (eapply quiet_insert; [apply boot_quiet|done]).
  assert (sys_threads st0 !! r = Some {| th_status := s0; th_held := h; th_rest := k0 |}) as Ht0
    by (by eapply set_thread_lookup).
  pose proof (get_worker _ _ _ _ _ _ Hw Hq0 Hs0 Ht0) as Hrun1.
  destruct (take_free r [] (set_thread r {| th_status := Running; th_held := h; th_rest := k0 |} st0) h LConfig
    Exclusive (Acquire LTargets Exclusive :: k)) as (s1 & _ & Hs1 & Hrun2); [|done| |].
  - by eapply quiet_insert.
  - by eapply set_thread_lookup.
  - rewrite Hs1 in Hrun2 by done. exists ((LConfig, Exclusive) :: h), k. split_and!; [|by left|].
    + intros l m [[= -> ->]|Hin]%elem_of_cons; [by left|right; by eapply Hh].
    + unfold st0 in Hrun1, Hrun2. rewrite !set_thread_twice in Hrun2. rewrite set_thread_twice in Hrun1.
      etrans; [exact Hrun0|]. by etrans.
Qed.

(** Then the passthrough runs until it waits for its provider, and the writer asks for
    the targets. *)
Lemma stall_reachable calls p r s key c : (0 < workers)%nat -> p <> r ->
  calls !! p = Some (CallProxy (Some (s, Sent key))) -> calls !! r = Some c -> writes_config c = true ->
  exists st, rtc step (gateway_boot calls) st /\ stalled p r st /\
    forall t c', t <> p -> t <> r -> calls !! t = Some c' -> sys_threads st !! t = Some (spawn (call_locks c')).
Proof.
  intros Hw Hne Hp Hr Hc. destruct (writer_reaches calls r c Hw Hr Hc) as (h & k & Hh & Hcfg & Hrun1).
  set (th1 := {| th_status := Ready; th_held := h; th_rest := _ |}) in Hrun1.
  set (st1 := set_thread r th1 (gateway_boot calls)) in Hrun1.
  destruct (sent_script s key) as (hp & Hpre & Htgt). set (pre := (_ ++ _)%list) in Hpre.
  set (kp := [Await; Release (LShard ProvidersMap s); Release LTargets]).
  assert (sys_threads st1 !! p = Some {| th_status := Ready; th_held := []; th_rest := (pre ++ kp)%list |}) as Htp.
  { cbn [st1 set_thread sys_threads]. rewrite list_lookup_insert_ne by done.
    etrans; [exact (boot_lookup _ _ _ Hp)|]. done. }
  assert (sys_threads st1 !! r = Some th1) as Htr by (eapply set_thread_lookup, boot_lookup, Hr).
  assert (forall u thu, u <> p -> sys_threads st1 !! u = Some thu ->
    th_status thu <> Running /\ forall l m m', Acquire l m ∈ pre -> (l, m') ∉ th_held thu) as Hothers.
  { intros u thu Hup Hu. destruct (decide (u = r)) as [->|Hur].
    - rewrite Htr in Hu. injection Hu as <-. split; [done|]. intros l m m' Hin Hheld. apply Hh in Hheld.
      unfold pre, api_key_locks, locked in Hin. destruct key; cbn in Hin;
        rewrite ?elem_of_cons, ?elem_of_nil in Hin; naive_solver.
    - cbn in Hu. rewrite list_lookup_insert_ne in Hu by done.
      destruct (boot_quiet calls p pre) as [_ Hb]. by eapply Hb. }
  assert (quiet p pre st1) as Hq1 by (by split).
  destruct (run_alone p pre Hw st1 Ready [] kp hp Hq1 (or_introl eq_refl) Htp Hpre) as (s2 & Hs2 & Hrun2).
  set (th2 := {| th_status := Awaiting; th_held := hp; th_rest := kp |}). set (st2 := set_thread p th2 st1).
  assert (rtc step st1 st2) as Hrun3.
  { etrans; [exact Hrun2|]. set (sta := set_thread p _ st1).
    assert (sys_threads sta !! p = Some {| th_status := s2; th_held := hp; th_rest := kp |}) as Hta
      by (by eapply set_thread_lookup).
    assert (quiet p pre sta) as Hqa by (by eapply quiet_insert).
    etrans; [by apply (get_worker _ _ _ _ _ _ Hw Hqa Hs2 Hta)|]. apply (step_exec (Act p)). cbn [Locks.exec].
    erewrite set_thread_lookup by exact Hta. rewrite bool_decide_true by done. cbn [act th_rest th_held kp].
    unfold sta. by rewrite !set_thread_twice. }
  assert (sys_threads st2 !! r = Some th1) as Htr2 by (cbn; by rewrite list_lookup_insert_ne).
  assert (quiet r [] st2) as Hq2.
  { split; [done|]. intros u thu Hur Hu. split; [|by intros l m m' ?%not_elem_of_nil].
    destruct (decide (u = p)) as [->|Hup].
    - unfold st2 in Hu. erewrite set_thread_lookup in Hu by exact Htp. by injection Hu as <-.
    - cbn in Hu. rewrite list_lookup_insert_ne in Hu by done. by apply (Hothers u thu). }
  set (th3 := {| th_status := Waiting; th_held := h; th_rest := Acquire LTargets Exclusive :: k |}).
  exists {| sys_threads := <[r := th3]> (sys_threads st2); sys_queue := [((LTargets, Exclusive), r)] |}.
  split_and!.
  - etrans; [exact Hrun1|]. etrans; [exact Hrun3|].
    etrans; [by apply (get_worker _ _ _ _ _ _ Hw Hq2 (or_introl eq_refl) Htr2)|].
    apply (step_exec (Act r)). cbn [Locks.exec]. erewrite set_thread_lookup by exact Htr2.
    rewrite bool_decide_true by done. cbn [act th_rest th_held blocking]. cbn. by rewrite list_insert_insert_eq.
  - split.
    + exists hp, kp. split; [|done]. cbn [sys_threads]. rewrite list_lookup_insert_ne by done.
      by eapply set_thread_lookup.
    + exists h, k. split; [|done]. cbn [sys_threads]. apply list_lookup_insert_eq. by eapply lookup_lt_Some.
  - intros t c' Htp' Htr' Ht. cbn. rewrite !list_lookup_insert_ne by done. by apply boot_lookup.
Qed.

(** C35: A passthrough stalls the gateway. It holds the targets while it waits for its
    provider. Whatever calls there are, if one is a passthrough that reaches its provider
    and one changes the configuration or the targets, a rebuild, a reload or a rollback,
    then, on any workers and under any lock policy, they can run into each other: the
    change has the configuration and waits for the targets, before any other call has
    started. And from then on, until that provider answers, whatever else happens, no call
    gets the configuration: every request stays before its first guard. *)
Theorem passthrough_stalls_gateway calls p r s key c : (0 < workers)%nat -> p <> r ->
  calls !! p = Some (CallProxy (Some (s, Sent key))) -> calls !! r = Some c -> writes_config c = true ->
  (exists st, rtc step (gateway_boot calls) st /\ stalled p r st /\
     forall t c', t <> p -> t <> r -> calls !! t = Some c' -> sys_threads st !! t = Some (spawn (call_locks c'))) /\
  forall st es st', rtc step (gateway_boot calls) st -> stalled p r st ->
    Answer p ∉ es -> exec_all allows workers es st = Some st' ->
    stalled p r st' /\
    forall t th, sys_threads st !! t = Some th -> wants_config th ->
      exists th', sys_threads st' !! t = Some th' /\ th_rest th' = th_rest th.
Proof.
  intros Hw Hne Hp Hr Hc. split; [by eapply stall_reachable|].
  intros st es st' Hreach. assert (sys_ok st) as Hok by (eapply run_ok; [exact Hreach|apply start_all_ok]).
  by apply stall_persists.
Qed.

(** Call [p] has a shard of the clients in hand and is on no worker, and every worker is
    taken by a call that wants to write to that shard. *)
Definition hung (p s : nat) (st : Sys) : Prop :=
  (exists th, sys_threads st !! p = Some th /\ (th_status th = Ready \/ th_status th = Awaiting) /\
     (LShard ProvidersMap s, Shared) ∈ th_held th) /\
  on_worker (sys_threads st) = workers /\
  (forall t th, sys_threads st !! t = Some th -> th_status th = Running ->
     exists k, th_rest th = Acquire (LShard ProvidersMap s) Exclusive :: k).

Lemma on_worker_insert ts t th th' : ts !! t = Some th -> th_status th <> Running ->
  th_status th' <> Running -> on_worker (<[t := th']> ts) = on_worker ts.
Proof.
  unfold on_worker. intros Ht H1 H2. revert t Ht.
  induction ts as [|x ts IH]; intros [|t]; cbn [lookup list_lookup insert list_insert]; [done..| |].
  - intros [= ->]. cbn. by rewrite !bool_decide_false.
  - intros Ht. cbn [List.filter]. destruct (bool_decide _); cbn [length]; [f_equal|]; by apply IH.
Qed.

Lemma hung_step p s st st' : sys_ok st -> hung p s st -> step st st' -> hung p s st' /\
  forall t th, sys_threads st' !! t = Some th -> th_status th = Returned -> sys_threads st !! t = Some th.
Proof.
  intros Hok [(thp & Hp & Hps & Hph) (Hon & Hrun)] [e (u & th & th' & Hu & Hm & Hts)%exec_moves].
  assert (th_status th <> Running /\ (th_status th' = Ready) /\
    (forall x, x ∈ th_held th -> x ∈ th_held th')) as (Hns & Hready & Hkeep).
  { destruct Hm as [t held rest Hlt|t held|t l held k|t held k|t l m held k Hb Ha|t l m held k Hb
      |pre post t l m th Hq Ha|t held rest]; cbn [th_status th_held].
    - lia.
    - by destruct (Hrun _ _ Hu eq_refl) as [? ?].
    - by destruct (Hrun _ _ Hu eq_refl) as [? ?].
    - by destruct (Hrun _ _ Hu eq_refl) as [? ?].
    - destruct (Hrun _ _ Hu eq_refl) as [k' [= -> -> ->]].
      by destruct (admitted_alone _ _ _ _ _ _ _ Ha Hp Hph).
    - by destruct (Hrun _ _ Hu eq_refl) as [k' [= -> -> ->]].
    - destruct (so_queue _ Hok l m t) as (? & ? & _ & Hth);
        [rewrite Hq; apply elem_of_app; right; by left|]. rewrite Hu in Hth. injection Hth as ->.
      split_and!; [done|done|]. intros y Hy. by right.
    - by split_and!. }
  unfold hung. rewrite Hts. assert (u < length (sys_threads st))%nat as Hlt by by eapply lookup_lt_Some.
  split; [split_and!|].
  - destruct (decide (p = u)) as [->|Hne].
    + rewrite list_lookup_insert_eq by done. rewrite Hu in Hp. injection Hp as ->. eauto 6.
    + rewrite list_lookup_insert_ne by done. eauto.
  - rewrite (on_worker_insert _ _ th) by (done || congruence). done.
  - intros t tht Ht Hs. destruct (decide (t = u)) as [->|Hne].
    + rewrite list_lookup_insert_eq in Ht by done. congruence.
    + rewrite list_lookup_insert_ne in Ht by done. by eapply Hrun.
  - intros t tht Ht Hs. destruct (decide (t = u)) as [->|Hne].
    + rewrite list_lookup_insert_eq in Ht by done. congruence.
    + by rewrite list_lookup_insert_ne in Ht.
Qed.

(** A passthrough can hang the process. It holds a shard of the clients while it waits for
    its provider; the rebuilds that come meanwhile block their workers on that shard; once
    every worker is blocked no call ever returns again, not even when the provider
    answers. *)
Theorem passthrough_hangs_process calls p s st st' :
  rtc step (gateway_boot calls) st -> hung p s st -> rtc step st st' ->
  hung p s st' /\
  forall t th, sys_threads st' !! t = Some th -> th_status th = Returned -> sys_threads st !! t = Some th.
Proof.
  intros Hreach. assert (sys_ok st) as Hok by (eapply run_ok; [exact Hreach|apply start_all_ok]). clear Hreach.
  intros Hh Hrun. revert Hok Hh. induction Hrun as [st|st st1 st2 Hs Hrun IH]; intros Hok Hh; [by split|].
  destruct (hung_step _ _ _ _ Hok Hh Hs) as [Hh1 Hret1].
  destruct (IH (sys_step_ok _ _ Hs Hok) Hh1) as [Hh2 Hret2]. split; [done|]. eauto.
Qed.
End Properties.

(** ** Witnesses *)

Lemma exec_all_nsteps allows workers es st st' : exec_all allows workers es st = Some st' ->
  nsteps (step allows workers) (length es) st st'.
Proof.
  revert st. induction es as [|e es IH]; intros st; cbn [exec_all].
  - intros [= <-]. constructor.
  - destruct (exec allows workers e st) as [st1|] eqn:E; [|done]. intros H.
    econstructor; [by exists e|by apply IH].
Qed.

Lemma exec_all_run allows workers es st st' : exec_all allows workers es st = Some st' ->
  rtc (step allows workers) st st'.
Proof. intros H%exec_all_nsteps. by eapply rtc_nsteps_2. Qed.

(** First come, first served: a reader joins readers when no writer asked before it. *)
Definition fair_admit (_ : Lock) (hs ws : list Mode) (m : Mode) : bool :=
  match m with
  | Exclusive => bool_decide (hs = []) && bool_decide (ws = [])
  | Shared => bool_decide (Exclusive ∉ hs) && bool_decide (Exclusive ∉ ws)
  end.

#[export] Instance fair_policy : LockPolicy fair_admit.
Proof.
  split.
  - by intros l hs ws [H _]%andb_prop; apply bool_decide_eq_true in H.
  - by intros l hs ws [H _]%andb_prop; apply bool_decide_eq_true in H.
  - by intros l [].
Qed.

(** A passthrough up to its wait for the provider, and a rebuild up to its own
    acquisitions. *)
Definition demo_proxy (t : nat) : list Event :=
  [Poll t; Act t; Grant 0; Poll t; Act t; Act t; Act t; Act t].
Definition demo_rebuild (t : nat) : list Event :=
  [Poll t; Act t; Answer t; Poll t; Act t; Answer t; Poll t; Act t; Grant 0; Poll t; Act t].

Definition demo_stalled_calls : list Call :=
  [CallProxy (Some (0%nat, Sent (Some 0%nat))); CallRebuild 1 true [] (Some ([], [])); CallGetConfig].

Definition demo_stalled_run : list Event :=
  (demo_proxy 0 ++ demo_rebuild 1 ++ [Act 1; Act 1; Act 1; Grant 0; Poll 1; Act 1])%list.

Definition state_after (workers : nat) (calls : list Call) (es : list Event) : Sys :=
  default (gateway_boot []) (exec_all fair_admit workers es (gateway_boot calls)).

Lemma state_after_run workers calls es : is_Some (exec_all fair_admit workers es (gateway_boot calls)) ->
  rtc (step fair_admit workers) (gateway_boot calls) (state_after workers calls es).
Proof. unfold state_after. intros [st Hst]. rewrite Hst. by eapply exec_all_run. Qed.

Lemma locks_exclude_witness :
  exists th, sys_threads (state_after 2 [CallReload 0 true] [Poll 0; Act 0; Grant 0]) !! 0%nat = Some th /\
    (LStrategy, Exclusive) ∈ th_held th /\ 0%nat = 0%nat /\ Exclusive = Exclusive.
Proof.
  eexists. split; [reflexivity|]. split; [by left|].
  eapply (locks_exclude (allows := fair_admit) (workers := 2) [CallReload 0 true]
    (state_after 2 [CallReload 0 true] [Poll 0; Act 0; Grant 0]) LStrategy 0 _ 0);
    [apply state_after_run; by eexists|reflexivity|reflexivity|by left|by left].
Defined.

Lemma gateway_calls_return_witness :
  (11 <= 4 * 2 + 3)%nat /\
  (halted fair_admit 1 (state_after 1 [CallGetConfig] [Poll 0; Act 0; Grant 0; Poll 0; Act 0; Act 0]) ->
   Forall (fun th => th_status th = Returned)
     (sys_threads (state_after 1 [CallGetConfig] [Poll 0; Act 0; Grant 0; Poll 0; Act 0; Act 0]))).
Proof.
  split; [lia|].
  apply (gateway_calls_return (allows := fair_admit) (workers := 1) [CallGetConfig] 6).
  - lia.
  - by repeat constructor.
  - by apply (exec_all_nsteps fair_admit 1 [Poll 0; Act 0; Grant 0; Poll 0; Act 0; Act 0]).
Defined.

Lemma passthrough_stalls_gateway_witness :
  (exists st, rtc (step fair_admit 2) (gateway_boot demo_stalled_calls) st /\ stalled 0 1 st /\
     sys_threads st !! 2%nat = Some (spawn (locked LConfig Shared))) /\
  let st' := state_after 2 demo_stalled_calls (demo_stalled_run ++ [Poll 2; Act 2]) in
  stalled 0 1 st' /\ exists th', sys_threads st' !! 2%nat = Some th' /\ th_rest th' = locked LConfig Shared.
Proof.
  destruct (passthrough_stalls_gateway (allows := fair_admit) (workers := 2) demo_stalled_calls 0 1 0 (Some 0%nat)
    (CallRebuild 1 true [] (Some ([], []))) ltac:(lia) ltac:(done) eq_refl eq_refl eq_refl)
    as [(st & Hrun & Hst & Hothers) Hpersist].
  split; [exists st; split_and!; [done|done|by apply (Hothers 2%nat CallGetConfig)]|].
  destruct (Hpersist (state_after 2 demo_stalled_calls demo_stalled_run) [Poll 2; Act 2]
    (state_after 2 demo_stalled_calls (demo_stalled_run ++ [Poll 2; Act 2]))) as [Hst' Hkeep].
  - apply state_after_run. by eexists.
  - split; do 2 eexists; (split; [reflexivity|]).
    + by apply list_elem_of_In; vm_compute; auto.
    + by apply list_elem_of_In; vm_compute; auto.
  - by intros [|[|?%not_elem_of_nil]%elem_of_cons]%elem_of_cons.
  - reflexivity.
  - split; [done|]. apply (Hkeep 2%nat (spawn (locked LConfig Shared))); [reflexivity|by do 2 eexists].
Defined.

Definition demo_hung_calls : list Call :=
  [CallProxy (Some (0%nat, Sent (Some 0%nat))); CallRebuild 1 true [0%nat] (Some ([], []))].

Definition demo_hung_run : list Event := (demo_proxy 0 ++ demo_rebuild 1)%list.

Lemma passthrough_hangs_process_witness :
  let st := state_after 1 demo_hung_calls demo_hung_run in
  let st' := state_after 1 demo_hung_calls (demo_hung_run ++ [Answer 0]) in
  hung (workers := 1) 0 0 st' /\
  ~ exists th, sys_threads st' !! 0%nat = Some th /\ th_status th = Returned.
Proof.
  intros st st'.
  destruct (passthrough_hangs_process (allows := fair_admit) (workers := 1) demo_hung_calls 0 0 st st')
    as [Hh Hret].
  - apply state_after_run. by eexists.
  - split_and!.
    + eexists. split; [reflexivity|]. split; [by right|]. by apply list_elem_of_In; vm_compute; auto.
    + reflexivity.
    + intros [|[|t]] th; [intros [= <-]; done|intros [= <-] _; by eexists|done].
  - apply (exec_all_run fair_admit 1 [Answer 0]). reflexivity.
  - split; [done|]. intros (th & Ht & Hs). specialize (Hret _ _ Ht Hs). by injection Hret as <-.
Defined.
