(* ===== verification/CircuitBreaker.v ===== *)
(** * The in-memory circuit breaker
    (src/crates/himadri-circuitbreaker/src/lib.rs)

    [BreakerInner] is the state behind the mutex; every operation takes the
    lock for its whole body, so one operation is one atomic step.  The
    monotonic clock [now_millis()] is an argument.  [CircuitBreakerTrait] is
    the trait the gateway programs against, [CircuitBreakerLaws] what it may
    rely on, and [Spec] the three-state automaton the counters implement. *)

From S2P Require Import Prelude.

(** ** Data *)

Definition STATE_CLOSED : Z := 0.
Definition STATE_OPEN : Z := 1.
Definition STATE_HALF_OPEN : Z := 2.

(** [recovery_timeout] is a [Duration], counted in nanoseconds. *)
Record CircuitBreakerConfig := {
  failure_threshold : Z;
  recovery_timeout : Z;
  half_open_max_calls : Z;
}.

Definition default_breaker_config : CircuitBreakerConfig :=
  {| failure_threshold := 5;
     recovery_timeout := 30 * 10 ^ 9;
     half_open_max_calls := 3 |}.

Inductive CircuitState := Closed | Open | HalfOpen.

#[export] Instance CircuitState_eq_dec : EqDecision CircuitState.
Proof. solve_decision. Defined.

Definition circuit_state_to_string (s : CircuitState) : string :=
  match s with
  | Closed => "closed"
  | Open => "open"
  | HalfOpen => "half_open"
  end.

Record BreakerInner := {
  bk_state : Z;
  bk_failure_count : Z;
  bk_success_count : Z;
  bk_half_open_admitted : Z;
  bk_last_failure_time : Z;
}.

Record CircuitBreaker := {
  bk_inner : BreakerInner;
  bk_config : CircuitBreakerConfig;
}.

(** [Duration::as_millis() as u64]: whole milliseconds, truncated to 64 bits. *)
Definition as_millis_u64 (nanos : Z) : Z := wrap_u64 (nanos / 10 ^ 6).

(** ** Operations *)

Definition breaker_new (cfg : CircuitBreakerConfig) : CircuitBreaker :=
  {| bk_inner := {| bk_state := STATE_CLOSED; bk_failure_count := 0; bk_success_count := 0;
                 bk_half_open_admitted := 0; bk_last_failure_time := 0 |};
     bk_config := cfg |}.

Definition breaker_allow (now : Z) (cb : CircuitBreaker) : bool * CircuitBreaker :=
  let i := bk_inner cb in
  if bk_state i =? STATE_CLOSED then (true, cb)
  else if bk_state i =? STATE_OPEN then
    if as_millis_u64 (recovery_timeout (bk_config cb))
         <=? saturating_sub_u64 now (bk_last_failure_time i)
    then (true, {| bk_inner := {| bk_state := STATE_HALF_OPEN;
                               bk_failure_count := bk_failure_count i;
                               bk_success_count := 0;
                               bk_half_open_admitted := 1;
                               bk_last_failure_time := bk_last_failure_time i |};
                   bk_config := bk_config cb |})
    else (false, cb)
  else if (bk_state i =? STATE_HALF_OPEN)
            && (bk_half_open_admitted i <? half_open_max_calls (bk_config cb)) then
    (true, {| bk_inner := {| bk_state := bk_state i;
                          bk_failure_count := bk_failure_count i;
                          bk_success_count := bk_success_count i;
                          bk_half_open_admitted := wrap_u64 (bk_half_open_admitted i + 1);
                          bk_last_failure_time := bk_last_failure_time i |};
              bk_config := bk_config cb |})
  else (false, cb).

Definition breaker_record_success (cb : CircuitBreaker) : CircuitBreaker :=
  let i := bk_inner cb in
  if bk_state i =? STATE_CLOSED then
    {| bk_inner := {| bk_state := bk_state i; bk_failure_count := 0;
                   bk_success_count := bk_success_count i;
                   bk_half_open_admitted := bk_half_open_admitted i;
                   bk_last_failure_time := bk_last_failure_time i |};
       bk_config := bk_config cb |}
  else if bk_state i =? STATE_HALF_OPEN then
    let succ := wrap_u64 (bk_success_count i + 1) in
    if half_open_max_calls (bk_config cb) <=? succ then
      {| bk_inner := {| bk_state := STATE_CLOSED; bk_failure_count := 0;
                     bk_success_count := succ;
                     bk_half_open_admitted := bk_half_open_admitted i;
                     bk_last_failure_time := bk_last_failure_time i |};
         bk_config := bk_config cb |}
    else
      {| bk_inner := {| bk_state := bk_state i; bk_failure_count := bk_failure_count i;
                     bk_success_count := succ;
                     bk_half_open_admitted := bk_half_open_admitted i;
                     bk_last_failure_time := bk_last_failure_time i |};
         bk_config := bk_config cb |}
  else cb.

Definition breaker_record_failure (now : Z) (cb : CircuitBreaker) : CircuitBreaker :=
  let i := bk_inner cb in
  let set st fc :=
    {| bk_inner := {| bk_state := st; bk_failure_count := fc;
                   bk_success_count := bk_success_count i;
                   bk_half_open_admitted := bk_half_open_admitted i;
                   bk_last_failure_time := now |};
       bk_config := bk_config cb |} in
  if bk_state i =? STATE_CLOSED then
    let fc := wrap_u64 (bk_failure_count i + 1) in
    if failure_threshold (bk_config cb) <=? fc then set STATE_OPEN fc
    else set (bk_state i) fc
  else if bk_state i =? STATE_HALF_OPEN then set STATE_OPEN (bk_failure_count i)
  else set (bk_state i) (bk_failure_count i).

Definition breaker_get_state (cb : CircuitBreaker) : CircuitState :=
  let s := bk_state (bk_inner cb) in
  if s =? STATE_OPEN then Open
  else if s =? STATE_HALF_OPEN then HalfOpen
  else Closed.

Definition breaker_get_failure_count (cb : CircuitBreaker) : Z := bk_failure_count (bk_inner cb).

Definition breaker_reset (cb : CircuitBreaker) : CircuitBreaker :=
  {| bk_inner := {| bk_state := STATE_CLOSED; bk_failure_count := 0; bk_success_count := 0;
                 bk_half_open_admitted := 0;
                 bk_last_failure_time := bk_last_failure_time (bk_inner cb) |};
     bk_config := bk_config cb |}.

(** ** The trait the gateway uses *)

Class CircuitBreakerTrait (B : Type) := {
  cb_allow : Z -> B -> bool * B;
  cb_record_success : B -> B;
  cb_record_failure : Z -> B -> B;
  cb_state : B -> CircuitState;
  cb_failure_count : B -> Z;
  cb_reset : B -> B;
}.

#[export] Instance CircuitBreaker_trait : CircuitBreakerTrait CircuitBreaker := {
  cb_allow := breaker_allow;
  cb_record_success := breaker_record_success;
  cb_record_failure := breaker_record_failure;
  cb_state := breaker_get_state;
  cb_failure_count := breaker_get_failure_count;
  cb_reset := breaker_reset;
}.

(** What a breaker in a well-formed state promises its client. *)
Class CircuitBreakerLaws (B : Type) `{CircuitBreakerTrait B} := {
  cb_wf : B -> Prop;
  wf_allow : forall now b, cb_wf b -> cb_wf (cb_allow now b).2;
  wf_success : forall b, cb_wf b -> cb_wf (cb_record_success b);
  wf_failure : forall now b, cb_wf b -> cb_wf (cb_record_failure now b);
  wf_reset : forall b, cb_wf b -> cb_wf (cb_reset b);
  law_closed_admits : forall now b,
    cb_wf b -> cb_state b = Closed -> cb_allow now b = (true, b);
  law_denied_unchanged : forall now b b', cb_allow now b = (false, b') -> b' = b;
  law_admitted_not_open : forall now b b',
    cb_wf b -> cb_allow now b = (true, b') -> cb_state b' <> Open;
  law_failure_not_half_open : forall now b,
    cb_wf b -> cb_state (cb_record_failure now b) <> HalfOpen;
  law_success_not_open : forall b,
    cb_wf b -> cb_state b <> Open -> cb_state (cb_record_success b) <> Open;
  law_reset_closed : forall b, cb_state (cb_reset b) = Closed;
}.

(** ** Well-formed breakers

    Everything the trait's methods can reach from [breaker_new]: while closed the
    failure count is below the threshold, while half-open fewer successes
    than the quota have been counted and no more probes than the quota have
    been admitted. A threshold or quota of [0] behaves as [1]. *)

Record config_ok (cfg : CircuitBreakerConfig) : Prop := {
  ok_threshold : u64 (failure_threshold cfg);
  ok_max_calls : u64 (half_open_max_calls cfg);
}.

Record breaker_inv (cb : CircuitBreaker) : Prop := {
  inv_tag : bk_state (bk_inner cb) = STATE_CLOSED \/
            bk_state (bk_inner cb) = STATE_OPEN \/
            bk_state (bk_inner cb) = STATE_HALF_OPEN;
  inv_failures : 0 <= bk_failure_count (bk_inner cb);
  inv_closed : bk_state (bk_inner cb) = STATE_CLOSED ->
    bk_failure_count (bk_inner cb) < Z.max 1 (failure_threshold (bk_config cb));
  inv_successes : bk_state (bk_inner cb) = STATE_HALF_OPEN ->
    0 <= bk_success_count (bk_inner cb) < Z.max 1 (half_open_max_calls (bk_config cb));
  inv_admitted : bk_state (bk_inner cb) = STATE_HALF_OPEN ->
    1 <= bk_half_open_admitted (bk_inner cb) <= Z.max 1 (half_open_max_calls (bk_config cb));
}.

(** Calls on a breaker, and the state each leads to. *)
Inductive breaker_event :=
  | EvAllow (now : Z)
  | EvSuccess
  | EvFailure (now : Z)
  | EvReset.

Definition breaker_apply (ev : breaker_event) (cb : CircuitBreaker) : CircuitBreaker :=
  match ev with
  | EvAllow now => (breaker_allow now cb).2
  | EvSuccess => breaker_record_success cb
  | EvFailure now => breaker_record_failure now cb
  | EvReset => breaker_reset cb
  end.

(** A sequence of calls: the verdicts of its [allow]s and the final state. *)
Fixpoint breaker_run (evs : list breaker_event) (cb : CircuitBreaker)
    : list bool * CircuitBreaker :=
  match evs with
  | [] => ([], cb)
  | ev :: evs =>
      let '(vs, cb') := breaker_run evs (breaker_apply ev cb) in
      (match ev with EvAllow now => (breaker_allow now cb).1 :: vs | _ => vs end, cb')
  end.

(** Calls other than [record_failure] and [reset]. *)
Definition probe_event (ev : breaker_event) : bool :=
  match ev with EvAllow _ | EvSuccess => true | _ => false end.

Definition count_admitted (vs : list bool) : Z :=
  Z.of_nat (length (filter (fun v => v = true) vs)).

Inductive breaker_step : CircuitBreaker -> CircuitBreaker -> Prop :=
  | breaker_step_call ev cb : breaker_step cb (breaker_apply ev cb).

Definition breaker_reachable (cfg : CircuitBreakerConfig) : CircuitBreaker -> Prop :=
  rtc breaker_step (breaker_new cfg).

(** The automaton the counters implement. *)
Module Spec.
Inductive breaker :=
  | SClosed (failures : Z)
  | SOpen (since : Z)
  | SHalfOpen (admitted successes : Z).

Section Config.
Context (cfg : CircuitBreakerConfig).

Definition spec_allow (now : Z) (b : breaker) : bool * breaker :=
  match b with
  | SClosed n => (true, b)
  | SOpen since =>
      if as_millis_u64 (recovery_timeout cfg) <=? saturating_sub_u64 now since
      then (true, SHalfOpen 1 0) else (false, b)
  | SHalfOpen a k =>
      if a <? half_open_max_calls cfg then (true, SHalfOpen (a + 1) k) else (false, b)
  end.

Definition spec_success (b : breaker) : breaker :=
  match b with
  | SClosed _ => SClosed 0
  | SOpen since => SOpen since
  | SHalfOpen a k =>
      if half_open_max_calls cfg <=? k + 1 then SClosed 0 else SHalfOpen a (k + 1)
  end.

Definition spec_failure (now : Z) (b : breaker) : breaker :=
  match b with
  | SClosed n => if failure_threshold cfg <=? n + 1 then SOpen now else SClosed (n + 1)
  | SOpen _ | SHalfOpen _ _ => SOpen now
  end.

Definition spec_apply (ev : breaker_event) (b : breaker) : breaker :=
  match ev with
  | EvAllow now => (spec_allow now b).2
  | EvSuccess => spec_success b
  | EvFailure now => spec_failure now b
  | EvReset => SClosed 0
  end.

Fixpoint spec_run (evs : list breaker_event) (b : breaker) : list bool * breaker :=
  match evs with
  | [] => ([], b)
  | ev :: evs =>
      let '(vs, b') := spec_run evs (spec_apply ev b) in
      (match ev with EvAllow now => (spec_allow now b).1 :: vs | _ => vs end, b')
  end.
End Config.

Definition abs (cb : CircuitBreaker) : breaker :=
  let i := bk_inner cb in
  match breaker_get_state cb with
  | Closed => SClosed (bk_failure_count i)
  | Open => SOpen (bk_last_failure_time i)
  | HalfOpen => SHalfOpen (bk_half_open_admitted i) (bk_success_count i)
  end.
End Spec.
Import Spec.

(** ** Proofs *)

Ltac open_breaker cb :=
  destruct cb as [[st fc sc ha lf] [th rt mx]];
  cbn [bk_inner bk_config bk_state bk_failure_count bk_success_count
       bk_half_open_admitted bk_last_failure_time
       failure_threshold recovery_timeout half_open_max_calls fst snd] in *.

Ltac breaker_unfold :=
  unfold breaker_allow, breaker_record_success, breaker_record_failure, breaker_reset,
    breaker_get_state, breaker_new, STATE_CLOSED, STATE_OPEN, STATE_HALF_OPEN in *;
  cbn [bk_inner bk_config bk_state bk_failure_count bk_success_count
       bk_half_open_admitted bk_last_failure_time
       failure_threshold recovery_timeout half_open_max_calls fst snd] in *.

(** Decide every test of an operation by cases on its arithmetic. *)
Ltac breaker_cases :=
  breaker_unfold; zcases; subst; breaker_unfold; cbn [andb] in *;
  repeat (case_match; breaker_unfold); zcases;
  simplify_eq; breaker_unfold; try done; try lia.

Lemma breaker_apply_config ev cb : bk_config (breaker_apply ev cb) = bk_config cb.
Proof.
  destruct ev; cbn -[breaker_allow breaker_record_success breaker_record_failure breaker_reset];
    open_breaker cb; breaker_unfold; repeat case_match; done.
Qed.

Lemma breaker_inv_new cfg : config_ok cfg -> breaker_inv (breaker_new cfg).
Proof. intros [? ?]. split; cbn; unfold STATE_CLOSED, STATE_OPEN, STATE_HALF_OPEN in *; lia. Qed.

Lemma wrap_u64_succ x m : 0 <= x < Z.max 1 m -> u64 m -> wrap_u64 (x + 1) = x + 1.
Proof. unfold u64, U64_MAX. intros. apply wrap_u64_small. unfold u64, U64_MAX. lia. Qed.

(** Every call keeps a well-formed breaker well-formed. *)
Lemma breaker_inv_apply ev cb :
  config_ok (bk_config cb) -> breaker_inv cb -> breaker_inv (breaker_apply ev cb).
Proof.
  intros [Hth Hmx] [Htag Hf Hc Hs Ha]. open_breaker cb.
  unfold STATE_CLOSED, STATE_OPEN, STATE_HALF_OPEN in *.
  assert (Hwf : st = 0 -> wrap_u64 (fc + 1) = fc + 1)
    by (intros; apply (wrap_u64_succ fc th); lia || done).
  assert (Hws : st = 2 -> wrap_u64 (sc + 1) = sc + 1)
    by (intros; apply (wrap_u64_succ sc mx); lia || done).
  assert (Hwa : ha < mx -> st = 2 -> wrap_u64 (ha + 1) = ha + 1)
    by (intros; apply (wrap_u64_succ ha mx); lia || done).
  destruct ev; cbn -[breaker_allow breaker_record_success breaker_record_failure breaker_reset];
    breaker_unfold; zcases; subst; breaker_unfold; cbn [andb]; try lia;
    zcases; split; breaker_unfold; lia.
Qed.

(** The part of well-formedness that also fixes the configuration. *)
Definition breaker_wf (cb : CircuitBreaker) : Prop :=
  config_ok (bk_config cb) /\ breaker_inv cb.

Lemma breaker_wf_apply ev cb : breaker_wf cb -> breaker_wf (breaker_apply ev cb).
Proof.
  intros [Hc Hi]. split.
  - by rewrite breaker_apply_config.
  - by apply breaker_inv_apply.
Qed.

#[export] Instance CircuitBreaker_laws : CircuitBreakerLaws CircuitBreaker.
Proof.
  refine {| cb_wf := breaker_wf;
            wf_allow now := breaker_wf_apply (EvAllow now);
            wf_success := breaker_wf_apply EvSuccess;
            wf_failure now := breaker_wf_apply (EvFailure now);
            wf_reset := breaker_wf_apply EvReset |};
    cbn -[breaker_allow breaker_record_success breaker_record_failure breaker_reset
          breaker_get_state];
    intros *; try (intros [Hcfg [Htag _ _ _ _]]; revert Htag); open_breaker b;
    breaker_unfold; intros; breaker_cases.
Defined.

(** Well-formedness unfolded on an opened breaker, with the counters' updates
    known not to wrap. *)
Lemma breaker_wf_no_wrap cb : breaker_wf cb ->
  let i := bk_inner cb in
  (bk_state i = STATE_CLOSED -> wrap_u64 (bk_failure_count i + 1) = bk_failure_count i + 1) /\
  (bk_state i = STATE_HALF_OPEN -> wrap_u64 (bk_success_count i + 1) = bk_success_count i + 1) /\
  (bk_state i = STATE_HALF_OPEN ->
   bk_half_open_admitted i < half_open_max_calls (bk_config cb) ->
   wrap_u64 (bk_half_open_admitted i + 1) = bk_half_open_admitted i + 1).
Proof.
  intros [[Hth Hmx] [Htag Hf Hc Hs Ha]]. cbn. repeat split; intros.
  - apply (wrap_u64_succ _ (failure_threshold (bk_config cb))); auto with lia.
  - apply (wrap_u64_succ _ (half_open_max_calls (bk_config cb))); auto with lia.
  - apply (wrap_u64_succ _ (half_open_max_calls (bk_config cb))); auto. specialize (Ha H). lia.
Qed.

Lemma breaker_refines_step ev cb : breaker_wf cb ->
  abs (breaker_apply ev cb) = spec_apply (bk_config cb) ev (abs cb) /\
  (forall now, (breaker_allow now cb).1 = (spec_allow (bk_config cb) now (abs cb)).1).
Proof.
  intros Hwf. pose proof (breaker_wf_no_wrap cb Hwf) as (Hnf & Hns & Hna).
  destruct Hwf as [_ [Htag _ _ _ _]]. open_breaker cb. unfold abs.
  destruct ev; cbn -[breaker_allow breaker_record_success breaker_record_failure breaker_reset];
    breaker_unfold; destruct Htag as [-> | [-> | ->]]; breaker_unfold; cbn [Z.eqb Pos.eqb andb] in *;
    (split; [|intros t]); cbn;
    repeat (case_match; breaker_unfold; cbn in *); zcases; simplify_eq;
    rewrite ?Hnf, ?Hns, ?Hna in * by lia; done || lia.
Qed.

Lemma breaker_reachable_config cfg cb : breaker_reachable cfg cb -> bk_config cb = cfg.
Proof.
  unfold breaker_reachable. intros H.
  remember (breaker_new cfg) as b eqn:E. assert (Hb : bk_config b = cfg) by by subst.
  clear E. induction H as [|b b' b'' [ev ?] _ IH]; [done|].
  apply IH. by rewrite breaker_apply_config.
Qed.

Lemma breaker_run_app evs1 evs2 cb :
  breaker_run (evs1 ++ evs2) cb =
  let '(v1, cb1) := breaker_run evs1 cb in
  let '(v2, cb2) := breaker_run evs2 cb1 in (v1 ++ v2, cb2).
Proof.
  revert cb. induction evs1 as [|ev evs1 IH]; intros cb; cbn [breaker_run app].
  - by destruct (breaker_run evs2 cb).
  - rewrite IH. destruct (breaker_run evs1 _) as [v1 cb1].
    destruct (breaker_run evs2 cb1). by destruct ev.
Qed.

Lemma breaker_wf_run evs cb : breaker_wf cb ->
  breaker_wf (breaker_run evs cb).2 /\ bk_config (breaker_run evs cb).2 = bk_config cb.
Proof.
  revert cb. induction evs as [|ev evs IH]; intros cb Hwf; cbn [breaker_run]; [done|].
  destruct (IH _ (breaker_wf_apply ev cb Hwf)) as [H1 H2].
  destruct (breaker_run evs _) as [vs cb']. cbn in *. split; [done|].
  by rewrite H2, breaker_apply_config.
Qed.

(** One failure recorded in a closed breaker. *)
Lemma failure_closed_step now cb : breaker_wf cb -> breaker_get_state cb = Closed ->
  let cb' := breaker_record_failure now cb in
  bk_failure_count (bk_inner cb') = bk_failure_count (bk_inner cb) + 1 /\
  (breaker_get_state cb' =
     if failure_threshold (bk_config cb) <=? bk_failure_count (bk_inner cb) + 1
     then Open else Closed).
Proof.
  intros Hwf. pose proof (breaker_wf_no_wrap cb Hwf) as (Hnf & _ & _).
  destruct Hwf as [_ [Htag _ _ _ _]]. open_breaker cb. breaker_unfold.
  destruct Htag as [-> | [-> | ->]]; cbn [Z.eqb Pos.eqb]; [|done..].
  intros _. rewrite Hnf by done. zcases; cbn; split; done || lia.
Qed.

(** A failure recorded in an open breaker leaves it open. *)
Lemma failure_open_step now cb : breaker_wf cb -> breaker_get_state cb <> Closed ->
  breaker_get_state (breaker_record_failure now cb) = Open.
Proof.
  intros [_ [Htag _ _ _ _]]. open_breaker cb. breaker_unfold.
  destruct Htag as [-> | [-> | ->]]; done.
Qed.

Definition record_failures (ts : list Z) (cb : CircuitBreaker) : CircuitBreaker :=
  foldl (fun b t => breaker_record_failure t b) cb ts.

Lemma record_failures_open ts cb : breaker_wf cb -> breaker_get_state cb <> Closed ->
  ts <> [] -> breaker_get_state (record_failures ts cb) = Open.
Proof.
  revert cb. induction ts as [|t ts IH]; intros cb Hwf Hs Hne; [done|].
  cbn. pose proof (failure_open_step t cb Hwf Hs) as Ho.
  destruct ts as [|t' ts]; [done|].
  apply (IH (breaker_record_failure t cb)); [by apply (breaker_wf_apply (EvFailure t))| |done].
  by rewrite Ho.
Qed.

Lemma record_failures_from ts cb : breaker_wf cb -> breaker_get_state cb = Closed ->
  breaker_get_state (record_failures ts cb) =
  if (0 <? Z.of_nat (length ts)) &&
     (failure_threshold (bk_config cb) <=? bk_failure_count (bk_inner cb) + Z.of_nat (length ts))
  then Open else Closed.
Proof.
  revert cb. induction ts as [|t ts IH]; intros cb Hwf Hs; [done|].
  cbn [record_failures foldl length].
  destruct (failure_closed_step t cb Hwf Hs) as [Hc Ht].
  pose proof (breaker_wf_apply (EvFailure t) cb Hwf) as Hwf'.
  pose proof (breaker_apply_config (EvFailure t) cb) as Hcfg. cbn [breaker_apply] in *.
  fold (record_failures ts (breaker_record_failure t cb)).
  destruct (Z.leb_spec (failure_threshold (bk_config cb)) (bk_failure_count (bk_inner cb) + 1)).
  - transitivity Open; [|zcases; done || lia].
    destruct ts as [|t' ts]; [done|].
    apply record_failures_open; [done|by rewrite Ht|done].
  - rewrite IH, Hc, Hcfg by done. zcases; cbn [andb]; done || lia.
Qed.

(** While half-open (or open, waiting for its first probe), [allow]s and
    successes that do not close the breaker admit exactly what the admission
    counter says. *)
Definition admitted_so_far (cb : CircuitBreaker) : Z :=
  match breaker_get_state cb with
  | HalfOpen => bk_half_open_admitted (bk_inner cb)
  | _ => 0
  end.

Lemma probe_closed_stays evs cb : breaker_wf cb ->
  forallb probe_event evs -> breaker_get_state cb = Closed ->
  breaker_get_state (breaker_run evs cb).2 = Closed.
Proof.
  revert cb. induction evs as [|ev evs IH]; intros cb Hwf Hp Hs; cbn [breaker_run]; [done|].
  cbn in Hp. apply andb_prop_elim in Hp as [Hev Hp].
  specialize (IH _ (breaker_wf_apply ev cb Hwf) Hp).
  destruct (breaker_run evs _) as [vs cb']. cbn in *. apply IH.
  destruct Hwf as [_ [Htag _ _ _ _]]. destruct ev; try done; open_breaker cb;
    cbn -[breaker_allow breaker_record_success]; breaker_unfold;
    destruct Htag as [-> | [-> | ->]]; done.
Qed.

Lemma count_admitted_cons v vs :
  count_admitted (v :: vs) = (if v then 1 else 0) + count_admitted vs.
Proof.
  unfold count_admitted. rewrite filter_cons.
  destruct v; case_decide; try done; cbn [length]; lia.
Qed.

Lemma probe_admitted evs cb : breaker_wf cb ->
  forallb probe_event evs -> breaker_get_state cb <> Closed ->
  let '(vs, cb') := breaker_run evs cb in
  breaker_get_state cb' <> Closed ->
  admitted_so_far cb + count_admitted vs = admitted_so_far cb'.
Proof.
  revert cb. induction evs as [|ev evs IH]; intros cb Hwf Hp Hs; cbn [breaker_run].
  { unfold count_admitted. cbn. lia. }
  cbn in Hp. apply andb_prop_elim in Hp as [Hev Hp].
  pose proof (breaker_wf_apply ev cb Hwf) as Hwf'.
  destruct (decide (breaker_get_state (breaker_apply ev cb) = Closed)) as [Hcl|Hcl].
  { pose proof (probe_closed_stays evs _ Hwf' Hp Hcl).
    by destruct (breaker_run evs _) as [vs cb']. }
  specialize (IH _ Hwf' Hp Hcl).
  destruct (breaker_run evs _) as [vs cb']. intros Hcl'. specialize (IH Hcl').
  rewrite <- IH. clear IH Hwf' Hcl' Hp cb' evs.
  pose proof (breaker_wf_no_wrap cb Hwf) as (_ & _ & Hna).
  destruct Hwf as [_ [Htag _ _ _ _]].
  destruct ev; try done; [rewrite count_admitted_cons|];
    unfold admitted_so_far; open_breaker cb; revert Hcl Hs;
    cbn -[breaker_allow breaker_record_success]; breaker_unfold;
    destruct Htag as [-> | [-> | ->]]; try done; cbn [Z.eqb Pos.eqb andb] in *;
    zcases; cbn in *; rewrite ?Hna by lia; try done; lia.
Qed.

(** One call on a half-open breaker: it stays half-open and the call uses up a
    probe, or none is left and nothing changes. *)
Lemma half_open_allow now cb : breaker_wf cb -> breaker_get_state cb = HalfOpen ->
  let '(ok, cb') := breaker_allow now cb in
  breaker_get_state cb' = HalfOpen /\ bk_config cb' = bk_config cb /\
  Z.min (half_open_max_calls (bk_config cb)) (bk_half_open_admitted (bk_inner cb) + 1)
    <= bk_half_open_admitted (bk_inner cb') /\
  (half_open_max_calls (bk_config cb) <= bk_half_open_admitted (bk_inner cb) ->
     ok = false /\ cb' = cb).
Proof.
  intros Hwf. pose proof (breaker_wf_no_wrap cb Hwf) as Hnw.
  destruct Hwf as [_ [Htag _ _ _ _]]. open_breaker cb. breaker_unfold.
  destruct Htag as [-> | [-> | ->]]; try done. cbn [Z.eqb Pos.eqb andb]. intros _.
  destruct Hnw as (_ & _ & Hadm).
  match goal with |- context [?a <? ?q] => destruct (Z.ltb_spec a q) as [Hlt|Hge] end; cbn.
  - cbn in Hadm. rewrite Hadm by done. split_and!; try done; lia.
  - split_and!; try done; lia.
Qed.

(** ** Properties *)

(** Every breaker that calls of the trait can produce from
    [CircuitBreaker::new] is well-formed: its tag is one of the three states,
    a closed breaker has counted fewer failures than its threshold, and a
    half-open one has admitted at least one probe, no more than its quota,
    and counted fewer successes than the quota. *)
Theorem breaker_reachable_inv cfg cb :
  config_ok cfg -> breaker_reachable cfg cb -> breaker_inv cb.
Proof.
  intros Hcfg Hr. apply (proj2 (A := config_ok (bk_config cb))).
  change (breaker_wf cb). unfold breaker_reachable in Hr.
  assert (Hwf : breaker_wf (breaker_new cfg)) by (split; [done|by apply breaker_inv_new]).
  induction Hr as [|b b' b'' [ev ?] _ IH]; [done|]. apply IH. by apply breaker_wf_apply.
Qed.

(** C17: The mutex-guarded counters refine the three-state automaton [Spec]:
    from any well-formed breaker, any sequence of calls gives the automaton's
    verdicts and ends in a breaker that abstracts to the automaton's state. *)
Theorem breaker_refines_automaton evs cb : breaker_wf cb ->
  let '(vs, cb') := breaker_run evs cb in
  spec_run (bk_config cb) evs (abs cb) = (vs, abs cb').
Proof.
  revert cb. induction evs as [|ev evs IH]; intros cb Hwf; cbn [breaker_run spec_run]; [done|].
  destruct (breaker_refines_step ev cb Hwf) as [Hs Hv].
  specialize (IH _ (breaker_wf_apply ev cb Hwf)).
  rewrite breaker_apply_config, Hs in IH.
  destruct (breaker_run evs _) as [vs cb']. rewrite IH.
  destruct ev; [|done..]. by rewrite Hv.
Qed.

(** A fresh breaker opens at exactly the configured number of consecutive
    failures (a threshold of [0] acts as [1]), whenever they happen. *)
Theorem breaker_opens_at_threshold cfg ts : config_ok cfg ->
  breaker_get_state (record_failures ts (breaker_new cfg)) =
  if Z.max 1 (failure_threshold cfg) <=? Z.of_nat (length ts) then Open else Closed.
Proof.
  intros Hcfg. rewrite record_failures_from; [|split; [done|by apply breaker_inv_new]|done].
  cbn. zcases; cbn [andb]; done || lia.
Qed.

(** An open breaker rejects a call, leaving its state alone, until the
    recovery timeout has passed since the last failure; the first call after
    that is admitted as the first of a fresh round of probes. *)
Theorem breaker_open_recovery now cb : breaker_wf cb -> breaker_get_state cb = Open ->
  let elapsed := saturating_sub_u64 now (bk_last_failure_time (bk_inner cb)) in
  let timeout := as_millis_u64 (recovery_timeout (bk_config cb)) in
  (elapsed < timeout -> breaker_allow now cb = (false, cb)) /\
  (timeout <= elapsed ->
   exists cb', breaker_allow now cb = (true, cb') /\ abs cb' = SHalfOpen 1 0).
Proof.
  intros [_ [Htag _ _ _ _]]. open_breaker cb. unfold abs. breaker_unfold.
  destruct Htag as [-> | [-> | ->]]; try done. intros _. cbn [Z.eqb Pos.eqb].
  split; intros; zcases; try lia; [done|]. eexists. by split.
Qed.

(** Between leaving the open state and closing again a breaker admits at
    most its quota of probes, however calls and reported successes are
    interleaved and whatever the clock says. *)
Theorem breaker_half_open_admission_bound evs cb :
  breaker_wf cb -> breaker_get_state cb = Open -> forallb probe_event evs ->
  let '(vs, cb') := breaker_run evs cb in
  breaker_get_state cb' <> Closed ->
  count_admitted vs <= Z.max 1 (half_open_max_calls (bk_config cb)).
Proof.
  intros Hwf Ho Hp. pose proof (breaker_wf_run evs cb Hwf) as [[_ Hwf'] Hcfg].
  pose proof (probe_admitted evs cb Hwf Hp ltac:(by rewrite Ho)) as Ha.
  destruct (breaker_run evs cb) as [vs cb']. cbn [snd] in *. intros Hcl.
  specialize (Ha Hcl). unfold admitted_so_far in Ha. rewrite Ho in Ha.
  destruct Hwf' as [Htag _ _ _ Hadm]. rewrite <- Hcfg.
  destruct (breaker_get_state cb') eqn:E; [done|lia|].
  assert (bk_state (bk_inner cb') = STATE_HALF_OPEN).
  { revert E. unfold breaker_get_state. zcases; done. }
  specialize (Hadm H). lia.
Qed.

(** A half-open breaker whose probe quota is used up admits no further
    call at any later time and [allow] never changes it again: only an
    outcome reported for an admitted probe, or a reset, frees it. *)
Theorem breaker_exhausted_stuck ts cb :
  breaker_get_state cb = HalfOpen ->
  half_open_max_calls (bk_config cb) <= bk_half_open_admitted (bk_inner cb) ->
  breaker_run (EvAllow <$> ts) cb = (replicate (length ts) false, cb).
Proof.
  intros Hs Hex. induction ts as [|t ts IH]; [done|].
  assert (Hd : breaker_allow t cb = (false, cb)).
  { revert Hs Hex. open_breaker cb. breaker_unfold. zcases; subst; cbn; try done; lia. }
  rewrite fmap_cons. cbn [breaker_run breaker_apply length replicate].
  rewrite Hd. cbn [fst snd]. by rewrite IH.
Qed.

(** A success reported late by a call admitted while the breaker was still
    closed counts as a probe success: with a quota of one it closes the
    breaker although the one admitted probe has not answered yet. *)
Theorem breaker_stale_success_closes cb : breaker_wf cb ->
  breaker_get_state cb = HalfOpen -> half_open_max_calls (bk_config cb) <= 1 ->
  breaker_get_state (breaker_record_success cb) = Closed.
Proof.
  intros Hwf. pose proof (breaker_wf_no_wrap cb Hwf) as (_ & Hns & _).
  destruct Hwf as [_ [Htag _ _ Hs _]]. open_breaker cb. breaker_unfold.
  destruct Htag as [-> | [-> | ->]]; try done. cbn [Z.eqb Pos.eqb].
  intros _ Hq. rewrite Hns by done. zcases; cbn; done || lia.
Qed.

(** ** Witnesses *)

Definition demo_config : CircuitBreakerConfig :=
  {| failure_threshold := 1; recovery_timeout := 10 ^ 6; half_open_max_calls := 1 |}.

Definition demo_open : CircuitBreaker := breaker_record_failure 5 (breaker_new demo_config).

Lemma demo_config_ok : config_ok demo_config.
Proof. split; unfold u64, U64_MAX; cbn; lia. Defined.

Lemma demo_open_wf : breaker_wf demo_open.
Proof.
  apply (breaker_wf_apply (EvFailure 5)). split; [apply demo_config_ok|].
  apply breaker_inv_new, demo_config_ok.
Defined.

Lemma breaker_reachable_inv_witness : breaker_inv demo_open.
Proof.
  apply (breaker_reachable_inv demo_config); [apply demo_config_ok|].
  eapply rtc_l; [apply (breaker_step_call (EvFailure 5))|apply rtc_refl].
Defined.

Lemma breaker_refines_automaton_witness :
  spec_run demo_config [EvAllow 5; EvAllow 6; EvSuccess; EvAllow 7] (SOpen 5) =
  ([false; true; true], SClosed 0).
Proof.
  exact (breaker_refines_automaton [EvAllow 5; EvAllow 6; EvSuccess; EvAllow 7]
           demo_open demo_open_wf).
Defined.

Lemma breaker_opens_at_threshold_witness :
  breaker_get_state (record_failures [3; 9] (breaker_new demo_config)) = Open.
Proof. exact (breaker_opens_at_threshold demo_config [3; 9] demo_config_ok). Defined.

Lemma breaker_open_recovery_witness :
  breaker_allow 5 demo_open = (false, demo_open) /\
  exists cb', breaker_allow 6 demo_open = (true, cb') /\ abs cb' = SHalfOpen 1 0.
Proof.
  split.
  - apply (breaker_open_recovery 5 demo_open); [apply demo_open_wf|done|done].
  - apply (breaker_open_recovery 6 demo_open); [apply demo_open_wf|done|done].
Defined.

Lemma breaker_half_open_admission_bound_witness :
  count_admitted [true; false; false] <= 1.
Proof.
  exact (breaker_half_open_admission_bound [EvAllow 6; EvAllow 8; EvAllow 9] demo_open
    demo_open_wf eq_refl I ltac:(done)).
Defined.

Lemma breaker_exhausted_stuck_witness :
  let half := (breaker_allow 6 demo_open).2 in
  breaker_run (EvAllow <$> [7; 10 ^ 9]) half = ([false; false], half).
Proof. apply (breaker_exhausted_stuck [7; 10 ^ 9]); done. Defined.

Lemma breaker_stale_success_closes_witness :
  breaker_get_state (breaker_record_success (breaker_allow 6 demo_open).2) = Closed.
Proof.
  apply breaker_stale_success_closes; [apply (breaker_wf_apply (EvAllow 6)), demo_open_wf|done|done].
Defined.
