(* ===== verification/TokenBucket.v ===== *)
(** * The lock-free token bucket
    (src/crates/himadri-ratelimit/src/token_bucket.rs, [TokenBucket])

    The sequential operations come first, with the monotonic microsecond
    clock [now_micros()] as an argument. [Concurrent] then splits one call of
    [allow_n] into the atomic accesses it makes (the load of [last_refill],
    its compare-exchange, the two [fetch_update]s on [tokens]) and lets any
    number of threads interleave them. *)

From S2P Require Import Prelude.

(** ** The bucket and its sequential operations *)

Record TokenBucket := {
  tb_tokens : Z;
  tb_last_refill : Z;
  tb_rate : Z;
  tb_capacity : Z;
}.

Definition token_bucket_new (now rate capacity : Z) : TokenBucket :=
  {| tb_tokens := capacity; tb_last_refill := now;
     tb_rate := rate; tb_capacity := capacity |}.

(** The tokens earned between two clock readings. *)
Definition refill_credit (now last rate : Z) : Z :=
  saturating_mul_u64 (saturating_sub_u64 now last) rate / 1000000.

(** The [fetch_update] closure of [refill]. *)
Definition credit_tokens (credit capacity cur : Z) : Z :=
  Z.min (saturating_add_u64 cur credit) capacity.

Definition token_bucket_refill (now : Z) (b : TokenBucket) : TokenBucket :=
  let credit := refill_credit now (tb_last_refill b) (tb_rate b) in
  if credit =? 0 then b
  else {| tb_tokens := credit_tokens credit (tb_capacity b) (tb_tokens b);
          tb_last_refill := now;
          tb_rate := tb_rate b; tb_capacity := tb_capacity b |}.

Definition token_bucket_allow_n (now n : Z) (b : TokenBucket) : bool * TokenBucket :=
  let b := token_bucket_refill now b in
  match checked_sub_u64 (tb_tokens b) n with
  | Some rest => (true, {| tb_tokens := rest; tb_last_refill := tb_last_refill b;
                           tb_rate := tb_rate b; tb_capacity := tb_capacity b |})
  | None => (false, b)
  end.

Definition token_bucket_allow (now : Z) (b : TokenBucket) : bool * TokenBucket :=
  token_bucket_allow_n now 1 b.

Record bucket_wf (b : TokenBucket) : Prop := {
  wf_tokens : 0 <= tb_tokens b <= tb_capacity b;
  wf_capacity : u64 (tb_capacity b);
  wf_rate : u64 (tb_rate b);
  wf_last : u64 (tb_last_refill b);
}.

(** A sequence of single-token checks at the given times. *)
Fixpoint bucket_checks (times : list Z) (b : TokenBucket) : Z * TokenBucket :=
  match times with
  | [] => (0, b)
  | t :: times =>
      let '(ok, b') := token_bucket_allow t b in
      let '(k, b'') := bucket_checks times b' in
      ((if ok then 1 else 0) + k, b'')
  end.

(** ** Interleaved calls *)

Module Concurrent.

(** Where a thread is inside [allow_n]. *)
Inductive pc :=
  | Idle
  | Clocked (n now : Z)
  | Loaded (n now last : Z)
  | Won (n credit : Z)
  | Consuming (n : Z).

(** The shared atomics and the threads; [granted] and [admitted] are ghosts
    that add up the credits of the compare-exchange winners and the tokens
    handed to callers. *)
Record sys := {
  tokens : Z;
  last_refill : Z;
  threads : list pc;
  granted : Z;
  admitted : Z;
}.

Section Bucket.
Context (rate capacity : Z).

(** [horizon] bounds every clock reading of the run. *)
Inductive step (horizon : Z) : sys -> sys -> Prop :=
  | step_call s i n now :
      threads s !! i = Some Idle -> u64 n -> u64 now -> now <= horizon ->
      step horizon s
        {| tokens := tokens s; last_refill := last_refill s;
           threads := <[i := Clocked n now]> (threads s);
           granted := granted s; admitted := admitted s |}
  | step_load s i n now :
      threads s !! i = Some (Clocked n now) ->
      step horizon s
        {| tokens := tokens s; last_refill := last_refill s;
           threads := <[i := if refill_credit now (last_refill s) rate =? 0
                             then Consuming n
                             else Loaded n now (last_refill s)]> (threads s);
           granted := granted s; admitted := admitted s |}
  | step_cas_win s i n now last :
      threads s !! i = Some (Loaded n now last) -> last_refill s = last ->
      step horizon s
        {| tokens := tokens s; last_refill := now;
           threads := <[i := Won n (refill_credit now last rate)]> (threads s);
           granted := granted s + refill_credit now last rate;
           admitted := admitted s |}
  | step_cas_lose s i n now last :
      threads s !! i = Some (Loaded n now last) -> last_refill s <> last ->
      step horizon s
        {| tokens := tokens s; last_refill := last_refill s;
           threads := <[i := Consuming n]> (threads s);
           granted := granted s; admitted := admitted s |}
  | step_credit s i n credit :
      threads s !! i = Some (Won n credit) ->
      step horizon s
        {| tokens := credit_tokens credit capacity (tokens s);
           last_refill := last_refill s;
           threads := <[i := Consuming n]> (threads s);
           granted := granted s; admitted := admitted s |}
  | step_admit s i n rest :
      threads s !! i = Some (Consuming n) ->
      checked_sub_u64 (tokens s) n = Some rest ->
      step horizon s
        {| tokens := rest; last_refill := last_refill s;
           threads := <[i := Idle]> (threads s);
           granted := granted s; admitted := admitted s + n |}
  | step_deny s i n :
      threads s !! i = Some (Consuming n) ->
      checked_sub_u64 (tokens s) n = None ->
      step horizon s
        {| tokens := tokens s; last_refill := last_refill s;
           threads := <[i := Idle]> (threads s);
           granted := granted s; admitted := admitted s |}.

Definition init (start : Z) (k : nat) : sys :=
  {| tokens := capacity; last_refill := start; threads := replicate k Idle;
     granted := 0; admitted := 0 |}.

(** The bucket as one thread sees it between calls. *)
Definition to_bucket (s : sys) : TokenBucket :=
  {| tb_tokens := tokens s; tb_last_refill := last_refill s;
     tb_rate := rate; tb_capacity := capacity |}.

(** Credits granted but not yet added to [tokens]. *)
Definition pending_of (p : pc) : Z := match p with Won _ c => c | _ => 0 end.
Fixpoint pending (ts : list pc) : Z :=
  match ts with [] => 0 | p :: ts => pending_of p + pending ts end.

(** What a thread's saved values satisfy. *)
Definition pc_ok (horizon : Z) (p : pc) : Prop :=
  match p with
  | Idle => True
  | Clocked n now => u64 n /\ u64 now /\ now <= horizon
  | Loaded n now last =>
      u64 n /\ u64 now /\ now <= horizon /\ refill_credit now last rate <> 0
  | Won n c => u64 n /\ 0 <= c
  | Consuming n => u64 n
  end.

Record inv (start horizon : Z) (s : sys) : Prop := {
  inv_tokens : 0 <= tokens s <= capacity;
  inv_last : start <= last_refill s <= Z.max start horizon;
  inv_threads : Forall (pc_ok horizon) (threads s);
  inv_balance : tokens s + admitted s + pending (threads s) <= capacity + granted s;
  inv_granted : 0 <= granted s /\ 1000000 * granted s <= (last_refill s - start) * rate;
}.
End Bucket.
End Concurrent.
Import Concurrent.

(** ** Sequential proofs *)

Lemma refill_credit_bounds now last rate : u64 rate ->
  0 <= refill_credit now last rate /\
  1000000 * refill_credit now last rate <= Z.max (now - last) 0 * rate.
Proof.
  unfold u64, refill_credit, saturating_mul_u64, saturating_sub_u64. intros Hr.
  set (x := Z.min (Z.max (now - last) 0 * rate) U64_MAX).
  assert (0 <= x <= Z.max (now - last) 0 * rate) by (unfold x; unfold U64_MAX in *; nia).
  split; [apply Z.div_pos; lia|].
  pose proof (Z.mul_div_le x 1000000 ltac:(lia)). lia.
Qed.

Lemma refill_credit_later now last rate : u64 rate ->
  refill_credit now last rate <> 0 -> last < now.
Proof.
  intros Hr Hne. pose proof (refill_credit_bounds now last rate Hr) as [H0 H1].
  destruct (Z.lt_ge_cases last now); [done|]. rewrite Z.max_r in H1 by lia. lia.
Qed.

Lemma credit_tokens_range credit capacity cur :
  0 <= cur <= capacity -> 0 <= credit -> u64 capacity ->
  cur <= credit_tokens credit capacity cur <= capacity /\
  credit_tokens credit capacity cur <= cur + credit.
Proof. unfold u64, credit_tokens, saturating_add_u64. lia. Qed.

#[export] Hint Resolve refill_credit_bounds credit_tokens_range : himadri.

Lemma token_bucket_new_wf now rate capacity :
  u64 now -> u64 rate -> u64 capacity -> bucket_wf (token_bucket_new now rate capacity).
Proof. intros ? ? Hc. split; cbn; try done. unfold u64 in Hc. lia. Qed.

Lemma token_bucket_refill_spec now b : u64 now -> bucket_wf b ->
  let b' := token_bucket_refill now b in
  bucket_wf b' /\ tb_rate b' = tb_rate b /\ tb_capacity b' = tb_capacity b /\
  tb_last_refill b <= tb_last_refill b' <= Z.max (tb_last_refill b) now /\
  tb_tokens b <= tb_tokens b' /\
  1000000 * (tb_tokens b' - tb_tokens b) <= (tb_last_refill b' - tb_last_refill b) * tb_rate b.
Proof.
  intros Hn [Ht Hc Hr Hl]. unfold token_bucket_refill.
  pose proof (refill_credit_bounds now (tb_last_refill b) (tb_rate b) Hr) as [H0 H1].
  destruct (Z.eqb_spec (refill_credit now (tb_last_refill b) (tb_rate b)) 0) as [|Hne]; cbn;
    [unfold u64 in *; repeat split; cbn; done || lia|].
  pose proof (refill_credit_later _ _ _ Hr Hne).
  pose proof (credit_tokens_range _ _ _ Ht H0 Hc).
  rewrite Z.max_l in H1 by lia. unfold u64 in *. repeat split; cbn; try done; try lia.
Qed.

Lemma token_bucket_allow_n_spec now n b : u64 now -> 0 <= n -> bucket_wf b ->
  let '(ok, b') := token_bucket_allow_n now n b in
  let r := token_bucket_refill now b in
  bucket_wf b' /\ tb_rate b' = tb_rate b /\ tb_capacity b' = tb_capacity b /\
  tb_last_refill b' = tb_last_refill r /\
  (ok = true <-> n <= tb_tokens r) /\
  tb_tokens b' = tb_tokens r - (if ok then n else 0).
Proof.
  intros Hn Hn0 Hwf. unfold token_bucket_allow_n. cbn zeta.
  destruct (token_bucket_refill_spec now b Hn Hwf) as ([Ht Hc Hr Hl] & Er & Ec & _).
  destruct (checked_sub_u64 _ n) eqn:E.
  - apply checked_sub_u64_Some in E as [Hle ->].
    unfold u64 in *. repeat split; cbn; intros; try done; lia.
  - apply checked_sub_u64_None in E. unfold u64 in *. repeat split; cbn; intros; try done; lia.
Qed.

(** ** Interleaving proofs *)

Section Proofs.
Context (rate capacity start horizon : Z).
Context (Hrate : u64 rate) (Hcap : u64 capacity).
Abbreviation step := (Concurrent.step rate capacity horizon).
Abbreviation inv := (Concurrent.inv rate capacity start horizon).

Lemma pending_nonneg ts : Forall (pc_ok rate horizon) ts -> 0 <= pending ts.
Proof.
  induction 1 as [|p ts Hp _ IH]; cbn; [lia|].
  destruct p; cbn in *; lia.
Qed.

Lemma pending_insert ts i p p' : ts !! i = Some p ->
  pending (<[i := p']> ts) = pending ts - pending_of p + pending_of p'.
Proof.
  revert i. induction ts as [|q ts IH]; intros [|i] Hi; [done|done| |].
  - cbn in *. simplify_eq. lia.
  - change (<[S i:=p']> (q :: ts)) with (q :: <[i:=p']> ts).
    cbn [pending]. rewrite (IH i) by done. lia.
Qed.

Lemma pending_replicate_idle k : pending (replicate k Idle) = 0.
Proof. induction k; cbn; lia. Qed.

Lemma bucket_inv_init k : inv (init capacity start k).
Proof.
  unfold u64 in *. split; cbn; try lia.
  - by apply Forall_replicate.
  - rewrite pending_replicate_idle. lia.
Qed.

Lemma bucket_inv_step s s' : inv s -> step s s' -> inv s'.
Proof.
  intros [Ht Hl Hts Hb Hg] Hs.
  assert (Hpc : forall i p, threads s !! i = Some p -> pc_ok rate horizon p)
    by (intros; by eapply Forall_lookup_1).
  destruct Hs as [s i n now Hi|s i n now Hi|s i n now last Hi|s i n now last Hi
                 |s i n credit Hi|s i n rest Hi Hc|s i n Hi Hc];
    pose proof (Hpc _ _ Hi) as Hp; cbn in Hp;
    split; cbn; rewrite ?(pending_insert _ _ _ _ Hi); cbn;
    try (apply Forall_insert; [done|]; cbn); try done; try lia; zcases; cbn; try done; try lia.
  all: try (split; [tauto|]).
  all: try (pose proof (refill_credit_later _ _ _ Hrate (proj2 (proj2 (proj2 Hp))))).
  all: try (pose proof (refill_credit_bounds now last rate Hrate)).
  all: try (pose proof (credit_tokens_range credit capacity (tokens s) Ht (proj2 Hp) Hcap)).
  all: try (apply checked_sub_u64_Some in Hc as [? ->]); unfold u64 in *; try tauto; try lia.
Qed.

Lemma bucket_inv_steps s s' : inv s -> rtc step s s' -> inv s'.
Proof. intros Hi Hr. induction Hr; [done|]. eauto using bucket_inv_step. Qed.
End Proofs.

(** ** Termination of the calls in flight *)

(** How many accesses a call has still to make, at most. *)
Definition accesses_left (p : pc) : nat :=
  match p with
  | Idle => 0 | Clocked _ _ => 4 | Loaded _ _ _ => 3 | Won _ _ => 2 | Consuming _ => 1
  end.

Definition accesses (ts : list pc) : nat := sum_list (accesses_left <$> ts).

(** A step in which no thread makes a new call. *)
Definition resume (rate capacity horizon : Z) (s s' : sys) : Prop :=
  Concurrent.step rate capacity horizon s s' /\
  forall i, threads s !! i = Some Idle -> threads s' !! i = Some Idle.

Lemma accesses_insert ts i p p' : ts !! i = Some p -> (accesses_left p' < accesses_left p)%nat ->
  (accesses (<[i := p']> ts) < accesses ts)%nat.
Proof.
  unfold accesses. revert i. induction ts as [|q ts IH]; intros [|i] Hi Hlt; [done|done| |].
  - cbn in *. simplify_eq. lia.
  - change (<[S i:=p']> (q :: ts)) with (q :: <[i:=p']> ts). cbn in *.
    specialize (IH _ Hi Hlt). lia.
Qed.

Lemma resume_accesses rate capacity horizon s s' : resume rate capacity horizon s s' ->
  (accesses (threads s') < accesses (threads s))%nat.
Proof.
  intros [Hs Hidle].
  destruct Hs as [s i n now Hi|s i n now Hi|s i n now last Hi|s i n now last Hi
                 |s i n credit Hi|s i n rest Hi|s i n Hi]; cbn in Hidle |- *;
    [specialize (Hidle i Hi); rewrite list_lookup_insert_eq in Hidle by eauto using lookup_lt_Some; done| ..];
    eapply accesses_insert; try done; cbn; try lia.
  case_match; cbn; lia.
Qed.

Lemma resume_inserted rate capacity horizon s s' i p p' : Concurrent.step rate capacity horizon s s' ->
  threads s !! i = Some p -> p <> Idle -> threads s' = <[i := p']> (threads s) ->
  resume rate capacity horizon s s'.
Proof.
  intros Hs Hi Hp Ht. split; [done|]. intros j Hj. rewrite Ht.
  destruct (decide (i = j)) as [->|Hne]; [congruence|]. by rewrite list_lookup_insert_ne.
Qed.

Lemma resume_enabled rate capacity horizon s i p : threads s !! i = Some p -> p <> Idle ->
  exists s', resume rate capacity horizon s s'.
Proof.
  intros Hi Hp.
  assert (exists s' p', Concurrent.step rate capacity horizon s s' /\
            threads s' = <[i := p']> (threads s)) as (s' & p' & Hs & Ht);
    [|exists s'; by eapply resume_inserted].
  destruct p as [|n now|n now last|n credit|n]; [done| | | |].
  - eexists _, _. split; [by eapply step_load|done].
  - destruct (decide (last_refill s = last)).
    + eexists _, _. split; [by eapply step_cas_win|done].
    + eexists _, _. split; [by eapply step_cas_lose|done].
  - eexists _, _. split; [by eapply step_credit|done].
  - destruct (checked_sub_u64 (tokens s) n) eqn:E.
    + eexists _, _. split; [by eapply step_admit|done].
    + eexists _, _. split; [by eapply step_deny|done].
Qed.

(** However the threads are scheduled, once no new calls are made the calls
    in flight end: there is no infinite run, a run has at most four accesses for
    each thread, and where nothing can move any more every call has returned. *)
Theorem calls_finish rate capacity horizon s :
  sn (resume rate capacity horizon) s /\
  (forall n s', nsteps (resume rate capacity horizon) n s s' ->
     (n <= 4 * length (threads s))%nat) /\
  (forall s', rtc (resume rate capacity horizon) s s' -> nf (resume rate capacity horizon) s' ->
     Forall (eq Idle) (threads s')).
Proof.
  split_and!.
  - apply (wf_projected (fun m n => (m < n)%nat) (fun s => accesses (threads s))); [|apply lt_wf].
    intros s1 s2. apply resume_accesses.
  - intros n s' Hn. cut (n + accesses (threads s') <= accesses (threads s))%nat.
    + cut (accesses (threads s) <= 4 * length (threads s))%nat; [lia|].
      unfold accesses. induction (threads s) as [|p ts IH]; cbn; [done|]. destruct p; cbn; lia.
    + induction Hn as [|n s1 s2 s3 H12%resume_accesses _ IH]; cbn; lia.
  - intros s' _ Hnf. apply Forall_forall. intros p Hp. apply list_elem_of_lookup in Hp as [i Hi].
    destruct p; [done| | | |]; destruct Hnf; by eapply resume_enabled.
Qed.

(** With no refill rate there are no credits, so nothing is ever lost either. *)
Lemma zero_rate_step capacity horizon s s' :
  Concurrent.step 0 capacity horizon s s' ->
  Forall (fun p => match p with Won _ _ | Loaded _ _ _ => False | _ => True end) (threads s) ->
  Forall (fun p => match p with Won _ _ | Loaded _ _ _ => False | _ => True end) (threads s') /\
  tokens s' + admitted s' = tokens s + admitted s.
Proof.
  intros Hs Hf.
  assert (Hz : forall t0 t1, refill_credit t0 t1 0 = 0).
  { intros t0 t1. pose proof (refill_credit_bounds t0 t1 0 ltac:(done)). lia. }
  destruct Hs as [s i n now Hi|s i n now Hi|s i n now last Hi|s i n now last Hi
                 |s i n credit Hi|s i n rest Hi Hc|s i n Hi Hc]; cbn;
    pose proof (Forall_lookup_1 _ _ _ _ Hf Hi) as Hp; cbn in Hp; try done;
    (split; [apply Forall_insert; [done|]; rewrite ?Hz|]; cbn; try done).
  apply checked_sub_u64_Some in Hc. lia.
Qed.

Lemma bucket_checks_spec T times b : bucket_wf b -> u64 T ->
  Forall (fun t => u64 t /\ t <= T) times ->
  let '(k, b') := bucket_checks times b in
  bucket_wf b' /\ tb_rate b' = tb_rate b /\
  tb_last_refill b <= tb_last_refill b' <= Z.max (tb_last_refill b) T /\
  1000000 * (k + tb_tokens b' - tb_tokens b) <=
    (tb_last_refill b' - tb_last_refill b) * tb_rate b.
Proof.
  intros Hwf HT Hts. revert b Hwf.
  induction Hts as [|t ts [Ht HtT] _ IH]; intros b Hwf; cbn [bucket_checks].
  { split; [done|]. split; [done|]. lia. }
  pose proof (token_bucket_allow_n_spec t 1 b Ht ltac:(lia) Hwf) as Ha.
  pose proof (token_bucket_refill_spec t b Ht Hwf) as (_ & _ & _ & Hl & _ & Hc).
  unfold token_bucket_allow. destruct (token_bucket_allow_n t 1 b) as [ok b1].
  destruct Ha as (Hwf1 & Hr & _ & Hl1 & _ & Htk). specialize (IH b1 Hwf1).
  destruct (bucket_checks ts b1) as [k b2].
  destruct IH as (Hwf2 & Hr2 & Hl2 & Hk). rewrite Hr in *.
  split; [done|]. split; [done|]. split; [lia|]. destruct ok; lia.
Qed.

Lemma bucket_level_bound T times b : bucket_wf b -> u64 T ->
  tb_last_refill b <= T -> Forall (fun t => u64 t /\ t <= T) times ->
  (bucket_checks times b).1 <=
    tb_tokens b + (T - tb_last_refill b) * tb_rate b / 1000000.
Proof.
  intros Hwf HT Hl Hts. pose proof (bucket_checks_spec T times b Hwf HT Hts) as H.
  destruct (bucket_checks times b) as [k b']. destruct H as ([[? ?] _ _ _] & Hr & Hl' & Hk).
  destruct Hwf as [_ _ Hrate _]. unfold u64 in Hrate. cbn.
  assert (k - tb_tokens b <= (T - tb_last_refill b) * tb_rate b / 1000000); [|lia].
  apply Z.div_le_lower_bound; [lia|]. nia.
Qed.

(** ** Properties *)

(** C16: Under every interleaving of any number of threads calling [allow_n],
    the counter stays between zero and the capacity and the tokens admitted
    so far never exceed the capacity plus what the rate earns up to the
    latest clock reading: no race consumes a token twice, wraps the counter
    or credits one interval twice. *)
Theorem concurrent_admission_bound rate capacity start horizon k s :
  u64 rate -> u64 capacity ->
  rtc (Concurrent.step rate capacity horizon) (init capacity start k) s ->
  0 <= tokens s <= capacity /\
  admitted s <= capacity + (Z.max start horizon - start) * rate / 1000000.
Proof.
  intros Hr Hc Hrun.
  destruct (bucket_inv_steps rate capacity start horizon Hr Hc _ _
              (bucket_inv_init rate capacity start horizon Hc k) Hrun)
    as [Ht Hl Hts Hb [Hg0 Hg]].
  split; [done|]. pose proof (pending_nonneg rate horizon _ Hts).
  assert (granted s <= (Z.max start horizon - start) * rate / 1000000); [|lia].
  unfold u64 in Hr. apply Z.div_le_lower_bound; [lia|]. nia.
Qed.

(** With a zero refill rate the tokens are conserved under every
    interleaving, so a burst admits exactly the capacity: a request for [n]
    tokens is refused only when fewer than [n] of the capacity are left. *)
Theorem concurrent_zero_rate_exact capacity start horizon k s :
  rtc (Concurrent.step 0 capacity horizon) (init capacity start k) s ->
  tokens s + admitted s = capacity.
Proof.
  intros Hrun.
  assert (H0 : Forall (fun p => match p with Won _ _ | Loaded _ _ _ => False | _ => True end)
                 (threads (init capacity start k))) by by apply Forall_replicate.
  assert (Hb : tokens (init capacity start k) + admitted (init capacity start k) = capacity)
    by (cbn; lia).
  revert H0 Hb. induction Hrun as [|x y z Hs _ IH]; [done|].
  intros H0 Hb. destruct (zero_rate_step _ _ _ _ Hs H0) as [H1 H2]. apply IH; [done|lia].
Qed.

(** The last access of a call, from a thread about to consume. *)
Lemma consume_alone rate capacity horizon ts i n s :
  ts !! i = Some Idle -> threads s = <[i := Consuming n]> ts ->
  let '(ok, b') := match checked_sub_u64 (tokens s) n with
    | Some rest => (true, {| tb_tokens := rest; tb_last_refill := last_refill s;
                             tb_rate := rate; tb_capacity := capacity |})
    | None => (false, to_bucket rate capacity s) end in
  exists s', rtc (Concurrent.step rate capacity horizon) s s' /\
    to_bucket rate capacity s' = b' /\ threads s' = ts /\
    admitted s' = admitted s + (if ok then n else 0).
Proof.
  intros Hi Hs. pose proof (lookup_lt_Some _ _ _ Hi) as Hlt.
  assert (Hc : threads s !! i = Some (Consuming n))
    by (rewrite Hs; by apply list_lookup_insert_eq).
  assert (Hid : <[i := Idle]> (threads s) = ts)
    by (rewrite Hs, list_insert_insert_eq; by apply list_insert_id).
  destruct (checked_sub_u64 (tokens s) n) as [rest|] eqn:E; eexists.
  - split; [apply rtc_once; by eapply step_admit|]. cbn. by rewrite Hid.
  - split; [apply rtc_once; by eapply step_deny|]. cbn. rewrite Hid.
    split; [done|]. split; [done|]. lia.
Qed.

(** Name the state a step leads to. *)
Ltac next_step S s' :=
  cbn in S; rewrite ?list_insert_insert_eq in S;
  match type of S with Concurrent.step _ _ _ _ ?x => set (s' := x) in S end.

(** A call that runs without interference takes the atomic steps and ends
    with the verdict and the bucket of the sequential [allow_n]. *)
Theorem sequential_call_is_interleaving rate capacity horizon s i now n :
  threads s !! i = Some Idle -> u64 n -> u64 now -> now <= horizon ->
  let '(ok, b') := token_bucket_allow_n now n (to_bucket rate capacity s) in
  exists s', rtc (Concurrent.step rate capacity horizon) s s' /\
    to_bucket rate capacity s' = b' /\ threads s' = threads s /\
    admitted s' = admitted s + (if ok then n else 0).
Proof.
  intros Hi Hn Hnow Hh. pose proof (lookup_lt_Some _ _ _ Hi) as Hlt.
  unfold token_bucket_allow_n, token_bucket_refill. cbn.
  pose proof (step_call rate capacity horizon s i n now Hi Hn Hnow Hh) as S1.
  next_step S1 s1.
  pose proof (step_load rate capacity horizon s1 i n now ltac:(by apply list_lookup_insert_eq)) as S2.
  cbn in S2. destruct (Z.eqb_spec (refill_credit now (last_refill s) rate) 0) as [Hz|Hnz].
  - next_step S2 s2.
    pose proof (consume_alone rate capacity horizon (threads s) i n s2 Hi eq_refl) as Hc.
    cbn in Hc |- *. destruct (checked_sub_u64 (tokens s) n); cbn in Hc; destruct Hc as (s' & Hr & Hx);
      cbn; exists s'; (split; [|exact Hx]); eauto using rtc_l.
  - next_step S2 s2.
    pose proof (step_cas_win rate capacity horizon s2 i n now _
                  ltac:(by apply list_lookup_insert_eq) eq_refl) as S3. next_step S3 s3.
    pose proof (step_credit rate capacity horizon s3 i n _
                  ltac:(by apply list_lookup_insert_eq)) as S4. next_step S4 s4.
    pose proof (consume_alone rate capacity horizon (threads s) i n s4 Hi eq_refl) as Hc.
    cbn in Hc |- *. destruct (checked_sub_u64 (credit_tokens _ _ _) n); cbn in Hc; destruct Hc as (s' & Hr & Hx);
      cbn; exists s'; (split; [|exact Hx]); eauto using rtc_l.
Qed.

(** The sequential verdict and level on every branch: with the tokens
    earned since the last refill added and capped at the capacity, a request
    is admitted exactly when it fits, and only then is it deducted. *)
Theorem token_bucket_allow_n_functional now n b :
  u64 now -> 0 <= n -> bucket_wf b ->
  let level := Z.min (tb_capacity b)
    (tb_tokens b + refill_credit now (tb_last_refill b) (tb_rate b)) in
  let '(ok, b') := token_bucket_allow_n now n b in
  ok = (n <=? level) /\ tb_tokens b' = (if n <=? level then level - n else level) /\
  bucket_wf b'.
Proof.
  intros Hnow Hn Hwf. cbn zeta.
  assert (Hlev : tb_tokens (token_bucket_refill now b) =
    Z.min (tb_capacity b) (tb_tokens b + refill_credit now (tb_last_refill b) (tb_rate b))).
  { destruct Hwf as [? ? ? ?]. unfold token_bucket_refill, u64 in *. zcases; cbn; [lia|].
    unfold credit_tokens, saturating_add_u64. lia. }
  rewrite <- Hlev. pose proof (token_bucket_allow_n_spec now n b Hnow Hn Hwf) as Ha.
  destruct (token_bucket_allow_n now n b) as [ok b'].
  destruct Ha as (Hwf' & _ & _ & _ & Hok & Ht). rewrite Ht.
  destruct ok; zcases; try done; intuition lia.
Qed.

(** ** Witnesses *)

Lemma u64_small x : (0 <=? x) && (x <=? U64_MAX) = true -> u64 x.
Proof. unfold u64. zcases; done. Qed.

Definition demo_bucket : TokenBucket := token_bucket_new 0 1000 2.

Lemma demo_bucket_wf : bucket_wf demo_bucket.
Proof. apply token_bucket_new_wf; by apply u64_small. Qed.

(** Two threads, one of which completes a call at time [7]. *)
Definition demo_end : sys :=
  {| tokens := 1; last_refill := 0; threads := [Idle; Idle]; granted := 0; admitted := 1 |}.

Lemma demo_run rate : rate = 0 \/ rate = 1000 ->
  rtc (Concurrent.step rate 2 5000) (init 2 0 2) demo_end.
Proof.
  intros Hr.
  eapply rtc_l; [apply (step_call _ _ _ _ 0 1 7);
                 [done|by apply u64_small|by apply u64_small|done]|].
  eapply rtc_l; [by apply (step_load _ _ _ _ 0 1 7)|].
  destruct Hr as [-> | ->];
    (eapply rtc_l; [by apply (step_admit _ _ _ _ 0 1 1)|]; by apply rtc_refl).
Qed.

Lemma concurrent_admission_bound_witness : 1 <= 2 + (5000 - 0) * 1000 / 1000000.
Proof.
  exact (proj2 (concurrent_admission_bound 1000 2 0 5000 2 demo_end
    ltac:(by apply u64_small) ltac:(by apply u64_small) (demo_run 1000 (or_intror eq_refl)))).
Defined.

Lemma concurrent_zero_rate_exact_witness : tokens demo_end + admitted demo_end = 2.
Proof.
  exact (concurrent_zero_rate_exact 2 0 5000 2 demo_end (demo_run 0 (or_introl eq_refl))).
Defined.

Lemma sequential_call_is_interleaving_witness :
  exists s', rtc (Concurrent.step 1000 2 5000) (init 2 0 2) s' /\
    to_bucket 1000 2 s' =
      {| tb_tokens := 1; tb_last_refill := 2000; tb_rate := 1000; tb_capacity := 2 |} /\
    threads s' = [Idle; Idle] /\ admitted s' = 1.
Proof.
  exact (sequential_call_is_interleaving 1000 2 5000 (init 2 0 2) 1 2000 1
    eq_refl ltac:(by apply u64_small) ltac:(by apply u64_small) ltac:(done)).
Defined.

Lemma token_bucket_allow_n_functional_witness :
  let '(ok, b') := token_bucket_allow_n 3000 2 demo_bucket in
  ok = true /\ tb_tokens b' = 0 /\ bucket_wf b'.
Proof.
  exact (token_bucket_allow_n_functional 3000 2 demo_bucket
    ltac:(by apply u64_small) ltac:(done) demo_bucket_wf).
Defined.
