(* ===== verification/RateLimiter.v ===== *)
(** * The sharded rate limiter
    (src/crates/himadri-ratelimit/src/token_bucket.rs, [ShardedRateLimiter],
    and src/crates/himadri-ratelimit/src/lib.rs, [RateLimiter])

    A shard is a map from keys to buckets behind a lock; the vector of shards
    is a list, and indexing it or reducing a hash modulo zero shards panics in
    the source, which is [None] here. The hash ([ahash], a dependency) is a
    parameter. One call reads the monotonic clock once, its argument [now].
    [RateLimiting] is what the gateway's policy uses; the limiters built by
    [RateLimiter::new] are an instance. *)

From S2P Require Import Prelude TokenBucket.

(** ** Data *)

Record ShardedRateLimiter := {
  shards : list (gmap string TokenBucket);
  num_shards : nat;
  sharded_rate : Z;
  sharded_capacity : Z;
}.

Record RateLimiter := {
  rl_global : ShardedRateLimiter;
  rl_per_entity : ShardedRateLimiter;
  default_rate : Z;
  default_burst : Z;
}.

(** ** Operations *)

Definition sharded_new (rate capacity : Z) (n : nat) : ShardedRateLimiter :=
  {| shards := replicate n ∅; num_shards := n;
     sharded_rate := rate; sharded_capacity := capacity |}.

(** The bucket a check ends up using: the one stored for the key when its
    parameters are the requested ones, and otherwise a new one. *)
Definition bucket_for (stored : option TokenBucket) (now rate capacity : Z) : TokenBucket :=
  match stored with
  | Some b =>
      if (tb_rate b =? rate) && (tb_capacity b =? capacity) then b
      else token_bucket_new now rate capacity
  | None => token_bucket_new now rate capacity
  end.

Definition with_shards (l : ShardedRateLimiter) (s : list (gmap string TokenBucket))
    : ShardedRateLimiter :=
  {| shards := s; num_shards := num_shards l;
     sharded_rate := sharded_rate l; sharded_capacity := sharded_capacity l |}.

Section Hash.
Context (hash : string -> Z).

(** [hasher.finish() as usize % self.num_shards]. *)
Definition shard_index (l : ShardedRateLimiter) (key : string) : option nat :=
  if decide (num_shards l = 0%nat) then None
  else Some (Z.to_nat (wrap_u64 (hash key) mod Z.of_nat (num_shards l))).

Definition sharded_allow_with_params (now : Z) (key : string) (rate capacity : Z)
    (l : ShardedRateLimiter) : option (bool * ShardedRateLimiter) :=
  idx ← shard_index l key;
  map ← shards l !! idx;
  (* under the read lock *)
  match map !! key with
  | Some b =>
      if (tb_rate b =? rate) && (tb_capacity b =? capacity) then
        let '(ok, b') := token_bucket_allow now b in
        Some (ok, with_shards l (<[idx := <[key := b']> map]> (shards l)))
      else
        (* under the write lock: the entry exists, its parameters differ *)
        let b := token_bucket_new now rate capacity in
        let '(ok, b') := token_bucket_allow now b in
        Some (ok, with_shards l (<[idx := <[key := b']> map]> (shards l)))
  | None =>
      let b := token_bucket_new now rate capacity in
      let '(ok, b') := token_bucket_allow now b in
      Some (ok, with_shards l (<[idx := <[key := b']> map]> (shards l)))
  end.

Definition sharded_allow (now : Z) (key : string) (l : ShardedRateLimiter)
    : option (bool * ShardedRateLimiter) :=
  sharded_allow_with_params now key (sharded_rate l) (sharded_capacity l) l.

Definition sharded_clear (l : ShardedRateLimiter) : ShardedRateLimiter :=
  with_shards l ((fun _ => ∅) <$> shards l).

Definition rate_limiter_new (rate burst : Z) : RateLimiter :=
  {| rl_global := sharded_new rate burst 64;
     rl_per_entity := sharded_new rate burst 64;
     default_rate := rate; default_burst := burst |}.

Definition rate_limiter_default : RateLimiter := rate_limiter_new 100 200.

Definition set_defaults (rate burst : Z) (rl : RateLimiter) : RateLimiter :=
  {| rl_global := rl_global rl; rl_per_entity := rl_per_entity rl;
     default_rate := rate; default_burst := burst |}.

Definition check_global (now : Z) (rl : RateLimiter) : option (bool * RateLimiter) :=
  '(ok, g) ← sharded_allow_with_params now "global" (default_rate rl) (default_burst rl)
               (rl_global rl);
  Some (ok, {| rl_global := g; rl_per_entity := rl_per_entity rl;
               default_rate := default_rate rl; default_burst := default_burst rl |}).

Definition check_entity (now : Z) (prefix id : string) (rate burst : option Z)
    (rl : RateLimiter) : option (bool * RateLimiter) :=
  let r := default (default_rate rl) rate in
  let b := default (default_burst rl) burst in
  '(ok, e) ← sharded_allow_with_params now (prefix +:+ ":" +:+ id) r b (rl_per_entity rl);
  Some (ok, {| rl_global := rl_global rl; rl_per_entity := e;
               default_rate := default_rate rl; default_burst := default_burst rl |}).

Definition check_org (now : Z) (org_id : string) (rate burst : option Z) (rl : RateLimiter)
    : option (bool * RateLimiter) := check_entity now "org" org_id rate burst rl.

Definition check_key (now : Z) (key_id : string) (rate burst : option Z) (rl : RateLimiter)
    : option (bool * RateLimiter) := check_entity now "key" key_id rate burst rl.

Definition rate_limiter_clear (rl : RateLimiter) : RateLimiter :=
  {| rl_global := sharded_clear (rl_global rl);
     rl_per_entity := sharded_clear (rl_per_entity rl);
     default_rate := default_rate rl; default_burst := default_burst rl |}.

(** ** The limiter as one flat map *)

Definition sharded_wf (l : ShardedRateLimiter) : Prop :=
  length (shards l) = num_shards l /\ num_shards l <> 0%nat.

(** The bucket a sharded limiter holds for a key, wherever it is kept. *)
Definition sharded_lookup (l : ShardedRateLimiter) (key : string) : option TokenBucket :=
  idx ← shard_index l key; map ← shards l !! idx; map !! key.

Definition limiter_wf (rl : RateLimiter) : Prop :=
  sharded_wf (rl_global rl) /\ sharded_wf (rl_per_entity rl).
End Hash.

(** A check as a value, and sequences of checks on a sharded limiter and on
    one flat map. The answers come with the key they are for. *)
Record check := { ck_now : Z; ck_key : string; ck_rate : Z; ck_capacity : Z }.

Definition flat_check (c : check) (m : gmap string TokenBucket) : bool * gmap string TokenBucket :=
  let '(ok, b) := token_bucket_allow (ck_now c)
    (bucket_for (m !! ck_key c) (ck_now c) (ck_rate c) (ck_capacity c)) in
  (ok, <[ck_key c := b]> m).

Fixpoint flat_run (cs : list check) (m : gmap string TokenBucket)
    : list (string * bool) * gmap string TokenBucket :=
  match cs with
  | [] => ([], m)
  | c :: cs =>
      let '(ok, m') := flat_check c m in
      let '(answers, m'') := flat_run cs m' in
      ((ck_key c, ok) :: answers, m'')
  end.

Fixpoint sharded_run (hash : string -> Z) (cs : list check) (l : ShardedRateLimiter)
    : option (list (string * bool) * ShardedRateLimiter) :=
  match cs with
  | [] => Some ([], l)
  | c :: cs =>
      '(ok, l') ← sharded_allow_with_params hash (ck_now c) (ck_key c) (ck_rate c) (ck_capacity c) l;
      '(answers, l'') ← sharded_run hash cs l';
      Some ((ck_key c, ok) :: answers, l'')
  end.

Definition admitted_for (key : string) (answers : list (string * bool)) : Z :=
  Z.of_nat (length (filter (fun a => a = (key, true)) answers)).

(** The times at which a sequence checks a key. *)
Definition times_of (key : string) (cs : list check) : list Z :=
  ck_now <$> filter (fun c => ck_key c = key) cs.

(** ** What the policy layer uses *)

Class RateLimiting (L : Type) := {
  rl_check_global : Z -> L -> bool * L;
  rl_check_key : Z -> string -> option Z -> option Z -> L -> bool * L;
  rl_check_org : Z -> string -> option Z -> option Z -> L -> bool * L;
  rl_set_defaults : Z -> Z -> L -> L;
  rl_clear : L -> L;
}.

(** ** Limiters that never panic *)

Section Live.
Context (hash : string -> Z).

Definition live_limiter : Type := { rl : RateLimiter | limiter_wf rl }.

(** A check that never panics on well-formed limiters. *)
Definition check_total (f : RateLimiter -> option (bool * RateLimiter)) : Prop :=
  forall rl, limiter_wf rl -> exists ok rl', f rl = Some (ok, rl') /\ limiter_wf rl'.

Lemma check_total_wf f rl ok rl' :
  check_total f -> limiter_wf rl -> f rl = Some (ok, rl') -> limiter_wf rl'.
Proof. intros Hf Hwf E. destruct (Hf rl Hwf) as (? & ? & E' & ?). by simplify_eq. Qed.

(** Such a check, run on a live limiter. *)
Definition live_check (f : RateLimiter -> option (bool * RateLimiter)) (Hf : check_total f)
    (l : live_limiter) : bool * live_limiter :=
  match f (proj1_sig l) as o return f (proj1_sig l) = o -> bool * live_limiter with
  | Some (ok, rl') => fun E => (ok, exist _ rl' (check_total_wf f _ ok rl' Hf (proj2_sig l) E))
  | None => fun E => (false, l)
  end eq_refl.

Lemma shard_index_lt l key : sharded_wf l ->
  exists idx map, shard_index hash l key = Some idx /\ shards l !! idx = Some map.
Proof.
  intros [Hlen Hne]. unfold shard_index. rewrite decide_False by done.
  eexists. destruct (shards l !! Z.to_nat (wrap_u64 (hash key) mod Z.of_nat (num_shards l))) eqn:E.
  - by eexists.
  - exfalso. apply lookup_ge_None in E. rewrite Hlen in E.
    pose proof (Z.mod_pos_bound (wrap_u64 (hash key)) (Z.of_nat (num_shards l))). lia.
Qed.

Lemma sharded_new_wf rate capacity n : n <> 0%nat -> sharded_wf (sharded_new rate capacity n).
Proof. intros. split; [apply length_replicate|done]. Qed.

Lemma sharded_clear_wf l : sharded_wf l -> sharded_wf (sharded_clear l).
Proof. intros [? ?]. split; cbn; [by rewrite length_fmap|done]. Qed.

(** Sharding is transparent: a check behaves as on one flat map. *)
Lemma sharded_check_spec now key rate capacity l : sharded_wf l ->
  let '(ok, b') := token_bucket_allow now (bucket_for (sharded_lookup hash l key) now rate capacity) in
  exists l', sharded_allow_with_params hash now key rate capacity l = Some (ok, l') /\
    sharded_wf l' /\
    forall key', sharded_lookup hash l' key' =
      if decide (key' = key) then Some b' else sharded_lookup hash l key'.
Proof.
  intros Hwf. destruct (shard_index_lt l key Hwf) as (idx & map & Hidx & Hmap).
  assert (Hupd : forall b', let l' := with_shards l (<[idx := <[key := b']> map]> (shards l)) in
    sharded_wf l' /\ forall key', sharded_lookup hash l' key' =
      if decide (key' = key) then Some b' else sharded_lookup hash l key').
  { intros b'. destruct Hwf as [Hlen Hne]. split.
    - split; cbn; [by rewrite length_insert|done].
    - intros key'. unfold sharded_lookup.
      change (shard_index hash (with_shards l (<[idx := <[key := b']> map]> (shards l))) key')
        with (shard_index hash l key').
      destruct (shard_index hash l key') as [idx'|] eqn:Hidx'; cbn.
      + destruct (decide (idx' = idx)) as [->|Hni].
        * rewrite list_lookup_insert_eq by (by eapply lookup_lt_Some). rewrite Hmap. cbn.
          case_decide; subst; by simplify_map_eq.
        * rewrite list_lookup_insert_ne by done. case_decide; [congruence|done].
      + case_decide; [congruence|done]. }
  unfold sharded_allow_with_params, bucket_for. unfold sharded_lookup at 1.
  rewrite Hidx. cbn. rewrite Hmap. cbn.
  destruct (map !! key) as [b|]; [destruct ((tb_rate b =? rate) && (tb_capacity b =? capacity))|];
    match goal with |- context [token_bucket_allow ?t ?b] =>
      destruct (token_bucket_allow t b) as [ok b'] end;
    (eexists; split; [done|apply Hupd]).
Qed.

Lemma sharded_check_total now key rate capacity l : sharded_wf l ->
  exists ok l', sharded_allow_with_params hash now key rate capacity l = Some (ok, l') /\
    sharded_wf l'.
Proof.
  intros Hwf. pose proof (sharded_check_spec now key rate capacity l Hwf) as H.
  destruct (token_bucket_allow _ _) as [ok b']. destruct H as (l' & ? & ? & _). by eexists _, _.
Qed.

Lemma rate_limiter_new_wf rate burst : limiter_wf (rate_limiter_new rate burst).
Proof. split; by apply sharded_new_wf. Qed.

Lemma check_global_total now : check_total (check_global hash now).
Proof.
  intros rl [Hg He]. unfold check_global.
  destruct (sharded_check_total now "global" (default_rate rl) (default_burst rl) _ Hg)
    as (ok & g & -> & Hg'). by eexists _, _.
Qed.

Lemma check_entity_total now prefix id rate burst :
  check_total (check_entity hash now prefix id rate burst).
Proof.
  intros rl [Hg He]. unfold check_entity.
  destruct (sharded_check_total now (prefix +:+ ":" +:+ id)
    (default (default_rate rl) rate) (default (default_burst rl) burst) _ He)
    as (ok & e & -> & He'). by eexists _, _.
Qed.

#[export] Instance live_rate_limiting : RateLimiting live_limiter := {
  rl_check_global now := live_check (check_global hash now) (check_global_total now);
  rl_check_key now id rate burst :=
    live_check (check_key hash now id rate burst) (check_entity_total now "key" id rate burst);
  rl_check_org now id rate burst :=
    live_check (check_org hash now id rate burst) (check_entity_total now "org" id rate burst);
  rl_set_defaults rate burst l := exist _ (set_defaults rate burst (proj1_sig l)) (proj2_sig l);
  rl_clear l := exist _ (rate_limiter_clear (proj1_sig l))
    (conj (sharded_clear_wf _ (proj1 (proj2_sig l))) (sharded_clear_wf _ (proj2 (proj2_sig l))));
}.
End Live.

(** ** A key's checks among others *)

Lemma admitted_for_cons key k ok answers :
  admitted_for key ((k, ok) :: answers) =
  (if decide (k = key) then if ok then 1 else 0 else 0) + admitted_for key answers.
Proof.
  unfold admitted_for. rewrite filter_cons.
  destruct ok; repeat case_decide; simplify_eq; cbn [length]; try lia; naive_solver.
Qed.

Lemma token_bucket_allow_params now b :
  tb_rate (token_bucket_allow now b).2 = tb_rate b /\
  tb_capacity (token_bucket_allow now b).2 = tb_capacity b.
Proof.
  unfold token_bucket_allow, token_bucket_allow_n, token_bucket_refill.
  repeat case_match; done.
Qed.

Lemma bucket_for_same b now : bucket_for (Some b) now (tb_rate b) (tb_capacity b) = b.
Proof. cbn. by rewrite !Z.eqb_refl. Qed.

Definition same_params (key : string) (rate capacity : Z) (c : check) : Prop :=
  ck_key c = key -> ck_rate c = rate /\ ck_capacity c = capacity.

Lemma flat_run_key key b cs m : m !! key = Some b ->
  Forall (same_params key (tb_rate b) (tb_capacity b)) cs ->
  admitted_for key (flat_run cs m).1 = (bucket_checks (times_of key cs) b).1.
Proof.
  intros Hm Hcs. revert m b Hm Hcs. induction cs as [|c cs IH]; intros m b Hm Hcs; [done|].
  apply Forall_cons in Hcs as [Hc Hcs]. unfold times_of. rewrite filter_cons.
  cbn [flat_run]. unfold flat_check. case_decide as Hk.
  - pose proof (token_bucket_allow_params (ck_now c) b) as [Hr Hcap]. destruct (Hc Hk) as [Hcr Hcc].
    rewrite Hk, Hm, Hcr, Hcc, bucket_for_same. cbn [fmap list_fmap bucket_checks].
    destruct (token_bucket_allow (ck_now c) b) as [ok b']. cbn [snd] in *.
    specialize (IH (<[key := b']> m) b' ltac:(by simplify_map_eq)).
    rewrite Hr, Hcap in IH. specialize (IH Hcs). unfold times_of in IH.
    destruct (flat_run cs _) as [ans m2]. destruct (bucket_checks _ b') as [k b2].
    cbn [fst] in *. rewrite admitted_for_cons, decide_True by done. lia.
  - destruct (token_bucket_allow (ck_now c) _) as [ok b'].
    specialize (IH (<[ck_key c := b']> m) b ltac:(by simplify_map_eq) Hcs).
    destruct (flat_run cs _) as [ans m2]. cbn [fst] in *.
    by rewrite admitted_for_cons, decide_False.
Qed.

(** A key with no bucket yet gets one at its first check. *)
Lemma flat_run_fresh_key key rate capacity cs m : m !! key = None ->
  Forall (same_params key rate capacity) cs ->
  admitted_for key (flat_run cs m).1 =
  match times_of key cs with
  | [] => 0
  | t :: _ => (bucket_checks (times_of key cs) (token_bucket_new t rate capacity)).1
  end.
Proof.
  intros Hm Hcs. revert m Hm. induction Hcs as [|c cs Hc Hcs IH]; intros m Hm; [done|].
  destruct (decide (ck_key c = key)) as [Hk|Hk].
  - destruct (Hc Hk) as [Hcr Hcc].
    set (b := token_bucket_new (ck_now c) rate capacity).
    assert (Heq : flat_run (c :: cs) m = flat_run (c :: cs) (<[key := b]> m)).
    { cbn [flat_run]. unfold flat_check. rewrite Hk, Hm, lookup_insert_eq, Hcr, Hcc. cbn [bucket_for].
      subst b. cbn [tb_rate tb_capacity token_bucket_new]. rewrite !Z.eqb_refl. cbn [andb].
      destruct (token_bucket_allow _ _). by rewrite insert_insert_eq. }
    rewrite Heq, (flat_run_key key b); [|by simplify_map_eq|by constructor].
    unfold times_of. by rewrite filter_cons, decide_True.
  - cbn [flat_run]. unfold flat_check. destruct (token_bucket_allow (ck_now c) _) as [ok b'].
    specialize (IH (<[ck_key c := b']> m) ltac:(by simplify_map_eq)).
    destruct (flat_run cs _) as [ans m2]. cbn [fst] in *.
    rewrite admitted_for_cons, decide_False, IH by done.
    unfold times_of. by rewrite filter_cons, decide_False.
Qed.

Lemma sharded_new_empty hash rate capacity n key :
  sharded_lookup hash (sharded_new rate capacity n) key = None.
Proof.
  unfold sharded_lookup. destruct (shard_index _ _ _) as [idx|]; [cbn|done].
  destruct (replicate n ∅ !! idx) as [s|] eqn:E; [cbn|done].
  apply lookup_replicate in E as [-> _]. apply lookup_empty.
Qed.

Lemma sharded_clear_empty hash l key : sharded_lookup hash (sharded_clear l) key = None.
Proof.
  unfold sharded_lookup. destruct (shard_index _ _ _) as [idx|]; [cbn|done].
  rewrite list_lookup_fmap. destruct (shards l !! idx); [cbn; apply lookup_empty|done].
Qed.

Lemma times_of_range key start T cs : u64 T -> 0 <= start ->
  Forall (fun c => start <= ck_now c <= T) cs ->
  Forall (fun t => u64 t /\ start <= t <= T) (times_of key cs).
Proof.
  intros HT Hst Hcs. unfold times_of, u64 in *. apply Forall_forall.
  intros t [c [-> [_ Hc]%list_elem_of_filter]]%list_elem_of_fmap.
  pose proof (proj1 (Forall_forall _ _) Hcs c Hc). cbn in *. lia.
Qed.

Lemma sharded_run_flat hash cs l m : sharded_wf l ->
  (forall key, sharded_lookup hash l key = m !! key) ->
  exists l', sharded_run hash cs l = Some ((flat_run cs m).1, l') /\
    forall key, sharded_lookup hash l' key = (flat_run cs m).2 !! key.
Proof.
  revert l m. induction cs as [|c cs IH]; intros l m Hwf Hlm; [by exists l|].
  pose proof (sharded_check_spec hash (ck_now c) (ck_key c) (ck_rate c) (ck_capacity c) l Hwf) as Hs.
  cbn [flat_run sharded_run]. unfold flat_check. rewrite Hlm in Hs.
  destruct (token_bucket_allow _ _) as [ok b]. destruct Hs as (l1 & -> & Hwf1 & Hl1). cbn.
  destruct (IH l1 (<[ck_key c := b]> m) Hwf1) as (l2 & -> & Hl2).
  { intros key. rewrite Hl1. case_decide; [by simplify_map_eq|]. by rewrite lookup_insert_ne. }
  cbn. destruct (flat_run cs _) as [answers m2]. by exists l2.
Qed.

(** ** Properties *)

(** Sharding is transparent: on a limiter with at least one shard, any
    sequence of checks, with any parameters, answers exactly what the same
    checks answer on one flat map of buckets, and never panics. *)
Theorem sharded_run_refines_flat hash cs l m : sharded_wf l ->
  (forall key, sharded_lookup hash l key = m !! key) ->
  exists l', sharded_run hash cs l = Some ((flat_run cs m).1, l') /\
    forall key, sharded_lookup hash l' key = (flat_run cs m).2 !! key.
Proof. apply sharded_run_flat. Qed.

(** C31: The rate limit holds per key, end to end: on a new or just cleared
    limiter, whatever keys and parameters the other checks use, the checks of
    a key that always uses the same rate and burst admit at most the burst
    plus what the rate earns over the period. *)
Theorem key_admission_bound hash key rate capacity cs l start T :
  sharded_wf l -> (forall k, sharded_lookup hash l k = None) ->
  u64 rate -> u64 capacity -> 0 <= start -> u64 T ->
  Forall (fun c => start <= ck_now c <= T) cs ->
  Forall (same_params key rate capacity) cs ->
  exists answers l', sharded_run hash cs l = Some (answers, l') /\
    admitted_for key answers <= capacity + Z.max 0 (T - start) * rate / 1000000.
Proof.
  intros Hwf Hl Hr Hc Hst HT Hts Hcs.
  assert (Hrun : exists l', sharded_run hash cs l = Some ((flat_run cs ∅).1, l')).
  { clear Hts Hcs. revert l Hl Hwf.
    intros l Hl Hwf. destruct (sharded_run_flat hash cs l ∅ Hwf) as (l' & H & _); [|by exists l'].
    intros k. by rewrite Hl, lookup_empty. }
  destruct Hrun as (l' & ->). eexists _, l'. split; [done|].
  rewrite (flat_run_fresh_key key rate capacity) by (done || apply lookup_empty).
  pose proof (times_of_range key start T cs HT Hst Hts) as Htimes.
  assert (0 <= Z.max 0 (T - start) * rate / 1000000)
    by (apply Z.div_pos; [unfold u64 in *; nia|lia]).
  destruct (times_of key cs) as [|t times]; [unfold u64 in *; lia|].
  pose proof (Forall_inv Htimes) as [Htu Htr].
  etransitivity; [apply (bucket_level_bound T)|]; try done.
  - by apply token_bucket_new_wf.
  - cbn. lia.
  - eapply Forall_impl; [exact Htimes|]. cbn. tauto.
  - cbn. apply Z.add_le_mono_l, Z.div_le_mono; [lia|]. unfold u64 in *. nia.
Qed.

(** The limits of API keys, of organisations and the global limit are
    independent: a check of one never changes the bucket of another, whatever
    the identifiers are, because the prefixes keep the map keys apart. *)
Theorem limiter_checks_independent hash now id rate burst rl ok rl' :
  limiter_wf rl -> check_key hash now id rate burst rl = Some (ok, rl') ->
  rl_global rl' = rl_global rl /\
  (forall org, sharded_lookup hash (rl_per_entity rl') ("org:" +:+ org) =
               sharded_lookup hash (rl_per_entity rl) ("org:" +:+ org)) /\
  (forall id', id' <> id ->
     sharded_lookup hash (rl_per_entity rl') ("key:" +:+ id') =
     sharded_lookup hash (rl_per_entity rl) ("key:" +:+ id')).
Proof.
  intros [_ Hwf]. unfold check_key, check_entity.
  pose proof (sharded_check_spec hash now ("key" +:+ ":" +:+ id)
    (default (default_rate rl) rate) (default (default_burst rl) burst) _ Hwf) as Hs.
  destruct (token_bucket_allow _ _) as [ok' b]. destruct Hs as (e & -> & _ & Hl). cbn.
  intros [= <- <-]. cbn. split; [done|]. split.
  - intros org. by rewrite Hl, decide_False.
  - intros id' Hne. rewrite Hl, decide_False; [done|]. intros Heq. apply Hne. by injection Heq.
Qed.

(** Retuning the defaults takes effect on the very next check: when the
    stored bucket was built with other parameters it is replaced by a full
    one with the new rate and burst, so the check is admitted if and only if
    the new burst is not zero. *)
Theorem set_defaults_immediate hash now rate burst rl b :
  limiter_wf rl -> u64 now -> u64 rate -> u64 burst ->
  sharded_lookup hash (rl_global rl) "global" = Some b ->
  (tb_rate b, tb_capacity b) <> (rate, burst) ->
  exists rl', check_global hash now (set_defaults rate burst rl) = Some (1 <=? burst, rl') /\
    exists b', sharded_lookup hash (rl_global rl') "global" = Some b' /\
      tb_rate b' = rate /\ tb_capacity b' = burst.
Proof.
  intros [Hwf _] Hnow Hr Hb Hl Hne. unfold check_global, set_defaults. cbn.
  pose proof (sharded_check_spec hash now "global" rate burst _ Hwf) as Hs.
  assert (Hf : bucket_for (Some b) now rate burst = token_bucket_new now rate burst).
  { cbn. destruct (Z.eqb_spec (tb_rate b) rate); [|done].
    destruct (Z.eqb_spec (tb_capacity b) burst); [|done]. congruence. }
  rewrite Hl, Hf in Hs.
  pose proof (token_bucket_allow_n_spec now 1 (token_bucket_new now rate burst) Hnow ltac:(lia)
    (token_bucket_new_wf now rate burst Hnow Hr Hb)) as Ha.
  assert (Hfull : token_bucket_refill now (token_bucket_new now rate burst) =
                  token_bucket_new now rate burst).
  { unfold token_bucket_refill, refill_credit, saturating_sub_u64. cbn.
    by rewrite Z.sub_diag. }
  unfold token_bucket_allow in Hs. rewrite Hfull in Ha.
  destruct (token_bucket_allow_n _ _ _) as [ok b'].
  destruct Ha as (_ & Hr' & Hc' & _ & Hok & _). destruct Hs as (g & -> & _ & Hl'). cbn.
  assert (ok = (1 <=? burst)) as <- by (cbn in Hok; destruct ok; zcases; try done; intuition lia).
  eexists. split; [done|]. exists b'. cbn [rl_global]. by rewrite Hl', decide_True.
Qed.

(** ** Witnesses *)

Definition demo_hash (key : string) : Z := Z.of_nat (String.length key).
Definition demo_sharded : ShardedRateLimiter := sharded_new 0 2 4.
Definition demo_checks : list check :=
  [{| ck_now := 1; ck_key := "a"; ck_rate := 0; ck_capacity := 1 |};
   {| ck_now := 2; ck_key := "b"; ck_rate := 0; ck_capacity := 2 |};
   {| ck_now := 3; ck_key := "a"; ck_rate := 0; ck_capacity := 1 |}].

Lemma sharded_run_refines_flat_witness :
  exists l', sharded_run demo_hash demo_checks demo_sharded =
    Some ([("a", true); ("b", true); ("a", false)], l').
Proof.
  destruct (sharded_run_refines_flat demo_hash demo_checks demo_sharded ∅) as (l' & H & _).
  - by apply sharded_new_wf.
  - intros key. unfold demo_sharded. by rewrite sharded_new_empty, lookup_empty.
  - exists l'. exact H.
Defined.

Lemma key_admission_bound_witness :
  exists answers l', sharded_run demo_hash demo_checks demo_sharded = Some (answers, l') /\
    admitted_for "a" answers <= 1 + Z.max 0 (3 - 1) * 0 / 1000000.
Proof.
  apply (key_admission_bound demo_hash "a" 0 1 demo_checks demo_sharded 1 3).
  - by apply sharded_new_wf.
  - intros k. apply sharded_new_empty.
  - by apply u64_small.
  - by apply u64_small.
  - done.
  - by apply u64_small.
  - by repeat constructor.
  - by repeat constructor.
Defined.

Definition demo_limiter : RateLimiter := rate_limiter_new 0 2.

Lemma limiter_checks_independent_witness :
  exists rl', check_key demo_hash 5 "x" None None demo_limiter = Some (true, rl') /\
    rl_global rl' = rl_global demo_limiter.
Proof.
  eexists. split; [vm_compute; reflexivity|].
  apply (limiter_checks_independent demo_hash 5 "x" None None demo_limiter true);
    [apply rate_limiter_new_wf|vm_compute; reflexivity].
Defined.

Lemma set_defaults_immediate_witness :
  exists rl rl', check_global demo_hash 1 demo_limiter = Some (true, rl) /\
    check_global demo_hash 2 (set_defaults 0 5 rl) = Some (true, rl').
Proof.
  destruct (check_global_total demo_hash 1 demo_limiter (rate_limiter_new_wf 0 2))
    as (ok & rl & E & Hwf).
  assert (Hok : ok = true /\ exists b, sharded_lookup demo_hash (rl_global rl) "global" = Some b /\
    (tb_rate b, tb_capacity b) = (0, 2)).
  { vm_compute in E. simplify_eq. split; [done|]. eexists. split; vm_compute; reflexivity. }
  destruct Hok as [-> (b & Hl & Hp)].
  destruct (set_defaults_immediate demo_hash 2 0 5 rl b Hwf) as (rl' & H & _);
    try (by apply u64_small); [exact Hl|by rewrite Hp|].
  exists rl, rl'. by split.
Defined.
