(* ===== verification/Str.v ===== *)
(** * The [str] operations the source uses

    A Rust string is its sequence of UTF-8 bytes, a Rocq [string]. The
    functions below are the Standard Library's, on bytes; a byte offset the
    source slices at is a [nat]. [str::to_lowercase] (a Unicode table) is not
    here: the definitions that use it take it as an argument. *)

From S2P Require Import Prelude.
From Stdlib Require Import Ascii String.
From stdpp Require Import pretty strings.

#[global] Open Scope string_scope.
#[global] Open Scope Z_scope.
#[global] Arguments String.append !_ _ /.

(** ** Slices and tests *)

(** [&s[n..]] *)
Fixpoint str_drop (n : nat) (s : string) : string :=
  match n, s with
  | O, _ => s
  | S n, EmptyString => EmptyString
  | S n, String _ s => str_drop n s
  end.

(** [&s[..n]] *)
Fixpoint str_take (n : nat) (s : string) : string :=
  match n, s with
  | O, _ | _, EmptyString => EmptyString
  | S n, String a s => String a (str_take n s)
  end.

(** [s.starts_with(p)] *)
Fixpoint starts_with (p s : string) : bool :=
  match p, s with
  | EmptyString, _ => true
  | String _ _, EmptyString => false
  | String a p, String b s => if decide (a = b) then starts_with p s else false
  end.

(** [s.strip_prefix(p)] *)
Definition strip_prefix (p s : string) : option string :=
  if starts_with p s then Some (str_drop (String.length p) s) else None.

(** [s.ends_with(p)] *)
Definition ends_with (p s : string) : bool :=
  bool_decide ((String.length p <= String.length s)%nat /\
    str_drop (String.length s - String.length p) s = p).

(** [s.find(p)]: the offset of the leftmost occurrence. *)
Fixpoint str_find (p s : string) : option nat :=
  if starts_with p s then Some O
  else match s with
       | EmptyString => None
       | String _ s => S <$> str_find p s
       end.

(** [s.contains(p)] *)
Definition str_contains (p s : string) : bool :=
  match str_find p s with Some _ => true | None => false end.

(** [s.contains(c)] for a character *)
Fixpoint contains_char (c : ascii) (s : string) : bool :=
  match s with
  | EmptyString => false
  | String a s => if decide (a = c) then true else contains_char c s
  end.

(** [s.split(c)] for a test on ASCII characters: one more part than there are
    separators. *)
Fixpoint split_on (sep : ascii -> bool) (s : string) : list string :=
  match s with
  | EmptyString => [EmptyString]
  | String a s =>
      if sep a then EmptyString :: split_on sep s
      else match split_on sep s with
           | [] => [String a EmptyString]
           | part :: parts => String a part :: parts
           end
  end.

Definition is_char (c : ascii) (a : ascii) : bool := bool_decide (a = c).

(** [parts.join(sep)] *)
Definition join (sep : string) (parts : list string) : string := String.concat sep parts.

(** [char::to_ascii_lowercase], byte by byte *)
Definition ascii_lower (a : ascii) : ascii :=
  let n := nat_of_ascii a in
  if (65 <=? n)%nat && (n <=? 90)%nat then ascii_of_nat (n + 32) else a.

Fixpoint to_ascii_lowercase (s : string) : string :=
  match s with
  | EmptyString => EmptyString
  | String a s => String (ascii_lower a) (to_ascii_lowercase s)
  end.

(** [str::to_ascii_uppercase] *)
Definition ascii_upper (a : ascii) : ascii :=
  let n := nat_of_ascii a in
  if (97 <=? n)%nat && (n <=? 122)%nat then ascii_of_nat (n - 32) else a.

Fixpoint to_ascii_uppercase (s : string) : string :=
  match s with
  | EmptyString => EmptyString
  | String a s => String (ascii_upper a) (to_ascii_uppercase s)
  end.

(** The UTF-8 encodings of the Unicode [White_Space] characters. *)
Definition white_space : list string :=
  let b n := ascii_of_nat n in
  let one n := String (b n) EmptyString in
  let two m n := String (b m) (one n) in
  let three l m n := String (b l) (two m n) in
  (one <$> [9; 10; 11; 12; 13; 32]%nat) ++
  [two 194 133; two 194 160; three 225 154 128]%nat ++
  (three 226 128 <$> [128; 129; 130; 131; 132; 133; 134; 135; 136; 137; 138;
                      168; 169; 175])%nat ++
  [three 226 129 159; three 227 128 128]%nat.

(** The rest of a string after one leading white-space character. *)
Definition strip_white (s : string) : option string :=
  foldr (fun w acc => match strip_prefix w s with Some r => Some r | None => acc end)
    None white_space.

(** [s.trim_start()], one character per unit of fuel; the length is enough. *)
Fixpoint trim_start_fuel (fuel : nat) (s : string) : string :=
  match fuel with
  | O => s
  | S fuel => match strip_white s with Some r => trim_start_fuel fuel r | None => s end
  end.
Definition trim_start (s : string) : string := trim_start_fuel (String.length s) s.

(** The longest prefix that does not end in white space. *)
Fixpoint trim_end (s : string) : string :=
  match s with
  | EmptyString => EmptyString
  | String a r =>
      if decide (trim_start (String a r) = EmptyString) then EmptyString
      else String a (trim_end r)
  end.

(** [s.trim()] *)
Definition trim (s : string) : string := trim_end (trim_start s).

(** [s.split_whitespace()], whose fuel is the length of the string. *)
Fixpoint words_fuel (fuel : nat) (word s : string) : list string :=
  match fuel, s with
  | S fuel, String c s' =>
      match strip_white s with
      | Some rest =>
          if bool_decide (word = "") then words_fuel fuel "" rest
          else word :: words_fuel fuel "" rest
      | None => words_fuel fuel (word +:+ String c "") s'
      end
  | _, _ => if bool_decide (word = "") then [] else [word]
  end.

Definition split_whitespace (s : string) : list string := words_fuel (String.length s) "" s.

Definition byte (c : ascii) : Z := Z.of_nat (nat_of_ascii c).

(** [str::parse::<u64>] *)
Fixpoint parse_digits (acc : Z) (s : string) : option Z :=
  match s with
  | EmptyString => Some acc
  | String c s =>
      let d := byte c - 48 in
      if (0 <=? d) && (d <=? 9) && (acc * 10 + d <=? U64_MAX) then parse_digits (acc * 10 + d) s
      else None
  end.

Definition parse_u64 (s : string) : option Z :=
  match default s (strip_prefix "+" s) with
  | EmptyString => None
  | digits => parse_digits 0 digits
  end.

(** [s.is_empty()] *)
Definition str_is_empty (s : string) : bool := bool_decide (s = "").

(** [Some(s).filter(|s| !s.is_empty())] *)
Definition nonempty_text (s : string) : option string := if str_is_empty s then None else Some s.

(** The decimal form of a non-negative integer, as [format!("{}")] prints it. *)
Definition show_Z (n : Z) : string := pretty n.

(** ** Proofs *)

Lemma str_app_assoc (a b c : string) : a +:+ (b +:+ c) = (a +:+ b) +:+ c.
Proof. induction a as [|x a IH]; cbn; [done|]. by rewrite IH. Qed.

Lemma str_app_nil_r (a : string) : a +:+ "" = a.
Proof. induction a as [|x a IH]; cbn; [done|]. by rewrite IH. Qed.

Lemma str_length_app (a b : string) :
  String.length (a +:+ b) = (String.length a + String.length b)%nat.
Proof. induction a as [|x a IH]; cbn; [done|]. by rewrite IH. Qed.

Lemma str_drop_app (a b : string) : str_drop (String.length a) (a +:+ b) = b.
Proof. induction a as [|x a IH]; cbn; done. Qed.

Lemma str_drop_0 s : str_drop 0 s = s.
Proof. by destruct s. Qed.

Lemma str_drop_drop n m s : str_drop n (str_drop m s) = str_drop (m + n) s.
Proof.
  revert s. induction m as [|m IH]; intros s; cbn; [done|].
  destruct s; cbn; [by destruct n|apply IH].
Qed.

Lemma str_drop_suffix n s : exists a, s = a +:+ str_drop n s.
Proof.
  revert s. induction n as [|n IH]; intros s; [by exists ""|].
  destruct s as [|x s]; [by exists ""|]. destruct (IH s) as [a Ha].
  exists (String x a). cbn. by rewrite <- Ha.
Qed.

Lemma starts_with_app p s : starts_with p s = true <-> exists r, s = p +:+ r.
Proof.
  revert s. induction p as [|a p IH]; intros s; cbn; [naive_solver|].
  destruct s as [|b s]; [split; [done|by intros [r Hr]]|]. case_decide; subst.
  - rewrite IH. split; intros [r Hr]; exists r; [by rewrite Hr|by injection Hr].
  - split; [done|]. intros [r Hr]. congruence.
Qed.

Lemma strip_prefix_app p s : strip_prefix p (p +:+ s) = Some s.
Proof.
  unfold strip_prefix. rewrite (proj2 (starts_with_app p (p +:+ s))) by by exists s.
  by rewrite str_drop_app.
Qed.

Lemma strip_prefix_Some p s r : strip_prefix p s = Some r -> s = p +:+ r.
Proof.
  unfold strip_prefix. destruct (starts_with p s) eqn:E; [|done].
  apply starts_with_app in E as [r' ->]. rewrite str_drop_app. by intros [= ->].
Qed.

Lemma str_take_app a b : str_take (String.length a) (a +:+ b) = a.
Proof. induction a as [|c a IH]; cbn; [by destruct b|]. by rewrite IH. Qed.

Lemma ends_with_app p s : ends_with p s = true <-> exists r, s = r +:+ p.
Proof.
  unfold ends_with. rewrite bool_decide_eq_true. split.
  - intros [_ H]. destruct (str_drop_suffix (String.length s - String.length p) s) as [a Ha].
    rewrite H in Ha. eauto.
  - intros [r ->]. rewrite str_length_app. split; [lia|].
    replace (String.length r + String.length p - String.length p)%nat
      with (String.length r) by lia.
    apply str_drop_app.
Qed.

(** Two splits of one string: the shorter tail ends the longer one. *)
Lemma str_app_tail (u v w z : string) : u +:+ v = w +:+ z ->
  (String.length z <= String.length v)%nat -> exists c, v = c +:+ z.
Proof.
  revert w. induction u as [|x u IH]; intros w Heq Hlen; [by exists w|].
  destruct w as [|y w]; cbn in Heq.
  - subst z. cbn in Hlen. rewrite str_length_app in Hlen. lia.
  - injection Heq as _ Heq. eauto.
Qed.

(** The leftmost occurrence leaves at least as much as any other one. *)
Lemma str_find_leftmost p a b : exists idx c,
  str_find p (a +:+ p +:+ b) = Some idx /\
  str_drop (idx + String.length p) (a +:+ p +:+ b) = c +:+ b.
Proof.
  induction a as [|x a IH].
  - exists 0%nat, "". cbn.
    assert (starts_with p (p +:+ b) = true) as Hp by (apply starts_with_app; eauto).
    split; [|apply str_drop_app]. destruct (p +:+ b); cbn; by rewrite Hp.
  - change (String x a +:+ p +:+ b) with (String x (a +:+ p +:+ b)).
    cbn [str_find]. destruct (starts_with p (String x (a +:+ p +:+ b))) eqn:E.
    + apply starts_with_app in E as [r Hr].
      destruct (str_app_tail p r (String x a +:+ p) b) as [c ->].
      { rewrite <- Hr. cbn. by rewrite str_app_assoc. }
      { apply (f_equal String.length) in Hr. cbn in Hr. rewrite !str_length_app in Hr. lia. }
      exists 0%nat, c. rewrite Hr. split; [done|]. apply str_drop_app.
    + destruct IH as (idx & c & -> & Hd). exists (S idx), c. by cbn.
Qed.

(** What [str_find] reports is an occurrence. *)
Lemma str_find_sound p s idx : str_find p s = Some idx ->
  exists a, s = a +:+ p +:+ str_drop (idx + String.length p) s /\ String.length a = idx.
Proof.
  assert (Hstart : forall s, starts_with p s = true ->
    exists a, s = a +:+ p +:+ str_drop (0 + String.length p) s /\ String.length a = 0%nat).
  { intros t [r ->]%starts_with_app. exists "". cbn. by rewrite str_drop_app. }
  revert idx. induction s as [|x s IH]; intros idx; cbn [str_find].
  - destruct (starts_with p "") eqn:E; [|done]. intros [= <-]. by apply Hstart.
  - destruct (starts_with p (String x s)) eqn:E; [intros [= <-]; by apply Hstart|].
    destruct (str_find p s) as [i|]; [|done]. intros [= <-].
    destruct (IH i eq_refl) as (a & Ha & Hlen). exists (String x a). cbn.
    split; [by rewrite <- Ha|by rewrite Hlen].
Qed.

Lemma str_contains_spec p s : str_contains p s = true <-> exists a b, s = a +:+ p +:+ b.
Proof.
  unfold str_contains. split.
  - destruct (str_find p s) as [idx|] eqn:E; [|done]. intros _.
    apply str_find_sound in E as (a & Ha & _). eauto.
  - intros (a & b & ->). by destruct (str_find_leftmost p a b) as (idx & c & -> & _).
Qed.

Lemma split_on_cons sep s : exists part parts, split_on sep s = part :: parts.
Proof.
  induction s as [|a s (part & parts & IH)]; cbn; [eauto|].
  destruct (sep a); [eauto|]. rewrite IH. eauto.
Qed.

Lemma contains_char_split c s :
  contains_char c s = false <-> split_on (is_char c) s = [s].
Proof.
  unfold is_char. induction s as [|a s IH]; cbn; [done|]. case_decide.
  - rewrite bool_decide_true by done. destruct (split_on_cons (fun a => bool_decide (a = c)) s)
      as (q & qs & Hq). rewrite Hq. split; congruence.
  - rewrite bool_decide_false by done. rewrite IH. split; [by intros ->|].
    destruct (split_on_cons (fun a => bool_decide (a = c)) s) as (q & qs & ->). congruence.
Qed.

(** ** The order of strings *)

Lemma ltb_leb a b : String.ltb a b = true <-> ~ String.le b a.
Proof.
  unfold String.le, String.ltb, String.leb. rewrite (String.compare_antisym b a).
  by destruct (String.compare a b); cbn; naive_solver.
Qed.

Lemma ltb_trans a b c : String.ltb a b = true -> String.ltb b c = true -> String.ltb a c = true.
Proof.
  rewrite !ltb_leb. intros Hab Hbc Hca. destruct (total String.le a b) as [H|H]; [|done].
  apply Hbc. by trans a.
Qed.

Lemma ltb_irrefl a : String.ltb a a = false.
Proof. apply not_true_is_false. rewrite ltb_leb. intros H. by apply H. Qed.

Lemma ltb_total a b : String.ltb a b = false -> String.ltb b a = false -> a = b.
Proof.
  unfold String.ltb. pose proof (String.compare_antisym a b) as Ha.
  destruct (String.compare a b) eqn:E; [|done|].
  - intros _ _. exact (String.compare_eq_iff a b E).
  - intros _. by destruct (String.compare b a).
Qed.

Lemma ltb_asym a b : String.ltb a b = true -> String.ltb b a = false.
Proof.
  intros H1. apply not_true_is_false. intros H2.
  pose proof (ltb_trans a b a H1 H2). by rewrite ltb_irrefl in *.
Qed.

Lemma ltb_negtrans a b c :
  String.ltb b a = false -> String.ltb c b = false -> String.ltb c a = false.
Proof.
  intros H1 H2. apply not_true_is_false. intros H3.
  destruct (String.ltb a b) eqn:E.
  - pose proof (ltb_trans c a b H3 E). congruence.
  - assert (a = b) as -> by by apply ltb_total. congruence.
Qed.
