(* ===== verification/Float.v ===== *)
(** * IEEE 754 numbers

    [f64] and [f32] values are the [spec_float]s of the Standard Library,
    computed at precision 53 (resp. 24); no floating-point axiom is used. *)

From S2P Require Import Prelude.
From Stdlib Require Export SpecFloat.
From Stdlib Require Import Sorted.

Abbreviation f64 := spec_float.
Abbreviation f32 := spec_float.

#[export] Instance f64_eq_dec : EqDecision f64.
Proof. solve_decision. Defined.

(** ** Arithmetic *)

Definition f64_add : f64 -> f64 -> f64 := SFadd 53 1024.
Definition f64_sub : f64 -> f64 -> f64 := SFsub 53 1024.
Definition f64_mul : f64 -> f64 -> f64 := SFmul 53 1024.
Definition f64_div : f64 -> f64 -> f64 := SFdiv 53 1024.

(** [n as f64] for an integer [n]. *)
Definition f64_of_Z (n : Z) : f64 := binary_normalize 53 1024 n 0 false.
Definition f32_of_Z (n : Z) : f32 := binary_normalize 24 128 n 0 false.

(** The literal [n / d], correctly rounded. *)
Definition f64_lit (n d : Z) : f64 := f64_div (f64_of_Z n) (f64_of_Z d).
Definition f32_lit (n d : Z) : f32 := SFdiv 24 128 (f32_of_Z n) (f32_of_Z d).

Definition f64_zero : f64 := S754_zero false.

(** [a < b], [a <= b], [a >= b] and [a == b]: false on a NaN. *)
Definition f64_ltb : f64 -> f64 -> bool := SFltb.
Definition f64_leb : f64 -> f64 -> bool := SFleb.
Definition f64_eqb : f64 -> f64 -> bool := SFeqb.

Definition f64_is_nan (x : f64) : bool :=
  match x with S754_nan => true | _ => false end.

(** [a.max(b)] *)
Definition f64_max (a b : f64) : f64 :=
  if f64_is_nan a then b
  else if f64_is_nan b then a
  else if f64_ltb a b then b else a.

(** [x.round()]: to the nearest integer, halves away from zero. *)
Definition f64_round (x : f64) : f64 :=
  match x with
  | S754_finite s m e =>
      if 0 <=? e then x
      else binary_normalize 53 1024
             (cond_Zopp s ((Zpos m + 2 ^ (- e - 1)) / 2 ^ (- e))) 0 s
  | _ => x
  end.

(** [x as u64]: toward zero, saturating, NaN to zero. *)
Definition f64_as_u64 (x : f64) : Z :=
  match x with
  | S754_nan | S754_zero _ | S754_infinity true | S754_finite true _ _ => 0
  | S754_infinity false => U64_MAX
  | S754_finite false m e =>
      Z.min U64_MAX (if 0 <=? e then Zpos m * 2 ^ e else Zpos m / 2 ^ (- e))
  end.

(** [iter().sum()] *)
Definition f64_sum (l : list f64) : f64 := foldl f64_add f64_zero l.

(** ** Stable sorting

    [slice::sort_by] is a stable sort; on a total preorder its result is the
    one computed here by stable insertion. [before a b] is [cmp a b == Less]. *)
Section Sort.
Context {A : Type} (before : A -> A -> bool).

Fixpoint sort_insert (x : A) (l : list A) : list A :=
  match l with
  | [] => [x]
  | y :: l => if before y x then y :: sort_insert x l else x :: y :: l
  end.

Fixpoint stable_sort (l : list A) : list A :=
  match l with
  | [] => []
  | x :: l => sort_insert x (stable_sort l)
  end.

Lemma sort_insert_perm x l : sort_insert x l ≡ₚ x :: l.
Proof.
  induction l as [|y l IH]; cbn; [done|]. destruct (before y x); [|done].
  rewrite IH. apply Permutation_swap.
Qed.

Lemma stable_sort_perm l : stable_sort l ≡ₚ l.
Proof. induction l as [|x l IH]; cbn; [done|]. by rewrite sort_insert_perm, IH. Qed.

(** Stability: elements none of which is before another keep their order. *)
Lemma sort_insert_stable (P : A -> Prop) `{forall x, Decision (P x)} x l :
  (forall a b, P a -> P b -> before a b = false) ->
  filter P (sort_insert x l) = filter P (x :: l).
Proof.
  intros HP. induction l as [|y l IH]; cbn [sort_insert]; [done|].
  destruct (before y x) eqn:E; [|done].
  rewrite !filter_cons in *. rewrite IH. repeat case_decide; try done.
  by rewrite HP in E.
Qed.

Lemma stable_sort_stable (P : A -> Prop) `{forall x, Decision (P x)} l :
  (forall a b, P a -> P b -> before a b = false) ->
  filter P (stable_sort l) = filter P l.
Proof.
  intros HP. induction l as [|x l IH]; cbn [stable_sort]; [done|].
  rewrite sort_insert_stable by done. rewrite !filter_cons. by rewrite IH.
Qed.

(** Sortedness: no element is strictly before one that precedes it, where
    [before] is a strict weak order. *)
Context (ok : A -> Prop).
Context (Htrans : forall a b c, ok a -> ok b -> ok c ->
  before b a = false -> before c b = false -> before c a = false).
Context (Hasym : forall a b, ok a -> ok b -> before a b = true -> before b a = false).

Lemma sort_insert_sorted x l : ok x -> Forall ok l ->
  StronglySorted (fun a b => before b a = false) l ->
  StronglySorted (fun a b => before b a = false) (sort_insert x l).
Proof.
  intros Hx Hok. induction 1 as [|y l Hl IH Hy]; cbn; [by repeat constructor|].
  inversion Hok as [|? ? Hoky Hokl]; subst. destruct (before y x) eqn:E.
  - constructor; [auto|]. apply Forall_forall. intros z Hz.
    rewrite (sort_insert_perm x l) in Hz. apply elem_of_cons in Hz as [->|Hz]; [by apply Hasym|].
    by eapply Forall_forall in Hy.
  - constructor; [by constructor|]. constructor; [done|].
    rewrite Forall_forall in Hy, Hokl. apply Forall_forall. intros z Hz. eauto.
Qed.

Lemma stable_sort_sorted l : Forall ok l ->
  StronglySorted (fun a b => before b a = false) (stable_sort l).
Proof.
  induction 1 as [|x l Hx Hl IH]; cbn; [constructor|]. apply sort_insert_sorted; [done| |done].
  by rewrite stable_sort_perm.
Qed.
End Sort.

(** ** The order of floats *)

(** A rank whose lexicographic order is [SFltb]'s. *)
Definition f64_rank (x : f64) : Z * Z * Z :=
  match x with
  | S754_nan => (3, 0, 0)
  | S754_infinity s => (if s then -2 else 2, 0, 0)
  | S754_zero _ => (0, 0, 0)
  | S754_finite s m e => if s then (-1, - e, - Zpos m) else (1, e, Zpos m)
  end.

Definition rank_lt (a b : Z * Z * Z) : Prop :=
  a.1.1 < b.1.1 \/ (a.1.1 = b.1.1 /\ (a.1.2 < b.1.2 \/ (a.1.2 = b.1.2 /\ a.2 < b.2))).

Lemma f64_ltb_rank x y : f64_is_nan x = false -> f64_is_nan y = false ->
  f64_ltb x y = true <-> rank_lt (f64_rank x) (f64_rank y).
Proof.
  unfold f64_ltb, SFltb, rank_lt. intros Hx Hy.
  destruct x as [sx|sx| |sx mx ex], y as [sy|sy| |sy my ey]; try done;
    try destruct sx; try destruct sy; cbn;
    try (split; [intros; try done; lia|intros; try done; lia]).
  all: change (Pos.compare_cont Eq mx my) with (Pos.compare mx my);
    destruct (Z.compare_spec ex ey), (Pos.compare_spec mx my); cbn;
    (split; [intros; try done; lia|intros; try done; lia]).
Qed.

Lemma f64_ltb_trans a b c : f64_is_nan a = false -> f64_is_nan b = false ->
  f64_is_nan c = false ->
  f64_ltb b a = false -> f64_ltb c b = false -> f64_ltb c a = false.
Proof.
  intros Ha Hb Hc. rewrite <- !not_true_iff_false, !f64_ltb_rank by done.
  unfold rank_lt. lia.
Qed.

Lemma f64_ltb_asym a b : f64_is_nan a = false -> f64_is_nan b = false ->
  f64_ltb a b = true -> f64_ltb b a = false.
Proof.
  intros Ha Hb. rewrite <- not_true_iff_false, !f64_ltb_rank by done. unfold rank_lt. lia.
Qed.
