(* ===== verification/Types.v ===== *)
(** * Request, response and routing types
    (src/crates/himadri-core/src/types.rs)

    Each struct is a record with the source's fields, prefixed by the type;
    [HashMap]s are [gmap]s. [Value] is the data type [serde_json::Value];
    its object is a list of members. *)

From S2P Require Import Prelude Str Float.

(** ** JSON values *)

Inductive Number :=
  | PosInt (n : Z)
  | NegInt (n : Z)
  | FloatNum (x : f64).

#[warnings="-register-all"]
Inductive Value :=
  | VNull
  | VBool (b : bool)
  | VNumber (n : Number)
  | VString (s : string)
  | VArray (l : list Value)
  | VObject (members : list (string * Value)).

(** [Value::as_str] *)
Definition value_as_str (v : Value) : option string :=
  match v with VString s => Some s | _ => None end.

(** ** Chat requests *)

Inductive Role := System | User | Assistant | RoleTool.

#[export] Instance Role_eq_dec : EqDecision Role.
Proof. solve_decision. Defined.

Definition default_role_value : Role := Assistant.

Record ImageUrlDetail := { img_url : string; img_detail : option string }.

Inductive ContentPart :=
  | PartText (text : string)
  | PartImageUrl (image_url : ImageUrlDetail).

Inductive MessageContent :=
  | ContentText (s : string)
  | ContentParts (parts : list ContentPart).

Record FunctionCall := { fc_name : string; fc_arguments : string }.

Record ToolCall := { tc_id : string; tc_tool_type : string; tc_function : FunctionCall }.

Record ToolFunction := {
  tf_name : string;
  tf_description : option string;
  tf_parameters : option Value;
}.

Record Tool := { tool_type : string; tool_function : ToolFunction }.

Definition default_tool_type : string := "function".

Record Message := {
  msg_role : Role;
  msg_content : option MessageContent;
  msg_name : option string;
  msg_tool_calls : option (list ToolCall);
  msg_tool_call_id : option string;
}.

Definition content_text (s : string) : MessageContent := ContentText s.

Definition message_user (content : string) : Message :=
  {| msg_role := User; msg_content := Some (content_text content);
     msg_name := None; msg_tool_calls := None; msg_tool_call_id := None |}.

Record ChatCompletionRequest := {
  req_model : string;
  req_messages : list Message;
  req_stream : bool;
  req_temperature : option f32;
  req_top_p : option f32;
  req_max_tokens : option Z;
  req_stop : option (list string);
  req_presence_penalty : option f32;
  req_frequency_penalty : option f32;
  req_user : option string;
  req_tools : option (list Tool);
  req_tool_choice : option Value;
  req_extra : gmap string Value;
}.

Definition as_text (c : MessageContent) : option string :=
  match c with ContentText s => Some s | ContentParts _ => None end.

Definition flat_text (c : MessageContent) : string :=
  match c with
  | ContentText s => s
  | ContentParts parts =>
      join "" (omap (fun p => match p with PartText text => Some text | _ => None end) parts)
  end.

(** ** Responses *)

Record Usage := { usage_prompt_tokens : Z; usage_completion_tokens : Z; usage_total_tokens : Z }.

Record ResponseMessage := {
  rm_role : Role;
  rm_content : option string;
  rm_tool_calls : option (list ToolCall);
}.

Record Choice := {
  choice_index : Z;
  choice_message : ResponseMessage;
  choice_finish_reason : option string;
}.

Record ChatCompletionResponse := {
  resp_id : string;
  resp_object : string;
  resp_created : Z;
  resp_model : string;
  resp_choices : list Choice;
  resp_usage : option Usage;
  resp_system_fingerprint : option string;
}.

(** ** Streams *)

Record FunctionCallDelta := { fcd_name : option string; fcd_arguments : option string }.

Record ToolCallDelta := {
  tcd_index : Z;
  tcd_id : option string;
  tcd_tool_type : option string;
  tcd_function : option FunctionCallDelta;
}.

Record Delta := {
  delta_role : option Role;
  delta_content : option string;
  delta_tool_calls : option (list ToolCallDelta);
}.

Record StreamChoice := {
  sc_index : Z;
  sc_delta : Delta;
  sc_finish_reason : option string;
}.

Record StreamChunk := {
  chunk_id : string;
  chunk_object : string;
  chunk_created : Z;
  chunk_model : string;
  chunk_choices : list StreamChoice;
  chunk_usage : option Usage;
  chunk_system_fingerprint : option string;
}.

(** ** Embeddings *)

Inductive EmbeddingInput := InputSingle (s : string) | InputMultiple (l : list string).

Record EmbeddingRequest := {
  ereq_model : string;
  ereq_input : EmbeddingInput;
  ereq_encoding_format : option string;
  ereq_dimensions : option Z;
  ereq_user : option string;
  ereq_extra : gmap string Value;
}.

Record EmbeddingData := { ed_object : string; ed_index : Z; ed_embedding : list f32 }.

Record EmbeddingUsage := { eu_prompt_tokens : Z; eu_total_tokens : Z }.

Record EmbeddingResponse := {
  eresp_object : string;
  eresp_data : list EmbeddingData;
  eresp_model : string;
  eresp_usage : EmbeddingUsage;
}.

(** ** Model list *)

Record ModelObject := {
  mo_id : string; mo_object : string; mo_created : Z; mo_owned_by : string;
}.

Record ModelListResponse := { ml_object : string; ml_data : list ModelObject }.

(** ** Routing targets *)

Record Target := {
  target_id : option string;
  target_provider : string;
  target_weight : f64;
  target_models : option (list string);
  target_api_key_env : option string;
  target_base_url : option string;
}.

#[export] Instance Target_eq_dec : EqDecision Target.
Proof. solve_decision. Defined.

Definition default_weight : f64 := f64_of_Z 1.

(** ** The principal of a request *)

Record RateLimitOverride := {
  ov_requests_per_second : option Z;
  ov_burst_size : option Z;
}.

Inductive AuthScope := Admin | ReadOnly | ApiKey.

#[export] Instance AuthScope_eq_dec : EqDecision AuthScope.
Proof. solve_decision. Defined.

Record AuthContext := {
  auth_api_key : string;
  auth_key_id : option string;
  auth_scope : AuthScope;
  auth_org_id : option string;
  auth_team_id : option string;
  auth_user_id : option string;
  auth_rate_limit_override : option RateLimitOverride;
  auth_roles : list string;
  auth_budget_limit_usd : option f64;
}.

Definition auth_default : AuthContext :=
  {| auth_api_key := ""; auth_key_id := None; auth_scope := ApiKey;
     auth_org_id := None; auth_team_id := None; auth_user_id := None;
     auth_rate_limit_override := None; auth_roles := [];
     auth_budget_limit_usd := None |}.

Definition auth_anonymous : AuthContext :=
  {| auth_api_key := "anonymous"; auth_key_id := None; auth_scope := Admin;
     auth_org_id := None; auth_team_id := None; auth_user_id := None;
     auth_rate_limit_override := None; auth_roles := [];
     auth_budget_limit_usd := None |}.

Definition org_id_or_empty (a : AuthContext) : string := default "" (auth_org_id a).
Definition team_id_or_empty (a : AuthContext) : string := default "" (auth_team_id a).

Definition has_role (role : string) (a : AuthContext) : bool :=
  existsb (fun r => bool_decide (r = role)) (auth_roles a).

Definition has_any_role (roles : list string) (a : AuthContext) : bool :=
  existsb (fun r => has_role r a) roles.
