(* ===== verification/Json.v ===== *)
(** * JSON documents
    (the [Serialize] derives of src/crates/himadri-core/src/types.rs)

    serde_json's [Map] is a [BTreeMap]: an object lists its members in the
    order of their keys, without duplicates. Indexing a [Value] by a key it does
    not have gives [null]; indexing a [Map] panics, which is [None] here.
    Printing and parsing text are arguments of the files that use them. *)

From S2P Require Import Prelude Str Float Types.

(** ** Objects *)

(** [map.get(k)] *)
Fixpoint object_get (k : string) (l : list (string * Value)) : option Value :=
  match l with
  | [] => None
  | (k', v) :: l => if decide (k' = k) then Some v else object_get k l
  end.

(** [map.insert(k, v)] *)
Fixpoint object_insert (k : string) (v : Value) (l : list (string * Value))
    : list (string * Value) :=
  match l with
  | [] => [(k, v)]
  | (k', v') :: l' =>
      if decide (k' = k) then (k, v) :: l'
      else if String.ltb k k' then (k, v) :: l
      else (k', v') :: object_insert k v l'
  end.

(** [json!({ ... })] *)
Definition json_object (members : list (string * Value)) : Value :=
  VObject (foldl (fun l '(k, v) => object_insert k v l) [] members).

(** [value[k]] and [value.get(k)] *)
Definition value_get (k : string) (v : Value) : option Value :=
  match v with VObject l => object_get k l | _ => None end.

Definition value_index (k : string) (v : Value) : Value := default VNull (value_get k v).

(** [value[k] = x] on an object or [null]; anything else panics, and no caller
    has anything else. *)
Definition value_set (k : string) (x : Value) (v : Value) : Value :=
  match v with
  | VObject l => VObject (object_insert k x l)
  | VNull => VObject [(k, x)]
  | _ => v
  end.

Definition value_as_array (v : Value) : option (list Value) :=
  match v with VArray l => Some l | _ => None end.

Definition value_as_object (v : Value) : option (list (string * Value)) :=
  match v with VObject l => Some l | _ => None end.

Definition value_as_u64 (v : Value) : option Z :=
  match v with VNumber (PosInt n) => Some n | _ => None end.

(** [value == "..."] *)
Definition value_is (s : string) (v : Value) : bool := bool_decide (value_as_str v = Some s).

(** ** Serialization *)

Definition opt_value {A} (f : A -> Value) (o : option A) : Value :=
  match o with Some x => f x | None => VNull end.

(** [skip_serializing_if = "Option::is_none"] *)
Definition opt_member {A} (key : string) (f : A -> Value) (o : option A) : list (string * Value) :=
  match o with Some x => [(key, f x)] | None => [] end.

(** [x as f64], for a number of 24 bits: the same value, its mantissa brought
    to 53 bits. *)
Definition f64_of_f32 (x : f32) : f64 :=
  match x with
  | S754_finite s m e =>
      let k := 53 - Zpos (digits2_pos m) in
      S754_finite s (Z.to_pos (Zpos m * 2 ^ k)) (e - k)
  | _ => x
  end.

Definition f32_finite (x : f32) : bool :=
  match x with S754_zero _ | S754_finite _ _ _ => true | _ => false end.

(** [Number::from_f32]: a number that is not finite is [null]. *)
Definition f32_value (x : f32) : Value :=
  if f32_finite x then VNumber (FloatNum (f64_of_f32 x)) else VNull.

Definition u32_value (n : Z) : Value := VNumber (PosInt n).

Definition role_value (r : Role) : Value :=
  VString match r with
          | System => "system" | User => "user" | Assistant => "assistant" | RoleTool => "tool"
          end.

Definition image_value (i : ImageUrlDetail) : Value :=
  VObject [("detail", opt_value VString (img_detail i)); ("url", VString (img_url i))].

Definition part_value (p : ContentPart) : Value :=
  match p with
  | PartText text => VObject [("text", VString text); ("type", VString "text")]
  | PartImageUrl i => VObject [("image_url", image_value i); ("type", VString "image_url")]
  end.

Definition content_value (c : MessageContent) : Value :=
  match c with
  | ContentText s => VString s
  | ContentParts parts => VArray (part_value <$> parts)
  end.

Definition function_call_value (f : FunctionCall) : Value :=
  VObject [("arguments", VString (fc_arguments f)); ("name", VString (fc_name f))].

Definition tool_call_value (t : ToolCall) : Value :=
  VObject [("function", function_call_value (tc_function t)); ("id", VString (tc_id t));
           ("type", VString (tc_tool_type t))].

Definition message_value (m : Message) : Value :=
  VObject
    (opt_member "content" content_value (msg_content m) ++
     opt_member "name" VString (msg_name m) ++
     [("role", role_value (msg_role m))] ++
     opt_member "tool_call_id" VString (msg_tool_call_id m) ++
     opt_member "tool_calls" (fun l => VArray (tool_call_value <$> l)) (msg_tool_calls m))%list.

Definition tool_function_value (f : ToolFunction) : Value :=
  VObject
    (opt_member "description" VString (tf_description f) ++
     [("name", VString (tf_name f))] ++
     opt_member "parameters" id (tf_parameters f))%list.

Definition tool_value (t : Tool) : Value :=
  VObject [("function", tool_function_value (tool_function t)); ("type", VString (tool_type t))].

(** A [HashMap] as a JSON map. *)
Definition map_value (m : gmap string Value) : Value :=
  VObject (stable_sort (fun a b => String.ltb a.1 b.1) (map_to_list m)).

(** [serde_json::to_value(request)]: the declared fields, then the flattened
    map, whose members replace those of the same name. *)
Definition request_value (r : ChatCompletionRequest) : Value :=
  VObject (foldl (fun l '(k, v) => object_insert k v l) []
    ([("model", VString (req_model r));
      ("messages", VArray (message_value <$> req_messages r));
      ("stream", VBool (req_stream r))] ++
     opt_member "temperature" f32_value (req_temperature r) ++
     opt_member "top_p" f32_value (req_top_p r) ++
     opt_member "max_tokens" u32_value (req_max_tokens r) ++
     opt_member "stop" (fun l => VArray (VString <$> l)) (req_stop r) ++
     opt_member "presence_penalty" f32_value (req_presence_penalty r) ++
     opt_member "frequency_penalty" f32_value (req_frequency_penalty r) ++
     opt_member "user" VString (req_user r) ++
     opt_member "tools" (fun l => VArray (tool_value <$> l)) (req_tools r) ++
     opt_member "tool_choice" id (req_tool_choice r) ++
     map_to_list (req_extra r))%list).

Definition input_value (i : EmbeddingInput) : Value :=
  match i with
  | InputSingle s => VString s
  | InputMultiple l => VArray (VString <$> l)
  end.

(** What [.json(request)] writes: the fields in the order of the struct, then the
    flattened extras in the order [hash_order] in which their [HashMap] yields them. *)
Definition embedding_request_value (hash_order : gmap string Value -> list (string * Value))
    (r : EmbeddingRequest) : Value :=
  VObject
    ([("model", VString (ereq_model r)); ("input", input_value (ereq_input r))] ++
     opt_member "encoding_format" VString (ereq_encoding_format r) ++
     opt_member "dimensions" u32_value (ereq_dimensions r) ++
     opt_member "user" VString (ereq_user r) ++
     hash_order (ereq_extra r))%list.

(** ** Lemmas *)

Lemma object_get_insert k k' v l :
  object_get k (object_insert k' v l) = if decide (k' = k) then Some v else object_get k l.
Proof.
  induction l as [|[k1 v1] l IH]; cbn [object_get object_insert]; [done|].
  destruct (decide (k1 = k')) as [->|Hk1]; cbn [object_get]; [by destruct (decide (k' = k))|].
  destruct (String.ltb k' k1); cbn [object_get]; [done|]. rewrite IH.
  destruct (decide (k1 = k)) as [->|]; [|done]. by rewrite (decide_False _ _ (not_eq_sym Hk1)).
Qed.

Lemma object_get_app k l l' :
  object_get k (l ++ l')%list = match object_get k l with Some v => Some v | None => object_get k l' end.
Proof. induction l as [|[k1 v1] l IH]; cbn; [done|]. by case_decide. Qed.

Lemma object_get_members k ms l :
  object_get k (foldl (fun l '(k, v) => object_insert k v l) l ms) =
    match object_get k (reverse ms) with Some v => Some v | None => object_get k l end.
Proof.
  revert l. induction ms as [|[k1 v1] ms IH]; intros l; [done|]. cbn [foldl].
  rewrite IH, object_get_insert, reverse_cons, object_get_app.
  destruct (object_get k (reverse ms)); [done|]. cbn. by case_decide.
Qed.

Lemma value_index_set k k' x l :
  value_index k (value_set k' x (VObject l)) =
    if decide (k' = k) then x else value_index k (VObject l).
Proof. unfold value_index. cbn. rewrite object_get_insert. by case_decide. Qed.
