(* ===== verification/Errors.v ===== *)
(** * Error types and their mapping to the client
    (src/crates/himadri-core/src/error.rs and
    src/crates/himadri-provider/src/error.rs)

    [to_string] functions are the [thiserror] messages. The [std::io::Error]
    inside [ConfigError::Io] is its message. *)

From S2P Require Import Prelude Str.

(** ** Gateway errors *)

Inductive ConfigError :=
  | InvalidStrategy (mode : string)
  | MissingField (field : string)
  | InvalidValue (field reason : string)
  | Io (message : string)
  | ConfigParse (message : string).

Inductive GatewayError :=
  | ProviderNotFound (provider : string)
  | CircuitOpen (provider : string)
  | RateLimited (retry_after_secs : Z)
  | QuotaExceeded (message : string)
  | Unauthorized
  | Forbidden (message : string)
  | NotFound (message : string)
  | BadRequest (message : string)
  | ProviderFailure (message : string)
  | ConfigFailure (e : ConfigError)
  | Internal (message : string)
  | ServiceUnavailable (message : string).

#[export] Instance ConfigError_eq_dec : EqDecision ConfigError.
Proof. solve_decision. Defined.

#[export] Instance GatewayError_eq_dec : EqDecision GatewayError.
Proof. solve_decision. Defined.

Definition config_error_to_string (e : ConfigError) : string :=
  match e with
  | InvalidStrategy mode => "invalid strategy mode: " +:+ mode
  | MissingField field => "missing required field: " +:+ field
  | InvalidValue field reason => "invalid value for " +:+ field +:+ ": " +:+ reason
  | Io message => "io error: " +:+ message
  | ConfigParse message => "parse error: " +:+ message
  end.

Definition gateway_error_to_string (e : GatewayError) : string :=
  match e with
  | ProviderNotFound p => "provider not found: " +:+ p
  | CircuitOpen p => "circuit breaker open for provider: " +:+ p
  | RateLimited _ => "rate limited"
  | QuotaExceeded m => "quota exceeded: " +:+ m
  | Unauthorized => "unauthorized"
  | Forbidden m => "forbidden: " +:+ m
  | NotFound m => "not found: " +:+ m
  | BadRequest m => "bad request: " +:+ m
  | ProviderFailure m => "provider error: " +:+ m
  | ConfigFailure c => "config error: " +:+ config_error_to_string c
  | Internal m => "internal error: " +:+ m
  | ServiceUnavailable m => "service unavailable: " +:+ m
  end.

Definition gateway_status_code (e : GatewayError) : Z :=
  match e with
  | ProviderNotFound _ => 404
  | CircuitOpen _ => 503
  | RateLimited _ => 429
  | QuotaExceeded _ => 429
  | Unauthorized => 401
  | Forbidden _ => 403
  | NotFound _ => 404
  | BadRequest _ => 400
  | ProviderFailure _ => 500
  | ConfigFailure _ => 400
  | Internal _ => 500
  | ServiceUnavailable _ => 503
  end.

Definition gateway_retryable (e : GatewayError) : bool :=
  match e with
  | CircuitOpen _ | RateLimited _ | ServiceUnavailable _ => true
  | _ => false
  end.

(** ** Provider errors *)

Inductive ProviderError :=
  | PAuth (message : string)
  | PRateLimited (retry_after_secs : Z)
  | PModelNotFound (model : string)
  | PContextLengthExceeded (max actual : Z)
  | PApi (status : Z) (message : string)
  | PNetwork (message : string)
  | PParse (message : string)
  | PInternal (message : string)
  | PUnsupported (message : string)
  | PUnknownType (provider_type : string)
  | PMissingBaseUrl (provider : string)
  | PInvalidConfiguration (message : string).

#[export] Instance ProviderError_eq_dec : EqDecision ProviderError.
Proof. solve_decision. Defined.

Definition provider_error_to_string (e : ProviderError) : string :=
  match e with
  | PAuth m => "authentication failed: " +:+ m
  | PRateLimited s => "rate limited, retry after " +:+ show_Z s +:+ "s"
  | PModelNotFound m => "model not found: " +:+ m
  | PContextLengthExceeded max actual =>
      "context length exceeded: max " +:+ show_Z max +:+ ", got " +:+ show_Z actual
  | PApi status m => "provider error (" +:+ show_Z status +:+ "): " +:+ m
  | PNetwork m => "network error: " +:+ m
  | PParse m => "parse error: " +:+ m
  | PInternal m => "internal error: " +:+ m
  | PUnsupported m => "operation not supported: " +:+ m
  | PUnknownType t => "unknown provider type: " +:+ t
  | PMissingBaseUrl p => "missing base_url for provider: " +:+ p
  | PInvalidConfiguration m => "invalid provider configuration: " +:+ m
  end.

Definition provider_retryable (e : ProviderError) : bool :=
  match e with
  | PRateLimited _ | PNetwork _ => true
  | PApi status _ => bool_decide (status ∈ [500; 502; 503; 504; 529])
  | _ => false
  end.

Definition provider_status_code (e : ProviderError) : Z :=
  match e with
  | PAuth _ => 401
  | PRateLimited _ => 429
  | PModelNotFound _ => 404
  | PContextLengthExceeded _ _ => 400
  | PApi status _ => status
  | PNetwork _ => 502
  | PParse _ => 500
  | PInternal _ => 500
  | PUnsupported _ => 501
  | PUnknownType _ => 400
  | PMissingBaseUrl _ => 400
  | PInvalidConfiguration _ => 400
  end.

(** [impl From<ProviderError> for GatewayError]. *)
Definition gateway_error_from (e : ProviderError) : GatewayError :=
  match e with
  | PAuth _ => ServiceUnavailable "upstream provider authentication failed"
  | PRateLimited s => RateLimited s
  | PModelNotFound model => NotFound ("model: " +:+ model)
  | PContextLengthExceeded max actual =>
      BadRequest ("context length exceeded: max " +:+ show_Z max +:+ ", got " +:+ show_Z actual)
  | PApi status message =>
      if (status =? 401) || (status =? 403) then
        ServiceUnavailable "upstream provider authentication failed"
      else if status =? 429 then RateLimited 60
      else if (400 <=? status) && (status <? 500) then BadRequest message
      else ServiceUnavailable message
  | PNetwork msg => ServiceUnavailable msg
  | PParse msg => ProviderFailure ("parse error: " +:+ msg)
  | PInternal msg => Internal msg
  | PUnsupported msg => BadRequest ("operation not supported: " +:+ msg)
  | PUnknownType msg => BadRequest ("unknown provider type: " +:+ msg)
  | PMissingBaseUrl msg => BadRequest ("missing base_url for provider: " +:+ msg)
  | PInvalidConfiguration msg => BadRequest ("invalid provider configuration: " +:+ msg)
  end.

(** The classification [ProviderError::from_response] makes of a response
    that was not a success: its status, the seconds of its [Retry-After]
    header when that parses, and the message extracted from its body. *)
Definition from_response_status (status : Z) (retry_after_secs : option Z)
    (auth_statuses : list Z) (message : string) : ProviderError :=
  if bool_decide (status ∈ auth_statuses) then PAuth message
  else if status =? 429 then PRateLimited (default 60 retry_after_secs)
  else if status =? 404 then PModelNotFound message
  else PApi status message.

(** ** Properties *)

(** Membership in a literal list of statuses, by evaluation. *)
Ltac solve_elem := apply (bool_decide_unpack _); vm_compute; exact I.

(** A status the provider reported, as the class the client sees. *)
Lemma gateway_error_from_api status message :
  gateway_status_code (gateway_error_from (PApi status message)) =
    (if bool_decide (status ∈ [401; 403]) then 503
     else if status =? 429 then 429
     else if (400 <=? status) && (status <? 500) then 400 else 503).
Proof.
  cbn [gateway_error_from]. case_bool_decide as H; rewrite !elem_of_cons in H.
  - destruct H as [->|[->|H]]; [done..|]. by apply not_elem_of_nil in H.
  - rewrite (proj2 (Z.eqb_neq status 401)), (proj2 (Z.eqb_neq status 403)) by naive_solver.
    cbn [orb]. by repeat case_match.
Qed.

(** The error surface keeps its meaning: an upstream rate limit, and
    nothing else, reaches the client as 429; a bad provider key is never
    reported as the caller's own 401 or 403; every error the failover loop
    would retry is one the client is told to retry; and the status is always
    one of five. *)
Theorem provider_error_surface e :
  let g := gateway_error_from e in
  (gateway_status_code g = 429 <->
     (exists s, e = PRateLimited s) \/ (exists m, e = PApi 429 m)) /\
  gateway_status_code g <> 401 /\ gateway_status_code g <> 403 /\
  (provider_retryable e = true -> gateway_retryable g = true) /\
  gateway_status_code g ∈ [400; 404; 429; 500; 503].
Proof.
  intros g. subst g. destruct e as [m|s|m|mx ac|status m|m|m|m|m|m|m|m].
  5: {
    assert (provider_retryable (PApi status m) = true ->
      gateway_retryable (gateway_error_from (PApi status m)) = true) as Hretry.
    { cbn [provider_retryable]. rewrite bool_decide_eq_true. intros Hs.
      repeat (apply elem_of_cons in Hs as [->|Hs]; [done|]).
      by apply not_elem_of_nil in Hs. }
    rewrite gateway_error_from_api. case_bool_decide as Ha.
    - split; [|by split_and!; [..|solve_elem]].
      split; [done|]. intros [[? ?]|[? [= -> _]]]; [done|].
      repeat (apply elem_of_cons in Ha as [Ha|Ha]; [done|]). by apply not_elem_of_nil in Ha.
    - destruct (Z.eqb_spec status 429) as [->|Hne].
      + split_and!; [split; [eauto|done]|done|done|done|solve_elem].
      + assert (~ ((exists s, PApi status m = PRateLimited s) \/
                   (exists m0, PApi status m = PApi 429 m0))) by (intros [[? ?]|[? ?]]; congruence).
        destruct (_ && _); split_and!; try done; solve_elem. }
  2: split_and!; [split; [eauto|done]|done|done|done|solve_elem].
  all: split_and!;
    [split; [done|by intros [[? ?]|[? ?]]]|done|done|done|solve_elem].
Qed.
