(* ===== verification/Sse.v ===== *)
(** * Server-sent events
    (src/crates/himadri-provider/src/sse.rs)

    [sse_events] turns the chunks a provider's connection delivers into events.
    A chunk is its bytes or a transport error, already displayed.
    [String::from_utf8_lossy] is the Standard Library's decoder, as an
    automaton over bytes. *)

From S2P Require Import Prelude Str Errors.
From Stdlib Require Import Ascii.

(** ** [String::from_utf8_lossy] *)


(** U+FFFD *)
Definition REPLACEMENT : string :=
  String (ascii_of_nat 239) (String (ascii_of_nat 191) (String (ascii_of_nat 189) "")).

(** Between characters, or inside one: the bytes read, the range of the next
    byte, how many continuation bytes follow it. *)
Inductive Utf8State :=
  | Start
  | Inside (pending : string) (lo hi : Z) (more : nat).

#[export] Instance Utf8State_eq_dec : EqDecision Utf8State.
Proof. solve_decision. Defined.

(** A byte met between characters: what is decoded at once, the next state. *)
Definition utf8_start (c : ascii) : string * Utf8State :=
  let b := byte c in
  let one := String c "" in
  if b <? 128 then (one, Start)
  else if (194 <=? b) && (b <=? 223) then ("", Inside one 128 191 0)
  else if b =? 224 then ("", Inside one 160 191 1)
  else if ((225 <=? b) && (b <=? 236)) || (b =? 238) || (b =? 239) then ("", Inside one 128 191 1)
  else if b =? 237 then ("", Inside one 128 159 1)
  else if b =? 240 then ("", Inside one 144 191 2)
  else if (241 <=? b) && (b <=? 243) then ("", Inside one 128 191 2)
  else if b =? 244 then ("", Inside one 128 143 2)
  else (REPLACEMENT, Start).

(** An unexpected byte ends the character that was being read and is read
    again as the start of one. *)
Definition utf8_step (st : Utf8State) (c : ascii) : string * Utf8State :=
  match st with
  | Start => utf8_start c
  | Inside pending lo hi more =>
      if (lo <=? byte c) && (byte c <=? hi) then
        let pending := pending +:+ String c "" in
        match more with
        | O => (pending, Start)
        | S more => ("", Inside pending 128 191 more)
        end
      else let '(out, st) := utf8_start c in (REPLACEMENT +:+ out, st)
  end.

Fixpoint utf8_run (st : Utf8State) (s : string) : string * Utf8State :=
  match s with
  | EmptyString => ("", st)
  | String c s =>
      let '(out, st) := utf8_step st c in
      let '(outs, st) := utf8_run st s in
      (out +:+ outs, st)
  end.

Definition from_utf8_lossy (s : string) : string :=
  match utf8_run Start s with
  | (out, Start) => out
  | (out, Inside _ _ _ _) => out +:+ REPLACEMENT
  end.

(** ** Events *)

Definition MAX_SSE_LINE_BYTES : Z := 1024 * 1024.

Record SseEvent := { sse_event : option string; sse_data : string }.

Definition NEWLINE : string := String (ascii_of_nat 10) "".

(** What a trimmed line does to the current event type, the event it yields,
    whether it ends the stream. *)
Definition sse_line (line : string) (current_event : option string)
    : option string * option SseEvent * bool :=
  if str_is_empty line then (None, None, false)
  else
    match strip_prefix "event:" line with
    | Some event => (Some (trim_start event), None, false)
    | None =>
        match strip_prefix "data:" line with
        | Some data =>
            let data := trim_start data in
            if decide (data = "[DONE]") then (current_event, None, true)
            else (current_event, Some {| sse_event := current_event; sse_data := data |}, false)
        | None => (current_event, None, false)
        end
    end.

(** The loop over the complete lines of the buffer, from the cursor. What it
    leaves is [None] when it met the sentinel; [fuel] bounds the lines left. *)
Fixpoint sse_scan (fuel consumed : nat) (buffer : string) (current_event : option string)
    : list SseEvent * option (option string * nat) :=
  match fuel with
  | O => ([], Some (current_event, consumed))
  | S fuel =>
      match str_find NEWLINE (str_drop consumed buffer) with
      | None => ([], Some (current_event, consumed))
      | Some rel_pos =>
          let line := trim (str_take rel_pos (str_drop consumed buffer)) in
          let '(current_event, event, stop) := sse_line line current_event in
          if stop then ([], None)
          else
            let '(events, rest) :=
              sse_scan fuel (consumed + rel_pos + 1) buffer current_event in
            ((option_list event ++ events)%list, rest)
      end
  end.

(** The stream. The length of the buffer is fuel enough for its lines. *)
Fixpoint sse_events_from (buffer : string) (current_event : option string)
    (chunks : list (result string string)) : list (result SseEvent ProviderError) :=
  match chunks with
  | [] => []
  | Ok bytes :: chunks =>
      let buffer := buffer +:+ from_utf8_lossy bytes in
      match sse_scan (S (String.length buffer)) 0 buffer current_event with
      | (events, None) => Ok <$> events
      | (events, Some (current_event, consumed)) =>
          let buffer := str_drop consumed buffer in
          ((Ok <$> events) ++
           if MAX_SSE_LINE_BYTES <? Z.of_nat (String.length buffer)
           then [Err (PParse "SSE line exceeds maximum buffered size")]
           else sse_events_from buffer current_event chunks)%list
      end
  | Err e :: chunks => Err (PNetwork e) :: sse_events_from buffer current_event chunks
  end.

Definition sse_events : list (result string string) -> list (result SseEvent ProviderError) :=
  sse_events_from "" None.

(** ** The specification: events of a whole text, line by line *)

Fixpoint lines_events (lines : list string) (current_event : option string)
    : list SseEvent * option (option string) :=
  match lines with
  | [] => ([], Some current_event)
  | line :: lines =>
      let '(current_event, event, stop) := sse_line (trim line) current_event in
      if stop then ([], None)
      else let '(events, rest) := lines_events lines current_event in
           ((option_list event ++ events)%list, rest)
  end.

(** The parts between newlines; the last one is not ended yet. *)
Definition text_parts (text : string) : list string := split_on (is_char (ascii_of_nat 10)) text.

Definition text_events (text : string) (current_event : option string) : list SseEvent :=
  (lines_events (removelast (text_parts text)) current_event).1.

(** An event as a server writes it. *)
Definition sse_encode (e : SseEvent) : string :=
  match sse_event e with Some name => "event: " +:+ name +:+ NEWLINE | None => "" end +:+
  "data: " +:+ sse_data e +:+ NEWLINE +:+ NEWLINE.

(** A field that fits on a line and that trimming leaves alone. *)
Definition field_ok (s : string) : Prop :=
  contains_char (ascii_of_nat 10) s = false /\ trim_start s = s /\ trim_end s = s /\
  Z.of_nat (String.length s) + 7 <= MAX_SSE_LINE_BYTES.

Definition event_ok (e : SseEvent) : Prop :=
  field_ok (sse_data e) /\ sse_data e <> "[DONE]" /\
  (forall name, sse_event e = Some name -> field_ok name).

(** Whole characters. *)
Definition valid_utf8 (s : string) : Prop := utf8_run Start s = (s, Start).

#[export] Instance valid_utf8_dec s : Decision (valid_utf8 s).
Proof. unfold valid_utf8. apply _. Defined.

(** ** Proofs: decoding *)

Lemma utf8_run_app st a b :
  utf8_run st (a +:+ b) =
    let '(o1, st1) := utf8_run st a in
    let '(o2, st2) := utf8_run st1 b in (o1 +:+ o2, st2).
Proof.
  revert st. induction a as [|c a IH]; intros st; cbn.
  - by destruct (utf8_run st b).
  - destruct (utf8_step st c) as [out st1]. rewrite IH.
    destruct (utf8_run st1 a) as [o1 st2], (utf8_run st2 b) as [o2 st3].
    by rewrite str_app_assoc.
Qed.

Lemma valid_utf8_lossy s : valid_utf8 s -> from_utf8_lossy s = s.
Proof. unfold valid_utf8, from_utf8_lossy. by intros ->. Qed.

Lemma valid_utf8_concat cs : Forall valid_utf8 cs ->
  foldr (fun c acc => from_utf8_lossy c +:+ acc) "" cs = join "" cs.
Proof.
  unfold join. induction 1 as [|c cs Hc Hcs IH]; [done|]. cbn [foldr].
  rewrite IH, (valid_utf8_lossy c Hc). destruct cs as [|d cs]; [apply str_app_nil_r|done].
Qed.

(** ** Proofs: lines *)

Lemma find_newline s :
  match str_find NEWLINE s with
  | None => contains_char (ascii_of_nat 10) s = false
  | Some i => s = str_take i s +:+ NEWLINE +:+ str_drop (i + 1) s /\
      contains_char (ascii_of_nat 10) (str_take i s) = false
  end.
Proof.
  unfold NEWLINE. induction s as [|c s IH]; [done|]. cbn [str_find starts_with].
  case_decide as Hc; subst; [by split|].
  destruct (str_find _ s) as [i|]; cbn in IH |- *.
  - destruct IH as [IH1 IH2]. split; [by rewrite <- IH1|]. by rewrite decide_False.
  - by rewrite decide_False.
Qed.

Lemma parts_newline a b : contains_char (ascii_of_nat 10) a = false ->
  text_parts (a +:+ NEWLINE +:+ b) = a :: text_parts b.
Proof.
  unfold text_parts, is_char, NEWLINE. induction a as [|c a IH]; cbn; [by rewrite bool_decide_true|].
  case_decide; [done|]. intros Ha. rewrite bool_decide_false by done.
  cbn in IH. by rewrite (IH Ha).
Qed.

Lemma parts_nonempty s : text_parts s <> [].
Proof. unfold text_parts. destruct (split_on_cons (is_char (ascii_of_nat 10)) s) as (p & ps & ->). done. Qed.

Lemma parts_app a b :
  text_parts (a +:+ b) =
    (removelast (text_parts a) ++ text_parts (List.last (text_parts a) "" +:+ b))%list.
Proof.
  remember (String.length a) as n eqn:Hn. revert a Hn.
  induction n as [n IH] using lt_wf_ind; intros a ->. pose proof (find_newline a) as Hf.
  destruct (str_find NEWLINE a) as [i|].
  - destruct Hf as [Ha Hl]. set (r := str_drop (i + 1) a) in *. set (l := str_take i a) in *.
    assert (String.length r < String.length a)%nat as Hr.
    { rewrite Ha, !str_length_app. cbn. lia. }
    rewrite Ha, (parts_newline l r Hl), <- !str_app_assoc, (parts_newline l (r +:+ b) Hl).
    rewrite (IH _ Hr r eq_refl). pose proof (parts_nonempty r) as Hne.
    destruct (text_parts r) as [|p ps] eqn:Ep; [done|]. reflexivity.
  - apply contains_char_split in Hf. fold (text_parts a) in Hf. by rewrite Hf.
Qed.

Lemma lines_events_app l1 l2 ev :
  lines_events (l1 ++ l2) ev =
    let '(es, r) := lines_events l1 ev in
    match r with
    | None => (es, None)
    | Some ev => let '(es2, r2) := lines_events l2 ev in ((es ++ es2)%list, r2)
    end.
Proof.
  revert ev. induction l1 as [|l l1 IH]; intros ev; cbn; [by destruct (lines_events l2 ev)|].
  destruct (sse_line (trim l) ev) as [[ev1 out] [|]]; [done|]. rewrite IH.
  destruct (lines_events l1 ev1) as [es [ev2|]]; [|done].
  destruct (lines_events l2 ev2) as [es2 r2]. by rewrite app_assoc.
Qed.

Lemma drop_take_len n s : (n <= String.length s)%nat -> String.length (str_drop n s) = (String.length s - n)%nat.
Proof. revert s. induction n as [|n IH]; intros [|c s] H; cbn in *; try lia. apply IH. lia. Qed.

(** The cursor loop computes the events of the complete lines, and leaves the
    cursor at the incomplete one. *)
Lemma sse_scan_spec fuel consumed buffer ev :
  (String.length (str_drop consumed buffer) < fuel)%nat ->
  exists n, str_drop n buffer = List.last (text_parts (str_drop consumed buffer)) "" /\
    sse_scan fuel consumed buffer ev =
      let '(es, r) := lines_events (removelast (text_parts (str_drop consumed buffer))) ev in
      (es, (fun ev => (ev, n)) <$> r).
Proof.
  revert consumed ev. induction fuel as [|fuel IH]; intros consumed ev Hf; [lia|].
  cbn [sse_scan]. pose proof (find_newline (str_drop consumed buffer)) as Hn.
  destruct (str_find NEWLINE (str_drop consumed buffer)) as [i|].
  - destruct Hn as [Hs Hl]. rewrite str_drop_drop, (Nat.add_assoc consumed i 1) in Hs.
    specialize (IH (consumed + i + 1)%nat).
    assert (String.length (str_drop (consumed + i + 1) buffer) < fuel)%nat as Hlen.
    { rewrite Hs, !str_length_app in Hf. cbn in Hf. lia. }
    set (line := str_take i (str_drop consumed buffer)) in *.
    rewrite Hs, parts_newline by done.
    pose proof (parts_nonempty (str_drop (consumed + i + 1) buffer)) as Hne.
    destruct (text_parts (str_drop (consumed + i + 1) buffer)) as [|p ps] eqn:Ep; [done|].
    change (removelast (line :: p :: ps)) with (line :: removelast (p :: ps)).
    change (List.last (line :: p :: ps) "") with (List.last (p :: ps) ""). cbn [lines_events].
    destruct (sse_line (trim line) ev) as [[ev1 out] [|]].
    + destruct (IH ev1 Hlen) as (n & Hd & _). exists n. by split.
    + destruct (IH ev1 Hlen) as (n & Hd & ->). exists n. split; [done|].
      by destruct (lines_events (removelast (p :: ps)) ev1) as [es [ev2|]].
  - apply contains_char_split in Hn. exists consumed.
    fold (text_parts (str_drop consumed buffer)) in Hn. rewrite Hn. by split.
Qed.

Lemma last_part_plain s : contains_char (ascii_of_nat 10) (List.last (text_parts s) "") = false.
Proof.
  remember (String.length s) as n eqn:Hn. revert s Hn.
  induction n as [n IH] using lt_wf_ind; intros s ->. pose proof (find_newline s) as Hf.
  destruct (str_find NEWLINE s) as [i|].
  - destruct Hf as [Hs Hl]. set (r := str_drop (i + 1) s) in *.
    assert (String.length r < String.length s)%nat as Hr by (rewrite Hs, !str_length_app; cbn; lia).
    rewrite Hs, (parts_newline _ r Hl). pose proof (parts_nonempty r) as Hne.
    specialize (IH _ Hr r eq_refl). by destruct (text_parts r).
  - pose proof (proj1 (contains_char_split _ _) Hf) as Hp. fold (text_parts s) in Hp. by rewrite Hp.
Qed.

Lemma parts_plain_prefix p s : contains_char (ascii_of_nat 10) p = false ->
  exists q ps, text_parts (p +:+ s) = (p +:+ q) :: ps.
Proof.
  intros Hp. rewrite parts_app. pose proof (proj1 (contains_char_split _ _) Hp) as Hs.
  fold (text_parts p) in Hs. rewrite Hs. cbn [removelast List.last app].
  clear Hs. induction p as [|c p IH]; cbn [contains_char String.append] in *.
  - pose proof (parts_nonempty s). destruct (text_parts s) as [|q ps]; [done|]. by exists q, ps.
  - case_decide; [done|]. destruct (IH Hp) as (q & ps & Hq). exists q, ps.
    unfold text_parts, is_char in *. cbn. rewrite bool_decide_false by done. by rewrite Hq.
Qed.

Abbreviation short := (fun part => Z.of_nat (String.length part) <= MAX_SSE_LINE_BYTES).

(** Whatever is buffered, the chunks yield the events of the decoded text. *)
Lemma sse_events_from_text chunks buffer ev :
  contains_char (ascii_of_nat 10) buffer = false ->
  Forall short (text_parts (buffer +:+
    foldr (fun c acc => from_utf8_lossy c +:+ acc) "" chunks)) ->
  sse_events_from buffer ev (Ok <$> chunks) =
    Ok <$> text_events (buffer +:+ foldr (fun c acc => from_utf8_lossy c +:+ acc) "" chunks) ev.
Proof.
  revert buffer ev. induction chunks as [|c chunks IH]; intros buffer ev Hb Hs; cbn [foldr fmap list_fmap].
  - rewrite str_app_nil_r. unfold text_events. apply contains_char_split in Hb.
    fold (text_parts buffer) in Hb. by rewrite Hb.
  - cbn [foldr] in Hs. rewrite str_app_assoc in Hs |- *. cbn [sse_events_from].
    set (b1 := buffer +:+ from_utf8_lossy c) in *.
    set (rest := foldr (fun c acc => from_utf8_lossy c +:+ acc) "" chunks) in *.
    destruct (sse_scan_spec (S (String.length b1)) 0 b1 ev) as (n & Hd & ->);
      [rewrite str_drop_0; lia|]. rewrite str_drop_0 in Hd |- *.
    rewrite parts_app in Hs. apply Forall_app in Hs as [_ Hs].
    pose proof (last_part_plain b1) as Hp. rewrite <- Hd in Hp, Hs.
    unfold text_events. rewrite parts_app, <- Hd.
    assert (removelast (removelast (text_parts b1) ++ text_parts (str_drop n b1 +:+ rest))%list =
      (removelast (text_parts b1) ++ removelast (text_parts (str_drop n b1 +:+ rest)))%list) as ->.
    { apply removelast_app, parts_nonempty. }
    rewrite lines_events_app.
    destruct (lines_events (removelast (text_parts b1)) ev) as [es [ev1|]]; cbn [fmap option_fmap option_map fst].
    + specialize (IH (str_drop n b1) ev1 Hp Hs). unfold text_events in IH.
      destruct (parts_plain_prefix _ rest Hp) as (q & ps & Hq). rewrite Hq in Hs.
      apply Forall_cons in Hs as [Hlen _]. cbv beta in Hlen. rewrite str_length_app in Hlen.
      rewrite (proj2 (Z.ltb_ge _ _)) by lia. rewrite IH.
      destruct (lines_events (removelast (text_parts (str_drop n b1 +:+ rest))) ev1) as [es2 r2].
      cbn [fst]. by rewrite fmap_app.
    + done.
Qed.

(** ** Proofs: the encoding *)

Lemma trim_start_space d : trim_start (String " "%char d) = trim_start d.
Proof. reflexivity. Qed.

Lemma trim_end_cons c s : trim_start (String c s) <> "" -> trim_end (String c s) = String c (trim_end s).
Proof. intros H. cbn [trim_end]. by rewrite decide_False. Qed.

(** A field line, trimmed: the label, and the field if there is one. *)
Lemma trim_field label d : label = "data:" \/ label = "event:" -> trim_start d = d -> trim_end d = d ->
  trim (label +:+ String " "%char d) = label +:+ (if decide (d = "") then "" else String " "%char d).
Proof.
  intros Hl Hs He.
  assert (trim_end (String " "%char d) = if decide (d = "") then "" else String " "%char d) as Hsp.
  { case_decide as Hd; subst; [done|]. rewrite trim_end_cons; [by rewrite He|].
    by rewrite trim_start_space, Hs. }
  unfold trim. destruct Hl as [->| ->].
  - change (trim_start ("data:" +:+ String " "%char d)) with ("data:" +:+ String " "%char d).
    cbn [String.append]. rewrite !trim_end_cons by done. by rewrite Hsp.
  - change (trim_start ("event:" +:+ String " "%char d)) with ("event:" +:+ String " "%char d).
    cbn [String.append]. rewrite !trim_end_cons by done. by rewrite Hsp.
Qed.

Lemma sse_line_event name ev : field_ok name ->
  sse_line (trim ("event:" +:+ String " "%char name)) ev = (Some name, None, false).
Proof.
  intros (_ & Hs & He & _). rewrite trim_field by (done || by right).
  case_decide as Hn; [by subst|].
  change (sse_line ("event:" +:+ String " "%char name) ev)
    with (Some (trim_start (String " "%char name)), None : option SseEvent, false).
  by rewrite trim_start_space, Hs.
Qed.

Lemma sse_line_data d ev : field_ok d -> d <> "[DONE]" ->
  sse_line (trim ("data:" +:+ String " "%char d)) ev =
    (ev, Some {| sse_event := ev; sse_data := d |}, false).
Proof.
  intros (_ & Hs & He & _) Hd. rewrite trim_field by (done || by left).
  case_decide as Hn; [by subst|].
  change (sse_line ("data:" +:+ String " "%char d) ev)
    with (if decide (trim_start (String " "%char d) = "[DONE]") then (ev, None, true)
          else (ev, Some {| sse_event := ev; sse_data := trim_start (String " "%char d) |}, false)).
  rewrite trim_start_space, Hs. by rewrite decide_False.
Qed.

(** The lines of an encoded event. *)
Definition event_lines (e : SseEvent) : list string :=
  (match sse_event e with Some name => ["event: " +:+ name] | None => [] end ++
   ["data: " +:+ sse_data e; ""])%list.

Lemma event_parts e rest : event_ok e ->
  text_parts (sse_encode e +:+ rest) = (event_lines e ++ text_parts rest)%list.
Proof.
  intros ((Hd & _) & _ & Hname). unfold sse_encode, event_lines.
  assert (text_parts (("data: " +:+ sse_data e +:+ NEWLINE +:+ NEWLINE) +:+ rest) =
    ("data: " +:+ sse_data e) :: "" :: text_parts rest) as Hdata.
  { replace (("data: " +:+ sse_data e +:+ NEWLINE +:+ NEWLINE) +:+ rest)
      with (("data: " +:+ sse_data e) +:+ NEWLINE +:+ ("" +:+ NEWLINE +:+ rest))
      by (by rewrite <- !str_app_assoc).
    rewrite parts_newline by done. reflexivity. }
  destruct (sse_event e) as [name|]; [|exact Hdata].
  destruct (Hname name eq_refl) as (Hn & _). rewrite <- str_app_assoc.
  replace (("event: " +:+ name +:+ NEWLINE) +:+
           ("data: " +:+ sse_data e +:+ NEWLINE +:+ NEWLINE) +:+ rest)
    with (("event: " +:+ name) +:+ NEWLINE +:+
          (("data: " +:+ sse_data e +:+ NEWLINE +:+ NEWLINE) +:+ rest))
    by (by rewrite <- !str_app_assoc).
  rewrite parts_newline by done. by rewrite Hdata.
Qed.

Lemma event_lines_events e : event_ok e -> lines_events (event_lines e) None = ([e], Some None).
Proof.
  intros (Hd & Hdone & Hname). unfold event_lines. destruct e as [[name|] d]; cbn [sse_event sse_data] in *.
  - cbn [app lines_events]. pose proof (sse_line_event name None (Hname name eq_refl)) as H1.
    pose proof (sse_line_data d (Some name) Hd Hdone) as H2. cbn [String.append] in H1, H2 |- *.
    by rewrite H1, H2.
  - cbn [app lines_events]. pose proof (sse_line_data d None Hd Hdone) as H2.
    cbn [String.append] in H2 |- *. by rewrite H2.
Qed.

Lemma event_lines_short e : event_ok e -> Forall short (event_lines e).
Proof.
  intros ((_ & _ & _ & Hd) & _ & Hname). unfold event_lines. apply Forall_app. split.
  - destruct (sse_event e) as [name|]; [|done]. destruct (Hname name eq_refl) as (_ & _ & _ & Hn).
    repeat constructor. rewrite str_length_app. cbn [String.length]. lia.
  - repeat constructor; [|done]. rewrite str_length_app. cbn [String.length]. lia.
Qed.

Lemma encoded_parts es rest : Forall event_ok es ->
  text_parts (foldr (fun e acc => sse_encode e +:+ acc) rest es) =
    (concat (event_lines <$> es) ++ text_parts rest)%list /\
  Forall short (concat (event_lines <$> es)) /\
  lines_events (concat (event_lines <$> es)) None = (es, Some None).
Proof.
  induction 1 as [|e es He Hes (IH1 & IH2 & IH3)]; [done|]. cbn [foldr fmap list_fmap concat].
  rewrite event_parts, IH1 by done. split_and!.
  - by rewrite app_assoc.
  - apply Forall_app. split; [by apply event_lines_short|done].
  - rewrite lines_events_app, event_lines_events by done.
    change (list_fmap SseEvent (list string) event_lines es) with (event_lines <$> es). by rewrite IH3.
Qed.

(** What a server encodes, up to where it closes the connection, is read back. *)
Lemma sse_read_encoded es chunks : Forall valid_utf8 chunks -> Forall event_ok es ->
  join "" chunks = foldr (fun e acc => sse_encode e +:+ acc) "" es ->
  sse_events (Ok <$> chunks) = Ok <$> es.
Proof.
  intros Hv He Hj. unfold sse_events.
  destruct (encoded_parts es "" He) as (Hp & Hl & Hes). rewrite <- (valid_utf8_concat _ Hv) in Hj.
  assert (Forall short (text_parts ("" +:+ foldr (fun c acc => from_utf8_lossy c +:+ acc) "" chunks))) as Hs.
  { cbn [String.append]. rewrite Hj, Hp. apply Forall_app. split; [done|]. by constructor. }
  rewrite (sse_events_from_text chunks "" None eq_refl Hs). cbn [String.append].
  rewrite Hj. unfold text_events. rewrite Hp. change (text_parts "") with [""].
  by rewrite removelast_last, Hes.
Qed.

(** ** Properties *)

(** C33: However the connection cuts the text between characters,
    the events are those of the whole text, line by line, as long as no line
    exceeds the cap. *)
Theorem sse_chunking_irrelevant chunks : Forall valid_utf8 chunks ->
  Forall short (text_parts (join "" chunks)) ->
  sse_events (Ok <$> chunks) = Ok <$> text_events (join "" chunks) None.
Proof.
  intros Hv Hs. unfold sse_events. rewrite <- (valid_utf8_concat _ Hv) in Hs |- *.
  by apply sse_events_from_text.
Qed.

(** C37: A server's encoding of events is read back as these events, wherever between two
    characters the connection cuts it, and whatever lines follow the sentinel. The events
    are those an encoder writes on lines of the permitted length; a cut inside a
    character loses it ([sse_split_character_lost]). *)
Theorem sse_round_trip es chunks rest : Forall valid_utf8 chunks -> Forall event_ok es ->
  Forall short (text_parts rest) ->
  join "" chunks = foldr (fun e acc => sse_encode e +:+ acc)
                     ("data: [DONE]" +:+ NEWLINE +:+ rest) es ->
  sse_events (Ok <$> chunks) = Ok <$> es.
Proof.
  intros Hv He Hr Hj. unfold sse_events.
  destruct (encoded_parts es ("data: [DONE]" +:+ NEWLINE +:+ rest) He) as (Hp & Hl & Hes).
  rewrite parts_newline in Hp by done.
  rewrite <- (valid_utf8_concat _ Hv) in Hj.
  assert (Forall short (text_parts ("" +:+ foldr (fun c acc => from_utf8_lossy c +:+ acc) "" chunks))) as Hs.
  { cbn [String.append]. rewrite Hj, Hp. apply Forall_app. split; [done|]. by constructor. }
  rewrite (sse_events_from_text chunks "" None eq_refl Hs). cbn [String.append].
  rewrite Hj. unfold text_events. rewrite Hp. f_equal.
  rewrite removelast_app by done. pose proof (parts_nonempty rest).
  destruct (text_parts rest) as [|p ps]; [done|].
  change (removelast ("data: [DONE]" :: p :: ps)) with ("data: [DONE]" :: removelast (p :: ps)).
  rewrite lines_events_app, Hes. cbn [lines_events].
  change (sse_line (trim "data: [DONE]") None) with (None : option string, None : option SseEvent, true).
  cbn. by rewrite app_nil_r.
Qed.

(** The two-byte characters: their first and second bytes. *)
Definition lead_bytes : list ascii := ascii_of_nat <$> seq 194 30.
Definition cont_bytes : list ascii := ascii_of_nat <$> seq 128 64.

Definition event_data (items : list (result SseEvent ProviderError)) : list (result string ProviderError) :=
  (fun item => match item with Ok e => Ok (sse_data e) | Err e => Err e end) <$> items.

Lemma split_pairs :
  forallb (fun a => forallb (fun b =>
    bool_decide (event_data (sse_events [Ok ("data: x" +:+ String a ""); Ok (String b "y" +:+ NEWLINE)]) =
                 [Ok ("x" +:+ REPLACEMENT +:+ REPLACEMENT +:+ "y")]) &&
    bool_decide (event_data (sse_events [Ok ("data: x" +:+ String a (String b "y") +:+ NEWLINE)]) =
                 [Ok ("x" +:+ String a (String b "y"))])) cont_bytes) lead_bytes = true.
Proof. vm_compute. reflexivity. Qed.

(** Chunks are decoded one by one, so a two-byte character that the
    connection cuts in two reaches the client as two replacement characters. *)
Theorem sse_split_character_lost a b : a ∈ lead_bytes -> b ∈ cont_bytes ->
  event_data (sse_events [Ok ("data: x" +:+ String a ""); Ok (String b "y" +:+ NEWLINE)]) =
    [Ok ("x" +:+ REPLACEMENT +:+ REPLACEMENT +:+ "y")] /\
  event_data (sse_events [Ok ("data: x" +:+ String a (String b "y") +:+ NEWLINE)]) =
    [Ok ("x" +:+ String a (String b "y"))].
Proof.
  intros Ha%list_elem_of_In Hb%list_elem_of_In.
  pose proof (proj1 (forallb_forall _ _) split_pairs a Ha) as H1. cbv beta in H1.
  pose proof (proj1 (forallb_forall _ _) H1 b Hb) as H2. cbv beta in H2.
  apply andb_true_iff in H2 as [H2 H3]. split; by eapply bool_decide_eq_true.
Qed.

(** ** Witnesses *)

Definition demo_events : list SseEvent :=
  [{| sse_event := Some "delta"; sse_data := "{}" |}; {| sse_event := None; sse_data := "" |}].

Lemma sse_chunking_irrelevant_witness :
  sse_events (Ok <$> ["da"; "ta: a" +:+ NEWLINE +:+ "data:"; "b" +:+ NEWLINE]) =
    [Ok {| sse_event := None; sse_data := "a" |}; Ok {| sse_event := None; sse_data := "b" |}].
Proof.
  rewrite (sse_chunking_irrelevant ["da"; "ta: a" +:+ NEWLINE +:+ "data:"; "b" +:+ NEWLINE]).
  - vm_compute. reflexivity.
  - repeat constructor.
  - repeat (constructor; [vm_compute; congruence|]). constructor.
Defined.

Lemma field_ok_check s :
  negb (contains_char (ascii_of_nat 10) s) && bool_decide (trim_start s = s) &&
  bool_decide (trim_end s = s) && (Z.of_nat (String.length s) + 7 <=? MAX_SSE_LINE_BYTES) = true ->
  field_ok s.
Proof.
  rewrite !andb_true_iff, negb_true_iff, !bool_decide_eq_true, Z.leb_le. unfold field_ok. tauto.
Qed.

Lemma demo_events_ok : Forall event_ok demo_events.
Proof.
  repeat apply List.Forall_cons; [| |apply List.Forall_nil];
    (split_and!; [by apply field_ok_check| |]); try (intros name [= <-]; by apply field_ok_check);
    done.
Qed.

Lemma sse_round_trip_witness :
  sse_events (Ok <$> ["event: delta" +:+ NEWLINE +:+ "data: {"; "}" +:+ NEWLINE +:+ NEWLINE +:+ "data: ";
    NEWLINE +:+ NEWLINE +:+ "data: [DONE]" +:+ NEWLINE]) = Ok <$> demo_events.
Proof.
  apply (sse_round_trip demo_events _ "").
  - repeat constructor.
  - exact demo_events_ok.
  - repeat constructor; vm_compute; congruence.
  - reflexivity.
Defined.

Lemma sse_split_character_lost_witness :
  event_data (sse_events [Ok ("data: x" +:+ String (ascii_of_nat 195) "");
                          Ok (String (ascii_of_nat 169) "y" +:+ NEWLINE)]) =
    [Ok ("x" +:+ REPLACEMENT +:+ REPLACEMENT +:+ "y")].
Proof.
  apply (sse_split_character_lost (ascii_of_nat 195) (ascii_of_nat 169)); unfold lead_bytes, cont_bytes;
    apply list_elem_of_fmap_2; apply elem_of_seq; lia.
Defined.
