(* ===== verification/Config.v ===== *)
(** * Configuration and scope resolution
    (src/crates/himadri-core/src/config.rs, scope.rs)

    The configuration tree as [Config] and its parts, their defaults, the
    deprecation shim, validation and loading, and the walk from a principal's
    organisation and team to the scopes whose policy applies. Reading a file,
    reading an environment variable and [serde_json::from_str] are arguments
    of the loader. *)

From S2P Require Import Prelude Str Float Types Errors.
From Stdlib Require Import Ascii.

(** ** Data *)

Inductive PiiModeConfig := PiiModeRedact | PiiModeBlock | PiiModeObserve.
Inductive PiiStrategyConfig :=
  | PiiReplace | PiiMask | PiiHash | PiiEncrypt | PiiRemove.
Inductive PiiResponseModeConfig :=
  | PiiResponseOff | PiiResponseObserve | PiiResponseRedact | PiiResponseBlock.

#[export] Instance PiiModeConfig_eq_dec : EqDecision PiiModeConfig.
Proof. solve_decision. Defined.
#[export] Instance PiiStrategyConfig_eq_dec : EqDecision PiiStrategyConfig.
Proof. solve_decision. Defined.
#[export] Instance PiiResponseModeConfig_eq_dec : EqDecision PiiResponseModeConfig.
Proof. solve_decision. Defined.

Record PiiGuardrailConfig := {
  pii_enabled : bool;
  pii_mode : PiiModeConfig;
  pii_strategy : PiiStrategyConfig;
  pii_entities : option (list string);
  pii_min_confidence : f32;
  pii_apply_to : list string;
  pii_scan_tool_arguments : bool;
  pii_fail_open : bool;
  pii_response_mode : PiiResponseModeConfig;
}.

#[export] Instance PiiGuardrailConfig_eq_dec : EqDecision PiiGuardrailConfig.
Proof. solve_decision. Defined.

Definition default_pii_guardrail : PiiGuardrailConfig :=
  {| pii_enabled := false; pii_mode := PiiModeRedact; pii_strategy := PiiReplace;
     pii_entities := None; pii_min_confidence := f32_lit 6 10;
     pii_apply_to := ["user"; "system"; "tool"];
     pii_scan_tool_arguments := false; pii_fail_open := false;
     pii_response_mode := PiiResponseOff |}.

Record GuardrailsConfig := { gr_pii : PiiGuardrailConfig }.

Record RolePolicy := {
  rp_models : option (list string);
  rp_providers : option (list string);
}.

Record RbacConfig := {
  rbac_enabled : bool;
  rbac_roles : gmap string RolePolicy;
  rbac_default_role : option string;
}.

Definition default_rbac : RbacConfig :=
  {| rbac_enabled := false; rbac_roles := ∅; rbac_default_role := None |}.

Record CorsConfig := {
  cors_enabled : bool;
  cors_allowed_origins : list string;
  cors_allowed_methods : list string;
  cors_allowed_headers : list string;
}.

Definition default_cors_methods : list string := ["GET"; "POST"; "PUT"; "DELETE"; "OPTIONS"].
Definition default_cors_headers : list string := ["Authorization"; "Content-Type"].

Definition default_cors : CorsConfig :=
  {| cors_enabled := true; cors_allowed_origins := [];
     cors_allowed_methods := default_cors_methods;
     cors_allowed_headers := default_cors_headers |}.

Record RateLimitConfig := {
  rlc_enabled : bool;
  rlc_requests_per_second : Z;
  rlc_burst_size : Z;
}.

Definition default_rate_limit_rps : Z := 100.
Definition default_rate_limit_burst : Z := 200.

Definition default_rate_limit : RateLimitConfig :=
  {| rlc_enabled := false; rlc_requests_per_second := default_rate_limit_rps;
     rlc_burst_size := default_rate_limit_burst |}.

Record OrgTokenBudget := {
  tbud_max_tokens_per_request : option Z;
  tbud_max_tokens_per_day : option Z;
  tbud_max_tokens_per_month : option Z;
  tbud_cost_limit_per_day : option f64;
  tbud_cost_limit_per_month : option f64;
}.

Record ContentFilterConfig := {
  cf_enabled : bool;
  cf_block_pii : bool;
  cf_block_toxicity : bool;
  cf_custom_patterns : list string;
}.

Record AuditConfig := {
  ac_enabled : bool;
  ac_log_requests : bool;
  ac_log_responses : bool;
  ac_redact_pii : bool;
  ac_retention_days : option Z;
}.

Record OrgGuardrailConfig := {
  og_enabled : bool;
  og_blocked_words : list string;
  og_max_tokens_per_request : option Z;
  og_content_filter : option ContentFilterConfig;
  og_pii : option PiiGuardrailConfig;
  og_audit : AuditConfig;
}.

Record TeamConfig := {
  team_name : option string;
  team_enabled : bool;
  team_allowed_models : option (list string);
  team_blocked_models : option (list string);
  team_rate_limit : option RateLimitConfig;
  team_token_budget : option OrgTokenBudget;
  team_guardrails : OrgGuardrailConfig;
}.

Record OrgConfig := {
  org_name : option string;
  org_enabled : bool;
  org_allowed_models : option (list string);
  org_blocked_models : option (list string);
  org_rate_limit : option RateLimitConfig;
  org_token_budget : option OrgTokenBudget;
  org_guardrails : OrgGuardrailConfig;
  org_teams : gmap string TeamConfig;
}.

Inductive StrategyMode :=
  | Single | Fallback | LoadBalance | LeastLatency | CostOptimized
  | Conditional | ContentBased | ABTest.

#[export] Instance StrategyMode_eq_dec : EqDecision StrategyMode.
Proof. solve_decision. Defined.

Inductive ConditionKeyConfig := KeyModel | KeyModelPrefix.

Record ConditionalRuleConfig := {
  crc_key : ConditionKeyConfig;
  crc_value : string;
  crc_target : Target;
}.

Inductive ContentConditionTypeConfig :=
  | CfgPromptContains | CfgPromptNotContains | CfgPromptRegex.

Record ContentRuleConfig := {
  ctc_condition_type : ContentConditionTypeConfig;
  ctc_value : string;
  ctc_target : Target;
}.

Record ABVariantConfig := {
  abc_target : Target;
  abc_weight : f64;
  abc_label : string;
}.

Record StrategyConfig := {
  st_mode : StrategyMode;
  st_fallback_timeout_ms : Z;
  st_conditional_rules : list ConditionalRuleConfig;
  st_content_rules : list ContentRuleConfig;
  st_ab_variants : list ABVariantConfig;
  st_strategy_fallback : option Target;
}.

Definition default_strategy_mode : StrategyMode := Single.

Definition default_strategy : StrategyConfig :=
  {| st_mode := default_strategy_mode; st_fallback_timeout_ms := 30000;
     st_conditional_rules := []; st_content_rules := []; st_ab_variants := [];
     st_strategy_fallback := None |}.

Definition default_service_name : string := "himadri".
Definition default_sample_ratio : f64 := f64_of_Z 1.
Definition default_metrics_path : string := "/metrics".

Record TracingConfig := {
  trc_enabled : bool;
  trc_service_name : string;
  trc_endpoint : option string;
  trc_sample_ratio : f64;
}.

Definition default_tracing : TracingConfig :=
  {| trc_enabled := false; trc_service_name := default_service_name;
     trc_endpoint := None; trc_sample_ratio := default_sample_ratio |}.

Record MetricsConfig := { mc_enabled : bool; mc_path : string }.

Definition default_metrics : MetricsConfig :=
  {| mc_enabled := true; mc_path := default_metrics_path |}.

Record ObservabilityConfig := {
  ob_tracing : TracingConfig;
  ob_metrics : MetricsConfig;
}.

Record AdminConfig := { admin_master_key : option string }.

Record Config := {
  cfg_strategy : StrategyConfig;
  cfg_targets : list Target;
  cfg_observability : ObservabilityConfig;
  cfg_rate_limit : RateLimitConfig;
  cfg_admin : AdminConfig;
  cfg_orgs : gmap string OrgConfig;
  cfg_cors : CorsConfig;
  cfg_rbac : RbacConfig;
  cfg_guardrails : GuardrailsConfig;
}.

Definition default_config : Config :=
  {| cfg_strategy := default_strategy;
     cfg_targets :=
       [{| target_id := None; target_provider := "openai"; target_weight := f64_of_Z 1;
           target_models := None; target_api_key_env := Some "OPENAI_API_KEY";
           target_base_url := None |}];
     cfg_observability := {| ob_tracing := default_tracing; ob_metrics := default_metrics |};
     cfg_rate_limit := default_rate_limit;
     cfg_admin := {| admin_master_key := None |};
     cfg_orgs := ∅;
     cfg_cors := default_cors;
     cfg_rbac := default_rbac;
     cfg_guardrails := {| gr_pii := default_pii_guardrail |} |}.

(** ** The deprecation shim *)

Definition block_pii (g : OrgGuardrailConfig) : bool :=
  og_enabled g &&
  match og_content_filter g with
  | Some cf => cf_enabled cf && cf_block_pii cf
  | None => false
  end.

(** [PiiGuardrailConfig { enabled: true, mode: Block, ..Default::default() }] *)
Definition blocking_pii : PiiGuardrailConfig :=
  {| pii_enabled := true; pii_mode := PiiModeBlock;
     pii_strategy := pii_strategy default_pii_guardrail;
     pii_entities := pii_entities default_pii_guardrail;
     pii_min_confidence := pii_min_confidence default_pii_guardrail;
     pii_apply_to := pii_apply_to default_pii_guardrail;
     pii_scan_tool_arguments := pii_scan_tool_arguments default_pii_guardrail;
     pii_fail_open := pii_fail_open default_pii_guardrail;
     pii_response_mode := pii_response_mode default_pii_guardrail |}.

Definition shim (g : OrgGuardrailConfig) : OrgGuardrailConfig :=
  match og_pii g with
  | None =>
      if block_pii g then
        {| og_enabled := og_enabled g; og_blocked_words := og_blocked_words g;
           og_max_tokens_per_request := og_max_tokens_per_request g;
           og_content_filter := og_content_filter g;
           og_pii := Some blocking_pii; og_audit := og_audit g |}
      else g
  | Some _ => g
  end.

Definition shim_team (t : TeamConfig) : TeamConfig :=
  {| team_name := team_name t; team_enabled := team_enabled t;
     team_allowed_models := team_allowed_models t;
     team_blocked_models := team_blocked_models t;
     team_rate_limit := team_rate_limit t; team_token_budget := team_token_budget t;
     team_guardrails := shim (team_guardrails t) |}.

Definition shim_org (o : OrgConfig) : OrgConfig :=
  {| org_name := org_name o; org_enabled := org_enabled o;
     org_allowed_models := org_allowed_models o;
     org_blocked_models := org_blocked_models o;
     org_rate_limit := org_rate_limit o; org_token_budget := org_token_budget o;
     org_guardrails := shim (org_guardrails o);
     org_teams := shim_team <$> org_teams o |}.

Definition apply_guardrail_deprecations (c : Config) : Config :=
  {| cfg_strategy := cfg_strategy c; cfg_targets := cfg_targets c;
     cfg_observability := cfg_observability c; cfg_rate_limit := cfg_rate_limit c;
     cfg_admin := cfg_admin c; cfg_orgs := shim_org <$> cfg_orgs c;
     cfg_cors := cfg_cors c; cfg_rbac := cfg_rbac c; cfg_guardrails := cfg_guardrails c |}.

(** ** Validation and loading *)

Fixpoint validate_targets (ts : list Target) : result unit ConfigError :=
  match ts with
  | [] => Ok tt
  | t :: ts =>
      if str_is_empty (target_provider t) then Err (MissingField "target.provider")
      else validate_targets ts
  end.

Definition validate (c : Config) : result unit ConfigError :=
  match cfg_targets c with
  | [] => Err (MissingField "targets")
  | ts => validate_targets ts
  end.

(** [Path::file_name] and [Path::extension] on a Unix path: the last component,
    and what follows its last dot, unless that dot is its first character. *)
Definition path_file_name (path : string) : option string :=
  match last (filter (fun p => p <> "" /\ p <> ".") (split_on (is_char "/"%char) path)) with
  | Some name => if decide (name = "..") then None else Some name
  | None => None
  end.

Definition path_extension (path : string) : option string :=
  match path_file_name path with
  | None => None
  | Some name =>
      match reverse (split_on (is_char "."%char) name) with
      | ext :: before :: rest =>
          if decide (before = "" /\ rest = []) then None else Some ext
      | _ => None
      end
  end.

Section Loading.
Context (read_to_string : string -> result string string).
Context (json_from_str : string -> result Config string).

Definition load_from_file (path : string) : result Config ConfigError :=
  let? content := map_err Io (read_to_string path) in
  let ext := default "json" (path_extension path) in
  let? config :=
    (if decide (ext = "json") then map_err ConfigParse (json_from_str content)
     else Err (InvalidValue "config_file" ("unsupported extension: " +:+ ext))) in
  Ok (apply_guardrail_deprecations config).

Definition load_from_env (env : string -> option string) : result Config ConfigError :=
  match env "GATEWAY_CONFIG" with
  | Some path => load_from_file path
  | None => Ok default_config
  end.
End Loading.

(** ** Scopes *)

Inductive ScopeKind := ScopeOrg | ScopeTeam.

Definition scope_kind_as_str (k : ScopeKind) : string :=
  match k with ScopeOrg => "org" | ScopeTeam => "team" end.

Record Scope := {
  scope_kind : ScopeKind;
  scope_id : string;
  scope_allowed_models : option (list string);
  scope_blocked_models : option (list string);
  scope_token_budget : option OrgTokenBudget;
  scope_guardrails : OrgGuardrailConfig;
}.

Definition org_scope (id : string) (o : OrgConfig) : Scope :=
  {| scope_kind := ScopeOrg; scope_id := id;
     scope_allowed_models := org_allowed_models o;
     scope_blocked_models := org_blocked_models o;
     scope_token_budget := org_token_budget o;
     scope_guardrails := org_guardrails o |}.

Definition team_scope (id : string) (t : TeamConfig) : Scope :=
  {| scope_kind := ScopeTeam; scope_id := id;
     scope_allowed_models := team_allowed_models t;
     scope_blocked_models := team_blocked_models t;
     scope_token_budget := team_token_budget t;
     scope_guardrails := team_guardrails t |}.

Definition scopes (c : Config) (org_id team_id : option string) : list Scope :=
  match org_id with
  | Some oid =>
      match cfg_orgs c !! oid with
      | Some org =>
          let chain := [org_scope oid org] in
          match team_id with
          | Some tid =>
              match org_teams org !! tid with
              | Some team => chain ++ [team_scope tid team]
              | None => chain
              end
          | None => chain
          end
      | None => []
      end
  | None => []
  end.

(** [scopes.iter().rev().find_map(f)] *)
Fixpoint find_map {A B} (f : A -> option B) (l : list A) : option B :=
  match l with
  | [] => None
  | x :: l => match f x with Some b => Some b | None => find_map f l end
  end.

(** [scoped_pii_section] of src/crates/himadri-plugins/src/pii_guardrail.rs. *)
Definition scoped_pii_section (c : Config) (org_id team_id : option string)
    : option PiiGuardrailConfig :=
  find_map (fun s => og_pii (scope_guardrails s)) (reverse (scopes c org_id team_id)).

(** ** Proofs *)

Definition shim_scope (s : Scope) : Scope :=
  {| scope_kind := scope_kind s; scope_id := scope_id s;
     scope_allowed_models := scope_allowed_models s;
     scope_blocked_models := scope_blocked_models s;
     scope_token_budget := scope_token_budget s;
     scope_guardrails := shim (scope_guardrails s) |}.

(** The section a scope states, the deprecated flag counted as one. *)
Definition stated_pii (g : OrgGuardrailConfig) : option PiiGuardrailConfig :=
  match og_pii g with
  | Some p => Some p
  | None => if block_pii g then Some blocking_pii else None
  end.

Lemma shim_stated g : og_pii (shim g) = stated_pii g.
Proof. unfold shim, stated_pii. destruct (og_pii g) eqn:E; [done|]. by destruct (block_pii g). Qed.

Lemma shim_idemp g : shim (shim g) = shim g.
Proof.
  unfold shim at 2 3. destruct (og_pii g) eqn:E.
  - unfold shim. by rewrite E.
  - destruct (block_pii g) eqn:B; unfold shim; cbn; [done|]. by rewrite E, B.
Qed.

Lemma shim_team_idemp t : shim_team (shim_team t) = shim_team t.
Proof. unfold shim_team. cbn. by rewrite shim_idemp. Qed.

Lemma shim_org_idemp o : shim_org (shim_org o) = shim_org o.
Proof.
  unfold shim_org. cbn. rewrite shim_idemp. f_equal.
  rewrite <- map_fmap_compose. apply map_fmap_ext. intros i t _. apply shim_team_idemp.
Qed.

Lemma apply_deprecations_idemp c :
  apply_guardrail_deprecations (apply_guardrail_deprecations c) = apply_guardrail_deprecations c.
Proof.
  unfold apply_guardrail_deprecations. cbn. f_equal.
  rewrite <- map_fmap_compose. apply map_fmap_ext. intros i o _. apply shim_org_idemp.
Qed.

Lemma scopes_shim c org_id team_id :
  scopes (apply_guardrail_deprecations c) org_id team_id = shim_scope <$> scopes c org_id team_id.
Proof.
  destruct org_id as [oid|]; [|done]. cbn. rewrite lookup_fmap.
  destruct (cfg_orgs c !! oid) as [o|]; [|done]. cbn.
  destruct team_id as [tid|]; [|done]. rewrite lookup_fmap.
  by destruct (org_teams o !! tid).
Qed.

Lemma find_map_fmap {A B C} (f : B -> option C) (g : A -> B) (h : A -> option C) l :
  (forall x, f (g x) = h x) -> find_map f (g <$> l) = find_map h l.
Proof. intros H. induction l as [|x l IH]; cbn; [done|]. by rewrite H, IH. Qed.

(** Loading or reloading a configuration keeps what the deprecated
    [content_filter.block_pii] flag meant and changes nothing else: the shim
    is idempotent, it commutes with scope resolution leaving every other field
    of a scope as it was, and the PII section that governs a principal is the
    one the most specific scope states, where an enabled [block_pii] filter
    states the blocking section and an explicit section always wins over it. *)
Theorem deprecation_shim_sound c org_id team_id :
  apply_guardrail_deprecations (apply_guardrail_deprecations c)
    = apply_guardrail_deprecations c /\
  scopes (apply_guardrail_deprecations c) org_id team_id
    = shim_scope <$> scopes c org_id team_id /\
  scoped_pii_section (apply_guardrail_deprecations c) org_id team_id
    = find_map (fun s => stated_pii (scope_guardrails s)) (reverse (scopes c org_id team_id)) /\
  validate (apply_guardrail_deprecations c) = validate c.
Proof.
  split_and!; [apply apply_deprecations_idemp|apply scopes_shim| |done].
  unfold scoped_pii_section. rewrite scopes_shim, <- fmap_reverse.
  apply find_map_fmap. intros s. apply shim_stated.
Qed.

(** A configuration file loads exactly when it is readable, has no
    extension or the extension [json], and parses; each failure is the error
    of its cause, and a loaded configuration needs no further migration. *)
Theorem load_from_file_spec read_to_string json_from_str path :
  let load := load_from_file read_to_string json_from_str path in
  (forall c, load = Ok c -> apply_guardrail_deprecations c = c) /\
  (is_ok load = true <-> exists content c,
     read_to_string path = Ok content /\ json_from_str content = Ok c /\
     (path_extension path = None \/ path_extension path = Some "json")) /\
  (forall e, load = Err e -> match e with
     | Io m => read_to_string path = Err m
     | InvalidValue f _ => f = "config_file" /\
         exists ext, path_extension path = Some ext /\ ext <> "json"
     | ConfigParse m => exists content,
         read_to_string path = Ok content /\ json_from_str content = Err m
     | _ => False
     end).
Proof.
  intros load. subst load. unfold load_from_file.
  destruct (read_to_string path) as [content|m] eqn:Er; cbn;
    [|split_and!; [done| |by intros ? [= <-]]; split; [done|naive_solver]].
  case_decide as Hext.
  - assert (path_extension path = None \/ path_extension path = Some "json")
      by (destruct (path_extension path); cbn in Hext; subst; auto).
    destruct (json_from_str content) as [c|m] eqn:Ej; cbn; split_and!.
    + intros ? [= <-]. apply apply_deprecations_idemp.
    + split; [eauto|done].
    + done.
    + done.
    + split; [done|]. intros (ct & c & [= <-] & Hj & _). congruence.
    + intros ? [= <-]. eauto.
  - split_and!; [done| |].
    + split; [done|]. intros (? & ? & _ & _ & [E|E]); rewrite E in Hext; by destruct Hext.
    + intros ? [= <-]. split; [done|].
      destruct (path_extension path) as [ext|]; [eauto|done].
Qed.
