(* ===== verification/Tracing.v ===== *)
(** * Tracing
    (src/crates/himadri-observability/src/tracing_setup.rs)

    What the settings of tracing lead to: which subscriber is installed, whether spans are
    exported, how many of them are sampled, and that what is buffered is flushed once. The
    OpenTelemetry library is outside: an exporter is what its builder returns for an
    endpoint, and what the code does to the library and to the process is a list of
    effects. *)

From S2P Require Import Prelude Str Float Config.

(** ** Sampling *)

(** [f64::clamp] *)
Definition f64_clamp (lo hi x : f64) : f64 :=
  let x := if f64_ltb x lo then lo else x in
  if f64_ltb hi x then hi else x.

Definition clamp_ratio (ratio : f64) : f64 :=
  if f64_is_nan ratio then f64_of_Z 1 else f64_clamp f64_zero (f64_of_Z 1) ratio.

Inductive Sampler := ParentBased (root : Sampler) | TraceIdRatioBased (ratio : f64).

Definition build_sampler (cfg : TracingConfig) : Sampler :=
  ParentBased (TraceIdRatioBased (clamp_ratio (trc_sample_ratio cfg))).

(** ** The pipeline *)

Record TraceResource := { tr_service_name : string; tr_attributes : list (string * string) }.

Section Setup.
(** The exporter a builder makes for an endpoint, or for the one it finds itself; the
    version of the crate; the filter of the environment, if it parses. *)
Context {X : Type} (exporter_build : option string -> result X string).
Context (pkg_version : string) (env_filter : option string).

Record TracerProvider := { tp_resource : TraceResource; tp_sampler : Sampler; tp_exporter : X }.

Definition build_resource (cfg : TracingConfig) : TraceResource :=
  {| tr_service_name := trc_service_name cfg; tr_attributes := [("service.version", pkg_version)] |}.

Definition build_otlp_provider (cfg : TracingConfig) : result TracerProvider string :=
  let endpoint := e ← trc_endpoint cfg; nonempty_text e in
  let? exporter := exporter_build endpoint in
  Ok {| tp_resource := build_resource cfg; tp_sampler := build_sampler cfg; tp_exporter := exporter |}.

(** What the process sees: the subscriber with its filter and, if spans are exported, its
    pipeline; the propagator; the global provider; a pipeline flushed and shut down. *)
Inductive TraceEffect :=
  | InitSubscriber (filter : string) (otel : option TracerProvider)
  | SetPropagator
  | SetTracerProvider (p : TracerProvider)
  | ShutDown (p : TracerProvider).

Record TracingGuard := { tg_provider : option TracerProvider }.

Definition guard_inert : TracingGuard := {| tg_provider := None |}.

Definition guard_is_active (g : TracingGuard) : bool := bool_decide (is_Some (tg_provider g)).

Definition shutdown_inner (g : TracingGuard) : TracingGuard * list TraceEffect :=
  match tg_provider g with
  | Some p => (guard_inert, [ShutDown p])
  | None => (g, [])
  end.

Definition guard_drop (g : TracingGuard) : list TraceEffect := (shutdown_inner g).2.

(** The guard is consumed, and dropped at the end of the call. *)
Definition guard_shutdown (g : TracingGuard) : list TraceEffect :=
  let '(g, effects) := shutdown_inner g in (effects ++ guard_drop g)%list.

Definition init_tracing (cfg : TracingConfig) : TracingGuard * list TraceEffect :=
  let filter := default "himadri=info,tower_http=info" env_filter in
  if negb (trc_enabled cfg) then (guard_inert, [InitSubscriber filter None])
  else
    match build_otlp_provider cfg with
    | Ok provider =>
        ({| tg_provider := Some provider |},
         [SetPropagator; InitSubscriber filter (Some provider); SetTracerProvider provider])
    | Err _ => (guard_inert, [InitSubscriber filter None])
    end.

(** The process from the set-up to its end: [main] shuts the guard down, or is unwound and
    drops it. *)
Definition traced_process (cfg : TracingConfig) (unwound : bool) : list TraceEffect :=
  let '(guard, effects) := init_tracing cfg in
  (effects ++ if unwound then guard_drop guard else guard_shutdown guard)%list.
End Setup.
Arguments TracerProvider : clear implicits.
Arguments TraceEffect : clear implicits.
Arguments tp_resource {X}.
Arguments tp_sampler {X}.
Arguments tp_exporter {X}.
Arguments InitSubscriber {X}.
Arguments SetPropagator {X}.
Arguments SetTracerProvider {X}.
Arguments ShutDown {X}.

(** ** Properties *)

Lemma f64_leb_negb x y : f64_is_nan x = false -> f64_is_nan y = false ->
  f64_leb y x = negb (f64_ltb x y).
Proof.
  unfold f64_ltb, f64_leb, SFltb, SFleb. intros Hx Hy.
  destruct x as [sx|sx| |sx mx ex], y as [sy|sy| |sy my ey]; try done; try destruct sx; try destruct sy; cbn; try done.
  all: change (Pos.compare_cont Eq mx my) with (Pos.compare mx my);
    change (Pos.compare_cont Eq my mx) with (Pos.compare my mx); rewrite (Pos.compare_antisym mx my), (Z.compare_antisym ex ey);
    destruct (ex ?= ey), (Pos.compare mx my); done.
Qed.

(** A sample ratio is always a proper one: between 0 and 1 whatever was configured, as
    configured where that was one already, and 1 where it was not a number. *)
Theorem clamp_ratio_bounds x :
  f64_leb f64_zero (clamp_ratio x) = true /\ f64_leb (clamp_ratio x) (f64_of_Z 1) = true /\
  (f64_leb f64_zero x = true -> f64_leb x (f64_of_Z 1) = true -> clamp_ratio x = x) /\
  (f64_is_nan x = true -> clamp_ratio x = f64_of_Z 1).
Proof.
  unfold clamp_ratio. destruct (f64_is_nan x) eqn:En.
  { split_and!; [done|done| |done]. by destruct x. }
  unfold f64_clamp. pose proof (f64_leb_negb x f64_zero En eq_refl) as H0.
  pose proof (f64_leb_negb (f64_of_Z 1) x eq_refl En) as H1.
  destruct (f64_ltb x f64_zero).
  { change (f64_ltb (f64_of_Z 1) f64_zero) with false. cbv iota. split_and!; [done|done|by rewrite H0|done]. }
  destruct (f64_ltb (f64_of_Z 1) x).
  - split_and!; [done|done|by rewrite H1|done].
  - by split_and!.
Qed.

(** Tracing never stops the process, and loses no spans. Whatever is configured,
    whether the exporter can be built or not, and however the process ends: a console
    subscriber is installed exactly once; spans are exported exactly when tracing is enabled and the
    exporter was built; and then its pipeline is flushed and shut down exactly once, last. *)
Theorem spans_flushed_once {X} (exporter_build : option string -> result X string) pkg_version env_filter
    cfg unwound :
  let effects := traced_process exporter_build pkg_version env_filter cfg unwound in
  let guard := (init_tracing exporter_build pkg_version env_filter cfg).1 in
  (exists filter otel, List.filter (fun e => match e with InitSubscriber _ _ => true | _ => false end) effects =
     [InitSubscriber filter otel] /\ otel = tg_provider guard) /\
  (guard_is_active guard = trc_enabled cfg && is_ok (build_otlp_provider exporter_build pkg_version cfg)) /\
  List.filter (fun e => match e with ShutDown _ => true | _ => false end) effects =
    (ShutDown <$> option_list (tg_provider guard)) /\
  (forall p, tg_provider guard = Some p ->
     List.last effects SetPropagator = ShutDown p /\ tp_sampler p = build_sampler cfg).
Proof.
  unfold traced_process, init_tracing. destruct (trc_enabled cfg); cbn [negb andb].
  2:{ split_and!; [do 2 eexists; split; [by destruct unwound|done]|done|by destruct unwound|done]. }
  destruct (build_otlp_provider exporter_build pkg_version cfg) as [p|e] eqn:E.
  - split_and!; [do 2 eexists; split; [by destruct unwound|done]|done|by destruct unwound|].
    intros q [= <-]. split; [by destruct unwound|]. unfold build_otlp_provider in E.
    destruct (exporter_build _); [|done]. by injection E as <-.
  - split_and!; [do 2 eexists; split; [by destruct unwound|done]|done|by destruct unwound|done].
Qed.
