(* ===== verification/Rbac.v ===== *)
(** * Role-based access control
    (src/crates/himadri-core/src/rbac.rs)

    [pattern_matches] is the source's greedy loop over the pattern's pieces;
    [glob] is the meaning of a pattern, and the loop decides it. The policy a
    principal gets is the union over its roles, and a decision is allow or the
    reason it is not. *)

From S2P Require Import Prelude Str Config.
From Stdlib Require Import Ascii.

(** ** Data *)

Inductive RbacDenial :=
  | NoMatchingRole
  | ModelForbidden (model : string)
  | ProviderForbidden (provider : string).

#[export] Instance RbacDenial_eq_dec : EqDecision RbacDenial.
Proof. solve_decision. Defined.

Definition rbac_denial_to_string (d : RbacDenial) : string :=
  match d with
  | NoMatchingRole => "no role grants access to this gateway"
  | ModelForbidden m => "model '" +:+ m +:+ "' is not permitted for your role"
  | ProviderForbidden p => "provider '" +:+ p +:+ "' is not permitted for your role"
  end.

Record EffectivePolicy := {
  ep_models : option (list string);
  ep_providers : option (list string);
}.

(** ** Patterns *)

(** The body of the loop of [pattern_matches]: [n] pieces in all, the next one
    at index [i], [pos] bytes of the value consumed. *)
Fixpoint match_parts (n i : nat) (parts : list string) (value : string) (pos : nat) : bool :=
  match parts with
  | [] => true
  | part :: rest =>
      if str_is_empty part then match_parts n (S i) rest value pos
      else if (i =? 0)%nat then
        if negb (starts_with part (str_drop pos value)) then false
        else match_parts n (S i) rest value (pos + String.length part)
      else if (i =? n - 1)%nat then ends_with part (str_drop pos value)
      else
        match str_find part (str_drop pos value) with
        | Some idx => match_parts n (S i) rest value (pos + (idx + String.length part))
        | None => false
        end
  end.

Definition pattern_matches (pattern value : string) : bool :=
  if bool_decide (pattern = "*") then true
  else if negb (contains_char "*"%char pattern) then bool_decide (pattern = value)
  else
    let parts := split_on (is_char "*"%char) pattern in
    match_parts (length parts) 0 parts value 0.

Definition any_match (patterns : list string) (value : string) : bool :=
  existsb (fun p => pattern_matches p value) patterns.

(** ** Policies *)

Definition merge_dimension (acc item : option (list string)) : option (list string) :=
  match item with
  | None => None
  | Some l => match acc with Some a => Some (a ++ l)%list | None => None end
  end.

Definition effective_policy (c : RbacConfig) (roles : list string) : option EffectivePolicy :=
  let matched := omap (fun r => rbac_roles c !! r) roles in
  let chosen :=
    match matched with
    | [] =>
        match rbac_default_role c with
        | Some d => Some (match rbac_roles c !! d with Some p => [p] | None => [] end)
        | None => None
        end
    | _ => Some matched
    end in
  match chosen with
  | None => None
  | Some [] => None
  | Some policies =>
      Some {| ep_models := foldl (fun acc p => merge_dimension acc (rp_models p)) (Some []) policies;
              ep_providers :=
                foldl (fun acc p => merge_dimension acc (rp_providers p)) (Some []) policies |}
  end.

Definition check_dimension (c : RbacConfig) (roles : list string) (is_admin : bool)
    (value : string) (select : EffectivePolicy -> option (list string))
    (deny : string -> RbacDenial) : result unit RbacDenial :=
  if negb (rbac_enabled c) || is_admin then Ok tt
  else
    let? policy := ok_or (effective_policy c roles) NoMatchingRole in
    match select policy with
    | None => Ok tt
    | Some allowed => if any_match allowed value then Ok tt else Err (deny value)
    end.

Definition check_model (c : RbacConfig) (roles : list string) (is_admin : bool)
    (model : string) : result unit RbacDenial :=
  check_dimension c roles is_admin model ep_models ModelForbidden.

Definition check_provider (c : RbacConfig) (roles : list string) (is_admin : bool)
    (provider : string) : result unit RbacDenial :=
  check_dimension c roles is_admin provider ep_providers ProviderForbidden.

(** ** What a pattern means *)

Inductive glob : string -> string -> Prop :=
  | glob_end : glob "" ""
  | glob_char c p v : c <> "*"%char -> glob p v -> glob (String c p) (String c v)
  | glob_star p u v : glob p v -> glob (String "*"%char p) (u +:+ v).

(** The same by pieces: the value is the pieces with anything between them. *)
Fixpoint glob_parts (parts : list string) (v : string) : Prop :=
  match parts with
  | [] => False
  | [x] => v = x
  | x :: rest => exists u w, v = x +:+ u +:+ w /\ glob_parts rest w
  end.

Definition after_star (parts : list string) (v : string) : Prop :=
  exists u w, v = u +:+ w /\ glob_parts parts w.

Lemma glob_parts_cons2 x y l v :
  glob_parts (x :: y :: l) v <-> exists w, v = x +:+ w /\ after_star (y :: l) w.
Proof. unfold after_star. cbn [glob_parts]. naive_solver. Qed.

Lemma glob_star_inv p v : glob (String "*"%char p) v -> exists u w, v = u +:+ w /\ glob p w.
Proof. inversion 1; subst; [done|]. eauto. Qed.

Lemma glob_parts_char c x l v :
  glob_parts (String c x :: l) v <-> exists v', v = String c v' /\ glob_parts (x :: l) v'.
Proof. destruct l as [|y l]; [cbn; naive_solver|]. rewrite glob_parts_cons2.
  split.
  - intros (w & -> & Hw). exists (x +:+ w). split; [done|]. apply glob_parts_cons2. eauto.
  - intros (v' & -> & (w & -> & Hw)%glob_parts_cons2). by exists w.
Qed.

Lemma glob_split p v : glob p v <-> glob_parts (split_on (is_char "*"%char) p) v.
Proof.
  revert v. induction p as [|c p IH]; intros v; cbn [split_on].
  { cbn. split; [by inversion 1|]. intros ->. constructor. }
  unfold is_char at 1. case_bool_decide as Hc.
  - subst. destruct (split_on_cons (is_char "*"%char) p) as (x & l & E). rewrite E in *.
    rewrite glob_parts_cons2. split.
    + intros (u & w & -> & Hw)%glob_star_inv. exists (u +:+ w). split; [done|].
      exists u, w. split; [done|]. by apply IH.
    + intros (w & -> & u & w' & -> & Hw). cbn. apply glob_star. by apply IH.
  - destruct (split_on_cons (is_char "*"%char) p) as (x & l & E). rewrite E in *.
    rewrite glob_parts_char. split.
    + inversion 1; subst; [|done]. eexists. split; [done|]. by apply IH.
    + intros (v' & -> & Hv). constructor; [done|]. by apply IH.
Qed.

(** ** The loop decides it *)

(** The loop after the first piece, on what is left of the value. *)
Fixpoint match_tail (parts : list string) (w : string) : bool :=
  match parts with
  | [] => true
  | part :: rest =>
      if str_is_empty part then match_tail rest w
      else match rest with
           | [] => ends_with part w
           | _ => match str_find part w with
                  | Some idx => match_tail rest (str_drop (idx + String.length part) w)
                  | None => false
                  end
           end
  end.

Lemma match_parts_tail n i parts value pos : (0 < i)%nat -> (i + length parts = n)%nat ->
  match_parts n i parts value pos = match_tail parts (str_drop pos value).
Proof.
  revert i pos. induction parts as [|x l IH]; intros i pos Hi Hn; [done|].
  cbn [match_parts match_tail length] in *.
  destruct (str_is_empty x); [apply IH; lia|].
  rewrite (proj2 (Nat.eqb_neq i 0)) by lia.
  destruct l as [|y l]; cbn [length] in *.
  - by rewrite (proj2 (Nat.eqb_eq i (n - 1))) by lia.
  - rewrite (proj2 (Nat.eqb_neq i (n - 1))) by lia.
    destruct (str_find x (str_drop pos value)) as [idx|]; [|done].
    rewrite str_drop_drop. apply IH; cbn; lia.
Qed.

Lemma match_parts_first n x rest value :
  match_parts n 0 (x :: rest) value 0 =
    (if str_is_empty x then match_parts n 1 rest value 0
     else if negb (starts_with x value) then false
     else match_parts n 1 rest value (String.length x)).
Proof. cbn [match_parts Nat.eqb]. by rewrite str_drop_0. Qed.

Lemma after_star_empty y l w : after_star ("" :: y :: l) w <-> after_star (y :: l) w.
Proof.
  split.
  - intros (u & v & -> & (v' & -> & u2 & w2 & -> & H)%glob_parts_cons2).
    exists (u +:+ u2), w2. by rewrite <- str_app_assoc.
  - intros (u & v & -> & H). exists "", (u +:+ v). split; [done|].
    apply glob_parts_cons2. exists (u +:+ v). split; [done|]. by exists u, v.
Qed.

Lemma match_tail_spec y l w : match_tail (y :: l) w = true <-> after_star (y :: l) w.
Proof.
  revert y w. induction l as [|z l IH]; intros y w;
    cbn [match_tail]; unfold str_is_empty; case_bool_decide as Hy; subst.
  - split; [|done]. intros _. exists w, "". by rewrite str_app_nil_r.
  - rewrite ends_with_app. unfold after_star. cbn. naive_solver.
  - change (match_tail (z :: l) w = true <-> after_star ("" :: z :: l) w).
    by rewrite IH, after_star_empty.
  - change (match str_find y w with
            | Some idx => match_tail (z :: l) (str_drop (idx + String.length y) w)
            | None => false
            end = true <-> after_star (y :: z :: l) w).
    split.
    + destruct (str_find y w) as [idx|] eqn:E; [|done]. rewrite IH. intros Hs.
      apply str_find_sound in E as (a & Ha & _). exists a.
      eexists. split; [exact Ha|]. apply glob_parts_cons2. eauto.
    + intros (u & w' & -> & (r & -> & u2 & w2 & -> & Hg)%glob_parts_cons2).
      destruct (str_find_leftmost y u (u2 +:+ w2)) as (idx & c & -> & ->).
      rewrite IH. exists (c +:+ u2), w2. by rewrite str_app_assoc.
Qed.

Lemma pattern_matches_glob p v : pattern_matches p v = true <-> glob p v.
Proof.
  unfold pattern_matches. case_bool_decide as Hp.
  { subst. split; [|done]. intros _. rewrite <- (str_app_nil_r v). repeat constructor. }
  destruct (contains_char "*"%char p) eqn:Hs; cbn [negb]; rewrite glob_split.
  2: { apply contains_char_split in Hs. rewrite Hs, bool_decide_eq_true. cbn. naive_solver. }
  destruct (split_on (is_char "*"%char) p) as [|x [|y l]] eqn:E.
  { destruct (split_on_cons (is_char "*"%char) p) as (? & ? & E'). congruence. }
  { exfalso. assert (x = p) as ->.
    { clear -E. revert x E. induction p as [|a p IH]; intros x; cbn; [by intros [= <-]|].
      destruct (split_on_cons (is_char "*"%char) p) as (y & l & E). rewrite E in *.
      destruct (is_char "*"%char a); [done|]. intros [= <- ->]. by rewrite (IH y). }
    apply contains_char_split in E. congruence. }
  rewrite glob_parts_cons2, match_parts_first.
  unfold str_is_empty. case_bool_decide as Hx.
  - subst. rewrite match_parts_tail by (cbn; lia).
    rewrite str_drop_0, match_tail_spec. cbn [String.append]. naive_solver.
  - destruct (starts_with x v) eqn:Hst; cbn [negb].
    + apply starts_with_app in Hst as [r ->].
      rewrite match_parts_tail by (cbn; lia). rewrite str_drop_app, match_tail_spec.
      split; [eauto|]. intros (w & Heq & Hw).
      apply (f_equal (str_drop (String.length x))) in Heq.
      rewrite !str_drop_app in Heq. by subst.
    + split; [done|]. intros (w & -> & _).
      assert (starts_with x (x +:+ w) = true) by (apply starts_with_app; eauto). congruence.
Qed.

(** ** What a policy grants *)

(** A dimension of a policy permits a value: it is unrestricted, or one of its
    patterns means it. *)
Definition permits (dim : option (list string)) (v : string) : Prop :=
  match dim with
  | None => True
  | Some patterns => exists p, p ∈ patterns /\ glob p v
  end.

(** A role policy applies: one of the principal's roles names it, or none of
    them is configured and the default role names it. *)
Definition role_matches (c : RbacConfig) (roles : list string) (p : RolePolicy) : Prop :=
  exists r, r ∈ roles /\ rbac_roles c !! r = Some p.

Definition applies (c : RbacConfig) (roles : list string) (p : RolePolicy) : Prop :=
  role_matches c roles p \/
  ((forall q, ~ role_matches c roles q) /\
   exists d, rbac_default_role c = Some d /\ rbac_roles c !! d = Some p).

Lemma any_match_spec patterns v : any_match patterns v = true <-> permits (Some patterns) v.
Proof.
  unfold any_match. rewrite existsb_exists. cbn.
  split; intros (p & Hp & Hm); exists p; (split; [by apply list_elem_of_In|by apply pattern_matches_glob]).
Qed.

Lemma merge_permits acc item v :
  permits (merge_dimension acc item) v <-> permits acc v \/ permits item v.
Proof.
  destruct item as [l|]; cbn; [|by naive_solver].
  destruct acc as [a|]; cbn; [|by naive_solver]. set_solver.
Qed.

Lemma fold_permits (f : RolePolicy -> option (list string)) ps acc v :
  permits (foldl (fun acc p => merge_dimension acc (f p)) acc ps) v <->
  permits acc v \/ exists p, p ∈ ps /\ permits (f p) v.
Proof.
  revert acc. induction ps as [|p ps IH]; intros acc; cbn [foldl].
  - set_solver.
  - rewrite IH, merge_permits. setoid_rewrite elem_of_cons. naive_solver.
Qed.

(** The policies [effective_policy] merges are those that apply. *)
Lemma effective_policy_spec c roles :
  match effective_policy c roles with
  | None => forall p, ~ applies c roles p
  | Some ep =>
      (exists p, applies c roles p) /\
      forall v, (permits (ep_models ep) v <-> exists p, applies c roles p /\ permits (rp_models p) v) /\
        (permits (ep_providers ep) v <-> exists p, applies c roles p /\ permits (rp_providers p) v)
  end.
Proof.
  assert (Hmatch : forall p, role_matches c roles p <-> p ∈ omap (fun r => rbac_roles c !! r) roles).
  { intros p. by rewrite list_elem_of_omap. }
  assert (Hfold : forall ps, ps <> [] -> (forall p, applies c roles p <-> p ∈ ps) ->
    forall (f : RolePolicy -> option (list string)),
    (exists p, applies c roles p) /\ forall v,
    permits (foldl (fun acc p => merge_dimension acc (f p)) (Some []) ps) v <->
    exists p, applies c roles p /\ permits (f p) v).
  { intros ps Hne Hps f. split.
    - destruct ps as [|p ps]; [done|]. exists p. apply Hps. by left.
    - intros v. rewrite fold_permits. setoid_rewrite Hps. split; [|by right].
      intros [(p & Hp & _)|Hp]; [by apply not_elem_of_nil in Hp|done]. }
  unfold effective_policy. destruct (omap _ roles) as [|q qs] eqn:E.
  - assert (Hno : forall q, ~ role_matches c roles q) by (intros q; rewrite Hmatch; apply not_elem_of_nil).
    assert (Hd : forall p, applies c roles p <->
      exists d, rbac_default_role c = Some d /\ rbac_roles c !! d = Some p).
    { intros p. split; [intros [Hm|[_ ?]]; [by apply Hno in Hm|done]|by right]. }
    destruct (rbac_default_role c) as [d|];
      [|intros p (d & [=] & _)%Hd].
    destruct (rbac_roles c !! d) as [p|] eqn:Ed;
      [|intros p (d' & [= <-] & ?)%Hd; congruence].
    assert (Hp : forall p', applies c roles p' <-> p' ∈ [p]).
    { intros p'. rewrite list_elem_of_singleton, Hd. split.
      - intros (d' & [= <-] & ?). congruence.
      - intros ->. eauto. }
    specialize (Hfold [p] ltac:(done) Hp). cbn [ep_models ep_providers].
    split; [by apply (Hfold rp_models)|]. intros v; split; by apply Hfold.
  - assert (Hp : forall p', applies c roles p' <-> p' ∈ q :: qs).
    { intros p'. unfold applies. rewrite Hmatch. split; [|by left].
      intros [?|[Hno _]]; [done|]. destruct (Hno q). apply Hmatch. by left. }
    specialize (Hfold (q :: qs) ltac:(done) Hp). cbn [ep_models ep_providers].
    split; [by apply (Hfold rp_models)|]. intros v; split; by apply Hfold.
Qed.

(** What a check must answer for a dimension of the policies. *)
Definition decision_for (c : RbacConfig) (roles : list string) (is_admin : bool)
    (dim : RolePolicy -> option (list string)) (v : string) (deny : RbacDenial)
    (r : result unit RbacDenial) : Prop :=
  (r = Ok tt <-> rbac_enabled c = false \/ is_admin = true \/
     exists p, applies c roles p /\ permits (dim p) v) /\
  (r = Err NoMatchingRole <-> rbac_enabled c = true /\ is_admin = false /\
     forall p, ~ applies c roles p) /\
  (r = Err deny <-> rbac_enabled c = true /\ is_admin = false /\
     (exists p, applies c roles p) /\ forall p, applies c roles p -> ~ permits (dim p) v).

Lemma check_dimension_spec c roles is_admin v sel dim deny :
  deny v <> NoMatchingRole ->
  (forall ep, effective_policy c roles = Some ep ->
     permits (sel ep) v <-> exists p, applies c roles p /\ permits (dim p) v) ->
  decision_for c roles is_admin dim v (deny v) (check_dimension c roles is_admin v sel deny).
Proof.
  intros Hdeny Hsel. unfold decision_for, check_dimension.
  destruct (rbac_enabled c), is_admin; cbn [negb orb]; try (split_and!; naive_solver).
  pose proof (effective_policy_spec c roles) as He.
  destruct (effective_policy c roles) as [ep|]; cbn [ok_or].
  - specialize (Hsel ep eq_refl). destruct He as [Hex _].
    assert (forall b : bool, (b = true <-> permits (sel ep) v) ->
      let r := if b then Ok tt else Err (deny v) in
      (r = Ok tt <-> permits (sel ep) v) /\ r <> Err NoMatchingRole /\
      (r = Err (deny v) <-> ~ permits (sel ep) v)) as Hb.
    { intros [] Hb; cbn; split_and!; try done; try (split; [done|]); try naive_solver;
        try congruence. }
    assert (let r := match sel ep with
        | None => Ok tt
        | Some allowed => if any_match allowed v then Ok tt else Err (deny v)
        end in
      (r = Ok tt <-> permits (sel ep) v) /\ r <> Err NoMatchingRole /\
      (r = Err (deny v) <-> ~ permits (sel ep) v)) as (Hok & Hno & Herr).
    { destruct (sel ep) as [l|]; [apply Hb, any_match_spec|].
      apply (Hb true). by cbn. }
    rewrite Hok, Herr, Hsel. split_and!; [naive_solver|naive_solver|].
    split; [|naive_solver]. intros H. split_and!; [done..|]. intros p ? ?. apply H. eauto.
  - split_and!; [naive_solver|naive_solver|]. split; [congruence|naive_solver].
Qed.

Lemma check_model_decides c roles is_admin m :
  decision_for c roles is_admin rp_models m (ModelForbidden m) (check_model c roles is_admin m).
Proof.
  apply check_dimension_spec; [done|]. intros ep E.
  pose proof (effective_policy_spec c roles) as He. rewrite E in He. apply He.
Qed.

Lemma check_provider_decides c roles is_admin v :
  decision_for c roles is_admin rp_providers v (ProviderForbidden v)
    (check_provider c roles is_admin v).
Proof.
  apply check_dimension_spec; [done|]. intros ep E.
  pose proof (effective_policy_spec c roles) as He. rewrite E in He. apply He.
Qed.

(** ** Properties *)

(** The greedy loop decides the meaning of a pattern, for any number of
    stars and any value: [*] stands for any run of bytes and every other byte
    for itself, anchored at both ends. *)
Theorem pattern_matches_spec pattern value :
  pattern_matches pattern value = true <-> glob pattern value.
Proof. apply pattern_matches_glob. Qed.

(** An access check answers what the policies say. A disabled policy and
    an admin pass; otherwise the request passes exactly when one of the
    policies that apply permits the value, it is denied for want of a role
    exactly when none applies, and it is denied for the value otherwise. *)
Theorem rbac_check_spec c roles is_admin v :
  decision_for c roles is_admin rp_models v (ModelForbidden v)
    (check_model c roles is_admin v) /\
  decision_for c roles is_admin rp_providers v (ProviderForbidden v)
    (check_provider c roles is_admin v).
Proof. split; [apply check_model_decides|apply check_provider_decides]. Qed.

(** The most permissive role wins: once one of a principal's roles is
    configured, giving it further roles never takes a model or a provider
    away. *)
Theorem rbac_roles_monotone c roles more is_admin v p :
  role_matches c roles p -> roles ⊆ more ->
  (check_model c roles is_admin v = Ok tt -> check_model c more is_admin v = Ok tt) /\
  (check_provider c roles is_admin v = Ok tt -> check_provider c more is_admin v = Ok tt).
Proof.
  intros Hp Hsub.
  assert (Happ : forall q, applies c roles q -> applies c more q).
  { intros q [(r & Hr & Hq)|[Hno _]]; [|by apply Hno in Hp]. left. exists r. auto. }
  destruct (check_model_decides c roles is_admin v) as [Hm _].
  destruct (check_model_decides c more is_admin v) as [Hm' _].
  destruct (check_provider_decides c roles is_admin v) as [Hv _].
  destruct (check_provider_decides c more is_admin v) as [Hv' _].
  rewrite Hm, Hm', Hv, Hv'. naive_solver.
Qed.

(** ** Witnesses *)

Definition demo_rbac : RbacConfig :=
  {| rbac_enabled := true;
     rbac_roles := {[ "basic" := {| rp_models := Some ["gpt-*-mini"]; rp_providers := None |} ]};
     rbac_default_role := None |}.

Lemma rbac_roles_monotone_witness :
  check_model demo_rbac ["basic"; "other"] false "gpt-4o-mini" = Ok tt /\
  check_model demo_rbac ["other"] false "gpt-4o-mini" = Err NoMatchingRole.
Proof.
  split; [|by vm_compute].
  apply (rbac_roles_monotone demo_rbac ["basic"] ["basic"; "other"] false "gpt-4o-mini"
    {| rp_models := Some ["gpt-*-mini"]; rp_providers := None |}).
  - exists "basic". split; [by left|by vm_compute].
  - intros x Hx. apply list_elem_of_singleton in Hx as ->. by left.
  - by vm_compute.
Defined.
