(* ===== verification/Roles.v ===== *)
(** * The standard role catalogue
    (src/crates/himadri-core/src/roles.rs)

    Roles, the capabilities they grant and their union, billing tiers, and the
    maps from an identity provider's role names to the catalogue. *)

From S2P Require Import Prelude Str.

(** ** Roles *)

Inductive StandardRole :=
  | RoleUser | RolePowerUser | RoleAnalyst | RoleAdmin | RoleCustom (name : string).

#[export] Instance StandardRole_eq_dec : EqDecision StandardRole.
Proof. solve_decision. Defined.

Definition role_from_string (s : string) : StandardRole :=
  if decide (s = "user") then RoleUser
  else if decide (s = "power-user" \/ s = "poweruser") then RolePowerUser
  else if decide (s = "analyst") then RoleAnalyst
  else if decide (s = "admin") then RoleAdmin
  else RoleCustom s.

Definition role_as_str (r : StandardRole) : string :=
  match r with
  | RoleUser => "user"
  | RolePowerUser => "power-user"
  | RoleAnalyst => "analyst"
  | RoleAdmin => "admin"
  | RoleCustom name => name
  end.

(** ** Capabilities *)

Record RoleCapabilities := {
  can_execute : bool;
  can_submit_requests : bool;
  can_read_models : bool;
  can_use_any_model : bool;
  can_use_any_provider : bool;
  can_read_usage : bool;
  can_read_logs : bool;
  can_manage_keys : bool;
  can_manage_config : bool;
  can_manage_team : bool;
  can_manage_budget : bool;
  custom_capabilities : gset string;
}.

Definition caps_user : RoleCapabilities :=
  {| can_execute := true; can_submit_requests := true; can_read_models := true;
     can_use_any_model := false; can_use_any_provider := false; can_read_usage := false;
     can_read_logs := false; can_manage_keys := false; can_manage_config := false;
     can_manage_team := false; can_manage_budget := false; custom_capabilities := ∅ |}.

Definition caps_power_user : RoleCapabilities :=
  {| can_execute := true; can_submit_requests := true; can_read_models := true;
     can_use_any_model := true; can_use_any_provider := true; can_read_usage := false;
     can_read_logs := false; can_manage_keys := false; can_manage_config := false;
     can_manage_team := false; can_manage_budget := false; custom_capabilities := ∅ |}.

Definition caps_analyst : RoleCapabilities :=
  {| can_execute := false; can_submit_requests := false; can_read_models := true;
     can_use_any_model := false; can_use_any_provider := false; can_read_usage := true;
     can_read_logs := true; can_manage_keys := false; can_manage_config := false;
     can_manage_team := false; can_manage_budget := false; custom_capabilities := ∅ |}.

Definition caps_admin : RoleCapabilities :=
  {| can_execute := true; can_submit_requests := true; can_read_models := true;
     can_use_any_model := true; can_use_any_provider := true; can_read_usage := true;
     can_read_logs := true; can_manage_keys := true; can_manage_config := true;
     can_manage_team := true; can_manage_budget := true; custom_capabilities := ∅ |}.

Definition caps_merge (self other : RoleCapabilities) : RoleCapabilities :=
  {| can_execute := can_execute self || can_execute other;
     can_submit_requests := can_submit_requests self || can_submit_requests other;
     can_read_models := can_read_models self || can_read_models other;
     can_use_any_model := can_use_any_model self || can_use_any_model other;
     can_use_any_provider := can_use_any_provider self || can_use_any_provider other;
     can_read_usage := can_read_usage self || can_read_usage other;
     can_read_logs := can_read_logs self || can_read_logs other;
     can_manage_keys := can_manage_keys self || can_manage_keys other;
     can_manage_config := can_manage_config self || can_manage_config other;
     can_manage_team := can_manage_team self || can_manage_team other;
     can_manage_budget := can_manage_budget self || can_manage_budget other;
     custom_capabilities := custom_capabilities self ∪ custom_capabilities other |}.

(** ** Billing tiers *)

Inductive BillingTier := TierFree | TierPro | TierEnterprise | TierCustom (name : string).

#[export] Instance BillingTier_eq_dec : EqDecision BillingTier.
Proof. solve_decision. Defined.

Definition tier_from_string (s : string) : BillingTier :=
  if decide (s = "free") then TierFree
  else if decide (s = "pro") then TierPro
  else if decide (s = "enterprise") then TierEnterprise
  else TierCustom s.

Definition tier_as_str (t : BillingTier) : string :=
  match t with
  | TierFree => "free"
  | TierPro => "pro"
  | TierEnterprise => "enterprise"
  | TierCustom s => s
  end.

(** ** Vendor role names *)

Record VendorRoleMapping := { vendor_mappings : gmap string string }.

Definition vendor_new : VendorRoleMapping := {| vendor_mappings := ∅ |}.

Definition vendor_insert (vendor_role standard_role : string) (m : VendorRoleMapping)
    : VendorRoleMapping :=
  {| vendor_mappings := <[vendor_role := standard_role]> (vendor_mappings m) |}.

Definition vendor_of (l : list (string * string)) : VendorRoleMapping :=
  foldl (fun m '(v, s) => vendor_insert v s m) vendor_new l.

Definition vendor_zitadel : VendorRoleMapping :=
  vendor_of [("admin", "admin"); ("editor", "power-user"); ("viewer", "analyst");
             ("member", "user")].

Definition vendor_auth0 : VendorRoleMapping :=
  vendor_of [("Admin", "admin"); ("Editor", "power-user"); ("Viewer", "analyst");
             ("User", "user")].

Definition vendor_keycloak : VendorRoleMapping :=
  vendor_of [("realm-admin", "admin"); ("realm-editor", "power-user");
             ("realm-viewer", "analyst"); ("realm-user", "user")].

Definition vendor_entra : VendorRoleMapping :=
  vendor_of [("GlobalAdmin", "admin"); ("Admin", "admin"); ("Editor", "power-user");
             ("Reader", "analyst"); ("User", "user")].

Definition vendor_okta : VendorRoleMapping :=
  vendor_of [("System Administrator", "admin"); ("Organization Administrator", "admin");
             ("Application Administrator", "power-user"); ("Group Administrator", "power-user");
             ("User Administrator", "analyst"); ("Help Desk Administrator", "analyst");
             ("Okta User", "user")].

Definition vendor_ping_identity : VendorRoleMapping :=
  vendor_of [("Administrator", "admin"); ("Editor", "power-user"); ("Auditor", "analyst");
             ("User", "user")].

Definition vendor_map (m : VendorRoleMapping) (vendor_role : string) : string :=
  default vendor_role (vendor_mappings m !! vendor_role).

(** ** Properties *)

(** A set of capabilities contained in another. *)
Record caps_le (a b : RoleCapabilities) : Prop := {
  le_execute : Is_true (can_execute a) -> Is_true (can_execute b);
  le_submit : Is_true (can_submit_requests a) -> Is_true (can_submit_requests b);
  le_read_models : Is_true (can_read_models a) -> Is_true (can_read_models b);
  le_any_model : Is_true (can_use_any_model a) -> Is_true (can_use_any_model b);
  le_any_provider : Is_true (can_use_any_provider a) -> Is_true (can_use_any_provider b);
  le_usage : Is_true (can_read_usage a) -> Is_true (can_read_usage b);
  le_logs : Is_true (can_read_logs a) -> Is_true (can_read_logs b);
  le_keys : Is_true (can_manage_keys a) -> Is_true (can_manage_keys b);
  le_config : Is_true (can_manage_config a) -> Is_true (can_manage_config b);
  le_team : Is_true (can_manage_team a) -> Is_true (can_manage_team b);
  le_budget : Is_true (can_manage_budget a) -> Is_true (can_manage_budget b);
  le_custom : custom_capabilities a ⊆ custom_capabilities b;
}.

(** Merging capabilities is their least upper bound, whatever order roles
    are merged in: it is commutative, associative and idempotent, it contains
    both arguments and nothing a set containing both does not, and the four
    standard sets are nested as the catalogue says, user under power user
    under admin and analyst under admin. *)
Theorem caps_merge_lub a b c :
  caps_merge a b = caps_merge b a /\
  caps_merge a (caps_merge b c) = caps_merge (caps_merge a b) c /\
  caps_merge a a = a /\
  caps_le a (caps_merge a b) /\ caps_le b (caps_merge a b) /\
  (caps_le a c -> caps_le b c -> caps_le (caps_merge a b) c) /\
  caps_le caps_user caps_power_user /\ caps_le caps_power_user caps_admin /\
  caps_le caps_analyst caps_admin.
Proof.
  split_and!.
  - unfold caps_merge. f_equal; first [apply orb_comm|set_solver].
  - unfold caps_merge; cbn. f_equal; first [apply orb_assoc|set_solver].
  - destruct a. unfold caps_merge; cbn. f_equal; first [apply orb_diag|set_solver].
  - split; cbn; first [set_solver|intros; apply orb_prop_intro; auto].
  - split; cbn; first [set_solver|intros; apply orb_prop_intro; auto].
  - intros [] []. split; cbn; first [set_solver|intros H%orb_prop_elim; naive_solver].
  - by split.
  - by split.
  - by split.
Qed.

(** A role's name round-trips: parsing prints back to the same text but
    for [poweruser], which becomes [power-user], and printing parses back to
    the same role but for a custom role named like a standard one, which
    becomes it. Billing tiers round-trip likewise. *)
Theorem role_name_round_trip s r :
  role_as_str (role_from_string s) =
    (if decide (s = "poweruser") then "power-user" else s) /\
  (role_from_string (role_as_str r) = r <->
     forall name, r = RoleCustom name ->
       name ∉ ["user"; "power-user"; "poweruser"; "analyst"; "admin"]) /\
  tier_as_str (tier_from_string s) = s.
Proof.
  split_and!.
  - unfold role_from_string. repeat case_decide; simplify_eq/=; naive_solver.
  - destruct r as [| | | |name]; try (split; [|done]; intros _; discriminate).
    cbn. unfold role_from_string. split.
    + intros H n [= <-]. rewrite !not_elem_of_cons. repeat case_decide; simplify_eq. repeat split; try tauto.
      apply not_elem_of_nil.
    + intros H. specialize (H name eq_refl). rewrite !not_elem_of_cons in H. destruct H as (H1 & H2 & H3 & H4 & H5 & _).
      repeat case_decide; tauto.
  - unfold tier_from_string. repeat case_decide; simplify_eq; done.
Qed.
