(* ===== verification/Strategy.v ===== *)
(** * Target selection
    (src/crates/himadri/src/strategy.rs and latency_store.rs)

    [select_ordered] is the failover order a strategy chooses. The random
    draws of [rand] are an argument: the [k]-th draw below a bound, [None]
    where [gen_range] panics, and the whole selection is [None] when it does.
    [Regex] and [str::to_lowercase] are arguments too. *)

From S2P Require Import Prelude Str Float Types Errors Config.
From Stdlib Require Import Sorted.

(** ** The latency store *)

Class LatencyStore (L : Type) := {
  ls_record : string -> Z -> L -> L;
  ls_get_avg_latency : string -> L -> Z;
}.

Record LatencyEntry := { le_sum : Z; le_count : Z }.

Definition InMemoryLatencyStore : Type := gmap string LatencyEntry.

Definition latency_store_new : InMemoryLatencyStore := ∅.

Definition latency_record (provider : string) (latency_ms : Z) (s : InMemoryLatencyStore)
    : InMemoryLatencyStore :=
  let entry := default {| le_sum := 0; le_count := 0 |} (s !! provider) in
  <[provider := {| le_sum := wrap_u64 (le_sum entry + latency_ms);
                   le_count := wrap_u64 (le_count entry + 1) |}]> s.

Definition get_avg_latency (provider : string) (s : InMemoryLatencyStore) : Z :=
  match s !! provider with
  | Some entry => if le_count entry =? 0 then U64_MAX else le_sum entry / le_count entry
  | None => U64_MAX
  end.

#[export] Instance in_memory_latency_store : LatencyStore InMemoryLatencyStore :=
  {| ls_record := latency_record; ls_get_avg_latency := get_avg_latency |}.

(** ** Data *)

Inductive ConditionKey := CondModel | CondModelPrefix.

Record ConditionRule := {
  cr_key : ConditionKey;
  cr_value : string;
  cr_target : Target;
}.

Record ConditionalConfig := {
  cc_rules : list ConditionRule;
  cc_fallback : option Target;
}.

Inductive ContentConditionType := PromptContains | PromptNotContains | PromptRegex.

Record ContentRule (Regex : Type) := {
  ct_condition_type : ContentConditionType;
  ct_value : string;
  ct_target : Target;
  ct_compiled_regex : option Regex;
}.
Arguments ct_condition_type {Regex}.
Arguments ct_value {Regex}.
Arguments ct_target {Regex}.
Arguments ct_compiled_regex {Regex}.

Record ContentBasedConfig (Regex : Type) := {
  cb_rules : list (ContentRule Regex);
  cb_fallback : option Target;
}.
Arguments cb_rules {Regex}.
Arguments cb_fallback {Regex}.

Record ABTestVariant := { ab_target : Target; ab_weight : f64 }.
Record ABTestConfig := { ab_variants : list ABTestVariant }.

Inductive Strategy (L Regex : Type) :=
  | StSingle
  | StFallback
  | StLoadBalance
  | StLeastLatency (store : L)
  | StCostOptimized
  | StConditional (config : ConditionalConfig)
  | StContentBased (config : ContentBasedConfig Regex)
  | StABTest (config : ABTestConfig).
Arguments StSingle {L Regex}.
Arguments StFallback {L Regex}.
Arguments StLoadBalance {L Regex}.
Arguments StLeastLatency {L Regex}.
Arguments StCostOptimized {L Regex}.
Arguments StConditional {L Regex}.
Arguments StContentBased {L Regex}.
Arguments StABTest {L Regex}.

(** ** Construction *)

Section Build.
Context {Regex : Type} (regex_new : string -> option Regex).

Definition from_mode (mode : StrategyMode) : Strategy InMemoryLatencyStore Regex :=
  match mode with
  | Single => StSingle
  | Fallback => StFallback
  | LoadBalance => StLoadBalance
  | LeastLatency => StLeastLatency latency_store_new
  | CostOptimized => StCostOptimized
  | Conditional => StConditional {| cc_rules := []; cc_fallback := None |}
  | ContentBased => StContentBased {| cb_rules := []; cb_fallback := None |}
  | ABTest => StABTest {| ab_variants := [] |}
  end.

Definition condition_rule_of (r : ConditionalRuleConfig) : ConditionRule :=
  {| cr_key := match crc_key r with KeyModel => CondModel | KeyModelPrefix => CondModelPrefix end;
     cr_value := crc_value r; cr_target := crc_target r |}.

Definition content_rule_of (r : ContentRuleConfig) : ContentRule Regex :=
  {| ct_condition_type :=
       match ctc_condition_type r with
       | CfgPromptContains => PromptContains
       | CfgPromptNotContains => PromptNotContains
       | CfgPromptRegex => PromptRegex
       end;
     ct_value := ctc_value r;
     ct_target := ctc_target r;
     ct_compiled_regex :=
       match ctc_condition_type r with CfgPromptRegex => regex_new (ctc_value r) | _ => None end |}.

Definition from_strategy_config (c : StrategyConfig) : Strategy InMemoryLatencyStore Regex :=
  match st_mode c with
  | Conditional =>
      StConditional {| cc_rules := condition_rule_of <$> st_conditional_rules c;
                       cc_fallback := st_strategy_fallback c |}
  | ContentBased =>
      StContentBased {| cb_rules := content_rule_of <$> st_content_rules c;
                        cb_fallback := st_strategy_fallback c |}
  | ABTest =>
      StABTest {| ab_variants :=
        (fun v => {| ab_target := abc_target v; ab_weight := abc_weight v |}) <$> st_ab_variants c |}
  | other => from_mode other
  end.
End Build.

(** ** Helpers *)

Definition ordered_with_primary (primary : option Target) (targets : list Target) : list Target :=
  match primary with Some p => p :: targets | None => targets end.

Definition endpoint_key : Type := option string * string * option string * option string.

Definition target_key (t : Target) : endpoint_key :=
  (target_id t, target_provider t, target_api_key_env t, target_base_url t).

(** The filter with its [seen] set. *)
Fixpoint dedup_from (seen : gset endpoint_key) (ts : list Target) : list Target :=
  match ts with
  | [] => []
  | t :: ts =>
      if decide (target_key t ∈ seen) then dedup_from seen ts
      else t :: dedup_from ({[target_key t]} ∪ seen) ts
  end.

Definition dedup_targets (ts : list Target) : list Target := dedup_from ∅ ts.

Definition matches_condition (rule : ConditionRule) (request : ChatCompletionRequest) : bool :=
  match cr_key rule with
  | CondModel => bool_decide (req_model request = cr_value rule)
  | CondModelPrefix => starts_with (cr_value rule) (req_model request)
  end.

Definition extract_user_content (request : ChatCompletionRequest) : string :=
  join " " (flat_text <$>
    omap msg_content (filter (fun m => msg_role m = User) (req_messages request))).

Definition clamp_weight (t : Target) : f64 := f64_max (target_weight t) f64_zero.

Definition lb_total (ts : list Target) : f64 := f64_sum (clamp_weight <$> ts).

(** The index a draw [r] selects, if the running difference reaches zero. *)
Fixpoint lb_scan (r : f64) (i : nat) (ts : list Target) : option nat :=
  match ts with
  | [] => None
  | t :: ts =>
      let r := f64_sub r (clamp_weight t) in
      if f64_leb r f64_zero then Some i else lb_scan r (S i) ts
  end.

Definition ab_variant_weight (v : ABTestVariant) : f64 :=
  if f64_leb (ab_weight v) f64_zero then f64_of_Z 1 else ab_weight v.

Fixpoint ab_scan (r cumulative : f64) (vs : list ABTestVariant) : option Target :=
  match vs with
  | [] => None
  | v :: vs =>
      let cumulative := f64_add cumulative (ab_variant_weight v) in
      if f64_ltb r cumulative then Some (ab_target v) else ab_scan r cumulative vs
  end.

Section Select.
Context {L Regex : Type} `{LatencyStore L}.
Context (is_match : Regex -> string -> bool) (to_lowercase : string -> string).
Context (gen_range : nat -> f64 -> option f64).

Definition matches_content_rule (rule : ContentRule Regex) (request : ChatCompletionRequest)
    : bool :=
  let user_content := extract_user_content request in
  match ct_condition_type rule with
  | PromptContains => str_contains (to_lowercase (ct_value rule)) (to_lowercase user_content)
  | PromptNotContains =>
      negb (str_contains (to_lowercase (ct_value rule)) (to_lowercase user_content))
  | PromptRegex =>
      match ct_compiled_regex rule with Some re => is_match re user_content | None => false end
  end.

(** One iteration of the load balancer's loop: the index removed. *)
Definition lb_index (k : nat) (remaining : list Target) : option nat :=
  let total := lb_total remaining in
  if f64_leb total f64_zero then Some 0%nat
  else
    match gen_range k total with
    | None => None
    | Some r => Some (default (length remaining - 1)%nat (lb_scan r 0 remaining))
    end.

(** The loop; [fuel] is the number of remaining targets. *)
Fixpoint lb_loop (fuel k : nat) (remaining : list Target) : option (list Target) :=
  match fuel with
  | O => Some []
  | S fuel =>
      match lb_index k remaining with
      | None => None
      | Some idx =>
          match remaining !! idx with
          | None => None
          | Some t => cons t <$> lb_loop fuel (S k) (delete idx remaining)
          end
      end
  end.

(** [None] on a panicking draw. *)
Definition select_ab_test_variant (config : ABTestConfig) (targets : list Target)
    : option (result Target GatewayError) :=
  match ab_variants config with
  | [] => Some (ok_or (head targets) (Internal "No targets"))
  | variants =>
      let total_weight := f64_sum (ab_variant_weight <$> variants) in
      match gen_range 0 total_weight with
      | None => None
      | Some r =>
          match ab_scan r f64_zero variants with
          | Some t => Some (Ok t)
          | None =>
              Some (ok_or (match ab_target <$> last variants with
                           | Some t => Some t
                           | None => head targets
                           end) (Internal "No variants"))
          end
      end
  end.

(** [result.ok()] *)
Definition result_ok {A E} (r : result A E) : option A :=
  match r with Ok a => Some a | Err _ => None end.

Definition rule_primary {R} (matches : R -> bool) (target : R -> Target)
    (fallback : option Target) (rules : list R) : option Target :=
  match find matches rules with Some r => Some (target r) | None => fallback end.

Definition latency_before (a b : Z * Target) : bool := a.1 <? b.1.
Definition weight_before (a b : Target) : bool := f64_ltb (target_weight a) (target_weight b).

(** The order before duplicates are dropped; [targets] is not empty. *)
Definition strategy_order (s : Strategy L Regex) (request : ChatCompletionRequest)
    (targets : list Target) : option (list Target) :=
  match s with
  | StSingle => Some (take 1 targets)
  | StFallback => Some targets
  | StLoadBalance => lb_loop (length targets) 0 targets
  | StLeastLatency store =>
      Some (snd <$> stable_sort latency_before
        ((fun t => (ls_get_avg_latency (target_provider t) store, t)) <$> targets))
  | StCostOptimized => Some (stable_sort weight_before targets)
  | StConditional c =>
      Some (ordered_with_primary
        (rule_primary (fun r => matches_condition r request) cr_target (cc_fallback c) (cc_rules c))
        targets)
  | StContentBased c =>
      Some (ordered_with_primary
        (rule_primary (fun r => matches_content_rule r request) ct_target (cb_fallback c)
           (cb_rules c)) targets)
  | StABTest c =>
      (fun r => ordered_with_primary (result_ok r) targets) <$> select_ab_test_variant c targets
  end.

Definition select_ordered (s : Strategy L Regex) (request : ChatCompletionRequest)
    (targets : list Target) : option (result (list Target) GatewayError) :=
  match targets with
  | [] => Some (Err (Internal "No targets configured"))
  | _ => (fun ordered => Ok (dedup_targets ordered)) <$> strategy_order s request targets
  end.
End Select.

(** ** Duplicates *)

Lemma dedup_from_spec ts seen :
  (forall t, t ∈ dedup_from seen ts -> t ∈ ts /\ target_key t ∉ seen) /\
  NoDup (target_key <$> dedup_from seen ts) /\
  (forall t, t ∈ ts -> target_key t ∈ seen \/ target_key t ∈ target_key <$> dedup_from seen ts).
Proof.
  revert seen. induction ts as [|t ts IH]; intros seen; cbn [dedup_from].
  { split_and!; [intros t Ht; by apply not_elem_of_nil in Ht|constructor|
      intros t Ht; by apply not_elem_of_nil in Ht]. }
  case_decide as Hin.
  - destruct (IH seen) as (H1 & H2 & H3). split_and!; [|done|].
    + intros u [Hu Hk]%H1. split; [by right|done].
    + intros u [->|Hu]%elem_of_cons; auto.
  - destruct (IH ({[target_key t]} ∪ seen)) as (H1 & H2 & H3).
    rewrite fmap_cons. split_and!.
    + intros u [->|Hu]%elem_of_cons; [by split; [left|]|].
      apply H1 in Hu as [Hu Hk]. split; [by right|].
      intros Hin2. by apply Hk, elem_of_union_r.
    + constructor; [|done]. intros (u & Hk & Hu)%list_elem_of_fmap.
      apply H1 in Hu as [_ Hu]. apply Hu, elem_of_union_l. by apply elem_of_singleton.
    + intros u [->|Hu]%elem_of_cons; [right; by left|].
      destruct (H3 u Hu) as [[Hk%elem_of_singleton|?]%elem_of_union|?];
        [rewrite Hk; right; by left|by left|right; by right].
Qed.

Lemma dedup_sublist ts seen : dedup_from seen ts `sublist_of` ts.
Proof.
  revert seen. induction ts as [|t ts IH]; intros seen; cbn; [constructor|].
  case_decide; by constructor.
Qed.

Lemma dedup_head t ts : head (dedup_targets (t :: ts)) = Some t.
Proof. unfold dedup_targets. cbn. rewrite decide_False by set_solver. done. Qed.

Lemma dedup_nonempty t ts : dedup_targets (t :: ts) <> [].
Proof. intros E. pose proof (dedup_head t ts) as H. by rewrite E in H. Qed.

(** ** Orders *)

Section Proofs.
Context {L Regex : Type} `{LatencyStore L}.
Context (is_match : Regex -> string -> bool) (to_lowercase : string -> string).
Context (gen_range : nat -> f64 -> option f64).

Lemma lb_scan_range r i ts j : lb_scan r i ts = Some j -> (i <= j < i + length ts)%nat.
Proof.
  revert r i. induction ts as [|t ts IH]; intros r i; cbn; [done|].
  destruct (f64_leb _ _); [intros [= <-]; lia|]. intros Hj%IH. lia.
Qed.

Lemma lb_index_range k ts idx : ts <> [] -> lb_index gen_range k ts = Some idx ->
  (idx < length ts)%nat.
Proof.
  intros Hne. unfold lb_index. assert (0 < length ts)%nat by (destruct ts; cbn; [done|lia]).
  destruct (f64_leb _ _); [intros [= <-]; lia|].
  destruct (gen_range k _) as [r|]; [|done]. intros [= <-].
  destruct (lb_scan r 0 ts) as [j|] eqn:E; cbn; [apply lb_scan_range in E|]; lia.
Qed.

(** The loop runs to the end on any draws that do not panic, and what it
    returns is the targets in another order. *)
Lemma lb_loop_spec fuel k ts : length ts = fuel ->
  match lb_loop gen_range fuel k ts with
  | Some l => l ≡ₚ ts
  | None => exists k total, f64_leb total f64_zero = false /\ gen_range k total = None
  end.
Proof.
  revert k ts. induction fuel as [|fuel IH]; intros k ts Hlen; cbn [lb_loop].
  - by destruct ts.
  - assert (ts <> []) as Hne by (by intros ->).
    destruct (lb_index gen_range k ts) as [idx|] eqn:Ei.
    + apply lb_index_range in Ei; [|done].
      destruct (lookup_lt_is_Some_2 ts idx Ei) as [t Ht]. rewrite Ht.
      specialize (IH (S k) (delete idx ts)). rewrite length_delete in IH by eauto.
      specialize (IH ltac:(lia)).
      destruct (lb_loop gen_range fuel (S k) (delete idx ts)) as [l|]; cbn; [|done].
      rewrite IH. symmetry. by apply delete_Permutation.
    + unfold lb_index in Ei. destruct (f64_leb (lb_total ts) f64_zero) eqn:Et; [done|].
      exists k, (lb_total ts). split; [done|]. by destruct (gen_range k (lb_total ts)).
Qed.

(** The targets a strategy may bring in itself. *)
Definition strategy_targets (s : Strategy L Regex) : list Target :=
  match s with
  | StConditional c => (cr_target <$> cc_rules c) ++ option_list (cc_fallback c)
  | StContentBased c => (ct_target <$> cb_rules c) ++ option_list (cb_fallback c)
  | StABTest c => ab_target <$> ab_variants c
  | _ => []
  end%list.

Lemma rule_primary_in {R} (m : R -> bool) tgt fb rules t :
  rule_primary m tgt fb rules = Some t -> t ∈ ((tgt <$> rules) ++ option_list fb)%list.
Proof.
  unfold rule_primary. rewrite elem_of_app. destruct (find m rules) as [r|] eqn:E.
  - intros [= <-]. left. apply find_some in E as [E _].
    apply list_elem_of_fmap. exists r. split; [done|]. by apply list_elem_of_In.
  - intros ->. right. by left.
Qed.

Lemma ab_scan_in r cum vs t : ab_scan r cum vs = Some t -> t ∈ ab_target <$> vs.
Proof.
  revert cum. induction vs as [|v vs IH]; intros cum; cbn; [done|].
  destruct (f64_ltb _ _); [intros [= <-]; by left|]. intros ?%IH. by right.
Qed.

Lemma select_ab_in c ts t : select_ab_test_variant gen_range c ts = Some (Ok t) ->
  t ∈ ab_target <$> ab_variants c \/ t ∈ ts.
Proof.
  assert (Hhead : forall e : GatewayError, ok_or (head ts) e = Ok t -> t ∈ ts).
  { intros e. destruct ts as [|u ts]; cbn; [done|]. intros [= ->]. by left. }
  unfold select_ab_test_variant. destruct (ab_variants c) as [|v vs] eqn:Ev.
  - intros [= Ht]. right. by eapply Hhead.
  - destruct (gen_range _ _) as [r|]; [|done].
    destruct (ab_scan r f64_zero (v :: vs)) as [u|] eqn:Es.
    + intros [= ->]. left. by eapply ab_scan_in.
    + destruct (last (v :: vs)) as [w|] eqn:El; cbn [fmap option_fmap option_map ok_or].
      * intros [= <-]. left. apply list_elem_of_fmap. exists w. split; [done|].
        by apply last_Some_elem_of.
      * intros [= Ht]. right. by eapply Hhead.
Qed.

Lemma strategy_order_spec s request targets : targets <> [] ->
  match strategy_order is_match to_lowercase gen_range s request targets with
  | None => exists k total, gen_range k total = None
  | Some l => l <> [] /\ (forall t, t ∈ l -> t ∈ targets \/ t ∈ strategy_targets s) /\
      match s with
      | StSingle => l = take 1 targets
      | _ => forall t, t ∈ targets -> t ∈ l
      end
  end.
Proof.
  intros Hne.
  assert (Hprim : forall p (l : list Target), (forall t, p = Some t -> t ∈ targets \/ t ∈ l) ->
    ordered_with_primary p targets <> [] /\
    (forall t, t ∈ ordered_with_primary p targets -> t ∈ targets \/ t ∈ l) /\
    (forall t, t ∈ targets -> t ∈ ordered_with_primary p targets)).
  { intros [p|] l Hp; cbn; (split; [done|split]).
    - intros t [->|Ht]%elem_of_cons; auto.
    - intros t Ht. by right.
    - intros t Ht. by left.
    - done. }
  assert (Hperm : forall l, l ≡ₚ targets -> l <> [] /\
    (forall t, t ∈ l -> t ∈ targets \/ t ∈ @nil Target) /\ (forall t, t ∈ targets -> t ∈ l)).
  { intros l Hl. split_and!.
    - intros ->. by apply Permutation_nil_l in Hl.
    - intros t. rewrite Hl. by left.
    - intros t. by rewrite Hl. }
  destruct s as [| | |store| |c|c|c]; cbn [strategy_order strategy_targets].
  - split_and!; [by destruct targets| |done].
    intros t Ht. left. by eapply elem_of_take in Ht as (? & ? & _); eapply list_elem_of_lookup_2.
  - by apply Hperm.
  - pose proof (lb_loop_spec (length targets) 0 targets eq_refl) as Hlb.
    destruct (lb_loop _ _ _ _); [by apply Hperm|]. destruct Hlb as (k & tot & _ & ?). eauto.
  - apply Hperm. rewrite stable_sort_perm, <- list_fmap_compose.
    cbn. by rewrite list_fmap_id.
  - apply Hperm, stable_sort_perm.
  - apply Hprim. intros t Ht. right. by eapply rule_primary_in.
  - apply Hprim. intros t Ht. right. by eapply rule_primary_in.
  - destruct (select_ab_test_variant gen_range c targets) as [r|] eqn:Er; cbn.
    + apply Hprim. intros t Ht. destruct r as [u|e]; [|done]. injection Ht as ->.
      apply select_ab_in in Er. tauto.
    + unfold select_ab_test_variant in Er. destruct (ab_variants c) as [|v vs]; [done|].
      destruct (gen_range 0 (f64_sum (ab_variant_weight <$> v :: vs))) as [r|] eqn:Eg; [|eauto].
      by destruct (ab_scan r f64_zero (v :: vs)).
Qed.
End Proofs.

(** ** Sorted orders *)

Lemma strongly_sorted_sublist {A} (R : A -> A -> Prop) l k :
  l `sublist_of` k -> StronglySorted R k -> StronglySorted R l.
Proof.
  induction 1 as [|x l k Hl IH|x l k Hl IH]; intros Hs; [constructor|..];
    inversion Hs as [|? ? Hk Hx]; subst; [|auto].
  constructor; [auto|]. rewrite Forall_forall in Hx. apply Forall_forall.
  intros y Hy. apply Hx. by eapply sublist_subseteq.
Qed.

Lemma strongly_sorted_fmap {A B} (f : A -> B) (R : B -> B -> Prop) (S : A -> A -> Prop) l :
  (forall a b, a ∈ l -> b ∈ l -> S a b -> R (f a) (f b)) ->
  StronglySorted S l -> StronglySorted R (f <$> l).
Proof.
  intros HR Hs. induction Hs as [|x l Hl IH Hx]; cbn; constructor.
  - apply IH. intros a b Ha Hb. apply HR; by right.
  - rewrite Forall_forall in Hx. apply Forall_fmap, Forall_forall. intros y Hy. cbn.
    apply HR; [by left|by right|auto].
Qed.

Lemma dedup_from_irrelevant k seen ts : (forall t, t ∈ ts -> target_key t <> k) ->
  dedup_from ({[k]} ∪ seen) ts = dedup_from seen ts.
Proof.
  revert seen. induction ts as [|t ts IH]; intros seen Hk; cbn [dedup_from]; [done|].
  assert (target_key t <> k) as Ht by (apply Hk; by left).
  assert (target_key t ∈ {[k]} ∪ seen <-> target_key t ∈ seen) as Hiff.
  { rewrite elem_of_union, elem_of_singleton. tauto. }
  repeat case_decide; try tauto; [apply IH; intros; apply Hk; by right|]. f_equal.
  replace ({[target_key t]} ∪ ({[k]} ∪ seen)) with ({[k]} ∪ ({[target_key t]} ∪ seen))
    by (rewrite !(assoc_L (∪)), (comm_L (∪) {[k]}); done).
  apply IH. intros; apply Hk; by right.
Qed.

Lemma dedup_filter (P : Target -> Prop) `{forall t, Decision (P t)} seen ts :
  (forall t u, target_key t = target_key u -> P t -> P u) ->
  filter P (dedup_from seen ts) = dedup_from seen (filter P ts).
Proof.
  intros HP. revert seen. induction ts as [|t ts IH]; intros seen; cbn [dedup_from]; [done|].
  rewrite (filter_cons P t ts). destruct (decide (P t)) as [Ht|Ht]; cbn [dedup_from].
  - case_decide; [apply IH|]. by rewrite filter_cons, decide_True, IH by done.
  - case_decide; [apply IH|]. rewrite filter_cons, decide_False, IH by done.
    apply dedup_from_irrelevant. intros u [Hu _]%list_elem_of_filter Hk. by eapply Ht, HP.
Qed.

Lemma filter_fmap_pair {A} (f : A -> Z) v (l : list A) :
  snd <$> filter (fun p => p.1 = v) ((fun t => (f t, t)) <$> l) = filter (fun t => f t = v) l.
Proof.
  induction l as [|x l IH]; [done|]. rewrite fmap_cons, !filter_cons. cbn.
  by repeat case_decide; rewrite ?fmap_cons, IH.
Qed.

Lemma filter_snd {A} (f : A -> Z) v (l : list (Z * A)) : (forall p, p ∈ l -> p.1 = f p.2) ->
  filter (fun t => f t = v) (snd <$> l) = snd <$> filter (fun p => p.1 = v) l.
Proof.
  induction l as [|x l IH]; [done|]. intros Hf. rewrite fmap_cons, !filter_cons.
  rewrite <- (Hf x) by (by left). specialize (IH ltac:(intros; apply Hf; by right)).
  by repeat case_decide; rewrite ?fmap_cons, IH.
Qed.

(** ** Properties *)

Section Properties.
Context {L Regex : Type} `{LatencyStore L}.
Context (is_match : Regex -> string -> bool) (to_lowercase : string -> string).
Context (gen_range : nat -> f64 -> option f64).

Lemma select_ordered_nonempty (s : Strategy L Regex) request targets : targets <> [] ->
  select_ordered is_match to_lowercase gen_range s request targets =
    (fun ordered => Ok (dedup_targets ordered)) <$>
      strategy_order is_match to_lowercase gen_range s request targets.
Proof. by destruct targets. Qed.

(** C18: The failover order of every strategy. Without targets the selection is
    an error and with targets it is an order, unless a draw panics. The order
    is not empty, never names an endpoint twice, names only configured targets
    and targets of the strategy's own rules, and, but for the single strategy,
    which names the first target alone, loses no configured endpoint. *)
Theorem select_ordered_spec (s : Strategy L Regex) request targets :
  match select_ordered is_match to_lowercase gen_range s request targets with
  | None => targets <> [] /\ exists k total, gen_range k total = None
  | Some (Err e) => targets = [] /\ e = Internal "No targets configured"
  | Some (Ok l) =>
      targets <> [] /\ l <> [] /\ NoDup (target_key <$> l) /\
      (forall t, t ∈ l -> t ∈ targets \/ t ∈ strategy_targets s) /\
      match s with
      | StSingle => l = take 1 targets
      | _ => forall t, t ∈ targets -> target_key t ∈ target_key <$> l
      end
  end.
Proof.
  destruct (decide (targets = [])) as [->|Hne]; [done|].
  rewrite select_ordered_nonempty by done.
  pose proof (strategy_order_spec is_match to_lowercase gen_range s request targets Hne) as Ho.
  destruct (strategy_order _ _ _ s request targets) as [l|]; cbn; [|done].
  destruct Ho as (Hl & Hin & Hcov).
  destruct (dedup_from_spec l ∅) as (H1 & H2 & H3).
  assert (dedup_targets l <> []) as Hd by (destruct l; [done|apply dedup_nonempty]).
  assert (forall t, t ∈ l -> target_key t ∈ target_key <$> dedup_targets l) as Hkey.
  { intros t Ht. destruct (H3 t Ht) as [He|?]; [|done]. by apply not_elem_of_empty in He. }
  split_and!; [done|done|done| |].
  - intros t Ht. by apply Hin, H1.
  - destruct s; try (intros t Ht; by apply Hkey, Hcov).
    subst l. destruct targets as [|u us]; [done|]. unfold dedup_targets. cbn.
    by rewrite decide_False by (apply not_elem_of_empty).
Qed.

(** The rule strategies try the target of the first rule that matches, in
    configured order, then the configured fallback, and without either the
    first configured target; the configured targets follow in their order,
    whatever endpoint was already tried left out. *)
Theorem rule_strategies_primary (s : Strategy L Regex) request targets l :
  select_ordered is_match to_lowercase gen_range s request targets = Some (Ok l) ->
  let expect primary := head l = (match primary with Some p => Some p | None => head targets end) /\
    l = dedup_targets (ordered_with_primary primary targets) in
  match s with
  | StConditional c =>
      expect (match find (fun r => matches_condition r request) (cc_rules c) with
              | Some r => Some (cr_target r)
              | None => cc_fallback c
              end)
  | StContentBased c =>
      expect (match find (fun r => matches_content_rule is_match to_lowercase r request)
                      (cb_rules c) with
              | Some r => Some (ct_target r)
              | None => cb_fallback c
              end)
  | _ => True
  end.
Proof.
  assert (forall p, targets <> [] -> head (dedup_targets (ordered_with_primary p targets)) =
    match p with Some p => Some p | None => head targets end) as Hhead.
  { intros [p|] Hne; cbn; [apply dedup_head|]. destruct targets; [done|apply dedup_head]. }
  destruct (decide (targets = [])) as [->|Hne]; [done|].
  rewrite select_ordered_nonempty by done.
  destruct s; try done; cbn [strategy_order fmap option_fmap option_map]; intros [= <-];
    (split; [by apply Hhead|done]).
Qed.

(** The latency strategy tries providers by increasing average latency,
    endpoints of equal latency in configured order, and the cost strategy
    tries targets by increasing weight when no weight is a NaN. *)
Theorem sorted_strategies (s : Strategy L Regex) request targets l :
  select_ordered is_match to_lowercase gen_range s request targets = Some (Ok l) ->
  match s with
  | StLeastLatency store =>
      let latency t := ls_get_avg_latency (target_provider t) store in
      StronglySorted (fun a b => latency a <= latency b) l /\
      forall v, filter (fun t => latency t = v) l =
                dedup_targets (filter (fun t => latency t = v) targets)
  | StCostOptimized =>
      Forall (fun t => f64_is_nan (target_weight t) = false) targets ->
      StronglySorted (fun a b => f64_ltb (target_weight b) (target_weight a) = false) l
  | _ => True
  end.
Proof.
  destruct (decide (targets = [])) as [->|Hne]; [done|].
  rewrite select_ordered_nonempty by done.
  destruct s as [| | |store| | | |]; try done;
    cbn [strategy_order fmap option_fmap option_map]; intros [= <-].
  - set (latency t := ls_get_avg_latency (target_provider t) store). cbn zeta.
    set (pairs := (fun t => (latency t, t)) <$> targets).
    set (sorted := stable_sort latency_before pairs).
    assert (Hfst : forall p, p ∈ sorted -> p.1 = latency p.2).
    { intros p. unfold sorted. rewrite stable_sort_perm.
      by intros (t & -> & _)%list_elem_of_fmap. }
    split.
    + eapply strongly_sorted_sublist; [apply dedup_sublist|].
      eapply strongly_sorted_fmap; [|apply (stable_sort_sorted _ (fun _ => True))].
      * intros a b Ha%Hfst Hb%Hfst. unfold latency_before, latency in *. lia.
      * unfold latency_before. intros. lia.
      * unfold latency_before. intros. lia.
      * by apply Forall_true.
    + intros v. unfold dedup_targets. rewrite dedup_filter.
      * f_equal. etransitivity; [exact (filter_snd latency v sorted Hfst)|].
        etransitivity; [|exact (filter_fmap_pair latency v targets)].
        f_equal. apply stable_sort_stable. unfold latency_before. intros. lia.
      * unfold latency. intros t u Hk. by injection Hk as _ -> _ _.
  - intros Hnan. eapply strongly_sorted_sublist; [apply dedup_sublist|].
    apply (stable_sort_sorted _ (fun t => f64_is_nan (target_weight t) = false)); [..|done].
    + intros a b c Ha Hb Hc. by apply f64_ltb_trans.
    + intros a b Ha Hb. by apply f64_ltb_asym.
Qed.
End Properties.

(** The recorded latencies of one provider. *)
Definition record_all (provider : string) (xs : list Z) (s : InMemoryLatencyStore)
    : InMemoryLatencyStore := foldl (fun s x => latency_record provider x s) s xs.

Fixpoint Zsum (xs : list Z) : Z :=
  match xs with [] => 0 | x :: xs => x + Zsum xs end.

Lemma record_all_entry provider xs s e : s !! provider = Some e ->
  record_all provider xs s !! provider =
    Some {| le_sum := foldl (fun a x => wrap_u64 (a + x)) (le_sum e) xs;
            le_count := foldl (fun a x => wrap_u64 (a + 1)) (le_count e) xs |}.
Proof.
  unfold record_all. revert s e. induction xs as [|x xs IH]; intros s e Hs; cbn [foldl].
  - by destruct e.
  - unfold latency_record at 2. rewrite Hs. cbn [default from_option id].
    by erewrite IH by apply lookup_insert_eq.
Qed.

Lemma Zsum_nonneg xs : Forall (fun x => 0 <= x) xs -> 0 <= Zsum xs.
Proof. induction 1; cbn; lia. Qed.

Lemma fold_sum_wrap a xs : 0 <= a -> Forall (fun x => 0 <= x) xs -> a + Zsum xs <= U64_MAX ->
  foldl (fun a x => wrap_u64 (a + x)) a xs = a + Zsum xs.
Proof.
  intros Ha Hxs. revert a Ha. induction Hxs as [|x xs Hx Hxs IH]; intros a Ha Hb; cbn in *; [lia|].
  pose proof (Zsum_nonneg xs Hxs).
  rewrite wrap_u64_small by (unfold u64; lia). rewrite IH by lia. lia.
Qed.

Lemma fold_count_wrap {A} a (xs : list A) : 0 <= a -> a + Z.of_nat (length xs) <= U64_MAX ->
  foldl (fun a _ => wrap_u64 (a + 1)) a xs = a + Z.of_nat (length xs).
Proof.
  revert a. induction xs as [|x xs IH]; intros a Ha Hb; cbn [length foldl] in *; [lia|].
  rewrite wrap_u64_small by (unfold u64; lia). rewrite IH by lia. lia.
Qed.

(** A provider's average is the sum of its recorded latencies over their
    number while neither counter overflows, a provider with no record sorts
    last, and recording for one provider leaves the others' averages alone. *)
Theorem latency_average provider other xs :
  Forall (fun x => 0 <= x) xs -> Zsum xs <= U64_MAX -> Z.of_nat (length xs) <= U64_MAX ->
  provider <> other ->
  let store := record_all provider xs latency_store_new in
  get_avg_latency provider store =
    (if decide (xs = []) then U64_MAX else Zsum xs / Z.of_nat (length xs)) /\
  get_avg_latency other store = U64_MAX.
Proof.
  intros Hpos Hsum Hlen Hne. cbn zeta. split.
  - destruct xs as [|x xs]; [done|]. rewrite decide_False by done.
    inversion Hpos as [|? ? Hx Hxs]; subst. cbn in Hsum. cbn [length] in Hlen.
    pose proof (Zsum_nonneg xs Hxs). unfold get_avg_latency.
    change (record_all provider (x :: xs) latency_store_new)
      with (record_all provider xs (latency_record provider x latency_store_new)).
    erewrite (record_all_entry provider xs) by apply lookup_insert_eq. cbn [le_sum le_count default].
    assert (latency_store_new !! provider = None) as -> by reflexivity.
    change (default {| le_sum := 0; le_count := 0 |} None) with {| le_sum := 0; le_count := 0 |}.
    cbn [le_sum le_count].
    rewrite !(wrap_u64_small) by (unfold u64; lia).
    rewrite fold_sum_wrap, fold_count_wrap by (done || lia).
    rewrite (proj2 (Z.eqb_neq _ _)) by lia. cbn [length]. f_equal; lia.
  - assert (forall s, s !! other = None -> record_all provider xs s !! other = None) as Hno.
    { unfold record_all. induction xs as [|x xs IH]; intros s Hs; cbn [foldl]; [done|].
      inversion Hpos; subst. cbn in Hsum, Hlen. apply IH; [done|..].
      - pose proof (Zsum_nonneg xs ltac:(done)). lia.
      - lia.
      - transitivity (s !! other); [by apply lookup_insert_ne|done]. }
    unfold get_avg_latency. by rewrite Hno.
Qed.

(** ** Witnesses *)

Definition demo_target (provider : string) (w : Z) : Target :=
  {| target_id := None; target_provider := provider; target_weight := f64_of_Z w;
     target_models := None; target_api_key_env := None; target_base_url := None |}.

Definition demo_targets : list Target :=
  [demo_target "openai" 3; demo_target "anthropic" 1; demo_target "openai" 2].

Definition demo_request : ChatCompletionRequest :=
  {| req_model := "gpt-4o"; req_messages := [message_user "hello"]; req_stream := false;
     req_temperature := None; req_top_p := None; req_max_tokens := None; req_stop := None;
     req_presence_penalty := None; req_frequency_penalty := None; req_user := None;
     req_tools := None; req_tool_choice := None; req_extra := ∅ |}.

Definition demo_conditional : Strategy InMemoryLatencyStore unit :=
  StConditional
    {| cc_rules := [{| cr_key := CondModelPrefix; cr_value := "gpt-";
                       cr_target := demo_target "groq" 1 |}];
       cc_fallback := None |}.

Definition demo_select (s : Strategy InMemoryLatencyStore unit) :=
  select_ordered (fun _ _ => false) to_ascii_lowercase (fun _ total => Some f64_zero)
    s demo_request demo_targets.

Lemma rule_strategies_primary_witness : exists l,
  demo_select demo_conditional = Some (Ok l) /\
  head l = Some (demo_target "groq" 1) /\ target_provider <$> l = ["groq"; "openai"; "anthropic"].
Proof.
  eexists. split; [vm_compute; reflexivity|]. split; [|vm_compute; reflexivity].
  apply (rule_strategies_primary (fun _ _ => false) to_ascii_lowercase
    (fun _ total => Some f64_zero) demo_conditional demo_request demo_targets).
  vm_compute; reflexivity.
Defined.

Lemma sorted_strategies_witness : exists l,
  demo_select StCostOptimized = Some (Ok l) /\
  StronglySorted (fun a b => f64_ltb (target_weight b) (target_weight a) = false) l.
Proof.
  eexists. split; [vm_compute; reflexivity|].
  apply (sorted_strategies (fun _ _ => false) to_ascii_lowercase
    (fun _ total => Some f64_zero) (StCostOptimized (L := InMemoryLatencyStore) (Regex := unit))
    demo_request demo_targets); [vm_compute; reflexivity|].
  by repeat constructor.
Defined.

Lemma latency_average_witness :
  get_avg_latency "openai" (record_all "openai" [100; 300] latency_store_new) = 200.
Proof.
  apply (latency_average "openai" "groq" [100; 300]);
    [repeat constructor; lia|by vm_compute|by vm_compute|done].
Defined.
