(* ===== verification/Plugin.v ===== *)
(** * Plugins: the context, the traits, the manager, the filters
    (src/crates/himadri-plugin, src/crates/himadri-plugins/src/max_token.rs,
    word_filter.rs, logger.rs)

    A plugin is a trait object: a record of its methods. [W] is everything
    plugins share outside the context (spend stores, rate-limit windows, the
    cache); executing a plugin may change the context and [W] whether it
    succeeds or not. Log lines are not modelled. *)

From S2P Require Import Prelude Str Float Types.

(** ** The context *)

Record PluginContext := {
  ctx_request_id : string;
  ctx_request : ChatCompletionRequest;
  ctx_auth : option AuthContext;
  ctx_metadata : gmap string Value;
  ctx_provider : option string;
  ctx_latency : option Z;
  ctx_tokens_used : option Z;
  ctx_error : option string;
  ctx_response : option ChatCompletionResponse;
  ctx_response_text : option string;
  ctx_response_chunks : list string;
  ctx_remote_ip : option string;
}.

(** [request_id] is a fresh UUID. *)
Definition ctx_from_request (request_id : string) (request : ChatCompletionRequest)
    (auth : option AuthContext) : PluginContext :=
  {| ctx_request_id := request_id; ctx_request := request; ctx_auth := auth;
     ctx_metadata := ∅; ctx_provider := None; ctx_latency := None; ctx_tokens_used := None;
     ctx_error := None; ctx_response := None; ctx_response_text := None;
     ctx_response_chunks := []; ctx_remote_ip := None |}.

(** A context with some of its fields replaced. *)
Definition ctx_with (metadata : gmap string Value) (provider : option string) (latency : option Z)
    (tokens : option Z) (error : option string) (response : option ChatCompletionResponse)
    (text : option string) (chunks : list string) (c : PluginContext) : PluginContext :=
  {| ctx_request_id := ctx_request_id c; ctx_request := ctx_request c; ctx_auth := ctx_auth c;
     ctx_metadata := metadata; ctx_provider := provider; ctx_latency := latency;
     ctx_tokens_used := tokens; ctx_error := error; ctx_response := response;
     ctx_response_text := text; ctx_response_chunks := chunks;
     ctx_remote_ip := ctx_remote_ip c |}.

Definition set_provider (p : string) (c : PluginContext) : PluginContext :=
  ctx_with (ctx_metadata c) (Some p) (ctx_latency c) (ctx_tokens_used c) (ctx_error c)
    (ctx_response c) (ctx_response_text c) (ctx_response_chunks c) c.

Definition set_latency (nanos : Z) (c : PluginContext) : PluginContext :=
  ctx_with (ctx_metadata c) (ctx_provider c) (Some nanos) (ctx_tokens_used c) (ctx_error c)
    (ctx_response c) (ctx_response_text c) (ctx_response_chunks c) c.

Definition set_tokens (n : Z) (c : PluginContext) : PluginContext :=
  ctx_with (ctx_metadata c) (ctx_provider c) (ctx_latency c) (Some n) (ctx_error c)
    (ctx_response c) (ctx_response_text c) (ctx_response_chunks c) c.

Definition set_error (e : string) (c : PluginContext) : PluginContext :=
  ctx_with (ctx_metadata c) (ctx_provider c) (ctx_latency c) (ctx_tokens_used c) (Some e)
    (ctx_response c) (ctx_response_text c) (ctx_response_chunks c) c.

Definition set_metadata (key : string) (v : Value) (c : PluginContext) : PluginContext :=
  ctx_with (<[key := v]> (ctx_metadata c)) (ctx_provider c) (ctx_latency c) (ctx_tokens_used c)
    (ctx_error c) (ctx_response c) (ctx_response_text c) (ctx_response_chunks c) c.

Definition get_metadata (key : string) (c : PluginContext) : option Value :=
  ctx_metadata c !! key.

Definition set_response (r : ChatCompletionResponse) (c : PluginContext) : PluginContext :=
  ctx_with (ctx_metadata c) (ctx_provider c) (ctx_latency c) (ctx_tokens_used c) (ctx_error c)
    (Some r) (ctx_response_text c) (ctx_response_chunks c) c.

Definition set_response_text (t : string) (c : PluginContext) : PluginContext :=
  ctx_with (ctx_metadata c) (ctx_provider c) (ctx_latency c) (ctx_tokens_used c) (ctx_error c)
    (ctx_response c) (Some t) (ctx_response_chunks c) c.

Definition push_response_chunk (t : string) (c : PluginContext) : PluginContext :=
  ctx_with (ctx_metadata c) (ctx_provider c) (ctx_latency c) (ctx_tokens_used c) (ctx_error c)
    (ctx_response c) (ctx_response_text c) (ctx_response_chunks c ++ [t])%list c.

Definition ctx_org_id (c : PluginContext) : option string := ctx_auth c ≫= auth_org_id.
Definition ctx_team_id (c : PluginContext) : option string := ctx_auth c ≫= auth_team_id.
Definition ctx_user_id (c : PluginContext) : option string := ctx_auth c ≫= auth_user_id.
Definition ctx_key_id (c : PluginContext) : option string := ctx_auth c ≫= auth_key_id.

Definition get_full_response_text (c : PluginContext) : string :=
  match ctx_response_text c with
  | Some t => t
  | None => join "" (ctx_response_chunks c)
  end.

(** ** The traits *)

Inductive PluginType := Guardrail | Middleware | CachePlugin | Logger.
Inductive Stage := BeforeRequest | AfterRequest | AfterResponse | OnError.

#[export] Instance Stage_eq_dec : EqDecision Stage.
Proof. solve_decision. Defined.

Inductive ResponseAction := Allow | Reject (reason : string) | Redact (text : string).

#[export] Instance ResponseAction_eq_dec : EqDecision ResponseAction.
Proof. solve_decision. Defined.

Inductive RejectKind :=
  | KindBadRequest
  | KindRateLimited (retry_after_secs : Z)
  | KindBudgetExceeded
  | KindForbidden.

#[export] Instance RejectKind_eq_dec : EqDecision RejectKind.
Proof. solve_decision. Defined.

Inductive PluginError :=
  | Rejected (name reason : string) (kind : RejectKind)
  | PluginInternal (message : string).

#[export] Instance PluginError_eq_dec : EqDecision PluginError.
Proof. solve_decision. Defined.

Definition plugin_error_to_string (e : PluginError) : string :=
  match e with
  | Rejected name reason _ => "plugin " +:+ name +:+ " rejected request: " +:+ reason
  | PluginInternal m => "plugin error: " +:+ m
  end.

Definition rejected (name reason : string) : PluginError := Rejected name reason KindBadRequest.

Record Plugin (W : Type) := {
  plugin_name : string;
  plugin_type : PluginType;
  plugin_stage : Stage;
  also_after_request : bool;
  plugin_execute : PluginContext -> W -> result unit PluginError * (PluginContext * W);
}.
Arguments plugin_name {W}.
Arguments plugin_type {W}.
Arguments plugin_stage {W}.
Arguments also_after_request {W}.
Arguments plugin_execute {W}.

Record ResponseGuardrail (W : Type) := {
  rg_name : string;
  rg_check : PluginContext -> string -> W -> result ResponseAction PluginError * W;
}.
Arguments rg_name {W}.
Arguments rg_check {W}.

(** ** The manager *)

Record PluginManager (W : Type) := {
  pm_before_request : list (Plugin W);
  pm_after_request : list (Plugin W);
  pm_after_response : list (Plugin W);
  pm_on_error : list (Plugin W);
  pm_response_guardrails : list (ResponseGuardrail W);
}.
Arguments pm_before_request {W}.
Arguments pm_after_request {W}.
Arguments pm_after_response {W}.
Arguments pm_on_error {W}.
Arguments pm_response_guardrails {W}.

Section Manager.
Context {W : Type}.

Definition manager_new : PluginManager W :=
  {| pm_before_request := []; pm_after_request := []; pm_after_response := [];
     pm_on_error := []; pm_response_guardrails := [] |}.

Definition stage_plugins (s : Stage) (m : PluginManager W) : list (Plugin W) :=
  match s with
  | BeforeRequest => pm_before_request m
  | AfterRequest => pm_after_request m
  | AfterResponse => pm_after_response m
  | OnError => pm_on_error m
  end.

(** [self.<stage>.push(plugin)] *)
Definition stage_push (s : Stage) (p : Plugin W) (m : PluginManager W) : PluginManager W :=
  let add s' := if decide (s = s') then (stage_plugins s' m ++ [p])%list else stage_plugins s' m in
  {| pm_before_request := add BeforeRequest; pm_after_request := add AfterRequest;
     pm_after_response := add AfterResponse; pm_on_error := add OnError;
     pm_response_guardrails := pm_response_guardrails m |}.

Definition register (p : Plugin W) (m : PluginManager W) : PluginManager W :=
  let m :=
    if also_after_request p && bool_decide (plugin_stage p <> AfterRequest)
    then stage_push AfterRequest p m else m in
  stage_push (plugin_stage p) p m.

Definition register_response_guardrail (g : ResponseGuardrail W) (m : PluginManager W)
    : PluginManager W :=
  {| pm_before_request := pm_before_request m; pm_after_request := pm_after_request m;
     pm_after_response := pm_after_response m; pm_on_error := pm_on_error m;
     pm_response_guardrails := (pm_response_guardrails m ++ [g])%list |}.

Definition stage_names (s : Stage) (m : PluginManager W) : list string :=
  plugin_name <$> stage_plugins s m.

Definition response_guardrail_names (m : PluginManager W) : list string :=
  rg_name <$> pm_response_guardrails m.

(** The loop of [run_before]: [?] returns at the first error. *)
Fixpoint run_until_error (ps : list (Plugin W)) (ctx : PluginContext) (w : W)
    : result unit PluginError * (PluginContext * W) :=
  match ps with
  | [] => (Ok tt, (ctx, w))
  | p :: ps =>
      match plugin_execute p ctx w with
      | (Ok _, (ctx, w)) => run_until_error ps ctx w
      | (Err e, s) => (Err e, s)
      end
  end.

Definition run_before (m : PluginManager W) (ctx : PluginContext) (w : W)
    : result unit PluginError * (PluginContext * W) :=
  run_until_error (pm_before_request m) ctx w.

(** Errors are logged, never returned. *)
Fixpoint run_logged (ps : list (Plugin W)) (ctx : PluginContext) (w : W) : PluginContext * W :=
  match ps with
  | [] => (ctx, w)
  | p :: ps => let '(ctx, w) := (plugin_execute p ctx w).2 in run_logged ps ctx w
  end.

Definition run_after (m : PluginManager W) (ctx : PluginContext) (w : W) : PluginContext * W :=
  run_logged (pm_after_request m) ctx w.

Definition run_after_response (m : PluginManager W) (ctx : PluginContext) (w : W)
    : PluginContext * W :=
  run_logged (pm_after_response m) ctx w.

Definition run_on_error (m : PluginManager W) (ctx : PluginContext) (w : W) : PluginContext * W :=
  run_logged (pm_on_error m) ctx w.

Fixpoint check_guardrails (gs : list (ResponseGuardrail W)) (ctx : PluginContext)
    (response : string) (w : W) : result ResponseAction PluginError * W :=
  match gs with
  | [] => (Ok Allow, w)
  | g :: gs =>
      match rg_check g ctx response w with
      | (Ok Allow, w) => check_guardrails gs ctx response w
      | r => r
      end
  end.

Definition run_response_guardrails (m : PluginManager W) (ctx : PluginContext)
    (response : string) (w : W) : result ResponseAction PluginError * W :=
  check_guardrails (pm_response_guardrails m) ctx response w.
End Manager.

(** ** Store registries *)

(** A registry of named stores: the stores are shared by whoever asks for the
    same name, so the registry holds the stores themselves. *)
Section Registry.
Context {T : Type}.

Definition get_or_create (store_id : string) (create : T) (r : gmap string T)
    : T * gmap string T :=
  match r !! store_id with
  | Some store => (store, r)
  | None => (create, <[store_id := create]> r)
  end.

Definition registry_with {R} (store_id : string) (f : T -> R) (r : gmap string T) : option R :=
  f <$> r !! store_id.
End Registry.

(** ** The filters *)

Section Filters.
Context {W : Type} (to_lowercase : string -> string).

Definition max_token_execute (limit : Z) (ctx : PluginContext) (w : W)
    : result unit PluginError * (PluginContext * W) :=
  match req_max_tokens (ctx_request ctx) with
  | Some n =>
      if limit <? n then
        (Err (Rejected "max-token"
           ("max_tokens " +:+ show_Z n +:+ " exceeds limit of " +:+ show_Z limit)
           KindBadRequest), (ctx, w))
      else (Ok tt, (ctx, w))
  | None => (Ok tt, (ctx, w))
  end.

Definition MaxTokenPlugin (limit : Z) : Plugin W :=
  {| plugin_name := "max-token"; plugin_type := Guardrail; plugin_stage := BeforeRequest;
     also_after_request := false; plugin_execute := max_token_execute limit |}.

(** The first blocked word of the first message that has one. *)
Definition first_blocked (blocked_words : list string) (ms : list Message) : option string :=
  head (omap (fun m =>
    match msg_content m with
    | Some content =>
        find (fun word => str_contains word (to_lowercase (flat_text content))) blocked_words
    | None => None
    end) ms).

Definition word_filter_execute (blocked_words : list string) (ctx : PluginContext) (w : W)
    : result unit PluginError * (PluginContext * W) :=
  match first_blocked blocked_words (req_messages (ctx_request ctx)) with
  | Some word =>
      (Err (Rejected "word-filter" ("Blocked word detected: " +:+ word) KindBadRequest), (ctx, w))
  | None => (Ok tt, (ctx, w))
  end.

Definition WordFilterPlugin (blocked_words : list string) : Plugin W :=
  {| plugin_name := "word-filter"; plugin_type := Guardrail; plugin_stage := BeforeRequest;
     also_after_request := false;
     plugin_execute := word_filter_execute (to_lowercase <$> blocked_words) |}.

Definition RequestLoggerPlugin : Plugin W :=
  {| plugin_name := "request-logger"; plugin_type := Logger; plugin_stage := AfterRequest;
     also_after_request := false; plugin_execute := fun ctx w => (Ok tt, (ctx, w)) |}.
End Filters.

(** ** Properties *)

Section Properties.
Context {W : Type}.

(** Plugins that all succeed, one after the other. *)
Inductive all_ran : list (Plugin W) -> PluginContext * W -> PluginContext * W -> Prop :=
  | ran_nil s : all_ran [] s s
  | ran_cons p ps c w s s' :
      plugin_execute p c w = (Ok tt, s) -> all_ran ps s s' -> all_ran (p :: ps) (c, w) s'.

(** Guardrails that all allow, one after the other. *)
Inductive all_allowed (ctx : PluginContext) (text : string)
    : list (ResponseGuardrail W) -> W -> W -> Prop :=
  | allowed_nil w : all_allowed ctx text [] w w
  | allowed_cons g gs w w' w'' :
      rg_check g ctx text w = (Ok Allow, w') -> all_allowed ctx text gs w' w'' ->
      all_allowed ctx text (g :: gs) w w''.

(** The plugins a stage runs, of those registered in order. *)
Definition runs_in (s : Stage) (p : Plugin W) : Prop :=
  plugin_stage p = s \/ (s = AfterRequest /\ also_after_request p = true).

#[export] Instance runs_in_dec s p : Decision (runs_in s p).
Proof. unfold runs_in. apply _. Defined.

Lemma stage_plugins_push s s' (p : Plugin W) (m : PluginManager W) :
  stage_plugins s (stage_push s' p m) =
    (if decide (s' = s) then stage_plugins s m ++ [p] else stage_plugins s m)%list.
Proof. by destruct s. Qed.

Lemma stage_plugins_register s (p : Plugin W) m :
  stage_plugins s (register p m) = (stage_plugins s m ++ filter (runs_in s) [p])%list.
Proof.
  unfold register. rewrite filter_cons, filter_nil.
  case_decide as Hr; unfold runs_in in Hr; destruct p as [n ty st al ex]; cbn in *;
    rewrite stage_plugins_push; destruct al, st, s; cbn;
    rewrite ?app_nil_r; first [done|exfalso; naive_solver].
Qed.

Lemma register_all s (ps : list (Plugin W)) m :
  stage_plugins s (foldl (fun m p => register p m) m ps) =
    (stage_plugins s m ++ filter (runs_in s) ps)%list.
Proof.
  revert m. induction ps as [|p ps IH]; intros m; cbn [foldl]; [by rewrite app_nil_r|].
  rewrite IH, stage_plugins_register, <- (assoc_L (++)%list).
  f_equal. by rewrite <- (filter_app (runs_in s) [p] ps).
Qed.

Lemma run_until_error_spec (ps : list (Plugin W)) c w :
  match run_until_error ps c w with
  | (Ok _, s) => all_ran ps (c, w) s
  | (Err e, s) => exists ps1 p ps2 s1, ps = (ps1 ++ p :: ps2)%list /\
      all_ran ps1 (c, w) s1 /\ plugin_execute p s1.1 s1.2 = (Err e, s)
  end.
Proof.
  revert c w. induction ps as [|p ps IH]; intros c w; cbn [run_until_error]; [constructor|].
  destruct (plugin_execute p c w) as [[[]|e] [c' w']] eqn:Ep.
  - specialize (IH c' w'). destruct (run_until_error ps c' w') as [[[]|e] s].
    + by econstructor.
    + destruct IH as (ps1 & q & ps2 & s1 & -> & Hran & Hq).
      exists (p :: ps1), q, ps2, s1. split_and!; [done| |done]. by econstructor.
  - exists [], p, ps, (c, w). split_and!; [done|constructor|done].
Qed.

Lemma check_guardrails_spec (gs : list (ResponseGuardrail W)) c text w :
  match check_guardrails gs c text w with
  | (Ok Allow, w') => all_allowed c text gs w w'
  | r => exists gs1 g gs2 w1, gs = (gs1 ++ g :: gs2)%list /\
      all_allowed c text gs1 w w1 /\ rg_check g c text w1 = r
  end.
Proof.
  revert w. induction gs as [|g gs IH]; intros w; cbn [check_guardrails]; [constructor|].
  destruct (rg_check g c text w) as [r w'] eqn:Eg.
  assert (r <> Ok Allow -> exists gs1 g' gs2 w1, g :: gs = (gs1 ++ g' :: gs2)%list /\
      all_allowed c text gs1 w w1 /\ rg_check g' c text w1 = (r, w')) as Hstop.
  { intros _. exists [], g, gs, w. split_and!; [done|constructor|done]. }
  destruct r as [[|reason|t]|e]; try (apply Hstop; discriminate).
  specialize (IH w').
  assert (forall r, (exists gs1 g' gs2 w1, gs = (gs1 ++ g' :: gs2)%list /\
      all_allowed c text gs1 w' w1 /\ rg_check g' c text w1 = r) ->
    exists gs1 g' gs2 w1, g :: gs = (gs1 ++ g' :: gs2)%list /\
      all_allowed c text gs1 w w1 /\ rg_check g' c text w1 = r) as Hlift.
  { intros r (gs1 & g' & gs2 & w1 & -> & Hall & Hg').
    exists (g :: gs1), g', gs2, w1. split_and!; [done| |done]. by econstructor. }
  destruct (check_guardrails gs c text w') as [[[|reason|t]|e] w'']; try by apply Hlift.
  by econstructor.
Qed.

(** The pipeline runs what was registered. After any registrations a stage
    holds exactly the plugins that belong to it, in registration order, each
    once, a plugin that also observes the response being in the after-request
    stage too. The before stage succeeds exactly when every plugin in turn
    does, and otherwise stops at the first that fails, with its error and the
    context as that plugin left it. The guardrails answer the first action
    that is not to allow, or the first error, and later ones never run. *)
Theorem plugin_pipeline_spec (ps : list (Plugin W)) m c w text :
  (forall s, stage_plugins s (foldl (fun m p => register p m) manager_new ps) =
     filter (runs_in s) ps) /\
  (match run_before m c w with
   | (Ok _, s) => all_ran (pm_before_request m) (c, w) s
   | (Err e, s) => exists ps1 p ps2 s1, pm_before_request m = (ps1 ++ p :: ps2)%list /\
       all_ran ps1 (c, w) s1 /\ plugin_execute p s1.1 s1.2 = (Err e, s)
   end) /\
  (match run_response_guardrails m c text w with
   | (Ok Allow, w') => all_allowed c text (pm_response_guardrails m) w w'
   | r => exists gs1 g gs2 w1, pm_response_guardrails m = (gs1 ++ g :: gs2)%list /\
       all_allowed c text gs1 w w1 /\ rg_check g c text w1 = r
   end).
Proof.
  split_and!.
  - intros s. rewrite register_all. by destruct s.
  - apply run_until_error_spec.
  - apply check_guardrails_spec.
Qed.
End Properties.

Lemma find_none_iff {A} (f : A -> bool) l :
  find f l = None <-> forall x, x ∈ l -> f x = false.
Proof.
  split.
  - intros H x Hx. eapply find_none; [exact H|]. by apply list_elem_of_In.
  - intros H. destruct (find f l) as [x|] eqn:E; [|done].
    apply find_some in E as [Hin Hf]. rewrite H in Hf; [done|]. by apply list_elem_of_In.
Qed.

(** The word filter passes a request exactly when no message's text, in
    lower case, contains a blocked word in lower case, and the token filter
    passes it exactly when its [max_tokens], if any, is within the limit;
    neither changes the context or anything else. *)
Theorem filters_functional {W} to_lowercase (words : list string) limit (ctx : PluginContext) (w : W) :
  let wf := plugin_execute (WordFilterPlugin to_lowercase words) ctx w in
  let mt := plugin_execute (MaxTokenPlugin limit) ctx w in
  wf.2 = (ctx, w) /\ mt.2 = (ctx, w) /\
  (wf.1 = Ok tt <-> forall m content word, m ∈ req_messages (ctx_request ctx) ->
     msg_content m = Some content -> word ∈ words ->
     ~ exists a b, to_lowercase (flat_text content) = a +:+ to_lowercase word +:+ b) /\
  (mt.1 = Ok tt <-> forall n, req_max_tokens (ctx_request ctx) = Some n -> n <= limit).
Proof.
  cbn [plugin_execute WordFilterPlugin MaxTokenPlugin].
  unfold word_filter_execute, max_token_execute, first_blocked.
  set (f := fun m => match msg_content m with Some _ => _ | None => _ end).
  assert (head (omap f (req_messages (ctx_request ctx))) = None <->
    forall m, m ∈ req_messages (ctx_request ctx) -> f m = None) as Hhead.
  { induction (req_messages (ctx_request ctx)) as [|m ms IH]; cbn.
    - split; [|done]. intros _ m Hm. by apply not_elem_of_nil in Hm.
    - destruct (f m) eqn:Em; cbn.
      + split; [done|]. intros H. rewrite (H m) in Em by left. done.
      + rewrite IH. setoid_rewrite elem_of_cons. naive_solver. }
  split_and!.
  - by destruct (head _).
  - destruct (req_max_tokens _) as [n|]; [|done]. by destruct (limit <? n).
  - transitivity (head (omap f (req_messages (ctx_request ctx))) = None).
    { by destruct (head _). }
    rewrite Hhead. unfold f. clear. split.
    + intros H m content word Hm Hc Hw Hex. specialize (H m Hm). rewrite Hc in H.
      apply find_none_iff with (x := to_lowercase word) in H.
      * apply str_contains_spec in Hex. congruence.
      * apply list_elem_of_fmap. eauto.
    + intros H m Hm. destruct (msg_content m) as [content|] eqn:Hc; [|done].
      apply find_none_iff. intros x (word & -> & Hw)%list_elem_of_fmap.
      apply not_true_iff_false. rewrite str_contains_spec. by eapply H.
  - destruct (req_max_tokens _) as [n|]; [|naive_solver].
    destruct (Z.ltb_spec limit n); cbn; split; try done.
    + intros Hn. specialize (Hn n eq_refl). lia.
    + intros _ n' [= <-]. lia.
Qed.
