(* ===== verification/Pii.v ===== *)
(** * The PII guardrails
    (src/crates/himadri-plugins/src/pii_engine.rs and pii_guardrail.rs)

    redact-core's analyzer and anonymizer are arguments: the analyzer reports
    entities with their type, span and score, the anonymizer rewrites a text.
    [PiiEngine] is what the guardrails are written against. The guardrails read
    the gateway's live configuration from the outside world [W], and count in
    the process's metrics, when there are any. Whether a scan runs on the async
    worker or the blocking pool makes no difference here, and the histogram of
    scan durations is not modelled. *)

From S2P Require Import Prelude Str Float Types Json Config NetGuard Plugin.

(** ** The engine *)

Inductive RedactStrategy := Replace | Mask | Hash | Encrypt | Remove.

#[export] Instance RedactStrategy_eq_dec : EqDecision RedactStrategy.
Proof. solve_decision. Defined.

Definition redact_strategy_parse (s : string) : option RedactStrategy :=
  let s := to_ascii_lowercase s in
  if decide (s = "replace") then Some Replace
  else if decide (s = "mask") then Some Mask
  else if decide (s = "hash") then Some Hash
  else if decide (s = "encrypt") then Some Encrypt
  else if decide (s = "remove") then Some Remove
  else None.

Inductive PiiError := EngineError (m : string) | ConfigError (m : string).

Definition pii_error_to_string (e : PiiError) : string :=
  match e with
  | EngineError m => "pii engine error: " +:+ m
  | ConfigError m => "pii engine misconfigured: " +:+ m
  end.

Record PiiEntityHit := {
  hit_entity_type : string;
  hit_start : Z;
  hit_end : Z;
  hit_confidence : f32;
}.

Record RedactOptions := {
  ro_strategy : RedactStrategy;
  ro_entities : option (gset string);
  ro_min_confidence : f32;
}.

Definition default_redact_options : RedactOptions :=
  {| ro_strategy := Replace; ro_entities := None; ro_min_confidence := f32_lit 6 10 |}.

Record RedactOutcome := { out_text : string; out_replaced : list (string * Z) }.

(** What the guardrails need of an engine. *)
Class PiiEngine (E : Type) := {
  pe_scan : E -> string -> RedactOptions -> result (list PiiEntityHit) PiiError;
  pe_redact : E -> string -> RedactOptions -> result RedactOutcome PiiError;
}.

(** A [BTreeMap<String, u32>]: its entries in the order of the keys. *)
Definition counts_entries (m : gmap string Z) : list (string * Z) :=
  stable_sort (fun a b => String.ltb a.1 b.1) (map_to_list m).

(** [*counts.entry(t).or_insert(0) += n] *)
Definition count_add (t : string) (n : Z) (m : gmap string Z) : gmap string Z :=
  <[t := wrap_u32 (default 0 (m !! t) + n)]> m.

(** ** The redact-core engine *)

Record EngineSecrets := { hash_salt : option string; encryption_key : option string }.

Definition engine_secrets_from_env (env : string -> option string) : EngineSecrets :=
  {| hash_salt := env "GUARDRAILS_HASH_SALT"; encryption_key := env "GUARDRAILS_ENCRYPTION_KEY" |}.

(** A recognizer's result; its captured text is dropped before anything else
    sees it. *)
Record RecognizerResult := {
  rr_entity_type : string;
  rr_start : Z;
  rr_end : Z;
  rr_score : f32;
  rr_text : option string;
  rr_context : option (list string);
}.

Record AnonymizerConfig := {
  an_strategy : RedactStrategy;
  an_encryption_key : option string;
  an_hash_salt : option string;
  an_preserve_format : bool;
}.

(** A score that reaches a threshold; false on a NaN. *)
Definition f32_geb (a b : f32) : bool := SFleb b a.

Section RedactCore.
Context (analyze : string -> result (list RecognizerResult) string).
Context (anonymize : string -> list RecognizerResult -> AnonymizerConfig -> result string string).

Definition filtered_entities (text : string) (opts : RedactOptions)
    : result (list RecognizerResult) PiiError :=
  let? analysis := map_err EngineError (analyze text) in
  Ok ((fun e => {| rr_entity_type := rr_entity_type e; rr_start := rr_start e; rr_end := rr_end e;
                   rr_score := rr_score e; rr_text := None; rr_context := None |}) <$>
      List.filter (fun e => match ro_entities opts with
                            | Some set => bool_decide (rr_entity_type e ∈ set)
                            | None => true
                            end)
        (List.filter (fun e => f32_geb (rr_score e) (ro_min_confidence opts)) analysis)).

Definition anonymizer_config (secrets : EngineSecrets) (opts : RedactOptions)
    : result AnonymizerConfig PiiError :=
  if bool_decide (ro_strategy opts = Encrypt) && bool_decide (encryption_key secrets = None) then
    Err (ConfigError "encrypt strategy requires GUARDRAILS_ENCRYPTION_KEY")
  else
    Ok {| an_strategy := ro_strategy opts; an_encryption_key := encryption_key secrets;
          an_hash_salt := hash_salt secrets; an_preserve_format := true |}.

Definition redact_core_scan (text : string) (opts : RedactOptions)
    : result (list PiiEntityHit) PiiError :=
  let? entities := filtered_entities text opts in
  Ok ((fun e => {| hit_entity_type := rr_entity_type e; hit_start := rr_start e;
                   hit_end := rr_end e; hit_confidence := rr_score e |}) <$> entities).

Definition redact_core_redact (secrets : EngineSecrets) (text : string) (opts : RedactOptions)
    : result RedactOutcome PiiError :=
  let? entities := filtered_entities text opts in
  match entities with
  | [] => Ok {| out_text := text; out_replaced := [] |}
  | _ =>
      let counts := foldl (fun m e => count_add (rr_entity_type e) 1 m) ∅ entities in
      let? config := anonymizer_config secrets opts in
      let? text := map_err EngineError (anonymize text entities config) in
      Ok {| out_text := text; out_replaced := counts_entries counts |}
  end.

End RedactCore.

(** Secrets the gateway looks for besides the recognizer's own patterns. *)
Definition SECRET_PATTERNS : list (string * string * f32) :=
  [("GW_JWT", "eyJ[a-zA-Z0-9_-]+\.eyJ[a-zA-Z0-9_-]+\.[a-zA-Z0-9_-]+", f32_lit 95 100);
   ("GW_AWS_KEY", "AKIA[0-9A-Z]{16}", f32_lit 95 100);
   ("GW_API_KEY", "sk-[a-zA-Z0-9_-]{16,}", f32_lit 9 10);
   ("GW_BEARER_TOKEN", "(?i)bearer\s+[a-zA-Z0-9._~+/=-]{16,}", f32_lit 9 10)].

(** The engine: the library's recognizer with those patterns added, and the
    secrets of the strategies. *)
Record RedactCoreEngine (Rec : Type) := { rce_engine : Rec; rce_secrets : EngineSecrets }.
Arguments rce_engine {Rec}.
Arguments rce_secrets {Rec}.

Section Engine.
Context {Rec : Type} (pattern_new : Rec).
Context (add_pattern : string -> string -> f32 -> Rec -> result Rec string).
Context (analyze : Rec -> string -> result (list RecognizerResult) string).
Context (anonymize : string -> list RecognizerResult -> AnonymizerConfig -> result string string).

Fixpoint add_patterns (ps : list (string * string * f32)) (r : Rec) : result Rec PiiError :=
  match ps with
  | [] => Ok r
  | (name, regex, score) :: ps =>
      let? r := map_err (fun e => ConfigError ("invalid pattern " +:+ name +:+ ": " +:+ e))
                  (add_pattern name regex score r) in
      add_patterns ps r
  end.

Definition redact_core_new (secrets : EngineSecrets) : result (RedactCoreEngine Rec) PiiError :=
  let? r := add_patterns SECRET_PATTERNS pattern_new in
  Ok {| rce_engine := r; rce_secrets := secrets |}.

#[export] Instance redact_core_engine : PiiEngine (RedactCoreEngine Rec) :=
  {| pe_scan := fun e => redact_core_scan (analyze (rce_engine e));
     pe_redact := fun e => redact_core_redact (analyze (rce_engine e)) anonymize (rce_secrets e) |}.
End Engine.

(** ** Settings *)

Inductive PiiMode := ModeRedact | ModeBlock | ModeObserve.

#[export] Instance PiiMode_eq_dec : EqDecision PiiMode.
Proof. solve_decision. Defined.

Definition pii_mode_parse (s : string) : option PiiMode :=
  let s := to_ascii_lowercase s in
  if decide (s = "redact") then Some ModeRedact
  else if decide (s = "block") then Some ModeBlock
  else if decide (s = "observe") then Some ModeObserve
  else None.

Definition pii_mode_as_str (m : PiiMode) : string :=
  match m with ModeRedact => "redact" | ModeBlock => "block" | ModeObserve => "observe" end.

Record PiiGuardrailSettings := {
  ps_mode : PiiMode;
  ps_options : RedactOptions;
  ps_apply_to : list Role;
  ps_scan_tool_arguments : bool;
  ps_fail_open : bool;
}.

Definition default_pii_settings : PiiGuardrailSettings :=
  {| ps_mode := ModeRedact; ps_options := default_redact_options;
     ps_apply_to := [User; System; RoleTool]; ps_scan_tool_arguments := false;
     ps_fail_open := false |}.

Definition parse_role (name : string) : option Role :=
  let name := to_ascii_lowercase name in
  if decide (name = "user") then Some User
  else if decide (name = "system") then Some System
  else if decide (name = "assistant") then Some Assistant
  else if decide (name = "tool") then Some RoleTool
  else None.

Definition parse_roles (names : list string) : list Role := omap parse_role names.

(** [list.iter().map(trim + upper).filter(non-empty).collect()] *)
Definition entity_set (l : list string) : gset string :=
  list_to_set (List.filter (fun e => negb (str_is_empty e))
                 ((fun e => to_ascii_uppercase (trim e)) <$> l)).

Definition settings_from_config (cfg : PiiGuardrailConfig) : PiiGuardrailSettings :=
  {| ps_mode := match pii_mode cfg with
                | PiiModeRedact => ModeRedact | PiiModeBlock => ModeBlock
                | PiiModeObserve => ModeObserve
                end;
     ps_options :=
       {| ro_strategy := match pii_strategy cfg with
                         | PiiReplace => Replace | PiiMask => Mask | PiiHash => Hash
                         | PiiEncrypt => Encrypt | PiiRemove => Remove
                         end;
          ro_entities := entity_set <$> pii_entities cfg;
          ro_min_confidence := pii_min_confidence cfg |};
     ps_apply_to := parse_roles (pii_apply_to cfg);
     ps_scan_tool_arguments := pii_scan_tool_arguments cfg;
     ps_fail_open := pii_fail_open cfg |}.

Section FromEnv.
Context (env : string -> option string) (parse_f32 : string -> option f32).

Definition options_from_env : RedactOptions :=
  let strategy :=
    match env "GUARDRAILS_PII_STRATEGY" with
    | Some v => default Replace (redact_strategy_parse v)
    | None => Replace
    end in
  let entities :=
    match env "GUARDRAILS_PII_ENTITIES" with
    | Some v =>
        let set : gset string := list_to_set (to_ascii_uppercase <$> split_csv v) in
        if decide (set = ∅) then None else Some set
    | None => None
    end in
  {| ro_strategy := strategy; ro_entities := entities;
     ro_min_confidence :=
       default (f32_lit 6 10) (parse_var env parse_f32 "GUARDRAILS_PII_MIN_CONFIDENCE") |}.

Definition fail_open_from_env : bool := flag_is_truthy env "GUARDRAILS_PII_FAIL_OPEN".

(** [v.eq_ignore_ascii_case("true")] *)
Definition settings_from_env : option PiiGuardrailSettings :=
  v ← env "GUARDRAILS_PII_MODE";
  mode ← pii_mode_parse v;
  Some {| ps_mode := mode; ps_options := options_from_env;
          ps_apply_to := ps_apply_to default_pii_settings;
          ps_scan_tool_arguments :=
            match env "GUARDRAILS_PII_SCAN_TOOL_ARGS" with
            | Some v => bool_decide (to_ascii_lowercase v = "true")
            | None => ps_scan_tool_arguments default_pii_settings
            end;
          ps_fail_open := fail_open_from_env |}.
End FromEnv.

(** ** Metrics *)

(** The counters of the guardrails, [u64]s that wrap: detections by entity
    type, direction and action; blocked requests by direction; engine errors. *)
Record PiiMetrics := {
  pm_detections : gmap (string * string * string) Z;
  pm_blocked : gmap string Z;
  pm_engine_errors : Z;
}.

Definition add_detection (direction action : string) (m : PiiMetrics) (e : string * Z) : PiiMetrics :=
  let key := (e.1, direction, action) in
  {| pm_detections := <[key := wrap_u64 (default 0 (pm_detections m !! key) + e.2)]> (pm_detections m);
     pm_blocked := pm_blocked m; pm_engine_errors := pm_engine_errors m |}.

Definition record_detections (entities : gmap string Z) (direction action : string) (m : PiiMetrics)
    : PiiMetrics :=
  foldl (add_detection direction action) m (counts_entries entities).

Definition add_blocked (direction : string) (m : PiiMetrics) : PiiMetrics :=
  {| pm_detections := pm_detections m;
     pm_blocked := <[direction := wrap_u64 (default 0 (pm_blocked m !! direction) + 1)]> (pm_blocked m);
     pm_engine_errors := pm_engine_errors m |}.

Definition add_engine_error (m : PiiMetrics) : PiiMetrics :=
  {| pm_detections := pm_detections m; pm_blocked := pm_blocked m;
     pm_engine_errors := wrap_u64 (pm_engine_errors m + 1) |}.

(** ** Where the scanned strings are *)

(** A message's content, whole or one part of it, or the arguments of one of its
    tool calls. *)
Inductive Slot :=
  | SlotContent (msg : nat) (part : option nat)
  | SlotToolArg (msg call : nat).

Definition slot_msg (s : Slot) : nat :=
  match s with SlotContent msg _ => msg | SlotToolArg msg _ => msg end.

Definition part_text (p : ContentPart) : option string :=
  match p with PartText text => nonempty_text text | _ => None end.

Definition call_text (c : ToolCall) : option string := nonempty_text (fc_arguments (tc_function c)).

Definition message_slots (settings : PiiGuardrailSettings) (i : nat) (m : Message)
    : list (Slot * string) :=
  if bool_decide (msg_role m ∈ ps_apply_to settings) then
    (match msg_content m with
     | Some (ContentText s) => option_list (pair (SlotContent i None) <$> nonempty_text s)
     | Some (ContentParts parts) =>
         concat (imap (fun j p => option_list (pair (SlotContent i (Some j)) <$> part_text p)) parts)
     | None => []
     end ++
     if ps_scan_tool_arguments settings then
       concat (imap (fun j c => option_list (pair (SlotToolArg i j) <$> call_text c))
                 (default [] (msg_tool_calls m)))
     else [])%list
  else [].

Definition collect_slots (settings : PiiGuardrailSettings) (ms : list Message)
    : list Slot * list string :=
  let pairs := concat (imap (message_slots settings) ms) in (pairs.*1, pairs.*2).

(** What a write does to the part, the call, the message. *)
Definition write_part (new_text : string) (p : ContentPart) : ContentPart :=
  match p with PartText _ => PartText new_text | _ => p end.

Definition write_call (new_text : string) (c : ToolCall) : ToolCall :=
  {| tc_id := tc_id c; tc_tool_type := tc_tool_type c;
     tc_function := {| fc_name := fc_name (tc_function c); fc_arguments := new_text |} |}.

Definition with_content (c : option MessageContent) (m : Message) : Message :=
  {| msg_role := msg_role m; msg_content := c; msg_name := msg_name m;
     msg_tool_calls := msg_tool_calls m; msg_tool_call_id := msg_tool_call_id m |}.

Definition with_tool_calls (c : option (list ToolCall)) (m : Message) : Message :=
  {| msg_role := msg_role m; msg_content := msg_content m; msg_name := msg_name m;
     msg_tool_calls := c; msg_tool_call_id := msg_tool_call_id m |}.

Definition message_write (slot : Slot) (new_text : string) (m : Message) : Message :=
  match slot with
  | SlotContent _ None => with_content (Some (ContentText new_text)) m
  | SlotContent _ (Some part) =>
      match msg_content m with
      | Some (ContentParts parts) =>
          with_content (Some (ContentParts (alter (write_part new_text) part parts))) m
      | _ => m
      end
  | SlotToolArg _ call =>
      match msg_tool_calls m with
      | Some calls => with_tool_calls (Some (alter (write_call new_text) call calls)) m
      | None => m
      end
  end.

Definition write_back (ms : list Message) (slot : Slot) (new_text : string) : list Message :=
  alter (message_write slot new_text) (slot_msg slot) ms.

(** The loop over the rewritten texts. *)
Definition write_all (ms : list Message) (writes : list (Slot * option string)) : list Message :=
  foldl (fun ms '(slot, new_text) =>
    match new_text with Some t => write_back ms slot t | None => ms end) ms writes.

(** ** The request guardrail *)

Section Guardrail.
Context {E W : Type} `{PiiEngine E} (engine : E).

(** The texts rewritten ([None]: unchanged) and the entity counts. *)
Fixpoint run_engine (texts : list string) (opts : RedactOptions) (mode : PiiMode)
    (counts : gmap string Z) : result (list (option string) * gmap string Z) PiiError :=
  match texts with
  | [] => Ok ([], counts)
  | text :: texts =>
      let? (new_text, counts) :=
        (match mode with
         | ModeRedact =>
             let? out := pe_redact engine text opts in
             Ok (match out_replaced out with [] => None | _ => Some (out_text out) end,
                 foldl (fun m e => count_add e.1 e.2 m) counts (out_replaced out))
         | ModeBlock | ModeObserve =>
             let? hits := pe_scan engine text opts in
             Ok (None, foldl (fun m h => count_add (hit_entity_type h) 1 m) counts hits)
         end) in
      let? (rewritten, counts) := run_engine texts opts mode counts in
      Ok (new_text :: rewritten, counts)
  end.

(** The live configuration, when the plugin was wired with it, and the
    process's metrics, when it has some. *)
Context (config : option (W -> Config)) (metrics : option ((PiiMetrics -> PiiMetrics) -> W -> W)).

Definition count (f : PiiMetrics -> PiiMetrics) (w : W) : W :=
  match metrics with Some update => update f w | None => w end.

Definition effective_settings (defaults : option PiiGuardrailSettings) (ctx : PluginContext) (w : W)
    : option PiiGuardrailSettings :=
  match config with
  | Some read =>
      let cfg := read w in
      match scoped_pii_section cfg (ctx_org_id ctx) (ctx_team_id ctx) with
      | Some pii => if pii_enabled pii then Some (settings_from_config pii) else None
      | None =>
          if pii_enabled (gr_pii (cfg_guardrails cfg))
          then Some (settings_from_config (gr_pii (cfg_guardrails cfg)))
          else defaults
      end
  | None => defaults
  end.

Definition with_messages (ms : list Message) (r : ChatCompletionRequest) : ChatCompletionRequest :=
  {| req_model := req_model r; req_messages := ms; req_stream := req_stream r;
     req_temperature := req_temperature r; req_top_p := req_top_p r;
     req_max_tokens := req_max_tokens r; req_stop := req_stop r;
     req_presence_penalty := req_presence_penalty r;
     req_frequency_penalty := req_frequency_penalty r; req_user := req_user r;
     req_tools := req_tools r; req_tool_choice := req_tool_choice r; req_extra := req_extra r |}.

Definition ctx_with_messages (ms : list Message) (c : PluginContext) : PluginContext :=
  {| ctx_request_id := ctx_request_id c; ctx_request := with_messages ms (ctx_request c);
     ctx_auth := ctx_auth c; ctx_metadata := ctx_metadata c; ctx_provider := ctx_provider c;
     ctx_latency := ctx_latency c; ctx_tokens_used := ctx_tokens_used c; ctx_error := ctx_error c;
     ctx_response := ctx_response c; ctx_response_text := ctx_response_text c;
     ctx_response_chunks := ctx_response_chunks c; ctx_remote_ip := ctx_remote_ip c |}.

Definition engine_error (fail_open : bool) (e : PiiError) : result unit PluginError :=
  if fail_open then Ok tt
  else Err (PluginInternal ("PII guardrail failed: " +:+ pii_error_to_string e)).

Definition detection_metadata (mode : PiiMode) (counts : gmap string Z) : Value :=
  json_object [("action", VString (pii_mode_as_str mode)); ("entities", map_value (u32_value <$> counts))].

(** The types of the entities found, in order. *)
Definition entity_types (counts : gmap string Z) : string := join ", " (counts_entries counts).*1.

Definition pii_execute (defaults : option PiiGuardrailSettings) (ctx : PluginContext) (w : W)
    : result unit PluginError * (PluginContext * W) :=
  match effective_settings defaults ctx w with
  | None => (Ok tt, (ctx, w))
  | Some settings =>
      let '(slots, texts) := collect_slots settings (req_messages (ctx_request ctx)) in
      match texts with
      | [] => (Ok tt, (ctx, w))
      | _ =>
          match run_engine texts (ps_options settings) (ps_mode settings) ∅ with
          | Err e => (engine_error (ps_fail_open settings) e, (ctx, count add_engine_error w))
          | Ok (rewritten, counts) =>
              if decide (counts = ∅) then (Ok tt, (ctx, w))
              else
                let mode := ps_mode settings in
                let w := count (record_detections counts "request" (pii_mode_as_str mode)) w in
                let ctx := set_metadata "guardrails.pii" (detection_metadata mode counts) ctx in
                match mode with
                | ModeRedact =>
                    (Ok tt, (ctx_with_messages
                               (write_all (req_messages (ctx_request ctx)) (zip slots rewritten)) ctx, w))
                | ModeBlock =>
                    (Err (Rejected "pii-guardrail" ("PII detected: " +:+ entity_types counts) KindBadRequest),
                     (ctx, count (add_blocked "request") w))
                | ModeObserve => (Ok tt, (ctx, w))
                end
          end
      end
  end.

Definition PiiGuardrailPlugin (defaults : option PiiGuardrailSettings) : Plugin W :=
  {| plugin_name := "pii-guardrail"; plugin_type := Guardrail; plugin_stage := BeforeRequest;
     also_after_request := false; plugin_execute := pii_execute defaults |}.
End Guardrail.

(** ** The response guardrail *)

Inductive PiiResponseMode := ResponseOff | ResponseObserve | ResponseRedact | ResponseBlock.

#[export] Instance PiiResponseMode_eq_dec : EqDecision PiiResponseMode.
Proof. solve_decision. Defined.

Definition response_mode_parse (s : string) : option PiiResponseMode :=
  let s := to_ascii_lowercase s in
  if decide (s = "off") then Some ResponseOff
  else if decide (s = "observe") then Some ResponseObserve
  else if decide (s = "redact") then Some ResponseRedact
  else if decide (s = "block") then Some ResponseBlock
  else None.

Definition response_mode_as_str (m : PiiResponseMode) : string :=
  match m with
  | ResponseOff => "off" | ResponseObserve => "observe" | ResponseRedact => "redact"
  | ResponseBlock => "block"
  end.

Record PiiResponseSettings := {
  prs_mode : PiiResponseMode;
  prs_options : RedactOptions;
  prs_fail_open : bool;
}.

Definition response_settings_from_config (cfg : PiiGuardrailConfig) : PiiResponseSettings :=
  let request_side := settings_from_config cfg in
  {| prs_mode := match pii_response_mode cfg with
                 | PiiResponseOff => ResponseOff | PiiResponseObserve => ResponseObserve
                 | PiiResponseRedact => ResponseRedact | PiiResponseBlock => ResponseBlock
                 end;
     prs_options := ps_options request_side; prs_fail_open := ps_fail_open request_side |}.

Definition response_settings_from_env (env : string -> option string)
    (parse_f32 : string -> option f32) : option PiiResponseSettings :=
  v ← env "GUARDRAILS_PII_RESPONSE_MODE";
  mode ← response_mode_parse v;
  if decide (mode = ResponseOff) then None
  else Some {| prs_mode := mode; prs_options := options_from_env env parse_f32;
               prs_fail_open := fail_open_from_env env |}.

(** [active] *)
Definition active_response (cfg : PiiGuardrailConfig) : option PiiResponseSettings :=
  if pii_enabled cfg && bool_decide (pii_response_mode cfg <> PiiResponseOff)
  then Some (response_settings_from_config cfg) else None.

Section ResponseGuardrail.
Context {E W : Type} `{PiiEngine E} (engine : E).
Context (config : option (W -> Config)) (metrics : option ((PiiMetrics -> PiiMetrics) -> W -> W)).

Definition effective_response_settings (defaults : option PiiResponseSettings) (ctx : PluginContext)
    (w : W) : option PiiResponseSettings :=
  match config with
  | Some read =>
      let cfg := read w in
      match scoped_pii_section cfg (ctx_org_id ctx) (ctx_team_id ctx) with
      | Some pii => active_response pii
      | None =>
          match active_response (gr_pii (cfg_guardrails cfg)) with
          | Some settings => Some settings
          | None => defaults
          end
      end
  | None => defaults
  end.

(** [ScanOrRedact]: the entities counted, and the text a redaction gives. *)
Definition scan_or_redact (settings : PiiResponseSettings) (response : string)
    : result (gmap string Z * option string) PiiError :=
  match prs_mode settings with
  | ResponseRedact =>
      let? out := pe_redact engine response (prs_options settings) in
      Ok (foldl (fun m '(t, n) => <[t := n]> m) ∅ (out_replaced out), Some (out_text out))
  | _ =>
      let? hits := pe_scan engine response (prs_options settings) in
      Ok (foldl (fun m h => count_add (hit_entity_type h) 1 m) ∅ hits, None)
  end.

Definition pii_check_response (defaults : option PiiResponseSettings) (ctx : PluginContext)
    (response : string) (w : W) : result ResponseAction PluginError * W :=
  match effective_response_settings defaults ctx w with
  | None => (Ok Allow, w)
  | Some settings =>
      if str_is_empty response || bool_decide (prs_mode settings = ResponseOff) then (Ok Allow, w)
      else
        match scan_or_redact settings response with
        | Err _ =>
            (Ok (if prs_fail_open settings then Allow
                 else Reject "PII response guardrail failed; response withheld"),
             count metrics add_engine_error w)
        | Ok (counts, redacted) =>
            if decide (counts = ∅) then (Ok Allow, w)
            else
              let mode := prs_mode settings in
              let w := count metrics (record_detections counts "response" (response_mode_as_str mode)) w in
              match redacted with
              | Some text => (Ok (Redact text), w)
              | None =>
                  if decide (mode = ResponseBlock) then
                    (Ok (Reject ("PII detected in model output: " +:+ entity_types counts)),
                     count metrics (add_blocked "response") w)
                  else (Ok Allow, w)
              end
        end
  end.

Definition PiiResponseGuardrail (defaults : option PiiResponseSettings) : ResponseGuardrail W :=
  {| rg_name := "pii-response-guardrail"; rg_check := pii_check_response defaults |}.
End ResponseGuardrail.

(** ** The reference rewriting: every scanned text in place *)

Section Scrub.
Context (settings : PiiGuardrailSettings) (F : string -> option string).

Definition scrub_part (p : ContentPart) : ContentPart :=
  match part_text p ≫= F with Some t => write_part t p | None => p end.

Definition scrub_call (c : ToolCall) : ToolCall :=
  match call_text c ≫= F with Some t => write_call t c | None => c end.

Definition scrub_content (c : MessageContent) : MessageContent :=
  match c with
  | ContentText s => match nonempty_text s ≫= F with Some t => ContentText t | None => c end
  | ContentParts parts => ContentParts (scrub_part <$> parts)
  end.

Definition scrub_message (m : Message) : Message :=
  if bool_decide (msg_role m ∈ ps_apply_to settings) then
    with_tool_calls
      (if ps_scan_tool_arguments settings then option_map (fmap scrub_call) (msg_tool_calls m)
       else msg_tool_calls m)
      (with_content (option_map scrub_content (msg_content m)) m)
  else m.
End Scrub.

(** What a redaction of one text writes. *)
Definition redaction {E} `{PiiEngine E} (engine : E) (opts : RedactOptions) (text : string)
    : option string :=
  match pe_redact engine text opts with
  | Ok out => match out_replaced out with [] => None | _ => Some (out_text out) end
  | Err _ => None
  end.

(** ** Proofs *)

Section Writes.
Context (F : string -> option string).

Definition message_writes (m : Message) (writes : list (Slot * option string)) : Message :=
  foldl (fun m '(slot, new_text) =>
    match new_text with Some t => message_write slot t m | None => m end) m writes.

Definition planned (pairs : list (Slot * string)) : list (Slot * option string) :=
  (fun p => (p.1, F p.2)) <$> pairs.

Lemma zip_planned (pairs : list (Slot * string)) : zip pairs.*1 (F <$> pairs.*2) = planned pairs.
Proof. unfold planned. induction pairs as [|[s t] l IH]; [done|]. cbn. by f_equal. Qed.

Lemma alter_last {A} (f : A -> A) pre x l : alter f (length pre) (pre ++ x :: l)%list = (pre ++ f x :: l)%list.
Proof. induction pre as [|y pre IH]; [done|]. cbn. f_equal. apply IH. Qed.

Lemma concat_map_fmap {A B} (f : A -> B) (ls : list (list A)) :
  f <$> concat ls = concat ((fun l : list A => f <$> l) <$> ls).
Proof. apply concat_map. Qed.

(** Writing the selected items of a list one by one, by index, is mapping. *)
Lemma indexed_writes {A} (sel : A -> option string) (wr : string -> A -> A) pre l :
  foldl (fun l '(j, o) => match o with Some t => alter (wr t) j l | None => l end) (pre ++ l)%list
    (concat (imap (fun j x => option_list ((fun s => ((length pre + j)%nat, F s)) <$> sel x)) l)) =
  (pre ++ ((fun x => match sel x ≫= F with Some t => wr t x | None => x end) <$> l))%list.
Proof.
  revert pre. induction l as [|x l IH]; intros pre; [done|]. cbn [imap concat fmap list_fmap].
  rewrite foldl_app, Nat.add_0_r.
  assert (foldl (fun l '(j, o) => match o with Some t => alter (wr t) j l | None => l end)
    (pre ++ x :: l)%list (option_list ((fun s => (length pre, F s)) <$> sel x)) =
    (pre ++ [match sel x ≫= F with Some t => wr t x | None => x end] ++ l)%list) as ->.
  { destruct (sel x) as [s|]; cbn; [|done]. destruct (F s) as [t|]; cbn; [|done]. apply alter_last. }
  cbn [app]. specialize (IH (pre ++ [match sel x ≫= F with Some t => wr t x | None => x end])%list).
  rewrite length_app, <- !app_assoc in IH. cbn [length app] in IH.
  rewrite <- IH. f_equal. f_equal. apply imap_ext. intros i y _. cbn.
  by replace (length pre + 1 + i)%nat with (length pre + S i)%nat by lia.
Qed.

Lemma message_writes_parts i m parts writes :
  msg_content m = Some (ContentParts parts) ->
  message_writes m ((fun '(j, o) => (SlotContent i (Some j), o)) <$> writes) =
    with_content (Some (ContentParts (foldl (fun l '(j, o) =>
      match o with Some t => alter (write_part t) j l | None => l end) parts writes))) m.
Proof.
  unfold message_writes. revert m parts. induction writes as [|[j [t|]] writes IH]; intros m parts Hm.
  - cbn. destruct m; cbn in *. by subst.
  - cbn [fmap list_fmap foldl]. cbn [message_write]. rewrite Hm.
    by rewrite (IH _ (alter (write_part t) j parts)).
  - cbn [fmap list_fmap foldl]. by apply IH.
Qed.

Lemma message_writes_calls i m calls writes :
  msg_tool_calls m = Some calls ->
  message_writes m ((fun '(j, o) => (SlotToolArg i j, o)) <$> writes) =
    with_tool_calls (Some (foldl (fun l '(j, o) =>
      match o with Some t => alter (write_call t) j l | None => l end) calls writes)) m.
Proof.
  unfold message_writes. revert m calls. induction writes as [|[j [t|]] writes IH]; intros m calls Hm.
  - cbn. destruct m; cbn in *. by subst.
  - cbn [fmap list_fmap foldl]. cbn [message_write]. rewrite Hm.
    by rewrite (IH _ (alter (write_call t) j calls)).
  - cbn [fmap list_fmap foldl]. by apply IH.
Qed.

(** The planned writes of a list's items, as indexed writes. *)
Lemma planned_items {A} (slot : nat -> Slot) (sel : A -> option string) l :
  planned (concat (imap (fun j x => option_list (pair (slot j) <$> sel x)) l)) =
    (fun '(j, o) => (slot j, o)) <$>
      concat (imap (fun j x => option_list ((fun s => (j, F s)) <$> sel x)) l).
Proof.
  unfold planned. rewrite !concat_map_fmap, !fmap_imap. f_equal. apply imap_ext.
  intros i x _. cbn. by destruct (sel x).
Qed.
End Writes.

Section ScrubSpec.
Context (settings : PiiGuardrailSettings) (F : string -> option string).

Lemma message_writes_app m w1 w2 : message_writes m (w1 ++ w2) = message_writes (message_writes m w1) w2.
Proof. apply foldl_app. Qed.

(** The writes planned for a message scrub it. *)
Lemma scrub_message_writes i m :
  message_writes m (planned F (message_slots settings i m)) = scrub_message settings F m.
Proof.
  unfold message_slots, scrub_message. case_bool_decide as Hr; [|done].
  unfold planned at 1. rewrite fmap_app. fold (planned F). rewrite message_writes_app.
  set (w1 := fmap _ (match msg_content m with Some _ => _ | None => _ end)).
  assert (message_writes m w1 = with_content (option_map (scrub_content F) (msg_content m)) m) as ->.
  { subst w1. destruct m as [r [[s|parts]|] n tc ti]; cbn [msg_content option_map].
    - unfold message_writes. cbn [scrub_content].
      destruct (nonempty_text s) as [t|]; cbn; [|done]. by destruct (F t).
    - change (fmap (fun p => (p.1, F p.2)) ?l) with (planned F l). rewrite planned_items.
      rewrite (message_writes_parts i _ parts) by done.
      pose proof (indexed_writes F part_text write_part [] parts) as Hw. cbn [app length] in Hw.
      cbn [Nat.add] in Hw. by rewrite Hw.
    - done. }
  set (m1 := with_content _ m).
  destruct (ps_scan_tool_arguments settings).
  - change (fmap (fun p => (p.1, F p.2)) ?l) with (planned F l). rewrite planned_items.
    change (msg_tool_calls m) with (msg_tool_calls m1).
    destruct (msg_tool_calls m1) as [calls|] eqn:Ec; cbn [default option_map].
    + change (id calls) with calls. rewrite (message_writes_calls i _ calls) by done.
      pose proof (indexed_writes F call_text write_call [] calls) as Hw. cbn [app length] in Hw.
      cbn [Nat.add] in Hw. by rewrite Hw.
    + unfold message_writes. cbn. destruct m1; cbn in *. by subst.
  - unfold message_writes. cbn. by destruct m.
Qed.

Lemma write_all_message pre m post writes : Forall (fun w => slot_msg w.1 = length pre) writes ->
  write_all (pre ++ m :: post) writes = (pre ++ message_writes m writes :: post)%list.
Proof.
  unfold write_all, message_writes. revert m. induction writes as [|[s [t|]] writes IH]; intros m Hw; [done|..];
    inversion Hw as [|? ? Hs Hws]; subst; cbn [foldl]; [|by apply IH].
  unfold write_back. cbn in Hs. rewrite Hs, alter_last. by apply IH.
Qed.

Lemma message_slots_msg i m : Forall (fun w => slot_msg w.1 = i) (planned F (message_slots settings i m)).
Proof.
  unfold planned. apply Forall_fmap, Forall_forall. intros [s t] Hin. cbn.
  unfold message_slots in Hin. case_bool_decide; [|by apply not_elem_of_nil in Hin].
  apply elem_of_app in Hin as [Hin|Hin].
  - destruct (msg_content m) as [[x|parts]|]; [| |by apply not_elem_of_nil in Hin].
    + destruct (nonempty_text x); cbn in Hin; [|by apply not_elem_of_nil in Hin].
      apply list_elem_of_singleton in Hin. by injection Hin as -> _.
    + apply list_elem_of_In, in_concat in Hin as (l & Hl & Hin). apply list_elem_of_In in Hl, Hin.
      apply elem_of_lookup_imap_1 in Hl as (j & p & -> & _).
      destruct (part_text p); cbn in Hin; [|by apply not_elem_of_nil in Hin].
      apply list_elem_of_singleton in Hin. by injection Hin as -> _.
  - destruct (ps_scan_tool_arguments settings); [|by apply not_elem_of_nil in Hin].
    apply list_elem_of_In, in_concat in Hin as (l & Hl & Hin). apply list_elem_of_In in Hl, Hin.
    apply elem_of_lookup_imap_1 in Hl as (j & c & -> & _).
    destruct (call_text c); cbn in Hin; [|by apply not_elem_of_nil in Hin].
    apply list_elem_of_singleton in Hin. by injection Hin as -> _.
Qed.

(** Collecting the texts and writing the new ones back scrubs every message in place. *)
Lemma write_back_scrubs ms :
  let '(slots, texts) := collect_slots settings ms in
  write_all ms (zip slots (F <$> texts)) = scrub_message settings F <$> ms.
Proof.
  unfold collect_slots. rewrite zip_planned.
  assert (forall pre ms, write_all (pre ++ ms)
    (planned F (concat (imap (fun i => message_slots settings (length pre + i)) ms))) =
    (pre ++ (scrub_message settings F <$> ms))%list) as Hgen; [|exact (Hgen [] ms)].
  clear ms. intros pre ms. revert pre. induction ms as [|m ms IH]; intros pre.
  - done.
  - cbn [imap concat fmap list_fmap]. unfold planned at 1. rewrite fmap_app. fold (planned F).
    unfold write_all at 1. rewrite foldl_app. fold (write_all (pre ++ m :: ms)).
    rewrite Nat.add_0_r.
    change (fmap (fun p => (p.1, F p.2)) (message_slots settings (length pre) m))
      with (planned F (message_slots settings (length pre) m)).
    fold (write_all (pre ++ m :: ms)%list (planned F (message_slots settings (length pre) m))).
    rewrite write_all_message by apply message_slots_msg. rewrite scrub_message_writes.
    specialize (IH (pre ++ [scrub_message settings F m])%list).
    rewrite length_app, <- !app_assoc in IH. cbn [length app] in IH. rewrite <- IH.
    unfold write_all. f_equal. unfold planned. f_equal. f_equal. apply imap_ext. intros i x _. cbn.
    by replace (length pre + 1 + i)%nat with (length pre + S i)%nat by lia.
Qed.
End ScrubSpec.

(** ** Proofs: the engine pass *)

Lemma counts_entries_dom (m : gmap string Z) t : t ∈ (counts_entries m).*1 <-> t ∈ dom m.
Proof.
  unfold counts_entries. rewrite list_elem_of_fmap, elem_of_dom. split.
  - intros ([t' n] & -> & Hin). rewrite stable_sort_perm in Hin.
    apply elem_of_map_to_list in Hin. by exists n.
  - intros [n Hn]. exists (t, n). split; [done|]. rewrite stable_sort_perm.
    by apply elem_of_map_to_list.
Qed.

Lemma counts_entries_nodup (m : gmap string Z) : NoDup (counts_entries m).*1.
Proof. unfold counts_entries. rewrite stable_sort_perm. apply NoDup_fst_map_to_list. Qed.

Lemma fold_count_dom {A} (f : A -> string) (n : A -> Z) l m :
  dom (foldl (fun m x => count_add (f x) (n x) m) m l) = dom m ∪ list_to_set (f <$> l).
Proof.
  revert m. induction l as [|x l IH]; intros m; cbn; [set_solver|].
  rewrite IH. unfold count_add. rewrite dom_insert_L. set_solver.
Qed.

Section Engine.
Context {E : Type} `{PiiEngine E} (engine : E) (opts : RedactOptions).

Definition replaced_types (text : string) : gset string :=
  match pe_redact engine text opts with Ok out => list_to_set (out_replaced out).*1 | Err _ => ∅ end.

Definition hit_types (text : string) : gset string :=
  match pe_scan engine text opts with
  | Ok hits => list_to_set (hit_entity_type <$> hits) | Err _ => ∅ end.

Lemma run_engine_redact texts counts :
  match run_engine engine texts opts ModeRedact counts with
  | Ok (rewritten, counts') =>
      Forall (fun t => is_ok (pe_redact engine t opts) = true) texts /\
      rewritten = redaction engine opts <$> texts /\
      dom counts' = dom counts ∪ ⋃ (replaced_types <$> texts)
  | Err _ => Exists (fun t => is_ok (pe_redact engine t opts) = false) texts
  end.
Proof.
  revert counts. induction texts as [|t texts IH]; intros counts; cbn [run_engine].
  - split_and!; [done|done|cbn; set_solver].
  - destruct (pe_redact engine t opts) as [out|e] eqn:Et; [|by constructor; rewrite Et].
    specialize (IH (foldl (fun m e => count_add e.1 e.2 m) counts (out_replaced out))).
    destruct (run_engine engine texts opts ModeRedact _) as [[rw c']|e]; [|by apply Exists_cons_tl].
    destruct IH as (Hok & -> & Hdom). split_and!.
    + constructor; [by rewrite Et|done].
    + cbn. unfold redaction at 2. by rewrite Et.
    + rewrite Hdom, fold_count_dom. cbn. unfold replaced_types at 2. rewrite Et. set_solver.
Qed.

Lemma run_engine_scan texts mode counts : mode <> ModeRedact ->
  match run_engine engine texts opts mode counts with
  | Ok (rewritten, counts') =>
      Forall (fun t => is_ok (pe_scan engine t opts) = true) texts /\
      dom counts' = dom counts ∪ ⋃ (hit_types <$> texts)
  | Err _ => Exists (fun t => is_ok (pe_scan engine t opts) = false) texts
  end.
Proof.
  intros Hm. revert counts. induction texts as [|t texts IH]; intros counts; cbn [run_engine].
  - split; [done|cbn; set_solver].
  - assert ((match mode with
       | ModeRedact => let? out := pe_redact engine t opts in
           Ok (match out_replaced out with [] => None | _ => Some (out_text out) end,
               foldl (fun m e => count_add e.1 e.2 m) counts (out_replaced out))
       | ModeBlock | ModeObserve => let? hits := pe_scan engine t opts in
           Ok (None, foldl (fun m h => count_add (hit_entity_type h) 1 m) counts hits)
       end) = let? hits := pe_scan engine t opts in
           Ok (None, foldl (fun m h => count_add (hit_entity_type h) 1 m) counts hits)) as -> by by destruct mode.
    destruct (pe_scan engine t opts) as [hits|e] eqn:Et; [|by constructor; rewrite Et].
    specialize (IH (foldl (fun m h => count_add (hit_entity_type h) 1 m) counts hits)).
    destruct (run_engine engine texts opts mode _) as [[rw c']|e]; [|by apply Exists_cons_tl].
    destruct IH as (Hok & Hdom). split.
    + constructor; [by rewrite Et|done].
    + rewrite Hdom, (fold_count_dom hit_entity_type (fun _ => 1)). cbn. unfold hit_types at 2.
      rewrite Et. set_solver.
Qed.
End Engine.

Lemma union_list_empty (l : list (gset string)) : ⋃ l = ∅ -> Forall (fun s => s = ∅) l.
Proof. induction l as [|s l IH]; cbn; [constructor|]. intros Hu. constructor; [|apply IH]; set_solver. Qed.

Lemma with_messages_same r : with_messages (req_messages r) r = r.
Proof. by destruct r. Qed.

Lemma write_all_none ms writes : Forall (fun w => w.2 = None) writes -> write_all ms writes = ms.
Proof.
  unfold write_all. revert ms. induction writes as [|[s o] writes IH]; intros ms Hw; [done|].
  inversion Hw as [|? ? Ho Hws]; subst. cbn in Ho. subst. by apply IH.
Qed.

Lemma run_engine_redact_clean {E} `{PiiEngine E} (engine : E) opts texts rewritten counts :
  run_engine engine texts opts ModeRedact ∅ = Ok (rewritten, counts) -> counts = ∅ ->
  Forall (fun t => redaction engine opts t = None) texts.
Proof.
  intros Hr ->. pose proof (run_engine_redact engine opts texts ∅) as Hs. rewrite Hr in Hs.
  destruct Hs as (_ & _ & Hd). assert (⋃ (replaced_types engine opts <$> texts) = ∅) as Hu by set_solver.
  apply union_list_empty, Forall_fmap in Hu. eapply Forall_impl; [exact Hu|]. intros t Ht.
  cbn in Ht. unfold replaced_types in Ht. unfold redaction.
  destruct (pe_redact engine t opts) as [out|]; [|done].
  destruct (out_replaced out) as [|e l]; [done|]. cbn in Ht. set_solver.
Qed.

Section Theorems.
Context {E W : Type} `{PiiEngine E} (engine : E).
Context (config : option (W -> Config)) (metrics : option ((PiiMetrics -> PiiMetrics) -> W -> W)).
Context (defaults : option PiiGuardrailSettings).

(** C20: In redact mode the request that goes on is the client's with every
    scanned text, and nothing else, replaced by what the engine makes of it,
    when the engine answers for all of them. When it fails for one, the
    request is left as it was: it goes on only if the settings fail open. *)
Theorem pii_redacts_in_place settings ctx w :
  effective_settings config defaults ctx w = Some settings -> ps_mode settings = ModeRedact ->
  let ms := req_messages (ctx_request ctx) in
  let texts := (collect_slots settings ms).2 in
  let scanned := forallb (fun t => is_ok (pe_redact engine t (ps_options settings))) texts in
  let '(r, (ctx', _)) := pii_execute engine config metrics defaults ctx w in
  is_ok r = scanned || ps_fail_open settings /\
  ctx_request ctx' =
    (if scanned
     then with_messages (scrub_message settings (redaction engine (ps_options settings)) <$> ms)
            (ctx_request ctx)
     else ctx_request ctx).
Proof.
  intros Hs Hm. cbn zeta. unfold pii_execute. rewrite Hs.
  pose proof (write_back_scrubs settings (redaction engine (ps_options settings))
    (req_messages (ctx_request ctx))) as Hw.
  destruct (collect_slots settings (req_messages (ctx_request ctx))) as [slots texts].
  destruct texts as [|t0 texts'] eqn:Et.
  { cbn in Hw |- *. rewrite zip_with_nil_r in Hw. cbn in Hw.
    split; [done|]. by rewrite <- Hw, with_messages_same. }
  rewrite <- Et in Hw |- *. clear Et. rewrite Hm. cbn [snd].
  pose proof (run_engine_redact engine (ps_options settings) texts ∅) as Hr.
  pose proof (run_engine_redact_clean engine (ps_options settings) texts) as Hclean.
  destruct (run_engine engine texts (ps_options settings) ModeRedact ∅) as [[rw counts]|e].
  - destruct Hr as (Hok & -> & _).
    assert (forallb (fun t => is_ok (pe_redact engine t (ps_options settings))) texts = true) as ->.
    { apply forallb_forall. intros t Ht%list_elem_of_In. by eapply Forall_forall in Hok. }
    case_decide as Hc.
    + split; [done|]. specialize (Hclean _ _ eq_refl Hc). rewrite <- Hw, write_all_none.
      * by rewrite with_messages_same.
      * apply Forall_forall. intros [s o] Hin. apply elem_of_zip_r in Hin.
        apply list_elem_of_fmap in Hin as (t & -> & Ht). cbn. by eapply Forall_forall in Hclean.
    + split; [done|]. cbn. by rewrite Hw.
  - assert (forallb (fun t => is_ok (pe_redact engine t (ps_options settings))) texts = false) as ->.
    { apply not_true_iff_false. intros Hall. apply Exists_exists in Hr as (t & Ht & Hf).
      apply list_elem_of_In in Ht. by rewrite (proj1 (forallb_forall _ _) Hall t Ht) in Hf. }
    split; [|done]. unfold engine_error. by destruct (ps_fail_open settings).
Qed.

(** In block mode no request is changed, and one is refused exactly when an
    engine failure is not forgiven or a scanned text holds an entity. The
    refusal names the types of the entities found and nothing of the text. *)
Theorem pii_blocks_by_type settings ctx w :
  effective_settings config defaults ctx w = Some settings -> ps_mode settings = ModeBlock ->
  let texts := (collect_slots settings (req_messages (ctx_request ctx))).2 in
  let found := ⋃ (hit_types engine (ps_options settings) <$> texts) in
  let '(r, (ctx', _)) := pii_execute engine config metrics defaults ctx w in
  ctx_request ctx' = ctx_request ctx /\
  match r with
  | Ok _ => (Forall (fun t => is_ok (pe_scan engine t (ps_options settings)) = true) texts /\ found = ∅) \/
            (Exists (fun t => is_ok (pe_scan engine t (ps_options settings)) = false) texts /\
             ps_fail_open settings = true)
  | Err (Rejected name reason kind) => name = "pii-guardrail" /\ kind = KindBadRequest /\
      exists types, reason = "PII detected: " +:+ join ", " types /\ NoDup types /\
        found <> ∅ /\ forall t, t ∈ types <-> t ∈ found
  | Err (PluginInternal _) =>
      Exists (fun t => is_ok (pe_scan engine t (ps_options settings)) = false) texts /\
      ps_fail_open settings = false
  end.
Proof.
  intros Hs Hm. cbn zeta. unfold pii_execute. rewrite Hs.
  destruct (collect_slots settings (req_messages (ctx_request ctx))) as [slots texts].
  destruct texts as [|t0 texts'] eqn:Et; [split; [done|by left]|].
  rewrite <- Et. clear Et. rewrite Hm. cbn [snd].
  pose proof (run_engine_scan engine (ps_options settings) texts ModeBlock ∅ ltac:(done)) as Hr.
  destruct (run_engine engine texts (ps_options settings) ModeBlock ∅) as [[rw counts]|e].
  - destruct Hr as (Hok & Hd). rewrite dom_empty_L, (left_id_L ∅ (∪)) in Hd.
    case_decide as Hc.
    + split; [done|]. left. split; [done|]. by rewrite <- Hd, Hc, dom_empty_L.
    + split; [done|]. split_and!; [done..|]. exists (counts_entries counts).*1.
      split_and!; [done|apply counts_entries_nodup| |].
      * rewrite <- Hd. intros He. by apply dom_empty_iff_L in He.
      * intros t. by rewrite counts_entries_dom, Hd.
  - split; [done|]. unfold engine_error. destruct (ps_fail_open settings) eqn:Ef; [by right|done].
Qed.
End Theorems.

Section ResponseTheorems.
Context {E W : Type} `{PiiEngine E} (engine : E).
Context (config : option (W -> Config)) (metrics : option ((PiiMetrics -> PiiMetrics) -> W -> W)).
Context (defaults : option PiiResponseSettings).

(** The response guardrail never answers with an error, which the gateway
    would log and let through: what it cannot scan it withholds. A response is
    allowed only when no guardrail is active for the caller, when it is empty,
    when it was scanned and either holds no entity or is merely observed, or
    when the engine failed and the settings fail open. *)
Theorem pii_response_fails_closed ctx response w :
  exists action, (pii_check_response engine config metrics defaults ctx response w).1 = Ok action /\
    match effective_response_settings config defaults ctx w with
    | None => action = Allow
    | Some s =>
        let scan := pe_scan engine response (prs_options s) in
        let redact := pe_redact engine response (prs_options s) in
        if str_is_empty response || bool_decide (prs_mode s = ResponseOff) then action = Allow
        else match prs_mode s with
        | ResponseRedact =>
            match redact with
            | Ok out => action = if decide (out_replaced out = []) then Allow else Redact (out_text out)
            | Err _ => action = if prs_fail_open s then Allow
                                else Reject "PII response guardrail failed; response withheld"
            end
        | mode =>
            match scan with
            | Ok hits =>
                if decide (hits = [] \/ mode <> ResponseBlock) then action = Allow
                else exists types, action = Reject ("PII detected in model output: " +:+ join ", " types) /\
                  forall t, t ∈ types <-> t ∈ hit_entity_type <$> hits
            | Err _ => action = if prs_fail_open s then Allow
                                else Reject "PII response guardrail failed; response withheld"
            end
        end
    end.
Proof.
  unfold pii_check_response.
  destruct (effective_response_settings config defaults ctx w) as [s|]; [|by exists Allow].
  destruct (str_is_empty response || bool_decide (prs_mode s = ResponseOff)); [by exists Allow|].
  cbn zeta. unfold scan_or_redact.
  assert (forall hits : list PiiEntityHit, dom (foldl (fun m h => count_add (hit_entity_type h) 1 m) ∅ hits)
    = list_to_set (hit_entity_type <$> hits)) as Hdom.
  { intros hits. rewrite (fold_count_dom hit_entity_type (fun _ => 1)), dom_empty_L. set_solver. }
  assert (forall (hits : list PiiEntityHit), foldl (fun m h => count_add (hit_entity_type h) 1 m) ∅ hits = ∅ <-> hits = []) as Hnil.
  { intros [|h hits]; [done|]. split; [|done]. intros He. specialize (Hdom (h :: hits)).
    rewrite He, dom_empty_L in Hdom. cbn in Hdom. set_solver. }
  destruct (prs_mode s) eqn:Em.
  - destruct (pe_scan engine response (prs_options s)) as [hits|]; [|by eexists].
    case_decide as Hc; [apply Hnil in Hc; subst; by exists Allow|].
    exists Allow. split; [done|]. by rewrite decide_True by (by right).
  - destruct (pe_scan engine response (prs_options s)) as [hits|]; [|by eexists].
    case_decide as Hc; [apply Hnil in Hc; subst; by exists Allow|].
    exists Allow. split; [done|]. by rewrite decide_True by (by right).
  - destruct (pe_redact engine response (prs_options s)) as [out|]; [|by eexists].
    case_decide as Hc.
    + rewrite decide_True; [by eexists|]. destruct (out_replaced out) as [|[t n] l]; [done|]. exfalso.
      assert (forall l m, m <> ∅ -> foldl (fun m '(t, n) => <[t := n]> m) (m : gmap string Z) l <> ∅) as Hne.
      { clear. induction l as [|[t n] l IH]; intros m Hm; [done|]. apply IH, insert_non_empty. }
      apply (Hne l (<[t:=n]> ∅)); [apply insert_non_empty|exact Hc].
    + rewrite decide_False; [by eexists|]. intros Ho. rewrite Ho in Hc. by apply Hc.
  - destruct (pe_scan engine response (prs_options s)) as [hits|]; [|by eexists].
    case_decide as Hc; [apply Hnil in Hc; subst; by exists Allow|].
    eexists. split; [done|]. rewrite decide_False by (by rewrite <- Hnil; intros []).
    eexists. split; [done|]. intros t.
    rewrite counts_entries_dom, Hdom. by rewrite elem_of_list_to_set.
Qed.
End ResponseTheorems.

(** The switch that asks for tool arguments has no effect from the
    environment. Settings read from it scan no assistant message, so where
    only assistant messages call tools, as in every conversation the API
    produces, the texts scanned are the same with the switch off. *)
Theorem env_tool_arguments_unscanned env parse_f32 settings ms :
  settings_from_env env parse_f32 = Some settings ->
  Forall (fun m => msg_role m <> Assistant -> msg_tool_calls m = None) ms ->
  collect_slots settings ms =
    collect_slots {| ps_mode := ps_mode settings; ps_options := ps_options settings;
                     ps_apply_to := ps_apply_to settings; ps_scan_tool_arguments := false;
                     ps_fail_open := ps_fail_open settings |} ms.
Proof.
  unfold settings_from_env. intros Hs Hms. destruct (env "GUARDRAILS_PII_MODE") as [v|]; [|done].
  cbn in Hs. destruct (pii_mode_parse v) as [mode|]; [|done]. injection Hs as <-.
  unfold collect_slots. cbv zeta.
  match goal with |- (?a.*1, ?a.*2) = (?b.*1, ?b.*2) => assert (a = b) as -> end; [|done].
  f_equal. apply imap_ext. intros i m Hm. unfold message_slots. cbn [ps_apply_to ps_scan_tool_arguments].
  case_bool_decide as Hr; [|done]. f_equal.
  destruct (match env "GUARDRAILS_PII_SCAN_TOOL_ARGS" with Some _ => _ | None => _ end); [|done].
  apply list_elem_of_lookup_2 in Hm. rewrite Forall_forall in Hms. rewrite (Hms m Hm); [done|].
  intros Ha. rewrite Ha in Hr. cbn in Hr. by repeat (apply elem_of_cons in Hr as [?|Hr]; [done|]);
    apply not_elem_of_nil in Hr.
Qed.

(** ** Witnesses *)

(** An engine that finds one entity, [SECRET]. *)
#[local] Instance demo_engine : PiiEngine unit :=
  {| pe_scan := fun _ text _ => Ok match str_find "SECRET" text with
       | Some i => [{| hit_entity_type := "TEST_ENTITY"; hit_start := Z.of_nat i;
                       hit_end := Z.of_nat i + 6; hit_confidence := f32_lit 9 10 |}]
       | None => [] end;
     pe_redact := fun _ text _ => Ok match str_find "SECRET" text with
       | Some i => {| out_text := str_take i text +:+ "[X]" +:+ str_drop (i + 6) text;
                      out_replaced := [("TEST_ENTITY", 1)] |}
       | None => {| out_text := text; out_replaced := [] |} end |}.

Definition demo_context (ms : list Message) : PluginContext :=
  ctx_from_request "id"
    {| req_model := "m"; req_messages := ms; req_stream := false; req_temperature := None;
       req_top_p := None; req_max_tokens := None; req_stop := None; req_presence_penalty := None;
       req_frequency_penalty := None; req_user := None; req_tools := None; req_tool_choice := None;
       req_extra := ∅ |} None.

Definition block_settings : PiiGuardrailSettings :=
  {| ps_mode := ModeBlock; ps_options := default_redact_options;
     ps_apply_to := ps_apply_to default_pii_settings; ps_scan_tool_arguments := false;
     ps_fail_open := false |}.

Lemma pii_redacts_in_place_witness :
  req_messages (ctx_request (pii_execute (W := unit) tt None None (Some default_pii_settings)
    (demo_context [message_user "the SECRET plan"; message_user "clean"]) tt).2.1) =
  [message_user "the [X] plan"; message_user "clean"].
Proof.
  pose proof (pii_redacts_in_place (W := unit) tt None None (Some default_pii_settings)
    default_pii_settings (demo_context [message_user "the SECRET plan"; message_user "clean"]) tt
    eq_refl eq_refl) as Hp.
  destruct (pii_execute _ _ _ _ _ _) as [r [ctx' w']]. cbn [fst snd]. destruct Hp as [_ ->].
  vm_compute. reflexivity.
Defined.

Lemma pii_blocks_by_type_witness :
  is_ok (pii_execute (W := unit) tt None None (Some block_settings)
    (demo_context [message_user "the SECRET plan"]) tt).1 = false.
Proof.
  pose proof (pii_blocks_by_type (W := unit) tt None None (Some block_settings) block_settings
    (demo_context [message_user "the SECRET plan"]) tt eq_refl eq_refl) as Hp.
  destruct (pii_execute _ _ _ _ _ _) as [[[]|e] [ctx' w']]; cbn [fst snd]; [|done].
  destruct Hp as [_ [[_ Hf]|[_ Hf]]]; [|done].
  exfalso. assert ("TEST_ENTITY" ∈ (∅ : gset string)) as Hin; [|by apply not_elem_of_empty in Hin].
  rewrite <- Hf. apply (bool_decide_unpack _). vm_compute. exact I.
Defined.

Lemma env_tool_arguments_unscanned_witness :
  exists settings, ps_scan_tool_arguments settings = true /\
    (collect_slots settings [message_user "hi"]).2 = ["hi"].
Proof.
  pose (env := fun name => if decide (name = "GUARDRAILS_PII_MODE") then Some "redact"
                           else if decide (name = "GUARDRAILS_PII_SCAN_TOOL_ARGS") then Some "true"
                           else None).
  eexists. split; [|rewrite (env_tool_arguments_unscanned env (fun _ => None) _ [message_user "hi"] eq_refl)].
  - vm_compute. reflexivity.
  - vm_compute. reflexivity.
  - repeat constructor; done.
Defined.
