(* ===== verification/FixedWindow.v ===== *)
(** * The fixed-window rate-limit plugin
    (src/crates/himadri-plugins/src/rate_limit.rs)

    A counter packs a window index and a count in one 64-bit word. A call reads
    the clock, then updates the word in one compare-and-swap: [fw_allow_n] is a
    call nothing interrupts, and [Module Interleaved] lets any number of calls
    sit between the two. The hash that picks a shard, the random eviction draw
    and the iteration order of a map are arguments. *)

From S2P Require Import Prelude Str Float Types NetGuard Plugin.

(** ** The counter *)

Record FixedWindowCounter := {
  fw_packed : Z;
  fw_window_us : Z;
  fw_max_requests : Z;
}.

Definition COUNT_MASK : Z := 4294967295.

(** [window] is a duration in nanoseconds. *)
Definition fw_new (max_requests window : Z) : FixedWindowCounter :=
  {| fw_packed := 0;
     fw_window_us := Z.max (wrap_u64 (window / 1000)) 1;
     fw_max_requests := Z.min max_requests COUNT_MASK |}.

Definition window_index (now_us : Z) (c : FixedWindowCounter) : Z :=
  Z.land (now_us / fw_window_us c) COUNT_MASK.

(** The count a packed word shows in window [w]. *)
Definition packed_count (packed w : Z) : Z :=
  if Z.shiftr packed 32 =? w then Z.land packed COUNT_MASK else 0.

(** The closure of [fetch_update]. *)
Definition fw_update (max_requests w n packed : Z) : option Z :=
  let next := saturating_add_u64 (packed_count packed w) n in
  if next <=? max_requests then Some (Z.lor (wrap_u64 (Z.shiftl w 32)) next) else None.

Definition with_packed (packed : Z) (c : FixedWindowCounter) : FixedWindowCounter :=
  {| fw_packed := packed; fw_window_us := fw_window_us c; fw_max_requests := fw_max_requests c |}.

Definition fw_allow_n (now_us n : Z) (c : FixedWindowCounter) : bool * FixedWindowCounter :=
  match fw_update (fw_max_requests c) (window_index now_us c) n (fw_packed c) with
  | Some packed => (true, with_packed packed c)
  | None => (false, c)
  end.

Definition fw_allow (now_us : Z) (c : FixedWindowCounter) : bool * FixedWindowCounter :=
  fw_allow_n now_us 1 c.

Definition fw_count (now_us : Z) (c : FixedWindowCounter) : Z :=
  packed_count (fw_packed c) (window_index now_us c).

Definition fw_reset (now_us : Z) (c : FixedWindowCounter) : FixedWindowCounter :=
  with_packed (wrap_u64 (Z.shiftl (window_index now_us c) 32)) c.

(** ** The stores *)

Record RateLimiterStore := {
  rls_shards : list (gmap string FixedWindowCounter);
  rls_num_shards : nat;
  rls_rate : Z;
  rls_window : Z;
  rls_max_keys : Z;
}.

Definition rls_new (rate window max_keys : Z) (num_shards : nat) : RateLimiterStore :=
  {| rls_shards := replicate num_shards ∅; rls_num_shards := num_shards; rls_rate := rate;
     rls_window := window; rls_max_keys := max_keys |}.

Definition with_rls_shards (shards : list (gmap string FixedWindowCounter)) (s : RateLimiterStore)
    : RateLimiterStore :=
  {| rls_shards := shards; rls_num_shards := rls_num_shards s; rls_rate := rls_rate s;
     rls_window := rls_window s; rls_max_keys := rls_max_keys s |}.

Section Store.
Context (hash : string -> Z) (random : Z).
Context (map_keys : gmap string FixedWindowCounter -> list string).

(** [None] where the source panics. *)
Definition rls_shard_index (key : string) (s : RateLimiterStore) : option nat :=
  if decide (rls_num_shards s = 0%nat) then None
  else Some (Z.to_nat (wrap_u64 (hash key) mod Z.of_nat (rls_num_shards s))).

(** Make room in a full shard. *)
Definition rls_evict (max_keys : Z) (m : gmap string FixedWindowCounter)
    : gmap string FixedWindowCounter :=
  if (0 <? max_keys) && (max_keys <=? Z.of_nat (size m)) then
    match map_keys m !! Z.to_nat (wrap_u64 random mod Z.of_nat (size m)) with
    | Some k => delete k m
    | None => m
    end
  else m.

Definition rls_allow (now_us : Z) (key : string) (s : RateLimiterStore)
    : option (bool * RateLimiterStore) :=
  match rls_shard_index key s with
  | None => None
  | Some i =>
      match rls_shards s !! i with
      | None => None
      | Some m =>
          match m !! key with
          | Some counter =>
              let '(ok, counter) := fw_allow now_us counter in
              Some (ok, with_rls_shards (<[i := <[key := counter]> m]> (rls_shards s)) s)
          | None =>
              let m := rls_evict (rls_max_keys s) m in
              let '(ok, counter) := fw_allow now_us (fw_new (rls_rate s) (rls_window s)) in
              Some (ok, with_rls_shards (<[i := <[key := counter]> m]> (rls_shards s)) s)
          end
      end
  end.

Definition rls_get_count (now_us : Z) (key : string) (s : RateLimiterStore) : option Z :=
  match rls_shard_index key s ≫= fun i => rls_shards s !! i with
  | None => None
  | Some m => Some (match m !! key with Some c => fw_count now_us c | None => 0 end)
  end.

Definition rls_reset (now_us : Z) (key : string) (s : RateLimiterStore)
    : option RateLimiterStore :=
  match rls_shard_index key s with
  | None => None
  | Some i =>
      match rls_shards s !! i with
      | None => None
      | Some m =>
          match m !! key with
          | Some c =>
              Some (with_rls_shards (<[i := <[key := fw_reset now_us c]> m]> (rls_shards s)) s)
          | None => Some s
          end
      end
  end.

Definition rls_reset_all (s : RateLimiterStore) : RateLimiterStore :=
  with_rls_shards ((fun _ => ∅) <$> rls_shards s) s.

(** The same by the name of a store, which may not exist. [None] is a panic. *)
Definition reset_store_key (now_us : Z) (store_id key : string) (stores : gmap string RateLimiterStore)
    : option (gmap string RateLimiterStore) :=
  match stores !! store_id with
  | Some s => (fun s => <[store_id := s]> stores) <$> rls_reset now_us key s
  | None => Some stores
  end.

Definition reset_store (store_id : string) (stores : gmap string RateLimiterStore)
    : gmap string RateLimiterStore := alter rls_reset_all store_id stores.

Definition get_request_count (now_us : Z) (store_id key : string) (stores : gmap string RateLimiterStore)
    : option Z :=
  match registry_with store_id (rls_get_count now_us key) stores with Some count => count | None => Some 0 end.

(** ** The plugin *)

(** The stores of the process, by name, and the counter of the plugin's own
    global limit. *)
Record RateLimitWorld := {
  rlw_global : option FixedWindowCounter;
  rlw_stores : gmap string RateLimiterStore;
}.

Record RateLimitSettings := {
  rls_store_id : option string;
  rls_requests_per_second : option Z;
  rls_key_rpm : option Z;
  rls_user_rpm : option Z;
  rls_ip_rpm : option Z;
  rls_cfg_max_keys : option Z;
}.

Definition RL_DEFAULT_MAX_KEYS : Z := 100000.

Record RateLimitPluginState := {
  rlp_key_store : option string;
  rlp_user_store : option string;
  rlp_ip_store : option string;
}.

(** [make_store]: the name, registered if it was not. *)
Definition make_store (scope store_id : string) (rpm : option Z) (max_keys : Z)
    (stores : gmap string RateLimiterStore) : option string * gmap string RateLimiterStore :=
  match rpm with
  | None => (None, stores)
  | Some rpm =>
      let name := scope +:+ "-" +:+ store_id in
      (Some name, (get_or_create name (rls_new rpm (60 * 10 ^ 9) max_keys 64) stores).2)
  end.

Definition rate_limit_new (cfg : RateLimitSettings) (stores : gmap string RateLimiterStore)
    : RateLimitPluginState * RateLimitWorld :=
  let max_keys := default RL_DEFAULT_MAX_KEYS (rls_cfg_max_keys cfg) in
  let global := (fun rps => fw_new rps (10 ^ 9)) <$> rls_requests_per_second cfg in
  let store_id := default "default" (rls_store_id cfg) in
  let '(k, stores) := make_store "key" store_id (rls_key_rpm cfg) max_keys stores in
  let '(u, stores) := make_store "user" store_id (rls_user_rpm cfg) max_keys stores in
  let '(i, stores) := make_store "ip" store_id (rls_ip_rpm cfg) max_keys stores in
  ({| rlp_key_store := k; rlp_user_store := u; rlp_ip_store := i |},
   {| rlw_global := global; rlw_stores := stores |}).

Definition rl_rejected (reason : string) : PluginError :=
  Rejected "rate-limit" reason (KindRateLimited 60).

Definition rl_get_api_key (ctx : PluginContext) : option string :=
  let from_auth :=
    match ctx_auth ctx with
    | Some a => match auth_key_id a with Some k => Some k | None => auth_user_id a end
    | None => None
    end in
  match get_metadata "api_key" ctx ≫= value_as_str with
  | Some s => if str_is_empty s then from_auth else Some s
  | None => from_auth
  end.

Definition rl_get_user_id (ctx : PluginContext) : option string :=
  match get_metadata "user_id" ctx ≫= value_as_str with
  | Some s => Some s
  | None => ctx_auth ctx ≫= auth_key_id
  end.

(** A check against a named store, when the store and the identity are there. *)
Definition store_check (now_us : Z) (store : option string) (id : option string)
    (w : RateLimitWorld) : option (bool * RateLimitWorld) :=
  match store, id with
  | Some name, Some id =>
      match rlw_stores w !! name with
      | Some s =>
          match rls_allow now_us id s with
          | Some (ok, s) =>
              Some (ok, {| rlw_global := rlw_global w; rlw_stores := <[name := s]> (rlw_stores w) |})
          | None => None
          end
      | None => None
      end
  | _, _ => Some (true, w)
  end.

(** [None] where the source panics; one clock reading per check. *)
Definition rate_limit_execute (p : RateLimitPluginState) (t_global t_key t_user t_ip : Z)
    (ctx : PluginContext) (w : RateLimitWorld)
    : option (result unit PluginError * RateLimitWorld) :=
  let '(ok, w) :=
    match rlw_global w with
    | Some c =>
        let '(ok, c) := fw_allow t_global c in
        (ok, {| rlw_global := Some c; rlw_stores := rlw_stores w |})
    | None => (true, w)
    end in
  if negb ok then Some (Err (rl_rejected "rate limit exceeded"), w)
  else
    match store_check t_key (rlp_key_store p) (rl_get_api_key ctx) w with
    | None => None
    | Some (false, w) => Some (Err (rl_rejected "per-key rate limit exceeded"), w)
    | Some (true, w) =>
        match store_check t_user (rlp_user_store p) (rl_get_user_id ctx) w with
        | None => None
        | Some (false, w) => Some (Err (rl_rejected "per-user rate limit exceeded"), w)
        | Some (true, w) =>
            let ip := ctx_remote_ip ctx ≫= fun ip =>
              match parse_ip ip with Some _ => Some ip | None => None end in
            match store_check t_ip (rlp_ip_store p) ip w with
            | None => None
            | Some (false, w) => Some (Err (rl_rejected "per-IP rate limit exceeded"), w)
            | Some (true, w) => Some (Ok tt, w)
            end
        end
    end.
End Store.

(** ** Packing *)

Lemma land_mask x : Z.land x COUNT_MASK = x mod 2 ^ 32.
Proof. change COUNT_MASK with (Z.ones 32). by rewrite Z.land_ones. Qed.

Lemma window_index_range now c : 0 <= window_index now c <= COUNT_MASK.
Proof.
  unfold window_index. rewrite land_mask.
  pose proof (Z.mod_pos_bound (now / fw_window_us c) (2 ^ 32) eq_refl).
  unfold COUNT_MASK. lia.
Qed.

Definition pack (w count : Z) : Z := Z.lor (wrap_u64 (Z.shiftl w 32)) count.

Lemma pack_window w count : 0 <= w <= COUNT_MASK -> 0 <= count <= COUNT_MASK ->
  Z.shiftr (pack w count) 32 = w /\ Z.land (pack w count) COUNT_MASK = count.
Proof.
  unfold pack, COUNT_MASK. intros Hw Hc.
  rewrite wrap_u64_small by (unfold u64, U64_MAX; rewrite Z.shiftl_mul_pow2 by lia; lia).
  split.
  - rewrite Z.shiftr_lor, Z.shiftr_shiftl_l, (Z.shiftr_div_pow2 count) by lia.
    rewrite Z.div_small by lia. by rewrite Z.sub_diag, Z.shiftl_0_r, Z.lor_0_r.
  - change 4294967295 with COUNT_MASK. rewrite Z.land_lor_distr_l, !land_mask.
    rewrite Z.shiftl_mul_pow2, Z.mod_mul by lia. rewrite Z.mod_small by lia.
    apply Z.lor_0_l.
Qed.

Lemma packed_count_range packed w : 0 <= packed_count packed w <= COUNT_MASK.
Proof.
  unfold packed_count, COUNT_MASK. destruct (_ =? _); [|lia].
  change 4294967295 with COUNT_MASK. rewrite land_mask.
  pose proof (Z.mod_pos_bound packed (2 ^ 32) eq_refl). unfold COUNT_MASK. lia.
Qed.

(** One update, on windows and counts instead of words. *)
Lemma fw_update_spec max w n packed :
  0 <= w <= COUNT_MASK -> 0 <= n -> max <= COUNT_MASK ->
  fw_update max w n packed =
    if packed_count packed w + n <=? max then Some (pack w (packed_count packed w + n)) else None.
Proof.
  intros Hw Hn Hmax. unfold fw_update, saturating_add_u64.
  pose proof (packed_count_range packed w). unfold COUNT_MASK, U64_MAX in *.
  destruct (Z.leb_spec (packed_count packed w + n) max);
    destruct (Z.leb_spec (Z.min (packed_count packed w + n) (2 ^ 64 - 1)) max); try lia; [|done].
  by rewrite Z.min_l by lia.
Qed.

Lemma packed_count_pack w w' count : 0 <= w <= COUNT_MASK -> 0 <= count <= COUNT_MASK ->
  packed_count (pack w count) w' = if w =? w' then count else 0.
Proof.
  intros Hw Hc. unfold packed_count. by destruct (pack_window w count Hw Hc) as [-> ->].
Qed.

(** ** Calls that interleave *)

Definition count_of (w : Z) (l : list Z) : Z := Z.of_nat (length (filter (fun x => x = w) l)).

Lemma count_of_cons w x l : count_of w (x :: l) = (if decide (x = w) then 1 else 0) + count_of w l.
Proof. unfold count_of. rewrite filter_cons. case_decide; cbn [length]; lia. Qed.

Lemma count_of_nonneg w l : 0 <= count_of w l.
Proof. unfold count_of. lia. Qed.

Module Interleaved.
Section Steps.
Context (max_requests window_us : Z).

(** The clock, the word, the windows the calls in flight have read, and the
    windows in which calls were admitted. *)
Record sys := { clock : Z; word : Z; inflight : list Z; log : list Z }.

Definition index_at (now : Z) : Z := Z.land (now / window_us) COUNT_MASK.

Inductive step (fresh : bool) : sys -> sys -> Prop :=
  | step_tick t p l g t' : t <= t' ->
      step fresh {| clock := t; word := p; inflight := l; log := g |}
                 {| clock := t'; word := p; inflight := l; log := g |}
  | step_read t p l g :
      step fresh {| clock := t; word := p; inflight := l; log := g |}
                 {| clock := t; word := p; inflight := index_at t :: l; log := g |}
  | step_admit t p l1 w l2 g p' :
      (fresh = true -> w = index_at t) -> fw_update max_requests w 1 p = Some p' ->
      step fresh {| clock := t; word := p; inflight := l1 ++ w :: l2; log := g |}
                 {| clock := t; word := p'; inflight := l1 ++ l2; log := w :: g |}
  | step_refuse t p l1 w l2 g :
      (fresh = true -> w = index_at t) -> fw_update max_requests w 1 p = None ->
      step fresh {| clock := t; word := p; inflight := l1 ++ w :: l2; log := g |}
                 {| clock := t; word := p; inflight := l1 ++ l2; log := g |}.

Definition init : sys := {| clock := 0; word := 0; inflight := []; log := [] |}.

(** Kept while no call applies in a window that is over. *)
Record inv (s : sys) : Prop := {
  inv_clock : 0 <= clock s;
  inv_word : exists w c, word s = pack w c /\ 0 <= w <= clock s / window_us /\
    w <= COUNT_MASK /\ 0 <= c <= max_requests /\ count_of w (log s) = c /\
    forall w', w < w' -> count_of w' (log s) = 0;
  inv_bound : forall w, count_of w (log s) <= max_requests;
}.

Lemma counter_inv_init : 0 <= max_requests -> 0 < window_us -> inv init.
Proof.
  intros Hm Hw. split; cbn; [lia| |done].
  exists 0, 0. split_and!; try done; try lia.
Qed.

Lemma counter_inv_step s s' : 0 <= max_requests <= COUNT_MASK -> 0 < window_us ->
  clock s' / window_us <= COUNT_MASK -> inv s -> step true s s' -> inv s'.
Proof.
  intros Hm Hw Hend [Hc (w & c & Hp & Hwr & Hwm & Hcr & Hcount & Hlater) Hbound] Hstep.
  destruct Hstep as [t p l g t' Ht|t p l g|t p l1 v l2 g p' Hv Hup|t p l1 v l2 g Hv Hup];
    cbn in *; subst.
  - split; cbn; [lia| |done]. exists w, (count_of w g). split_and!; try done; try lia.
    pose proof (Z.div_le_mono t t' window_us Hw Ht). lia.
  - split; cbn; [done| |done]. exists w, (count_of w g). split_and!; done || lia.
  - specialize (Hv eq_refl).
    assert (v = t / window_us) as Hidx.
    { rewrite Hv. unfold index_at. rewrite land_mask. unfold COUNT_MASK in Hend.
      apply Z.mod_small. lia. }
    rewrite fw_update_spec in Hup by lia. rewrite packed_count_pack in Hup by lia.
    destruct (Z.eqb_spec w v) as [->|Hne].
    + destruct (Z.leb_spec (count_of v g + 1) max_requests); [|done]. injection Hup as <-.
      split; cbn; [done| |].
      * exists v, (count_of v g + 1). rewrite count_of_cons, decide_True by done.
        split_and!; try done; try lia. intros w' Hw'. rewrite count_of_cons, decide_False by lia.
        rewrite Hlater by done. lia.
      * intros w'. rewrite count_of_cons. case_decide; [subst; lia|]. rewrite Z.add_0_l. apply Hbound.
    + destruct (Z.leb_spec (0 + 1) max_requests); [|done]. injection Hup as <-.
      assert (count_of v g = 0) as Hv0 by (apply Hlater; lia).
      split; cbn; [done| |].
      * exists v, 1. rewrite count_of_cons, decide_True by done.
        split_and!; try done; try lia. intros w' Hw'. rewrite count_of_cons, decide_False by lia.
        rewrite Hlater by lia. lia.
      * intros w'. rewrite count_of_cons. case_decide; [subst; lia|]. rewrite Z.add_0_l. apply Hbound.
  - split; cbn; [done| |done]. exists w, (count_of w g). split_and!; done || lia.
Qed.

Lemma clock_steps fresh s s' : 0 < window_us -> rtc (step fresh) s s' -> clock s <= clock s'.
Proof.
  intros Hw. induction 1 as [|s1 s2 s3 Hstep _ IH]; [lia|]. destruct Hstep; cbn in *; lia.
Qed.

Lemma counter_inv_steps s s' : 0 <= max_requests <= COUNT_MASK -> 0 < window_us ->
  clock s' / window_us <= COUNT_MASK -> inv s -> rtc (step true) s s' -> inv s'.
Proof.
  intros Hm Hw Hend Hinv Hrun. induction Hrun as [|s1 s2 s3 Hstep Hrest IH]; [done|].
  apply IH; [done|]. eapply counter_inv_step; try done.
  pose proof (clock_steps true _ _ Hw Hrest).
  pose proof (Z.div_le_mono (clock s2) (clock s3) window_us Hw ltac:(lia)). lia.
Qed.
End Steps.
End Interleaved.

(** ** Schedules in which calls straddle a boundary *)

Section Overrun.
Context (max_requests window_us : Z).
Context (Hmax : 1 <= max_requests <= COUNT_MASK) (Hwindow : 0 < window_us).
Import Interleaved.

Abbreviation run := (rtc (step max_requests window_us false)).

Lemma index_one : index_at window_us window_us = 1.
Proof. unfold index_at. by rewrite Z.div_same by lia. Qed.

(** The word of another window admits. *)
Lemma admit_elsewhere w v c : 0 <= w <= 1 -> 0 <= v <= 1 -> w <> v -> 0 <= c <= COUNT_MASK ->
  fw_update max_requests w 1 (pack v c) = Some (pack w 1).
Proof.
  intros Hw Hv Hne Hc. rewrite fw_update_spec by (unfold COUNT_MASK in *; lia).
  rewrite packed_count_pack by (unfold COUNT_MASK in *; lia).
  rewrite (proj2 (Z.eqb_neq v w)) by lia.
  by rewrite (proj2 (Z.leb_le (0 + 1) max_requests)) by lia.
Qed.

Lemma read_stale k l : run {| clock := 0; word := 0; inflight := l; log := [] |}
  {| clock := 0; word := 0; inflight := replicate k 0 ++ l; log := [] |}.
Proof.
  induction k as [|k IH]; cbn; [done|]. eapply rtc_r; [exact IH|].
  apply step_read.
Qed.

(** A round: one call of window 1 is admitted, then a stale one puts the word
    back to window 0. *)
Lemma overrun_round c l g : 0 <= c <= COUNT_MASK ->
  run {| clock := window_us; word := pack 0 c; inflight := 0 :: l; log := g |}
      {| clock := window_us; word := pack 0 1; inflight := l; log := 0 :: 1 :: g |}.
Proof.
  intros Hc. eapply rtc_l; [apply step_read|]. rewrite index_one.
  eapply rtc_l.
  { apply (step_admit _ _ _ _ _ [] 1 (0 :: l)); [done|]. by apply admit_elsewhere. }
  eapply rtc_l.
  { apply (step_admit _ _ _ _ _ [] 0 l); [done|]. by apply admit_elsewhere. }
  done.
Qed.

Lemma overrun_rounds k c g : 0 <= c <= COUNT_MASK -> exists s,
  run {| clock := window_us; word := pack 0 c; inflight := replicate k 0; log := g |} s /\
  count_of 1 (log s) = Z.of_nat k + count_of 1 g.
Proof.
  revert c g. induction k as [|k IH]; intros c g Hc; [by eexists; split|].
  destruct (IH 1 (0 :: 1 :: g)) as (s & Hrun & Hcount); [by unfold COUNT_MASK|].
  exists s. split; [by etrans; [apply overrun_round|]|].
  rewrite Hcount, !count_of_cons, decide_False, decide_True by done. lia.
Qed.

Lemma overrun k : exists s, run init s /\ count_of 1 (log s) = Z.of_nat k.
Proof.
  destruct (overrun_rounds k 0 []) as (s & Hrun & Hcount); [by unfold COUNT_MASK|].
  exists s. split; [|rewrite Hcount; change (count_of 1 []) with 0; lia].
  etrans; [apply (read_stale k [])|]. rewrite app_nil_r.
  eapply rtc_l; [|exact Hrun]. change (pack 0 0) with 0. constructor. lia.
Qed.
End Overrun.

(** ** Calls one after the other *)

Fixpoint fw_run (times : list Z) (c : FixedWindowCounter) : list (Z * bool) * FixedWindowCounter :=
  match times with
  | [] => ([], c)
  | t :: ts =>
      let '(ok, c) := fw_allow t c in
      let '(answers, c) := fw_run ts c in ((t, ok) :: answers, c)
  end.

Definition admitted_in (c : FixedWindowCounter) (w : Z) (answers : list (Z * bool)) : Z :=
  count_of w ((fun a => window_index a.1 c) <$> filter (fun a => a.2 = true) answers).

Definition calls_in (c : FixedWindowCounter) (w : Z) (times : list Z) : Z :=
  count_of w ((fun t => window_index t c) <$> times).

(** Times at which windows only move on. *)
Fixpoint windows_from (c : FixedWindowCounter) (w : Z) (times : list Z) : Prop :=
  match times with
  | [] => True
  | t :: ts => w <= window_index t c /\ windows_from c (window_index t c) ts
  end.

Lemma windows_from_with p c w times :
  windows_from c w times -> windows_from (with_packed p c) w times.
Proof.
  revert w. induction times as [|t ts IH]; intros w; [done|]. cbn [windows_from].
  intros [Hle H]. split; [exact Hle|]. by apply IH.
Qed.

Lemma windows_from_le c w w' times : w <= w' -> windows_from c w' times -> windows_from c w times.
Proof. destruct times as [|t ts]; [done|]. cbn [windows_from]. intros ? []. split; [lia|done]. Qed.

Lemma calls_in_later c w w' times : windows_from c w' times -> w < w' -> calls_in c w times = 0.
Proof.
  revert w'. induction times as [|t ts IH]; intros w' Hw Hlt; [done|].
  unfold calls_in in *. rewrite fmap_cons, count_of_cons. destruct Hw as [Hw Hrest].
  rewrite decide_False by lia. rewrite (IH _ Hrest); lia.
Qed.

Lemma fw_run_exact times c w0 c0 : fw_packed c = pack w0 c0 ->
  0 <= w0 <= COUNT_MASK -> 0 <= c0 <= fw_max_requests c -> fw_max_requests c <= COUNT_MASK ->
  windows_from c w0 times -> forall w,
  admitted_in c w (fw_run times c).1 + (if w =? w0 then c0 else 0) =
    Z.min (fw_max_requests c) (calls_in c w times + (if w =? w0 then c0 else 0)).
Proof.
  revert c w0 c0. induction times as [|t ts IH]; intros c w0 c0 Hp Hw0 Hc0 Hmax Hwin w.
  { assert (admitted_in c w [] = 0) by done. assert (calls_in c w [] = 0) by done.
    cbn [fw_run fst]. destruct (w =? w0); lia. }
  destruct Hwin as [Hle Hwin]. cbn [fw_run].
  pose proof (window_index_range t c) as Hidx. set (v := window_index t c) in *.
  assert (Hcalls : calls_in c w (t :: ts) = (if decide (v = w) then 1 else 0) + calls_in c w ts).
  { unfold calls_in. by rewrite fmap_cons, count_of_cons. }
  assert (Hcnt : packed_count (fw_packed c) v = if w0 =? v then c0 else 0).
  { rewrite Hp. apply packed_count_pack; lia. }
  unfold fw_allow, fw_allow_n. fold v. rewrite fw_update_spec, Hcnt by lia.
  set (c1 := if w0 =? v then c0 else 0). assert (0 <= c1 <= fw_max_requests c) as Hc1.
  { unfold c1. destruct (w0 =? v); lia. }
  destruct (Z.leb_spec (c1 + 1) (fw_max_requests c)) as [Hok|Hfull].
  - set (c' := with_packed (pack v (c1 + 1)) c).
    specialize (IH c' v (c1 + 1) eq_refl Hidx ltac:(cbn; lia) Hmax
      (windows_from_with _ _ _ _ Hwin) w).
    destruct (fw_run ts c') as [answers c''] eqn:Er. cbn [fst] in *.
    change (admitted_in c' w answers) with (admitted_in c w answers) in IH.
    change (calls_in c' w ts) with (calls_in c w ts) in IH.
    change (fw_max_requests c') with (fw_max_requests c) in IH.
    assert (admitted_in c w ((t, true) :: answers) =
      (if decide (v = w) then 1 else 0) + admitted_in c w answers) as ->.
    { unfold admitted_in. rewrite filter_cons, decide_True by done.
      by rewrite fmap_cons, count_of_cons. }
    rewrite Hcalls. unfold c1 in *.
    pose proof (calls_in_later c w v ts Hwin) as Hlater.
    destruct (Z.eqb_spec w v), (Z.eqb_spec w w0), (Z.eqb_spec w0 v), (decide (v = w));
      subst; try lia.
  - specialize (IH c w0 c0 Hp Hw0 Hc0 Hmax).
    assert (c0 = fw_max_requests c) as Hc0max.
    { unfold c1 in *. destruct (Z.eqb_spec w0 v); lia. }
    specialize (IH (windows_from_le _ _ _ _ Hle Hwin) w).
    destruct (fw_run ts c) as [answers c''] eqn:Er. cbn [fst] in *.
    assert (admitted_in c w ((t, false) :: answers) = admitted_in c w answers) as ->.
    { unfold admitted_in. by rewrite filter_cons, decide_False by done. }
    rewrite Hcalls.
    assert (0 <= calls_in c w ts) by apply count_of_nonneg.
    destruct (Z.eqb_spec w w0), (decide (v = w)); try lia.
    assert (c1 = fw_max_requests c) by lia. unfold c1 in *. destruct (Z.eqb_spec w0 v); lia.
Qed.

(** ** Properties *)

(** One call after the other, as long as windows only move on, the
    requests admitted in a window are the first [max_requests] asked in it:
    their number is the smaller of the limit and the calls made. *)
Theorem fixed_window_exact max window times w :
  0 <= max -> let c := fw_new max window in
  windows_from c 0 times ->
  admitted_in c w (fw_run times c).1 = Z.min (Z.min max COUNT_MASK) (calls_in c w times).
Proof.
  intros Hmax c Hwin.
  pose proof (fw_run_exact times c 0 0 eq_refl) as H. cbn [fw_max_requests c fw_new] in H.
  specialize (H ltac:(unfold COUNT_MASK; lia) ltac:(unfold COUNT_MASK; lia) ltac:(lia) Hwin w).
  destruct (w =? 0); rewrite !Z.add_0_r in H; exact H.
Qed.

(** Calls that interleave never admit more than [max_requests] in one
    window, provided each applies its update in the window it read: reading
    the clock and winning the compare-and-swap may be apart, but not across a
    boundary. *)
Theorem fixed_window_bound_fresh max_requests window_us s w :
  0 <= max_requests <= COUNT_MASK -> 0 < window_us ->
  rtc (Interleaved.step max_requests window_us true) Interleaved.init s ->
  Interleaved.clock s / window_us <= COUNT_MASK ->
  count_of w (Interleaved.log s) <= max_requests.
Proof.
  intros Hm Hw Hrun Hend. eapply Interleaved.inv_bound, Interleaved.counter_inv_steps;
    [exact Hm|exact Hw|exact Hend| |exact Hrun]. apply Interleaved.counter_inv_init; [lia|done].
Qed.

(** Without that proviso there is no bound. A call that read the clock
    before a boundary and updates after it writes the old window back, so the
    count of the new one is forgotten: whatever the limit, some schedule
    admits any number of requests in one window. *)
Theorem fixed_window_stale_overrun max_requests window_us k :
  1 <= max_requests <= COUNT_MASK -> 0 < window_us -> exists s,
  rtc (Interleaved.step max_requests window_us false) Interleaved.init s /\
  count_of 1 (Interleaved.log s) = Z.of_nat k.
Proof. intros. by apply overrun. Qed.

(** The per-user limit never looks at the user. Without a [user_id] in the
    context's metadata, which nothing sets, its key is the principal's key id:
    the answer is the same for any two users of one key, and a principal known
    by its user id alone is not limited at all. *)
Theorem user_limit_ignores_user_id hash random map_keys p t1 t2 t3 t4 ctx w :
  get_metadata "user_id" ctx = None -> ctx_auth ctx ≫= auth_key_id = None ->
  rate_limit_execute hash random map_keys p t1 t2 t3 t4 ctx w =
  rate_limit_execute hash random map_keys
    {| rlp_key_store := rlp_key_store p; rlp_user_store := None; rlp_ip_store := rlp_ip_store p |}
    t1 t2 t3 t4 ctx w.
Proof.
  intros Hm Hk. unfold rate_limit_execute.
  destruct (match rlw_global w with Some c => _ | None => _ end) as [ok w'].
  destruct (negb ok); [done|]. cbn [rlp_key_store rlp_user_store rlp_ip_store].
  destruct (store_check _ _ _ t2 _ _ w') as [[[] w2]|]; [|done|done].
  assert (rl_get_user_id ctx = None) as -> by (unfold rl_get_user_id; by rewrite Hm, Hk).
  assert (store_check hash random map_keys t3 (rlp_user_store p) None w2 = Some (true, w2)) as ->
    by (unfold store_check; by destruct (rlp_user_store p)).
  done.
Qed.

(** Resetting a store by its name forgets every count in it, and no other store. *)
Theorem reset_store_clears hash now id key stores s :
  stores !! id = Some s -> rls_num_shards s <> 0%nat -> length (rls_shards s) = rls_num_shards s ->
  get_request_count hash now id key (reset_store id stores) = Some 0 /\
  forall other, other <> id ->
    get_request_count hash now other key (reset_store id stores) = get_request_count hash now other key stores.
Proof.
  intros Hs Hn Hl. unfold get_request_count, registry_with, reset_store. split.
  - rewrite lookup_alter_eq, Hs.
    pose proof (Z.mod_pos_bound (wrap_u64 (hash key)) (Z.of_nat (rls_num_shards s))) as Hb.
    destruct (lookup_lt_is_Some_2 (rls_shards s) (Z.to_nat (wrap_u64 (hash key) mod Z.of_nat (rls_num_shards s))))
      as [m Hm]; [lia|].
    assert (rls_shards (rls_reset_all s) !! Z.to_nat (wrap_u64 (hash key) mod Z.of_nat (rls_num_shards s)) = Some ∅)
      as He by (unfold rls_reset_all; cbn [rls_shards with_rls_shards]; by rewrite list_lookup_fmap, Hm).
    cbn [fmap option_fmap option_map]. unfold rls_get_count, rls_shard_index.
    change (rls_num_shards (rls_reset_all s)) with (rls_num_shards s).
    rewrite decide_False by done. cbn [mbind option_bind]. by rewrite He, lookup_empty.
  - intros other Ho. by rewrite lookup_alter_ne.
Qed.

(** A store never holds more keys in a shard than [max_keys], whichever
    key the eviction draws. *)
Theorem rls_allow_bounded hash random map_keys now key s ok s' :
  0 < rls_max_keys s ->
  (forall m, map_keys m ≡ₚ (map_to_list m).*1) ->
  Forall (fun m => Z.of_nat (size m) <= rls_max_keys s) (rls_shards s) ->
  rls_allow hash random map_keys now key s = Some (ok, s') ->
  rls_max_keys s' = rls_max_keys s /\
  Forall (fun m => Z.of_nat (size m) <= rls_max_keys s) (rls_shards s').
Proof.
  intros Hpos Hkeys Hb. unfold rls_allow.
  destruct (rls_shard_index hash key s) as [i|]; [|done].
  destruct (rls_shards s !! i) as [m|] eqn:Ei; [|done].
  assert (Z.of_nat (size m) <= rls_max_keys s) as Hm.
  { rewrite Forall_lookup in Hb. by eapply Hb. }
  destruct (m !! key) as [c|] eqn:Ek.
  - destruct (fw_allow now c) as [ok' c']. intros [= <- <-]. split; [done|].
    apply Forall_insert; [done|]. by rewrite map_size_insert_Some by eauto.
  - destruct (fw_allow now (fw_new _ _)) as [ok' c']. intros [= <- <-]. split; [done|].
    apply Forall_insert; [done|].
    unfold rls_evict. rewrite (proj2 (Z.ltb_lt 0 _)) by done. cbn [andb].
    destruct (Z.leb_spec (rls_max_keys s) (Z.of_nat (size m))) as [Hfull|Hroom].
    + assert (0 < Z.of_nat (size m)) as Hsz by lia.
      pose proof (Z.mod_pos_bound (wrap_u64 random) (Z.of_nat (size m)) Hsz) as Hidx.
      set (idx := Z.to_nat (wrap_u64 random mod Z.of_nat (size m))).
      assert (idx < length (map_keys m))%nat as Hlt.
      { rewrite (Hkeys m), length_fmap, length_map_to_list. unfold idx. lia. }
      destruct (lookup_lt_is_Some_2 _ _ Hlt) as [k Hk]. rewrite Hk.
      assert (is_Some (m !! k)) as [v Hv].
      { apply list_elem_of_lookup_2 in Hk. rewrite (Hkeys m) in Hk.
        apply list_elem_of_fmap in Hk as ([k' v] & -> & Hin).
        apply elem_of_map_to_list in Hin. eauto. }
      assert (k <> key) by congruence.
      rewrite map_size_insert_None by (by rewrite lookup_delete_ne).
      rewrite map_size_delete_Some by eauto. lia.
    + rewrite map_size_insert_None by done. lia.
Qed.

(** ** Witnesses *)

Lemma fixed_window_exact_witness :
  admitted_in (fw_new 2 (10 ^ 9)) 1
    (fw_run [0; 1000000; 1000001; 1000002; 2000000] (fw_new 2 (10 ^ 9))).1 = 2.
Proof.
  rewrite (fixed_window_exact 2 (10 ^ 9) [0; 1000000; 1000001; 1000002; 2000000] 1);
    [by vm_compute|lia|].
  vm_compute. repeat split; discriminate.
Defined.

Lemma fixed_window_bound_fresh_witness : exists s,
  rtc (Interleaved.step 1 1000 true) Interleaved.init s /\
  Interleaved.log s = [0] /\ count_of 0 (Interleaved.log s) <= 1.
Proof.
  eexists. split; [|split; [shelve|]].
  - eapply rtc_l; [apply Interleaved.step_read|].
    eapply rtc_l; [apply (Interleaved.step_admit _ _ _ _ _ [] 0 [] _ 1); [done|by vm_compute]|].
    apply rtc_refl.
  - apply (fixed_window_bound_fresh 1 1000); [by unfold COUNT_MASK|done| |by vm_compute].
    eapply rtc_l; [apply Interleaved.step_read|].
    eapply rtc_l; [apply (Interleaved.step_admit _ _ _ _ _ [] 0 [] _ 1); [done|by vm_compute]|].
    apply rtc_refl.
  Unshelve. done.
Defined.

Lemma fixed_window_stale_overrun_witness : exists s,
  rtc (Interleaved.step 1 1000000 false) Interleaved.init s /\
  count_of 1 (Interleaved.log s) = 5.
Proof. apply (fixed_window_stale_overrun 1 1000000 5); [by unfold COUNT_MASK|done]. Defined.

Definition demo_ctx (auth : AuthContext) : PluginContext :=
  ctx_from_request "r1"
    {| req_model := "m"; req_messages := []; req_stream := false; req_temperature := None;
       req_top_p := None; req_max_tokens := None; req_stop := None; req_presence_penalty := None;
       req_frequency_penalty := None; req_user := None; req_tools := None;
       req_tool_choice := None; req_extra := ∅ |} (Some auth).

Definition demo_user : AuthContext :=
  {| auth_api_key := ""; auth_key_id := None; auth_scope := ApiKey; auth_org_id := None;
     auth_team_id := None; auth_user_id := Some "alice"; auth_rate_limit_override := None;
     auth_roles := []; auth_budget_limit_usd := None |}.

(** A limit of zero requests per user lets a user through. *)
Lemma user_limit_ignores_user_id_witness :
  let w := {| rlw_global := None; rlw_stores := {[ "user-default" := rls_new 0 1 10 1 ]} |} in
  let p := {| rlp_key_store := None; rlp_user_store := Some "user-default"; rlp_ip_store := None |} in
  rate_limit_execute (fun _ => 0) 0 (fun m => (map_to_list m).*1) p 0 0 0 0 (demo_ctx demo_user) w
  = Some (Ok tt, w).
Proof.
  intros w p.
  rewrite (user_limit_ignores_user_id (fun _ => 0) 0 (fun m => (map_to_list m).*1) p 0 0 0 0
    (demo_ctx demo_user) w); [by vm_compute|by vm_compute|by vm_compute].
Defined.

Lemma rls_allow_bounded_witness :
  let s := with_rls_shards [{[ "a" := fw_new 5 (10 ^ 9) ]}] (rls_new 5 (10 ^ 9) 1 1) in
  exists s', rls_allow (fun _ => 0) 7 (fun m => (map_to_list m).*1) 0 "b" s = Some (true, s') /\
  Forall (fun m => Z.of_nat (size m) <= 1) (rls_shards s').
Proof.
  intros s. eexists. split; [vm_compute; reflexivity|].
  eapply (rls_allow_bounded (fun _ => 0) 7 (fun m => (map_to_list m).*1) 0 "b" s);
    [done|done|by repeat constructor|vm_compute; reflexivity].
Defined.
