(* ===== verification/Budget.v ===== *)
(** * The budget plugin
    (src/crates/himadri-plugins/src/budget.rs)

    Spend per principal in whole micro-dollars, at the width of the code's
    [u64]; costs are [f64]. The stores of the process are a map from names,
    clock readings are arguments, and the iteration order of a [HashMap] is an
    argument ([iter]). *)

From S2P Require Import Prelude Str Float Types Plugin.

(** ** The spend store *)

Record SpendEntry := { se_micro_usd : Z; se_last_update : Z }.

Record SpendStore := { ss_spend : gmap string SpendEntry; ss_max_keys : Z }.

Definition million : f64 := f64_of_Z 1000000.

Definition usd_to_micro (usd : f64) : Z :=
  f64_as_u64 (f64_max (f64_round (f64_mul usd million)) f64_zero).

Definition micro_to_usd (micro : Z) : f64 := f64_div (f64_of_Z micro) million.

Definition spend_store_new (max_keys : Z) : SpendStore :=
  {| ss_spend := ∅; ss_max_keys := max_keys |}.

(** [iter().min_by_key(|(_, entry)| entry.last_update)]: the first of the
    least recently updated. *)
Fixpoint min_by_update (l : list (string * SpendEntry)) : option (string * SpendEntry) :=
  match l with
  | [] => None
  | x :: l =>
      match min_by_update l with
      | Some y => if se_last_update y.2 <? se_last_update x.2 then Some y else Some x
      | None => Some x
      end
  end.

Section Store.
Context (iter : gmap string SpendEntry -> list (string * SpendEntry)).

Definition spend_evict (key : string) (s : SpendStore) : gmap string SpendEntry :=
  let spend := ss_spend s in
  if bool_decide (spend !! key = None) && (0 <? ss_max_keys s)
     && (ss_max_keys s <=? Z.of_nat (size spend))
  then match min_by_update (iter spend) with
       | Some (lru_key, _) => delete lru_key spend
       | None => spend
       end
  else spend.

Definition spend_add (now : Z) (key : string) (usd : f64) (s : SpendStore) : SpendStore :=
  let spend := spend_evict key s in
  let micro := match spend !! key with Some e => se_micro_usd e | None => 0 end in
  {| ss_spend := <[key := {| se_micro_usd := saturating_add_u64 micro (usd_to_micro usd);
                             se_last_update := now |}]> spend;
     ss_max_keys := ss_max_keys s |}.

Definition spend_get (key : string) (s : SpendStore) : f64 :=
  match ss_spend s !! key with
  | Some e => micro_to_usd (se_micro_usd e)
  | None => f64_zero
  end.

Definition spend_reset (key : string) (s : SpendStore) : SpendStore :=
  {| ss_spend := delete key (ss_spend s); ss_max_keys := ss_max_keys s |}.

Definition spend_reset_all (s : SpendStore) : SpendStore :=
  {| ss_spend := ∅; ss_max_keys := ss_max_keys s |}.

(** ** The named stores, for the admin API *)

Definition budget_reset_store_key (store_id api_key : string) (stores : gmap string SpendStore)
    : gmap string SpendStore := alter (spend_reset api_key) store_id stores.

Definition budget_reset_store (store_id : string) (stores : gmap string SpendStore)
    : gmap string SpendStore := alter spend_reset_all store_id stores.

Definition get_spend (store_id api_key : string) (stores : gmap string SpendStore) : f64 :=
  default f64_zero (registry_with store_id (spend_get api_key) stores).

Definition get_all_spend (store_id : string) (stores : gmap string SpendStore)
    : gmap string f64 :=
  default ∅ (registry_with store_id
    (fun s => (fun e => micro_to_usd (se_micro_usd e)) <$> ss_spend s) stores).

(** ** The plugin *)

Definition BUDGET_DEFAULT_MAX_KEYS : Z := 10000.

Record BudgetConfig := {
  bc_store_id : option string;
  bc_spend_limit_usd : option f64;
  bc_input_per_m_tokens : option f64;
  bc_output_per_m_tokens : option f64;
  bc_max_keys : option Z;
}.

Record BudgetPlugin := {
  bp_store_id : string;
  bp_spend_limit_usd : f64;
  bp_input_per_m_tokens : f64;
  bp_output_per_m_tokens : f64;
}.

Definition budget_new (cfg : BudgetConfig) (stores : gmap string SpendStore)
    : result BudgetPlugin string * gmap string SpendStore :=
  let store_id := default "default" (bc_store_id cfg) in
  let limit := default f64_zero (bc_spend_limit_usd cfg) in
  let input := default f64_zero (bc_input_per_m_tokens cfg) in
  let output := default f64_zero (bc_output_per_m_tokens cfg) in
  let max_keys := default BUDGET_DEFAULT_MAX_KEYS (bc_max_keys cfg) in
  if f64_ltb limit f64_zero then (Err "spend_limit_usd must be >= 0", stores)
  else if f64_ltb f64_zero limit && f64_eqb input f64_zero && f64_eqb output f64_zero then
    (Err ("spend_limit_usd is set but both input_per_m_tokens and output_per_m_tokens are 0; " +:+
          "cost will always be 0 and the budget limit will never be enforced"), stores)
  else
    (Ok {| bp_store_id := store_id; bp_spend_limit_usd := limit;
           bp_input_per_m_tokens := input; bp_output_per_m_tokens := output |},
     (get_or_create store_id (spend_store_new max_keys) stores).2).

Definition calculate_cost (p : BudgetPlugin) (u : Usage) : f64 :=
  f64_add
    (f64_mul (f64_div (f64_of_Z (usage_prompt_tokens u)) million) (bp_input_per_m_tokens p))
    (f64_mul (f64_div (f64_of_Z (usage_completion_tokens u)) million) (bp_output_per_m_tokens p)).

Definition spend_key (ctx : PluginContext) : option string :=
  let from_auth :=
    match ctx_auth ctx with
    | Some a => match auth_key_id a with Some k => Some k | None => auth_user_id a end
    | None => None
    end in
  match from_auth with
  | Some id => Some id
  | None =>
      match get_metadata "api_key" ctx ≫= value_as_str with
      | Some s => if str_is_empty s then None else Some s
      | None => None
      end
  end.

Definition effective_limit (p : BudgetPlugin) (per_principal : option f64) : f64 :=
  match per_principal with
  | Some limit => if f64_ltb f64_zero limit then limit else bp_spend_limit_usd p
  | None => bp_spend_limit_usd p
  end.

(** [format!("{:.p}")] of a non-negative finite number: the exact value
    rounded to [p] decimals, ties to even. *)
Definition fmt_fixed (p : Z) (x : f64) : string :=
  match x with
  | S754_nan => "NaN"
  | S754_infinity s => if s then "-inf" else "inf"
  | _ =>
      let '(s, num, den) :=
        match x with
        | S754_finite s m e =>
            (s, Zpos m * 10 ^ p * 2 ^ (Z.max e 0), 2 ^ (Z.max (- e) 0))
        | _ => (false, 0, 1)
        end in
      let q := num / den in
      let r := 2 * (num mod den) in
      let n := if (den <? r) || ((r =? den) && Z.odd q) then q + 1 else q in
      let frac := show_Z (n mod 10 ^ p) in
      let pad := String.concat "" (replicate (Z.to_nat p - String.length frac) "0") in
      (if s : bool then "-" else "") +:+ show_Z (n / 10 ^ p) +:+ "." +:+ pad +:+ frac
  end.

Definition check_budget (p : BudgetPlugin) (key : string) (per_principal : option f64)
    (s : SpendStore) : result unit PluginError :=
  let limit := effective_limit p per_principal in
  if f64_leb limit f64_zero then Ok tt
  else
    let current := spend_get key s in
    if f64_leb limit current then
      Err (Rejected "budget"
        ("budget exceeded: spent $" +:+ fmt_fixed 4 current +:+ " of $" +:+ fmt_fixed 2 limit
           +:+ " limit") KindBudgetExceeded)
    else Ok tt.

Definition record_cost (now : Z) (p : BudgetPlugin) (ctx : PluginContext) (key : string)
    (s : SpendStore) : SpendStore :=
  match ctx_response ctx ≫= resp_usage with
  | Some usage =>
      let cost := calculate_cost p usage in
      if f64_ltb f64_zero cost then spend_add now key cost s else s
  | None => s
  end.

(** The plugin keeps its store, so the store is there: a name without one has
    no counterpart. *)
Definition budget_execute (now : Z) (p : BudgetPlugin) (ctx : PluginContext)
    (stores : gmap string SpendStore)
    : result unit PluginError * (PluginContext * gmap string SpendStore) :=
  match spend_key ctx, stores !! bp_store_id p with
  | Some key, Some s =>
      match ctx_response ctx with
      | Some _ => (Ok tt, (ctx, <[bp_store_id p := record_cost now p ctx key s]> stores))
      | None =>
          let per_principal := ctx_auth ctx ≫= auth_budget_limit_usd in
          (check_budget p key per_principal s, (ctx, stores))
      end
  | _, _ => (Ok tt, (ctx, stores))
  end.

Definition budget_plugin (now : Z) (p : BudgetPlugin) : Plugin (gmap string SpendStore) :=
  {| plugin_name := "budget"; plugin_type := Middleware; plugin_stage := BeforeRequest;
     also_after_request := true; plugin_execute := budget_execute now p |}.
End Store.

Example fmt1 : fmt_fixed 4 (f64_lit 12345 1000) = "12.3450".
Proof. vm_compute. reflexivity. Qed.
Example fmt2 : fmt_fixed 2 (f64_lit 5 100) = "0.05".
Proof. vm_compute. reflexivity. Qed.
Example micro1 : usd_to_micro (f64_lit 15 10000000) = 2.
Proof. vm_compute. reflexivity. Qed.

(** ** The store *)

Section StoreProofs.
Context (iter : gmap string SpendEntry -> list (string * SpendEntry)).

Lemma min_by_update_spec l :
  match min_by_update l with
  | None => l = []
  | Some y => y ∈ l /\ forall x, x ∈ l -> se_last_update y.2 <= se_last_update x.2
  end.
Proof.
  induction l as [|x l IH]; cbn; [done|]. destruct (min_by_update l) as [y|].
  - destruct IH as [Hin Hmin].
    destruct (Z.ltb_spec (se_last_update y.2) (se_last_update x.2)); split.
    + by right.
    + intros z [->|Hz]%elem_of_cons; [lia|auto].
    + by left.
    + intros z [->|Hz]%elem_of_cons; [lia|]. specialize (Hmin z Hz). lia.
  - subst l. split; [by left|]. intros z ->%list_elem_of_singleton. lia.
Qed.

Definition micro_of (key : string) (s : SpendStore) : Z :=
  match ss_spend s !! key with Some e => se_micro_usd e | None => 0 end.

Lemma spend_evict_self key s :
  (forall m, iter m ≡ₚ map_to_list m) ->
  match spend_evict iter key s !! key with Some e => se_micro_usd e | None => 0 end = micro_of key s.
Proof.
  intros Hiter. unfold spend_evict, micro_of. case_bool_decide as Hk; [|done].
  cbn [andb]. destruct ((0 <? ss_max_keys s) && _); [|done].
  pose proof (min_by_update_spec (iter (ss_spend s))) as Hmin.
  destruct (min_by_update (iter (ss_spend s))) as [[k e]|]; [|done].
  destruct Hmin as [Hin _]. rewrite Hiter in Hin. apply elem_of_map_to_list in Hin.
  rewrite lookup_delete_ne by congruence. done.
Qed.

Lemma micro_of_add now key usd s :
  (forall m, iter m ≡ₚ map_to_list m) ->
  micro_of key (spend_add iter now key usd s) = saturating_add_u64 (micro_of key s) (usd_to_micro usd).
Proof.
  intros Hiter. unfold spend_add, micro_of at 1. cbn [ss_spend].
  rewrite lookup_insert_eq. cbn [se_micro_usd]. by rewrite spend_evict_self.
Qed.

Lemma spend_get_micro key s : spend_get key s = micro_to_usd (micro_of key s).
Proof.
  unfold spend_get, micro_of. destruct (ss_spend s !! key) as [e|]; [done|].
  vm_compute. reflexivity.
Qed.

(** ** One request *)

(** A request of a principal: the check, and when it passes, the record of its
    response. *)
Definition budget_request (p : BudgetPlugin) (ctx : PluginContext)
    (req : Z * ChatCompletionResponse) (stores : gmap string SpendStore)
    : gmap string SpendStore :=
  match budget_execute iter req.1 p ctx stores with
  | (Ok _, (ctx, stores)) =>
      (budget_execute iter req.1 p (set_response req.2 ctx) stores).2.2
  | (Err _, (_, stores)) => stores
  end.

Definition spent (p : BudgetPlugin) (key : string) (stores : gmap string SpendStore) : Z :=
  match stores !! bp_store_id p with Some s => micro_of key s | None => 0 end.

Lemma budget_request_spec p ctx req stores key s :
  (forall m, iter m ≡ₚ map_to_list m) ->
  ctx_response ctx = None -> spend_key ctx = Some key -> stores !! bp_store_id p = Some s ->
  let limit := effective_limit p (ctx_auth ctx ≫= auth_budget_limit_usd) in
  let stores' := budget_request p ctx req stores in
  is_Some (stores' !! bp_store_id p) /\
  (spent p key stores' = spent p key stores \/
   ((f64_leb limit f64_zero = true \/ f64_leb limit (micro_to_usd (spent p key stores)) = false) /\
    exists usage, resp_usage req.2 = Some usage /\
    spent p key stores' =
      saturating_add_u64 (spent p key stores) (usd_to_micro (calculate_cost p usage)))).
Proof.
  intros Hiter Hresp Hkey Hs. cbn zeta.
  set (limit := effective_limit p _).
  assert (budget_request p ctx req stores =
    match check_budget p key (ctx_auth ctx ≫= auth_budget_limit_usd) s with
    | Ok _ => (budget_execute iter req.1 p (set_response req.2 ctx) stores).2.2
    | Err _ => stores
    end) as ->.
  { unfold budget_request. unfold budget_execute at 1. by rewrite Hkey, Hs, Hresp. }
  unfold check_budget. fold limit.
  assert (forall r, r = budget_execute iter req.1 p (set_response req.2 ctx) stores ->
    is_Some (r.2.2 !! bp_store_id p) /\
    (spent p key r.2.2 = spent p key stores \/
     exists usage, resp_usage req.2 = Some usage /\
     spent p key r.2.2 =
       saturating_add_u64 (spent p key stores) (usd_to_micro (calculate_cost p usage)))) as Hrec.
  { intros r ->. unfold budget_execute.
    change (spend_key (set_response req.2 ctx)) with (spend_key ctx). rewrite Hkey, Hs.
    cbn [ctx_response set_response ctx_with fst snd]. unfold spent.
    rewrite lookup_insert_eq, Hs. split; [eauto|].
    unfold record_cost. cbn [ctx_response set_response ctx_with mbind option_bind].
    destruct (resp_usage req.2) as [usage|]; [|by left].
    destruct (f64_ltb f64_zero _); [right; exists usage|by left].
    split; [done|]. by apply micro_of_add. }
  assert (spent p key stores = micro_of key s) as Hspent by (unfold spent; by rewrite Hs).
  destruct (f64_leb limit f64_zero) eqn:Hz.
  - destruct (Hrec _ eq_refl) as [Hsome [Hsame|(u & Hu & Hadd)]]; (split; [exact Hsome|]).
    + left. exact Hsame.
    + right. split; [left; reflexivity|]. exists u. split; [exact Hu|exact Hadd].
  - rewrite spend_get_micro, <- Hspent.
    destruct (f64_leb limit (micro_to_usd (spent p key stores))) eqn:Hl.
    + split; [by rewrite Hs|by left].
    + destruct (Hrec _ eq_refl) as [Hsome [Hsame|(u & Hu & Hadd)]]; (split; [exact Hsome|]).
      * left. exact Hsame.
      * right. split; [right; reflexivity|]. exists u. split; [exact Hu|exact Hadd].
Qed.
End StoreProofs.

(** ** Properties *)

Section Properties.
Context (iter : gmap string SpendEntry -> list (string * SpendEntry)).

(** Recording a cost adds it to the principal's spend, saturating, and
    touches nobody else's, but that a new principal in a full store takes the
    place of a principal nobody was updated before; the store never grows past
    its cap. *)
Theorem spend_add_lru now key usd s :
  (forall m, iter m ≡ₚ map_to_list m) ->
  let s' := spend_add iter now key usd s in
  micro_of key s' = saturating_add_u64 (micro_of key s) (usd_to_micro usd) /\
  (0 < ss_max_keys s -> Z.of_nat (size (ss_spend s)) <= ss_max_keys s ->
     Z.of_nat (size (ss_spend s')) <= ss_max_keys s) /\
  ((forall k, k <> key -> ss_spend s' !! k = ss_spend s !! k) \/
   (ss_spend s !! key = None /\ 0 < ss_max_keys s <= Z.of_nat (size (ss_spend s)) /\
    exists lru e, ss_spend s !! lru = Some e /\
      (forall k e', ss_spend s !! k = Some e' -> se_last_update e <= se_last_update e') /\
      forall k, k <> key -> ss_spend s' !! k = if decide (k = lru) then None else ss_spend s !! k)).
Proof.
  intros Hiter s'. split; [by apply micro_of_add|].
  subst s'. unfold spend_add. cbn [ss_spend].
  set (e' := {| se_micro_usd := _; se_last_update := now |}). clearbody e'.
  unfold spend_evict. case_bool_decide as Hk; cbn [andb].
  2: { split; [|left; intros k Hne; by rewrite lookup_insert_ne].
       intros _ Hsz. destruct (ss_spend s !! key) eqn:E; [|done].
       by rewrite map_size_insert_Some by eauto. }
  destruct (Z.ltb_spec 0 (ss_max_keys s)) as [Hpos|]; cbn [andb].
  2: { split; [lia|]. left. intros k Hne. by rewrite lookup_insert_ne. }
  destruct (Z.leb_spec (ss_max_keys s) (Z.of_nat (size (ss_spend s)))) as [Hfull|Hroom].
  2: { split; [intros _ _; rewrite map_size_insert_None by done; lia|].
       left. intros k Hne. by rewrite lookup_insert_ne. }
  pose proof (min_by_update_spec (iter (ss_spend s))) as Hmin.
  destruct (min_by_update (iter (ss_spend s))) as [[lru e]|].
  - destruct Hmin as [Hin Hmin]. rewrite Hiter in Hin. apply elem_of_map_to_list in Hin.
    assert (lru <> key) by congruence. split.
    + intros _ Hsz. rewrite map_size_insert_None by (by rewrite lookup_delete_ne).
      rewrite map_size_delete_Some by eauto. lia.
    + right. split_and!; [done|lia|lia|]. exists lru, e. split_and!; [done| |].
      * intros k e'' Hk'. apply (Hmin (k, e'')). rewrite Hiter. by apply elem_of_map_to_list.
      * intros k Hne. rewrite lookup_insert_ne by done.
        case_decide; [subst; apply lookup_delete_eq|by apply lookup_delete_ne].
  - exfalso. apply (f_equal length) in Hmin. rewrite Hiter, length_map_to_list in Hmin.
    cbn in Hmin. lia.
Qed.

(** A principal overspends by at most one request. Whatever requests it
    makes one after the other, either nothing was recorded or the spend before
    the last recorded cost was still below its limit; the limit is the
    principal's own where it has a positive one, and the gateway's otherwise. *)
Theorem budget_overshoot_one_request p ctx reqs stores key :
  (forall m, iter m ≡ₚ map_to_list m) ->
  ctx_response ctx = None -> spend_key ctx = Some key -> is_Some (stores !! bp_store_id p) ->
  let limit := effective_limit p (ctx_auth ctx ≫= auth_budget_limit_usd) in
  f64_leb limit f64_zero = false ->
  let final := foldl (fun st req => budget_request iter p ctx req st) stores reqs in
  spent p key final = spent p key stores \/
  exists before usage, f64_leb limit (micro_to_usd before) = false /\
    spent p key final = saturating_add_u64 before (usd_to_micro (calculate_cost p usage)).
Proof.
  intros Hiter Hresp Hkey Hs limit Hlim final. subst final.
  assert (forall st, is_Some (st !! bp_store_id p) ->
    let st' := foldl (fun st req => budget_request iter p ctx req st) st reqs in
    spent p key st' = spent p key st \/
    exists before usage, f64_leb limit (micro_to_usd before) = false /\
      spent p key st' = saturating_add_u64 before (usd_to_micro (calculate_cost p usage)))
    as Hgen; [|by apply Hgen].
  induction reqs as [|req reqs IH]; intros st Hst; cbn [foldl]; [by left|].
  destruct Hst as [s0 Hs0].
  destruct (budget_request_spec iter p ctx req st key s0 Hiter Hresp Hkey Hs0) as [Hsome Hstep].
  fold limit in Hstep. specialize (IH _ Hsome). cbn zeta in IH.
  destruct IH as [IH|(before & usage & Hb & IH)]; [|right; exists before, usage; by split].
  rewrite IH. destruct Hstep as [Hsame|[[Hz|Hbelow] (usage & _ & Hadd)]].
  - by left.
  - congruence.
  - right. exists (spent p key st), usage. split; [exact Hbelow|exact Hadd].
Qed.

(** A response whose cost rounds to no micro-dollar is free, and so is any
    number of them: the limit is never reached however many are made. *)
Theorem sub_micro_requests_free p ctx usage reqs stores key :
  (forall m, iter m ≡ₚ map_to_list m) ->
  ctx_response ctx = None -> spend_key ctx = Some key -> is_Some (stores !! bp_store_id p) ->
  usd_to_micro (calculate_cost p usage) = 0 -> 0 <= spent p key stores <= U64_MAX ->
  Forall (fun req => resp_usage req.2 = Some usage) reqs ->
  spent p key (foldl (fun st req => budget_request iter p ctx req st) stores reqs)
    = spent p key stores.
Proof.
  intros Hiter Hresp Hkey Hs Hfree Hrange Hreqs. revert stores Hs Hrange.
  induction Hreqs as [|req reqs Hreq Hreqs IH]; intros st [s0 Hs0] Hrange; cbn [foldl]; [done|].
  destruct (budget_request_spec iter p ctx req st key s0 Hiter Hresp Hkey Hs0) as [Hsome Hstep].
  assert (spent p key (budget_request iter p ctx req st) = spent p key st) as Hsame.
  { destruct Hstep as [?|[_ (u & Hu & Hadd)]]; [done|].
    rewrite Hreq in Hu. injection Hu as <-. rewrite Hadd, Hfree.
    unfold saturating_add_u64. lia. }
  rewrite IH; [exact Hsame|exact Hsome|by rewrite Hsame].
Qed.
End Properties.

(** ** Witnesses *)

Definition demo_budget : BudgetPlugin :=
  {| bp_store_id := "default"; bp_spend_limit_usd := f64_lit 1 1000;
     bp_input_per_m_tokens := f64_lit 1 10; bp_output_per_m_tokens := f64_zero |}.

Definition demo_usage (n : Z) : Usage :=
  {| usage_prompt_tokens := n; usage_completion_tokens := 0; usage_total_tokens := n |}.

Definition demo_response (n : Z) : ChatCompletionResponse :=
  {| resp_id := "r"; resp_object := "chat.completion"; resp_created := 0; resp_model := "m";
     resp_choices := []; resp_usage := Some (demo_usage n); resp_system_fingerprint := None |}.

Definition demo_principal : PluginContext :=
  ctx_from_request "id"
    {| req_model := "m"; req_messages := []; req_stream := false; req_temperature := None;
       req_top_p := None; req_max_tokens := None; req_stop := None; req_presence_penalty := None;
       req_frequency_penalty := None; req_user := None; req_tools := None;
       req_tool_choice := None; req_extra := ∅ |}
    (Some {| auth_api_key := ""; auth_key_id := Some "k"; auth_scope := ApiKey; auth_org_id := None;
             auth_team_id := None; auth_user_id := None; auth_rate_limit_override := None;
             auth_roles := []; auth_budget_limit_usd := None |}).

Definition demo_stores : gmap string SpendStore := {[ "default" := spend_store_new 10 ]}.

Lemma spend_add_lru_witness :
  micro_of "b" (spend_add map_to_list 5 "b" (f64_lit 1 100)
    {| ss_spend := {[ "a" := {| se_micro_usd := 7; se_last_update := 1 |} ]}; ss_max_keys := 1 |})
  = 10000.
Proof.
  rewrite (proj1 (spend_add_lru map_to_list 5 "b" (f64_lit 1 100)
    {| ss_spend := {[ "a" := {| se_micro_usd := 7; se_last_update := 1 |} ]}; ss_max_keys := 1 |}
    (fun _ => Permutation_refl _))).
  by vm_compute.
Defined.

Definition demo_reqs : list (Z * ChatCompletionResponse) :=
  [(1, demo_response 9000); (2, demo_response 9000); (3, demo_response 9000)].

Definition demo_final : gmap string SpendStore :=
  foldl (fun st req => budget_request map_to_list demo_budget demo_principal req st)
    demo_stores demo_reqs.

Lemma budget_overshoot_one_request_witness :
  spent demo_budget "k" demo_final = 1800 /\
  (spent demo_budget "k" demo_final = spent demo_budget "k" demo_stores \/
   exists before usage, f64_leb (bp_spend_limit_usd demo_budget) (micro_to_usd before) = false /\
    spent demo_budget "k" demo_final =
      saturating_add_u64 before (usd_to_micro (calculate_cost demo_budget usage))).
Proof.
  split; [by vm_compute|].
  exact (budget_overshoot_one_request map_to_list demo_budget demo_principal demo_reqs demo_stores "k"
    (fun _ => Permutation_refl _) eq_refl eq_refl (ex_intro _ _ eq_refl) eq_refl).
Defined.

Lemma sub_micro_requests_free_witness :
  spent demo_budget "k"
    (foldl (fun st req => budget_request map_to_list demo_budget demo_principal req st)
       demo_stores (replicate 4000 (1, demo_response 4))) = 0.
Proof.
  rewrite (sub_micro_requests_free map_to_list demo_budget demo_principal (demo_usage 4)
    (replicate 4000 (1, demo_response 4)) demo_stores "k");
    [done|done|done|by vm_compute|by eexists|by vm_compute|by vm_compute|].
  by apply Forall_replicate.
Defined.
