(* ===== verification/Policy.v ===== *)
(** * Pre-flight policy: rate limits, token budgets, org guardrails, RBAC
    (src/crates/himadri/src/gateway/policy.rs)

    Each check is a function of the principal, the live configuration and the
    request; the rate limits also thread the limiter, which is any
    [RateLimiting] instance. [to_lowercase] is [str::to_lowercase]. *)

From S2P Require Import Prelude Str Float Types Errors Config Rbac RateLimiter.

(** ** RBAC *)

Definition principal_roles (auth : option AuthContext) : list string * bool :=
  match auth with
  | Some ctx => (auth_roles ctx, bool_decide (auth_scope ctx = Admin))
  | None => ([], false)
  end.

Definition check_rbac_model (auth : option AuthContext) (config : Config) (model : string)
    : result unit GatewayError :=
  if negb (rbac_enabled (cfg_rbac config)) then Ok tt
  else
    let '(roles, is_admin) := principal_roles auth in
    map_err (fun d => Forbidden (rbac_denial_to_string d))
      (check_model (cfg_rbac config) roles is_admin model).

(** The filter and the last denial it met. *)
Fixpoint rbac_filter (rbac : RbacConfig) (roles : list string) (is_admin : bool)
    (last_denial : option RbacDenial) (ts : list Target) : list Target * option RbacDenial :=
  match ts with
  | [] => ([], last_denial)
  | t :: ts =>
      match check_provider rbac roles is_admin (target_provider t) with
      | Ok _ => let '(l, d) := rbac_filter rbac roles is_admin last_denial ts in (t :: l, d)
      | Err d => rbac_filter rbac roles is_admin (Some d) ts
      end
  end.

Definition filter_targets_by_rbac (auth : option AuthContext) (config : Config)
    (ordered : list Target) : result (list Target) GatewayError :=
  if negb (rbac_enabled (cfg_rbac config)) then Ok ordered
  else
    let '(roles, is_admin) := principal_roles auth in
    if is_admin : bool then Ok ordered
    else
      match rbac_filter (cfg_rbac config) roles is_admin None ordered with
      | ([], last_denial) =>
          Err (Forbidden
            match last_denial with
            | Some d => rbac_denial_to_string d
            | None => "no permitted provider for your role"
            end)
      | (allowed, _) => Ok allowed
      end.

(** ** Org guardrails *)

Definition str_in (s : string) (l : list string) : bool := bool_decide (s ∈ l).

(** The model rules of one scope. *)
Definition scope_model_check (model : string) (scope : Scope) : result unit GatewayError :=
  let deny verb :=
    Err (Forbidden ("Model '" +:+ model +:+ "' " +:+ verb +:+ " for " +:+
      scope_kind_as_str (scope_kind scope) +:+ " '" +:+ scope_id scope +:+ "'")) in
  if match scope_allowed_models scope with Some l => negb (str_in model l) | None => false end
  then deny "not allowed"
  else if match scope_blocked_models scope with Some l => str_in model l | None => false end
  then deny "blocked"
  else Ok tt.

(** [for scope in &scopes { check(scope)?; }] *)
Fixpoint each_scope (check : Scope -> result unit GatewayError) (l : list Scope)
    : result unit GatewayError :=
  match l with
  | [] => Ok tt
  | s :: l => let? _ := check s in each_scope check l
  end.

Section Words.
Context (to_lowercase : string -> string).

Definition lowered_messages (request : ChatCompletionRequest) : list string :=
  (fun c => to_lowercase (flat_text c)) <$> omap msg_content (req_messages request).

(** The first blocked word of the first text that has one. *)
Fixpoint blocked_word (words : list string) (texts : list string) : option string :=
  match texts with
  | [] => None
  | text :: texts =>
      match find (fun w => str_contains w text) words with
      | Some w => Some w
      | None => blocked_word words texts
      end
  end.

Definition scope_guardrail_check (request : ChatCompletionRequest) (scope : Scope)
    : result unit GatewayError :=
  let g := scope_guardrails scope in
  if negb (og_enabled g) then Ok tt
  else
    match blocked_word (to_lowercase <$> og_blocked_words g) (lowered_messages request) with
    | Some word => Err (Forbidden ("Blocked word '" +:+ word +:+ "' detected in request"))
    | None =>
        match og_max_tokens_per_request g, req_max_tokens request with
        | Some max, Some requested =>
            if max <? requested then
              Err (Forbidden ("max_tokens " +:+ show_Z requested +:+ " exceeds " +:+
                scope_kind_as_str (scope_kind scope) +:+ " guardrail limit of " +:+ show_Z max))
            else Ok tt
        | _, _ => Ok tt
        end
    end.

Definition check_org_guardrails (auth : option AuthContext) (config : Config)
    (request : ChatCompletionRequest) : result unit GatewayError :=
  match auth with
  | None => Ok tt
  | Some ctx =>
      let chain := scopes config (auth_org_id ctx) (auth_team_id ctx) in
      let? _ := each_scope (scope_model_check (req_model request)) chain in
      each_scope (scope_guardrail_check request) chain
  end.
End Words.

(** ** Token budgets *)

Definition scope_budget_check (requested : Z) (scope : Scope) : result unit GatewayError :=
  match scope_token_budget scope ≫= tbud_max_tokens_per_request with
  | Some max =>
      if max <? requested then
        Err (Forbidden ("max_tokens " +:+ show_Z requested +:+ " exceeds " +:+
          scope_kind_as_str (scope_kind scope) +:+ " limit of " +:+ show_Z max))
      else Ok tt
  | None => Ok tt
  end.

Definition check_token_budgets (auth : option AuthContext) (config : Config)
    (request : ChatCompletionRequest) : result unit GatewayError :=
  match req_max_tokens request, auth with
  | Some requested, Some ctx =>
      each_scope (scope_budget_check requested)
        (scopes config (auth_org_id ctx) (auth_team_id ctx))
  | _, _ => Ok tt
  end.

(** ** Rate limits *)

Section Limits.
Context {L : Type} `{RateLimiting L}.

Definition check_rate_limits (now : Z) (auth : option AuthContext) (config : Config) (l : L)
    : result unit GatewayError * L :=
  if negb (rlc_enabled (cfg_rate_limit config)) then (Ok tt, l)
  else
    let '(ok, l) := rl_check_global now l in
    if negb ok then (Err (RateLimited 1), l)
    else
      match auth with
      | None => (Ok tt, l)
      | Some ctx =>
          let '(ok, l) :=
            match auth_key_id ctx with
            | Some key_id =>
                let '(rate, burst) :=
                  match auth_rate_limit_override ctx with
                  | Some o => (ov_requests_per_second o, ov_burst_size o)
                  | None => (None, None)
                  end in
                rl_check_key now key_id rate burst l
            | None => (true, l)
            end in
          if negb ok then (Err (RateLimited 1), l)
          else
            match auth_org_id ctx with
            | Some org_id =>
                match cfg_orgs config !! org_id ≫= org_rate_limit with
                | Some rl =>
                    if rlc_enabled rl then
                      let '(ok, l) :=
                        rl_check_org now org_id (Some (rlc_requests_per_second rl))
                          (Some (rlc_burst_size rl)) l in
                      if negb ok then (Err (RateLimited 1), l) else (Ok tt, l)
                    else (Ok tt, l)
                | None => (Ok tt, l)
                end
            | None => (Ok tt, l)
            end
      end.
End Limits.

(** ** Proofs *)

Lemma each_scope_ok check l : each_scope check l = Ok tt <-> forall s, s ∈ l -> check s = Ok tt.
Proof.
  induction l as [|s l IH]; cbn.
  - split; [|done]. intros _ s Hs. by apply not_elem_of_nil in Hs.
  - setoid_rewrite elem_of_cons. destruct (check s) as [[]|e] eqn:E.
    + rewrite IH. naive_solver.
    + split; [done|]. intros H. rewrite H in E by by left. done.
Qed.

(** A failing walk reports the first scope that refuses. *)
Lemma each_scope_err check l e : each_scope check l = Err e ->
  exists l1 s l2, l = (l1 ++ s :: l2)%list /\ (forall s', s' ∈ l1 -> check s' = Ok tt) /\
    check s = Err e.
Proof.
  induction l as [|s l IH]; cbn; [done|]. destruct (check s) as [[]|e'] eqn:E.
  - intros (l1 & s' & l2 & -> & Hok & He)%IH. exists (s :: l1), s', l2.
    split_and!; [done| |done]. intros x [->|Hx]%elem_of_cons; auto.
  - intros [= ->]. exists [], s, l. split_and!; [done| |done].
    intros x Hx. by apply not_elem_of_nil in Hx.
Qed.

Lemma blocked_word_none words texts : blocked_word words texts = None <->
  forall w t, w ∈ words -> t ∈ texts -> ~ exists a b, t = a +:+ w +:+ b.
Proof.
  induction texts as [|t ts IH]; cbn.
  - split; [|done]. intros _ w t _ Ht. by apply not_elem_of_nil in Ht.
  - setoid_rewrite elem_of_cons.
    destruct (find (fun w => str_contains w t) words) as [w|] eqn:E.
    + split; [done|]. intros H. apply find_some in E as [Hin Hc].
      exfalso. apply (H w t); [by apply list_elem_of_In|by left|]. by apply str_contains_spec.
    + rewrite IH. assert (forall w, w ∈ words -> ~ exists a b, t = a +:+ w +:+ b) as Hno.
      { intros w Hw Hc. apply str_contains_spec in Hc.
        rewrite (find_none _ _ E w) in Hc; [done|by apply list_elem_of_In]. }
      split; [intros H w t' Hw [->|Ht']; auto|naive_solver].
Qed.

(** What one scope asks of a request. *)
Definition scope_permits (to_lowercase : string -> string) (request : ChatCompletionRequest)
    (s : Scope) : Prop :=
  let g := scope_guardrails s in
  (forall l, scope_allowed_models s = Some l -> req_model request ∈ l) /\
  (forall l, scope_blocked_models s = Some l -> req_model request ∉ l) /\
  (og_enabled g = true ->
    (forall w m c, w ∈ og_blocked_words g -> m ∈ req_messages request -> msg_content m = Some c ->
       ~ exists a b, to_lowercase (flat_text c) = a +:+ to_lowercase w +:+ b) /\
    (forall max n, og_max_tokens_per_request g = Some max -> req_max_tokens request = Some n ->
       n <= max)).

Lemma scope_model_ok model s : scope_model_check model s = Ok tt <->
  (forall l, scope_allowed_models s = Some l -> model ∈ l) /\
  (forall l, scope_blocked_models s = Some l -> model ∉ l).
Proof.
  unfold scope_model_check, str_in.
  destruct (scope_allowed_models s) as [a|], (scope_blocked_models s) as [b|];
    repeat case_bool_decide; cbn [negb]; naive_solver.
Qed.

Lemma scope_guardrail_ok to_lowercase request s :
  scope_guardrail_check to_lowercase request s = Ok tt <->
  (og_enabled (scope_guardrails s) = true ->
    (forall w m c, w ∈ og_blocked_words (scope_guardrails s) -> m ∈ req_messages request ->
       msg_content m = Some c ->
       ~ exists a b, to_lowercase (flat_text c) = a +:+ to_lowercase w +:+ b) /\
    (forall max n, og_max_tokens_per_request (scope_guardrails s) = Some max ->
       req_max_tokens request = Some n -> n <= max)).
Proof.
  unfold scope_guardrail_check. set (g := scope_guardrails s).
  destruct (og_enabled g); cbn [negb]; [|naive_solver].
  assert (blocked_word (to_lowercase <$> og_blocked_words g) (lowered_messages to_lowercase request)
      = None <->
    forall w m c, w ∈ og_blocked_words g -> m ∈ req_messages request -> msg_content m = Some c ->
       ~ exists a b, to_lowercase (flat_text c) = a +:+ to_lowercase w +:+ b) as Hw.
  { rewrite blocked_word_none. unfold lowered_messages. split.
    - intros H w m c Hwi Hm Hc. apply H; apply list_elem_of_fmap; [by eexists|].
      exists c. split; [done|]. apply list_elem_of_omap. eauto.
    - intros H w t (w' & -> & Hwi)%list_elem_of_fmap (c & -> & Hc)%list_elem_of_fmap.
      apply list_elem_of_omap in Hc as (m & Hm & Hc). by eapply H. }
  destruct (blocked_word _ _) as [w|].
  - split; [done|]. intros H. exfalso. destruct (H eq_refl) as [H1 _].
    apply Hw in H1. done.
  - assert (Hw' := proj1 Hw eq_refl). clear Hw.
    destruct (og_max_tokens_per_request g) as [max|], (req_max_tokens request) as [n|];
      try (split; [intros _ _; split; [exact Hw'|naive_solver]|done]).
    destruct (Z.ltb_spec max n); (split; [|try done]).
    + done.
    + intros H'. destruct (H' eq_refl) as [_ Hb]. specialize (Hb max n eq_refl eq_refl). lia.
    + intros _ _. split; [exact Hw'|]. intros ? ? [= <-] [= <-]. lia.
Qed.

Lemma rbac_filter_spec rbac roles is_admin d ts :
  let '(l, d') := rbac_filter rbac roles is_admin d ts in
  l = filter (fun t => check_provider rbac roles is_admin (target_provider t) = Ok tt) ts /\
  (d' = d \/ exists t e, t ∈ ts /\ check_provider rbac roles is_admin (target_provider t) = Err e /\
     d' = Some e).
Proof.
  revert d. induction ts as [|t ts IH]; intros d; cbn [rbac_filter]; [by split; [|left]|].
  rewrite filter_cons.
  destruct (check_provider rbac roles is_admin (target_provider t)) as [[]|e] eqn:E.
  - specialize (IH d). destruct (rbac_filter rbac roles is_admin d ts) as [l d'].
    destruct IH as [-> Hd]. rewrite decide_True by done. split; [done|].
    destruct Hd as [->|(u & e & Hu & ? & ->)]; [by left|right]. exists u, e. by split; [right|].
  - specialize (IH (Some e)). destruct (rbac_filter rbac roles is_admin (Some e) ts) as [l d'].
    destruct IH as [-> Hd]. rewrite decide_False by done. split; [done|]. right.
    destruct Hd as [->|(u & e' & Hu & ? & ->)]; [exists t, e|exists u, e'];
      split_and!; try done; by constructor.
Qed.

(** ** Properties *)

(** A request passes the scoped checks exactly when every scope of its
    principal permits it. Scopes accumulate: the organisation and the team each
    enforce their own model lists, and, where their guardrails are switched on,
    their own blocked words and token cap; the token budgets of both apply
    whatever their guardrails say, and nothing applies without a principal. *)
Theorem org_guardrails_cumulative to_lowercase config ctx request :
  let chain := scopes config (auth_org_id ctx) (auth_team_id ctx) in
  (check_org_guardrails to_lowercase (Some ctx) config request = Ok tt <->
     forall s, s ∈ chain -> scope_permits to_lowercase request s) /\
  (check_token_budgets (Some ctx) config request = Ok tt <->
     forall s n max, s ∈ chain -> req_max_tokens request = Some n ->
       scope_token_budget s ≫= tbud_max_tokens_per_request = Some max -> n <= max) /\
  check_org_guardrails to_lowercase None config request = Ok tt /\
  check_token_budgets None config request = Ok tt.
Proof.
  intros chain. split_and!.
  - unfold check_org_guardrails. fold chain.
    assert (forall a b : result unit GatewayError,
      (let? _ := a in b) = Ok tt <-> a = Ok tt /\ b = Ok tt) as Hseq.
    { intros [[]|e] b; [tauto|]. split; [done|by intros []]. }
    rewrite Hseq, !each_scope_ok. unfold scope_permits.
    setoid_rewrite scope_model_ok. setoid_rewrite scope_guardrail_ok.
    split.
    + intros [H1 H2] s Hs. destruct (H1 s Hs) as [Ha Hb].
      split; [exact Ha|split; [exact Hb|exact (H2 s Hs)]].
    + intros H. split; intros s Hs; destruct (H s Hs) as (Ha & Hb & Hc);
        [split; [exact Ha|exact Hb]|exact Hc].
  - unfold check_token_budgets. fold chain.
    destruct (req_max_tokens request) as [n|]; [|naive_solver].
    rewrite each_scope_ok. unfold scope_budget_check. split.
    + intros H s n' max Hs [= <-] Hmax. specialize (H s Hs). rewrite Hmax in H.
      destruct (Z.ltb_spec max n); [done|lia].
    + intros H s Hs. destruct (scope_token_budget s ≫= tbud_max_tokens_per_request) as [max|] eqn:Em;
        [|done]. specialize (H s n max Hs eq_refl Em). destruct (Z.ltb_spec max n); [lia|done].
  - done.
  - unfold check_token_budgets. by destruct (req_max_tokens request).
Qed.

(** Filtering a failover order by role keeps exactly the targets whose
    provider the principal may use, in their order, and is an error, always
    403, exactly when that leaves none; an admin, or a gateway without RBAC,
    loses nothing. *)
Theorem rbac_filter_targets_spec auth config ordered :
  let '(roles, is_admin) := principal_roles auth in
  let kept := filter (fun t =>
    check_provider (cfg_rbac config) roles is_admin (target_provider t) = Ok tt) ordered in
  match filter_targets_by_rbac auth config ordered with
  | Ok l => l = kept /\ (l = [] -> ordered = [])
  | Err e => kept = [] /\ exists reason, e = Forbidden reason
  end.
Proof.
  unfold filter_targets_by_rbac.
  destruct (principal_roles auth) as [roles is_admin].
  assert (rbac_enabled (cfg_rbac config) = false \/ is_admin = true ->
    filter (fun t => check_provider (cfg_rbac config) roles is_admin (target_provider t) = Ok tt)
      ordered = ordered) as Hall.
  { intros Hopen. induction ordered as [|t ts IH]; [done|].
    destruct (check_provider_decides (cfg_rbac config) roles is_admin (target_provider t)) as [Hd _].
    rewrite filter_cons, decide_True by (apply Hd; tauto). by rewrite IH. }
  destruct (rbac_enabled (cfg_rbac config)) eqn:Een; cbn [negb].
  2: { rewrite Hall by auto. by split. }
  destruct is_admin; [rewrite Hall by auto; by split|].
  pose proof (rbac_filter_spec (cfg_rbac config) roles false None ordered) as Hf.
  destruct (rbac_filter _ _ _ _ _) as [[|t l] d]; destruct Hf as [<- _].
  - split; [done|]. eauto.
  - by split.
Qed.

Section LimitProperties.
Context {L : Type} `{RateLimiting L}.

(** The limits that apply to a principal, in the order they are asked. *)
Definition limit_checks (now : Z) (auth : option AuthContext) (config : Config)
    : list (L -> bool * L) :=
  let key_checks ctx :=
    match auth_key_id ctx with
    | Some k =>
        [rl_check_key now k (auth_rate_limit_override ctx ≫= ov_requests_per_second)
           (auth_rate_limit_override ctx ≫= ov_burst_size)]
    | None => []
    end in
  let org_checks ctx :=
    match auth_org_id ctx with
    | Some o =>
        match cfg_orgs config !! o ≫= org_rate_limit with
        | Some rl =>
            if rlc_enabled rl then
              [rl_check_org now o (Some (rlc_requests_per_second rl)) (Some (rlc_burst_size rl))]
            else []
        | None => []
        end
    | None => []
    end in
  rl_check_global now ::
    match auth with Some ctx => (key_checks ctx ++ org_checks ctx)%list | None => [] end.

(** Asked in turn until one refuses. *)
Fixpoint run_checks (checks : list (L -> bool * L)) (l : L) : bool * L :=
  match checks with
  | [] => (true, l)
  | c :: cs => let '(ok, l) := c l in if ok : bool then run_checks cs l else (false, l)
  end.

(** The rate limits are the gateway's, then the key's with its own rate
    where it has one, then the organisation's where it configures one: asked in
    that order, the first refusal ends the request with a retry after one
    second and leaves the later limits untouched, and a request passes exactly
    when all admit. With rate limiting off the limiter is not consulted. *)
Theorem rate_limits_in_order now auth config (l : L) :
  check_rate_limits now auth config l =
    if rlc_enabled (cfg_rate_limit config) then
      let '(ok, l') := run_checks (limit_checks now auth config) l in
      ((if ok then Ok tt else Err (RateLimited 1)), l')
    else (Ok tt, l).
Proof.
  unfold check_rate_limits, limit_checks.
  destruct (rlc_enabled (cfg_rate_limit config)); cbn [negb run_checks]; [|done].
  destruct (rl_check_global now l) as [[] l1]; cbn [negb]; [|done].
  destruct auth as [ctx|]; [|done].
  destruct (auth_key_id ctx) as [k|]; destruct (auth_rate_limit_override ctx) as [o|];
    cbn [mbind option_bind app];
    destruct (auth_org_id ctx) as [org|];
    try destruct (cfg_orgs config !! org) as [oc|]; cbn [mbind option_bind app];
    try destruct (org_rate_limit oc) as [rl|]; cbn [app];
    try destruct (rlc_enabled rl); cbn [app run_checks];
    repeat (case_match; simplify_eq/=; try done).
Qed.
End LimitProperties.
