(* ===== verification/Sql.v ===== *)
(** * Statements on a database table
    (what the SQL stores of src/crates/himadri-admin ask of sqlx)

    A table is a list of rows; a statement reads or replaces it at once, or
    leaves it as it was. The connection may fail at any statement, before the
    database has applied it or after: which statements fail is part of the
    state, a list the statements consume. A store's method is a sequence of
    statements in the monad [Sql]. [order_by] of a file that lists rows is an
    argument, since SQL leaves the order of ties open. *)

From S2P Require Import Prelude Str.

Inductive SqlError := RowNotFound | Database (message : string).

(** The connection is lost before the statement runs, or before its answer is
    read. *)
Inductive Fault := FaultBefore (message : string) | FaultAfter (message : string).

Record Db (T : Type) := { db_table : T; db_faults : list (option Fault) }.
Arguments db_table {T} d.
Arguments db_faults {T} d.
Arguments Build_Db {T} _ _.

Definition Sql (T A : Type) : Type := Db T -> result A SqlError * Db T.

Definition sql_ret {T A} (a : A) : Sql T A := fun db => (Ok a, db).

Definition sql_err {T A} (e : SqlError) : Sql T A := fun db => (Err e, db).

(** [m.await?] *)
Definition sql_bind {T A B} (m : Sql T A) (k : A -> Sql T B) : Sql T B := fun db =>
  match m db with
  | (Ok a, db) => k a db
  | (Err e, db) => (Err e, db)
  end.

Notation "'let!' x ':=' m 'in' k" := (sql_bind m (fun x => k))
  (at level 10, x pattern, m at level 100, k at level 200) : himadri_scope.

(** [o.ok_or(sqlx::Error::RowNotFound)?] *)
Definition sql_found {T A} (o : option A) : Sql T A :=
  match o with Some a => sql_ret a | None => sql_err RowNotFound end.

(** One statement: [f] computes its answer and the new table, or is refused by a
    constraint. *)
Definition statement {T A} (f : T -> result (A * T) string) : Sql T A := fun db =>
  let t := db_table db in
  let faults := tail (db_faults db) in
  match head (db_faults db) with
  | Some (Some (FaultBefore msg)) => (Err (Database msg), {| db_table := t; db_faults := faults |})
  | Some (Some (FaultAfter msg)) =>
      (Err (Database msg),
       {| db_table := match f t with Ok (_, t') => t' | Err _ => t end; db_faults := faults |})
  | _ => match f t with
         | Ok (a, t') => (Ok a, {| db_table := t'; db_faults := faults |})
         | Err msg => (Err (Database msg), {| db_table := t; db_faults := faults |})
         end
  end.

(** ** Statements on rows *)
Section Rows.
Context {Row : Type}.

(** [SELECT ... WHERE p], with [fetch_all] and with [fetch_optional] *)
Definition fetch_all (p : Row -> bool) : Sql (list Row) (list Row) :=
  statement (fun rows => Ok (filter (fun r => p r) rows, rows)).

Definition fetch_optional (p : Row -> bool) : Sql (list Row) (option Row) :=
  statement (fun rows => Ok (head (filter (fun r => p r) rows), rows)).

(** [UPDATE ... SET f WHERE p] under the table's constraints *)
Definition set_where (p : Row -> bool) (f : Row -> Row) (rows : list Row) : list Row :=
  (fun r => if p r then f r else r) <$> rows.

Definition update_where (valid : list Row -> bool) (p : Row -> bool) (f : Row -> Row)
    : Sql (list Row) (list Row) :=
  statement (fun rows =>
    let rows' := set_where p f rows in
    if valid rows' then Ok (f <$> filter (fun r => p r) rows, rows')
    else Err "UNIQUE constraint failed").

(** [DELETE FROM ... WHERE p], with [rows_affected] *)
Definition delete_where (p : Row -> bool) : Sql (list Row) nat :=
  statement (fun rows =>
    Ok (length (filter (fun r => p r) rows), filter (fun r => ~ p r) rows)).

(** [INSERT INTO ...] *)
Definition insert_row (valid : list Row -> bool) (r : Row) : Sql (list Row) unit :=
  statement (fun rows =>
    if valid (rows ++ [r])%list then Ok ((), rows ++ [r])%list
    else Err "UNIQUE constraint failed").

End Rows.

(** The characters of a text, and the columns that take so many: Postgres refuses a
    longer text, and one that holds a NUL. (A text whose excess is spaces alone,
    which Postgres cuts instead, counts as longer.) *)
Fixpoint char_count (s : string) : nat :=
  match s with
  | EmptyString => 0
  | String c s => ((if ((128 <=? byte c) && (byte c <? 192))%Z then 0 else 1) + char_count s)%nat
  end.

Definition no_nul (s : string) : bool := negb (contains_char (Ascii.ascii_of_nat 0) s).

Definition text_fits (n : nat) (s : string) : bool := (char_count s <=? n)%nat && no_nul s.

Definition optional_text_fits (n : nat) (o : option string) : bool :=
  match o with Some s => text_fits n s | None => true end.

(** Instants are nanoseconds; a [TIMESTAMPTZ] keeps microseconds. *)
Definition pg_micros (t : Z) : Z := 1000 * (t / 1000).

Lemma pg_micros_again t : pg_micros (pg_micros t) = pg_micros t.
Proof. unfold pg_micros. rewrite (Z.mul_comm 1000 (t / 1000)), Z.div_mul; lia. Qed.

(** A statement, refused where a column does not take a text it binds. *)
Definition binding {T A} (fits : bool) (m : Sql T A) : Sql T A :=
  if fits then m else statement (fun _ => Err "a value does not fit its column").

(** A statement on one table of several. *)
Definition zoom {T S A} (get : T -> S) (set : S -> T -> T) (m : Sql S A) : Sql T A := fun db =>
  let '(r, d) := m {| db_table := get (db_table db); db_faults := db_faults db |} in
  (r, {| db_table := set (db_table d) (db_table db); db_faults := db_faults d |}).

(** ** Instants as text (sqlite_time.rs) *)

(** chrono's [to_rfc3339] and its two parsers. Text of instants that the four
    digits of a year can write reads back, and sorts as the instants do. *)
Class TimeText := {
  to_rfc3339 : Z -> string;
  parse_from_rfc3339 : string -> option Z;
  parse_naive : string -> option Z;
  time_ok : Z -> Prop;
  rfc3339_round t : time_ok t -> parse_from_rfc3339 (to_rfc3339 t) = Some t;
  rfc3339_order t u : time_ok t -> time_ok u ->
    String.ltb (to_rfc3339 t) (to_rfc3339 u) = (t <? u);
}.

Section Time.
Context `{TimeText}.

Definition time_parse (s : string) : option Z :=
  match parse_from_rfc3339 s with
  | Some t => Some t
  | None => parse_naive s
  end.

(** [unwrap_or_default]: the epoch *)
Definition time_parse_or_default (s : string) : Z := default 0 (time_parse s).

Lemma time_round t : time_ok t -> time_parse (to_rfc3339 t) = Some t.
Proof. intros Ht. unfold time_parse. by rewrite rfc3339_round. Qed.
End Time.

(** ** Errors of the administrative surface (error.rs) *)

Inductive AdminError :=
  | NotFound
  | Validation (message : string)
  | Conflict (message : string)
  | Store (message : string).

(** [From<sqlx::Error>]; the text of an error is the database's. *)
Definition admin_error (e : SqlError) : AdminError :=
  match e with RowNotFound => NotFound | Database msg => Store msg end.

(** ** Lemmas *)

(** A connection that does not fail. *)
Definition steady {T} (t : T) : Db T := {| db_table := t; db_faults := [] |}.

Lemma statement_steady {T A} (f : T -> result (A * T) string) t :
  statement f (steady t) =
  match f t with
  | Ok (a, t') => (Ok a, steady t')
  | Err msg => (Err (Database msg), steady t)
  end.
Proof. unfold statement, steady; cbn. by destruct (f t) as [[? ?]|]. Qed.

Lemma sql_bind_ok {T A B} (m : Sql T A) (k : A -> Sql T B) db a db' :
  m db = (Ok a, db') -> sql_bind m k db = k a db'.
Proof. unfold sql_bind. by intros ->. Qed.

Lemma sql_bind_err {T A B} (m : Sql T A) (k : A -> Sql T B) db e db' :
  m db = (Err e, db') -> sql_bind m k db = (Err e, db').
Proof. unfold sql_bind. by intros ->. Qed.

(** A statement whose connection fails before it is applied changes nothing. *)
Lemma statement_fault_before {T A} (f : T -> result (A * T) string) t msg fs :
  statement f {| db_table := t; db_faults := Some (FaultBefore msg) :: fs |} =
  (Err (Database msg), {| db_table := t; db_faults := fs |}).
Proof. done. Qed.

Lemma zoom_steady {T S A} (get : T -> S) set (m : Sql S A) t r s' :
  m (steady (get t)) = (r, steady s') -> zoom get set m (steady t) = (r, steady (set s' t)).
Proof. unfold zoom, steady. cbn. by intros ->. Qed.

(** The rows no condition selects. *)
Lemma select_none {Row} (p : Row -> bool) (rows : list Row) :
  (forall r, r ∈ rows -> p r = false) -> filter (fun r => p r) rows = [].
Proof.
  induction rows as [|r rows IH]; intros Hp; [done|]. rewrite filter_cons_False.
  - apply IH. intros r' Hr'. apply Hp. by right.
  - rewrite Hp by left. by intros [].
Qed.

Lemma set_none {Row} (p : Row -> bool) f (rows : list Row) :
  (forall r, r ∈ rows -> p r = false) -> set_where p f rows = rows.
Proof.
  intros Hp. unfold set_where. rewrite <- (list_fmap_id rows) at 2.
  apply list_fmap_ext. intros i r Hr%list_elem_of_lookup_2. by rewrite Hp.
Qed.

Lemma set_where_Forall {Row} (P : Row -> Prop) (p : Row -> bool) f rows :
  Forall P rows -> (forall r, r ∈ rows -> p r = true -> P r -> P (f r)) ->
  Forall P (set_where p f rows).
Proof.
  intros HP Hf. apply Forall_fmap, Forall_forall. intros r Hr. cbn.
  rewrite Forall_forall in HP. destruct (p r) eqn:E; eauto.
Qed.

(** Statements on a steady connection. *)
Lemma fetch_optional_steady {Row} (p : Row -> bool) rows :
  fetch_optional p (steady rows) = (Ok (head (filter (fun r => p r) rows)), steady rows).
Proof. unfold fetch_optional. by rewrite statement_steady. Qed.

Lemma update_where_steady {Row} valid (p : Row -> bool) f rows :
  valid (set_where p f rows) = true ->
  update_where valid p f (steady rows) =
  (Ok (f <$> filter (fun r => p r) rows), steady (set_where p f rows)).
Proof. intros Hv. unfold update_where. rewrite statement_steady. by rewrite Hv. Qed.

Lemma delete_where_steady {Row} (p : Row -> bool) rows :
  delete_where p (steady rows) =
  (Ok (length (filter (fun r => p r) rows)), steady (filter (fun r => ~ p r) rows)).
Proof. unfold delete_where. by rewrite statement_steady. Qed.

Lemma insert_row_steady {Row} valid (r : Row) rows :
  valid (rows ++ [r])%list = true ->
  insert_row valid r (steady rows) = (Ok (), steady (rows ++ [r])%list).
Proof. intros Hv. unfold insert_row. rewrite statement_steady. by rewrite Hv. Qed.

Lemma update_where_one {Row} valid (p : Row -> bool) f r :
  valid [if p r then f r else r] = true ->
  update_where valid p f (steady [r]) =
  (Ok (if p r then [f r] else []), steady [if p r then f r else r]).
Proof.
  intros Hv. rewrite update_where_steady by done. rewrite filter_cons, filter_nil.
  unfold set_where. cbn. by destruct (p r).
Qed.

(** On any connection: what an update that answers has selected, and that it relates
    each row to itself or to its image. *)
Lemma update_where_ok {Row} valid (p : Row -> bool) f db rows db' :
  update_where valid p f db = (Ok rows, db') ->
  rows = f <$> filter (fun r => p r) (db_table db).
Proof.
  unfold update_where, statement. destruct (head (db_faults db)) as [[[]|]|]; cbn; [done..| |];
    destruct (valid _); by intros [= <- <-].
Qed.

Lemma head_filter_map {Row} (p : Row -> bool) (f : Row -> Row) rows r :
  head (f <$> filter (fun r => p r) rows) = Some r -> exists x, x ∈ rows /\ p x = true /\ r = f x.
Proof.
  destruct (filter (fun r => p r) rows) as [|x l] eqn:E; [done|]. intros [= <-]. exists x.
  assert (x ∈ filter (fun r => p r) rows) as Hx by (rewrite E; left).
  apply list_elem_of_filter in Hx as [Hp Hx]. by apply Is_true_true_1 in Hp.
Qed.

Lemma update_where_related {Row} (rel : Row -> Row -> Prop) valid (p : Row -> bool) f db :
  (forall r, rel r r) -> (forall r, p r = true -> rel r (f r)) ->
  Forall2 rel (db_table db) (db_table (update_where valid p f db).2).
Proof.
  intros Hr Hf. assert (forall rows : list Row, Forall2 rel rows rows) as Hsame.
  { induction rows; by constructor. }
  assert (forall rows, Forall2 rel rows (set_where p f rows)) as Hset.
  { induction rows as [|r rows IH]; constructor; [|exact IH]. destruct (p r) eqn:E; auto. }
  unfold update_where, statement. destruct (head (db_faults db)) as [[[]|]|]; cbn; try done;
    by destruct (valid _).
Qed.

(** ** Tables and maps

    A table represents a map of records when its rows, decoded, are the map's
    values, each under its identifier. *)
Section Represents.
Context {Row Entry : Type} (eid : Entry -> string) (entry : Row -> Entry).

Definition represents (rows : list Row) (m : gmap string Entry) : Prop :=
  NoDup ((fun r => eid (entry r)) <$> rows) /\
  forall id k, m !! id = Some k <-> exists r, r ∈ rows /\ entry r = k /\ eid k = id.

(** [p] selects the row with identifier [id]. *)
Definition selects (p : Row -> bool) (id : string) (rows : list Row) : Prop :=
  forall r, r ∈ rows -> p r = true <-> eid (entry r) = id.

Context (rows : list Row) (m : gmap string Entry).
Hypothesis Hrep : represents rows m.

Lemma rep_row r : r ∈ rows -> m !! eid (entry r) = Some (entry r).
Proof. intros Hr. apply Hrep. by exists r. Qed.

Lemma rep_same_id r r' : r ∈ rows -> r' ∈ rows -> eid (entry r) = eid (entry r') ->
  entry r = entry r'.
Proof. intros H1%rep_row H2%rep_row He. rewrite He in H1. congruence. Qed.

Lemma rep_filter p id : selects p id rows ->
  match m !! id with
  | Some k => exists r, filter (fun r => p r) rows = [r] /\ r ∈ rows /\ entry r = k
  | None => filter (fun r => p r) rows = []
  end.
Proof.
  intros Hp. destruct (m !! id) as [k|] eqn:E.
  - apply Hrep in E as (r & Hr & <- & <-). exists r. split; [|done].
    destruct Hrep as [Hnd _]. clear Hrep. induction rows as [|x l IH]; [by apply elem_of_nil in Hr|].
    cbn in Hnd. apply NoDup_cons in Hnd as [Hx Hnd].
    assert (forall y, y ∈ l -> eid (entry y) <> eid (entry x)) as Hne.
    { intros y Hy He. apply Hx. rewrite <- He. by apply (list_elem_of_fmap_2 (fun r => eid (entry r))). }
    rewrite filter_cons. apply elem_of_cons in Hr as [->|Hr].
    + rewrite decide_True by (apply Is_true_true, Hp; [left|done]). f_equal.
      apply select_none. intros y Hy. apply not_true_is_false. intros Hpy.
      apply Hp in Hpy; [|by right]. by apply Hne in Hy.
    + rewrite decide_False.
      * apply IH; [|done|done]. intros y Hy. apply Hp. by right.
      * intros Hpx. apply Is_true_true, Hp in Hpx; [|left]. by apply Hne in Hr.
  - apply select_none. intros r Hr. apply not_true_is_false. intros Hpr. apply Hp in Hpr; [|done].
    pose proof (rep_row r Hr). congruence.
Qed.

Lemma rep_find p id : selects p id rows ->
  entry <$> head (filter (fun r => p r) rows) = m !! id.
Proof.
  intros Hp. pose proof (rep_filter p id Hp) as Hf. destruct (m !! id) as [k|].
  - destruct Hf as (r & -> & _ & <-). done.
  - by rewrite Hf.
Qed.

Lemma rep_count p id : selects p id rows ->
  Nat.ltb 0 (length (filter (fun r => p r) rows)) = bool_decide (is_Some (m !! id)).
Proof.
  intros Hp. pose proof (rep_filter p id Hp) as Hf. destruct (m !! id) as [k|].
  - by destruct Hf as (r & -> & _ & <-).
  - by rewrite Hf.
Qed.

Lemma rep_set p id f fr : selects p id rows ->
  (forall r, r ∈ rows -> p r = true -> entry (fr r) = f (entry r) /\ eid (entry (fr r)) = eid (entry r)) ->
  represents (set_where p fr rows) (alter f id m).
Proof.
  intros Hp Hf. destruct Hrep as [Hnd Hm]. split.
  - unfold set_where. rewrite <- list_fmap_compose.
    replace ((compose (fun r => eid (entry r)) (fun r => if p r then fr r else r)) <$> rows)
      with ((fun r => eid (entry r)) <$> rows); [done|].
    apply list_fmap_ext. intros i r Hr%list_elem_of_lookup_2. unfold compose.
    destruct (p r) eqn:E; [|done]. by destruct (Hf r Hr E).
  - intros id' k. rewrite lookup_alter_Some, Hm. unfold set_where. split.
    + intros [(<- & k0 & (r & Hr & <- & Hid)%Hm & ->)|(Hne & r & Hr & <- & Hid)].
      * assert (p r = true) as E by (by apply Hp). destruct (Hf r Hr E) as [He Hi].
        exists (fr r). split; [|split; [done|by rewrite <- He, Hi]].
        apply list_elem_of_fmap. exists r. by rewrite E.
      * exists r. split; [|done]. apply list_elem_of_fmap. exists r.
        destruct (p r) eqn:E; [|done]. apply Hp in E; [|done]. congruence.
    + intros (r' & (r & -> & Hr)%list_elem_of_fmap & <- & Hid). destruct (p r) eqn:E.
      * destruct (Hf r Hr E) as [He Hi]. left. apply Hp in E; [|done].
        split; [congruence|]. exists (entry r). split; [|done]. apply Hm. exists r. by rewrite <- Hi.
      * right. split; [|by exists r]. intros <-. apply Hp in Hid; congruence.
Qed.

Lemma rep_delete p id : selects p id rows ->
  represents (filter (fun r => ~ p r) rows) (delete id m).
Proof.
  intros Hp. destruct Hrep as [Hnd Hm]. split.
  - eapply sublist_NoDup; [done|]. apply fmap_sublist, sublist_filter.
  - intros id' k. rewrite lookup_delete_Some, Hm. setoid_rewrite list_elem_of_filter. split.
    + intros [Hne (r & Hr & <- & Hid)]. exists r. repeat split; try done.
      intros E%Is_true_true. apply Hp in E; congruence.
    + intros (r & [E Hr] & <- & Hid). split; [|by exists r]. intros <-.
      apply E, Is_true_true. by apply Hp.
Qed.

Lemma rep_insert r id : eid (entry r) = id -> m !! id = None ->
  represents (rows ++ [r]) (<[id := entry r]> m).
Proof.
  intros Hid Hnone. destruct Hrep as [Hnd Hm]. split.
  - rewrite fmap_app. apply NoDup_app. split; [done|]. split; [|apply NoDup_singleton].
    intros x (r' & -> & Hr')%list_elem_of_fmap. cbn. rewrite list_elem_of_singleton.
    intros He. pose proof (rep_row r' Hr'). congruence.
  - intros id' k. rewrite lookup_insert_Some, Hm. setoid_rewrite elem_of_app.
    setoid_rewrite list_elem_of_singleton. split.
    + intros [[<- <-]|(Hne & r' & Hr' & Hk & Hi)]; [exists r; auto|exists r'; auto].
    + intros (r' & [Hr'| ->] & <- & Hi); [|left; split; congruence]. right.
      split; [|by exists r']. intros <-. pose proof (rep_row r' Hr'). congruence.
Qed.

(** Removing the rows of a property of the records. *)
Lemma rep_remove (p : Row -> bool) (q : Entry -> bool) :
  (forall r, r ∈ rows -> p r = q (entry r)) ->
  represents (filter (fun r => ~ p r) rows) (filter (fun kv => ~ q (snd kv)) m).
Proof.
  intros Hpq. destruct Hrep as [Hnd Hm]. split.
  - eapply sublist_NoDup; [done|]. apply fmap_sublist, sublist_filter.
  - intros id k. rewrite map_lookup_filter_Some, Hm. setoid_rewrite list_elem_of_filter. cbn. split.
    + intros [(r & Hr & <- & Hid) Hq]. exists r. by rewrite Hpq.
    + intros (r & [Hp Hr] & <- & Hid). rewrite Hpq in Hp by done. split; [by exists r|done].
Qed.

End Represents.
Arguments rep_remove {Row Entry eid} entry rows m _ p q _.
Arguments rep_row {Row Entry eid} entry rows m _ r _.
Arguments rep_same_id {Row Entry eid} entry rows m _ r r' _ _ _.
Arguments rep_filter {Row Entry eid} entry rows m _ p id _.
Arguments rep_find {Row Entry eid} entry rows m _ p id _.
Arguments rep_count {Row Entry eid} entry rows m _ p id _.
Arguments rep_set {Row Entry eid} entry rows m _ p id f fr _ _.
Arguments rep_delete {Row Entry eid} entry rows m _ p id _.
Arguments rep_insert {Row Entry eid} entry rows m _ r id _ _.


(** ** Concrete text and identifiers, for the theorems' witnesses *)
Module SqlDemo.

(** Text of a few instants: one character. *)
Definition text (t : Z) : string := String (Ascii.ascii_of_nat (Z.to_nat t)) EmptyString.
Definition untext (s : string) : option Z :=
  match s with String a _ => Some (Z.of_nat (Ascii.nat_of_ascii a)) | EmptyString => None end.
Definition small (t : Z) : Prop := 0 <= t < 128.

Lemma small_elem t : small t -> t ∈ seqZ 0 128.
Proof. intros Ht. apply elem_of_seqZ. unfold small in Ht. lia. Qed.

Lemma text_round t : small t -> untext (text t) = Some t.
Proof.
  intros Ht%small_elem. revert t Ht. apply Forall_forall.
  apply (bool_decide_unpack (Forall (fun t => untext (text t) = Some t) (seqZ 0 128))).
  by vm_compute.
Qed.

Lemma text_order t u : small t -> small u -> String.ltb (text t) (text u) = (t <? u).
Proof.
  intros Ht%small_elem Hu%small_elem. revert u Hu. apply Forall_forall.
  revert t Ht. apply Forall_forall.
  apply (bool_decide_unpack (Forall (fun t => Forall (fun u =>
    String.ltb (text t) (text u) = (t <? u)) (seqZ 0 128)) (seqZ 0 128))).
  by vm_compute.
Qed.

#[export] Instance time_text : TimeText :=
  {| to_rfc3339 := text; parse_from_rfc3339 := untext; parse_naive := fun _ => None;
     time_ok := small; rfc3339_round := text_round; rfc3339_order := text_order |}.

(** Identifiers written as the bits of an encoding. *)
Fixpoint bits (p : positive) : string :=
  match p with
  | xH => EmptyString
  | xO p => String Ascii.zero (bits p)
  | xI p => String Ascii.one (bits p)
  end.

Fixpoint unbits (s : string) : positive :=
  match s with
  | EmptyString => xH
  | String a s => if decide (a = Ascii.one) then xI (unbits s) else xO (unbits s)
  end.

Lemma unbits_bits p : unbits (bits p) = p.
Proof. induction p; cbn; by f_equal. Qed.

Definition uuid (u : Z) : string := bits (encode u).
Definition parse_uuid (s : string) : option Z := decode (unbits s).

Lemma uuid_parses u : parse_uuid (uuid u) = Some u.
Proof. unfold parse_uuid, uuid. by rewrite unbits_bits, decode_encode. Qed.

End SqlDemo.
