(* ===== verification/Jwt.v ===== *)
(** * Token claims, OIDC validation and the local admin login
    (src/crates/himadri-auth/src/jwt.rs, oidc.rs, admin_login.rs, error.rs)

    The jsonwebtoken crate signs, opens and checks tokens; what it is asked to
    check, which key it is given, and what the claims then grant are here. The
    class [JwtLibrary] is the part of its contract the admin login relies on. The
    network, the clock (in seconds) and the random signing secret are arguments. *)

From S2P Require Import Prelude Str Float Types Json Sql.
From Stdlib Require Import Ascii Sorted.

(** ** Claims *)

Record JwtClaims := {
  jc_sub : string;
  jc_iss : string;
  jc_aud : string;
  jc_exp : Z;
  jc_iat : Z;
  jc_nbf : option Z;
  jc_jti : option string;
  jc_scope : option string;
  jc_org_id : option string;
  jc_team_id : option string;
  jc_email : option string;
  jc_email_verified : option bool;
  jc_roles : option (list string);
  jc_rate_limit_rpm : option Z;
  jc_budget_limit_usd : option f64;
  jc_custom : list (string * Value);
}.

Section Deserialize.
(** serde_json's printer, and [str::parse::<f64>] *)
Context (json_print : Value -> string) (parse_f64 : string -> option f64).

Definition deserialize_aud (v : Value) : string :=
  match v with
  | VString s => s
  | VArray arr => join "," ((fun v => match v with VString s => s | other => json_print other end) <$> arr)
  | VNull => ""
  | other => json_print other
  end.

Definition deserialize_optional_u64 (v : Value) : option Z :=
  match v with
  | VNumber (PosInt n) => Some n
  | VString s => parse_u64 s
  | _ => None
  end.

Definition deserialize_optional_f64 (v : Value) : option f64 :=
  match v with
  | VNumber (FloatNum x) => Some x
  | VNumber (PosInt n) | VNumber (NegInt n) => Some (f64_of_Z n)
  | VString s => parse_f64 s
  | _ => None
  end.

(** The names that are not [custom]. *)
Definition CLAIM_NAMES : list string :=
  ["sub"; "iss"; "aud"; "exp"; "iat"; "nbf"; "jti"; "scope"; "org_id"; "team_id"; "email";
   "email_verified"; "roles"; "rate_limit_rpm"; "budget_limit_usd"].

(** An optional claim: absent and [null] are [None], another type is an error. *)
Definition claim {A} (get : Value -> option A) (k : string) (l : list (string * Value))
    : option (option A) :=
  match object_get k l with
  | None | Some VNull => Some None
  | Some v => Some <$> get v
  end.

Definition value_as_bool (v : Value) : option bool := match v with VBool b => Some b | _ => None end.
Definition value_as_strings (v : Value) : option (list string) :=
  l ← value_as_array v; mapM value_as_str l.

(** [Deserialize for JwtClaims]: [None] is an error. *)
Definition claims_from_value (v : Value) : option JwtClaims :=
  l ← value_as_object v;
  sub ← object_get "sub" l ≫= value_as_str;
  iss ← object_get "iss" l ≫= value_as_str;
  aud ← object_get "aud" l;
  exp ← object_get "exp" l ≫= value_as_u64;
  iat ← object_get "iat" l ≫= value_as_u64;
  nbf ← claim value_as_u64 "nbf" l;
  jti ← claim value_as_str "jti" l;
  scope ← claim value_as_str "scope" l;
  org ← claim value_as_str "org_id" l;
  team ← claim value_as_str "team_id" l;
  email ← claim value_as_str "email" l;
  verified ← claim value_as_bool "email_verified" l;
  roles ← claim value_as_strings "roles" l;
  Some {| jc_sub := sub; jc_iss := iss; jc_aud := deserialize_aud aud; jc_exp := exp; jc_iat := iat;
          jc_nbf := nbf; jc_jti := jti; jc_scope := scope; jc_org_id := org; jc_team_id := team;
          jc_email := email; jc_email_verified := verified; jc_roles := roles;
          jc_rate_limit_rpm := object_get "rate_limit_rpm" l ≫= deserialize_optional_u64;
          jc_budget_limit_usd := object_get "budget_limit_usd" l ≫= deserialize_optional_f64;
          jc_custom := List.filter (fun '(k, _) => negb (bool_decide (k ∈ CLAIM_NAMES))) l |}.
End Deserialize.

Definition is_expired (now : Z) (c : JwtClaims) : bool := jc_exp c <? now.

Definition is_not_yet_valid (now : Z) (c : JwtClaims) : bool :=
  match jc_nbf c with Some nbf => now <? nbf | None => false end.

Definition jwt_scopes (c : JwtClaims) : list string :=
  match jc_scope c with Some s => split_whitespace s | None => [] end.

(** [Vec::dedup] *)
Fixpoint dedup (l : list string) : list string :=
  match l with
  | [] => []
  | x :: tl =>
      match tl with
      | [] => [x]
      | y :: _ => if decide (x = y) then dedup tl else x :: dedup tl
      end
  end.

Definition is_project_roles (key : string) : bool :=
  starts_with "urn:zitadel:iam:org:project:" key && ends_with ":roles" key.

(** The roles of the custom claims, in the order the map is read. *)
Definition custom_roles (custom : list (string * Value)) : list string :=
  flat_map (fun '(key, value) =>
    if is_project_roles key then
      match value_as_object value with Some m => fst <$> m | None => [] end
    else []) custom.

Definition jwt_roles (c : JwtClaims) : list string :=
  dedup (stable_sort String.ltb (default [] (jc_roles c) ++ custom_roles (jc_custom c))).

Definition role_any (names : list string) (roles : list string) : bool :=
  existsb (fun r => bool_decide (r ∈ names)) roles.

(** [u64::div_ceil] *)
Definition div_ceil (a b : Z) : Z := (a + b - 1) / b.

Definition into_auth_context (c : JwtClaims) : AuthContext :=
  let roles := jwt_roles c in
  let scopes := jwt_scopes c in
  let is_admin := role_any ["admin"; "gateway-admin"] roles || bool_decide ("admin" ∈ scopes) in
  let is_readonly :=
    role_any ["read-only"; "readonly"; "read"] roles || bool_decide ("read" ∈ scopes) in
  {| auth_api_key := "jwt:" +:+ jc_sub c;
     auth_key_id := Some (jc_sub c);
     auth_scope := if is_admin then Admin else if is_readonly then ReadOnly else ApiKey;
     auth_org_id := jc_org_id c;
     auth_team_id := jc_team_id c;
     auth_user_id := Some (jc_sub c);
     auth_rate_limit_override :=
       (fun rpm => {| ov_requests_per_second := Some (div_ceil rpm 60);
                      ov_burst_size := Some rpm |}) <$> jc_rate_limit_rpm c;
     auth_roles := roles;
     auth_budget_limit_usd := jc_budget_limit_usd c |}.

(** ** Errors (error.rs) *)

Inductive AuthError :=
  | InvalidToken (reason : string)
  | ExpiredToken
  | InvalidSignature
  | InvalidAudience
  | InvalidIssuer
  | OidcDiscoveryFailed (reason : string)
  | JwksFetchFailed (reason : string)
  | Network (reason : string)
  | AuthConfig (reason : string).

(** ** The token library *)

Inductive Algorithm :=
  | RS256 | RS384 | RS512 | PS256 | PS384 | PS512 | ES256 | ES384 | EdDSA | HS256.

(** [KeyAlgorithm]: those above, and the ones that do not sign. *)
Inductive KeyAlgorithm := Signing (a : Algorithm) | OtherAlgorithm.

Inductive Curve := P256 | P384 | OtherCurve.
Inductive KeyType := RSA | EllipticCurve (c : Curve) | OctetKeyPair | OctetKey.

Record Jwk := {
  jwk_key_id : option string;
  jwk_key_algorithm : option KeyAlgorithm;
  jwk_type : KeyType;
  jwk_material : string;
}.

(** [Validation]: [exp] is required and checked; one issuer, one audience. *)
Record Validation := {
  val_algorithm : Algorithm;
  val_nbf : bool;
  val_audience : string;
  val_issuer : string;
  val_leeway : Z;
}.

Inductive JwtErrorKind :=
  | KExpiredSignature | KInvalidSignature | KInvalidAudience | KInvalidIssuer
  | KOther (message : string).

Definition algorithm_for_jwk (k : Jwk) : option Algorithm :=
  match jwk_key_algorithm k with
  | Some (Signing HS256) | Some OtherAlgorithm => None
  | Some (Signing a) => Some a
  | None =>
      match jwk_type k with
      | RSA => Some RS256
      | EllipticCurve P256 => Some ES256
      | EllipticCurve P384 => Some ES384
      | OctetKeyPair => Some EdDSA
      | EllipticCurve OtherCurve | OctetKey => None
      end
  end.

(** ** OIDC *)
Section Oidc.
Context {Key : Type}.
(** [decode_header], which gives the key's name; [DecodingKey::from_jwk];
    [decode], at an instant. *)
Context (decode_header : string -> result (option string) string).
Context (key_from_jwk : Jwk -> result Key string).
Context (decode : string -> Key -> Validation -> Z -> result JwtClaims JwtErrorKind).
Context (kind_message : JwtErrorKind -> string).

Record OidcDiscovery := {
  od_issuer : string;
  od_audience : string;
  od_jwks_uri : string;
  od_jwks : list Jwk;
  od_last_refresh : Z;
}.

Definition from_parts (issuer audience : string) (keys : list Jwk) (now : Z) : OidcDiscovery :=
  {| od_issuer := issuer; od_audience := audience; od_jwks_uri := ""; od_jwks := keys;
     od_last_refresh := now |}.

(** [Validation::new(algorithm)] with what [validate_token] sets; the crate's
    leeway is 60 seconds. *)
Definition oidc_validation (d : OidcDiscovery) (a : Algorithm) : Validation :=
  {| val_algorithm := a; val_nbf := true; val_audience := od_audience d;
     val_issuer := od_issuer d; val_leeway := 60 |}.

Definition jwt_error (k : JwtErrorKind) : AuthError :=
  match k with
  | KExpiredSignature => ExpiredToken
  | KInvalidSignature => InvalidSignature
  | KInvalidAudience => InvalidAudience
  | KInvalidIssuer => InvalidIssuer
  | KOther _ => InvalidToken (kind_message k)
  end.

Definition validate_token (token : string) (now : Z) (d : OidcDiscovery) : result JwtClaims AuthError :=
  let? kid := map_err InvalidToken (decode_header token) in
  let? kid := ok_or kid (InvalidToken "missing kid in header") in
  let? jwk := ok_or (head (List.filter (fun k => bool_decide (jwk_key_id k = Some kid)) (od_jwks d)))
                (InvalidToken ("key not found: " +:+ kid)) in
  let? algorithm := ok_or (algorithm_for_jwk jwk)
                      (InvalidToken ("unsupported JWK algorithm for kid " +:+ kid)) in
  let? key := map_err InvalidToken (key_from_jwk jwk) in
  map_err jwt_error (decode token key (oidc_validation d algorithm) now).

(** Fetching, over the outside world. *)
Context {W : Type}.
Context (get_jwks : string -> W -> result (list Jwk) string * W).
Context (get_config : string -> W -> result (result string string) string * W).

Definition fetch_jwks (uri : string) (w : W) : result (list Jwk) AuthError * W :=
  let '(r, w) := get_jwks uri w in (map_err JwksFetchFailed r, w).

Definition oidc_new (issuer audience : string) (jwks_uri : option string) (now : Z) (w : W)
    : result OidcDiscovery AuthError * W :=
  let '(uri, w) :=
    match jwks_uri with
    | Some uri => (Ok uri, w)
    | None =>
        let '(r, w) := get_config (issuer +:+ "/.well-known/openid-configuration") w in
        (let? body := map_err Network r in map_err OidcDiscoveryFailed body, w)
    end in
  match uri with
  | Err e => (Err e, w)
  | Ok uri =>
      let '(r, w) := fetch_jwks uri w in
      (let? keys := r in
       Ok {| od_issuer := issuer; od_audience := audience; od_jwks_uri := uri; od_jwks := keys;
             od_last_refresh := now |}, w)
  end.

Definition refresh_jwks (now : Z) (d : OidcDiscovery) (w : W)
    : result unit AuthError * OidcDiscovery * W :=
  match fetch_jwks (od_jwks_uri d) w with
  | (Err e, w) => (Err e, d, w)
  | (Ok keys, w) =>
      (Ok tt, {| od_issuer := od_issuer d; od_audience := od_audience d; od_jwks_uri := od_jwks_uri d;
                 od_jwks := keys; od_last_refresh := now |}, w)
  end.

Definition refresh_if_needed (interval now : Z) (d : OidcDiscovery) (w : W)
    : result unit AuthError * OidcDiscovery * W :=
  if interval <? now - od_last_refresh d then refresh_jwks now d w else (Ok tt, d, w).

(** The process-wide cache, by issuer and audience. *)
Definition get_or_create_discovery (issuer audience : string) (jwks_uri : option string) (now : Z)
    (cache : gmap string OidcDiscovery) (w : W)
    : result OidcDiscovery AuthError * gmap string OidcDiscovery * W :=
  let cache_key := issuer +:+ "|" +:+ audience in
  match cache !! cache_key with
  | Some d => (Ok d, cache, w)
  | None =>
      match oidc_new issuer audience jwks_uri now w with
      | (Ok d, w) => (Ok d, <[cache_key := d]> cache, w)
      | (Err e, w) => (Err e, cache, w)
      end
  end.
End Oidc.

(** ** The admin login *)

Definition DEV_ADMIN_ISSUER : string := "himadri:dev-admin-login".
Definition DEV_ADMIN_AUDIENCE : string := "himadri:dashboard".
Definition DEFAULT_TTL_SECS : Z := 12 * 60 * 60.

(** What the crate checks of the claims of a token whose audience is one string: [exp],
    with the leeway, the audience and the issuer. *)
Definition claims_ok (v : Validation) (now : Z) (c : JwtClaims) : bool :=
  (now - val_leeway v <=? jc_exp c) && bool_decide (jc_aud c = val_audience v) &&
  bool_decide (jc_iss c = val_issuer v).

Definition plain_claims (c : JwtClaims) : Prop := jc_custom c = [] /\ jc_budget_limit_usd c = None.

(** What the login relies on, of the tokens it signed itself: signing does not fail,
    and under its own secret a token opens to its claims while they are valid and is
    refused when they are not. The round trip is asked of claims without documents or
    fractions. Nothing is assumed of a token from elsewhere, whose audience may be
    absent or a list. *)
Class JwtLibrary := {
  hs256_encode : JwtClaims -> string -> result string string;
  hs256_decode : string -> string -> Validation -> Z -> result JwtClaims JwtErrorKind;
  encode_total c secret : exists token, hs256_encode c secret = Ok token;
  decode_own c secret token v now : plain_claims c -> hs256_encode c secret = Ok token ->
    claims_ok v now c = true -> hs256_decode token secret v now = Ok c;
  decode_invalid c secret token v now : plain_claims c -> hs256_encode c secret = Ok token ->
    claims_ok v now c = false -> exists e, hs256_decode token secret v now = Err e;
}.

Record IssuedAdminToken := { ia_access_token : string; ia_token_type : string; ia_expires_in : Z }.

Record AdminLogin := {
  lg_username : string; lg_password : string; lg_ttl_secs : Z; lg_secret : string;
}.

Definition admin_login_from_env (env : string -> option string) (secret : string)
    : option AdminLogin :=
  match env "DEV_ADMIN_PASSWORD" with
  | None => None
  | Some password =>
      if str_is_empty (trim password) then None
      else
        let username := default "admin" (env "DEV_ADMIN_USERNAME") in
        let ttl := match env "DEV_ADMIN_TOKEN_TTL_SECS" ≫= parse_u64 with
                   | Some t => if 0 <? t then t else DEFAULT_TTL_SECS
                   | None => DEFAULT_TTL_SECS
                   end in
        Some {| lg_username := username; lg_password := password; lg_ttl_secs := ttl;
                lg_secret := secret |}
  end.

(** [a.get(i).copied().unwrap_or(0)] *)
Definition byte_or_zero (s : string) (i : nat) : Z :=
  match String.get i s with Some c => byte c | None => 0 end.

Definition ct_eq (a b : string) : bool :=
  let la := String.length a in
  let lb := String.length b in
  foldl (fun diff i => Z.lor diff (Z.lxor (byte_or_zero a i) (byte_or_zero b i)))
    (Z.lxor (Z.of_nat la) (Z.of_nat lb) mod 256) (seq 0 (Nat.max la lb)) =? 0.

Definition login_verify (username password : string) (l : AdminLogin) : bool :=
  let user_ok := ct_eq username (lg_username l) in
  let pass_ok := ct_eq password (lg_password l) in
  user_ok && pass_ok.

(** [now + ttl] wraps in a release build. *)
Definition login_claims (now : Z) (l : AdminLogin) : JwtClaims :=
  {| jc_sub := lg_username l; jc_iss := DEV_ADMIN_ISSUER; jc_aud := DEV_ADMIN_AUDIENCE;
     jc_exp := wrap_u64 (now + lg_ttl_secs l); jc_iat := now; jc_nbf := None; jc_jti := None;
     jc_scope := None; jc_org_id := None; jc_team_id := None; jc_email := None;
     jc_email_verified := None; jc_roles := Some ["admin"]; jc_rate_limit_rpm := None;
     jc_budget_limit_usd := None; jc_custom := [] |}.

Definition login_validation : Validation :=
  {| val_algorithm := HS256; val_nbf := false; val_audience := DEV_ADMIN_AUDIENCE;
     val_issuer := DEV_ADMIN_ISSUER; val_leeway := 30 |}.

Section Login.
Context `{JwtLibrary}.

Definition login_issue (now : Z) (l : AdminLogin) : result IssuedAdminToken AuthError :=
  let? token := map_err InvalidToken (hs256_encode (login_claims now l) (lg_secret l)) in
  Ok {| ia_access_token := token; ia_token_type := "Bearer"; ia_expires_in := lg_ttl_secs l |}.

(** The text of an error is the crate's. *)
Definition login_validate (message : JwtErrorKind -> string) (token : string) (now : Z) (l : AdminLogin)
    : result JwtClaims AuthError :=
  map_err (fun e => InvalidToken (message e))
    (hs256_decode token (lg_secret l) login_validation now).
End Login.

(** ** Proofs: roles *)

Lemma strings_sorted l :
  StronglySorted (fun a b => String.ltb b a = false) (stable_sort String.ltb l).
Proof.
  apply (stable_sort_sorted String.ltb (fun _ => True)).
  - intros a b c _ _ _. apply ltb_negtrans.
  - intros a b _ _. apply ltb_asym.
  - by apply Forall_true.
Qed.

Lemma dedup_elem l x : x ∈ dedup l <-> x ∈ l.
Proof.
  induction l as [|a l IH]; [done|]. cbn [dedup]. destruct l as [|b l]; [done|].
  destruct (decide (a = b)) as [->|]; rewrite ?elem_of_cons, IH; [|by rewrite !elem_of_cons].
  rewrite !elem_of_cons. naive_solver.
Qed.

(** Sorted without duplicates: strictly increasing. *)
Lemma dedup_increasing l : StronglySorted (fun a b => String.ltb b a = false) l ->
  StronglySorted (fun a b => String.ltb a b = true) (dedup l).
Proof.
  induction 1 as [|a l Hl IH Ha]; [constructor|]. cbn [dedup]. destruct l as [|b l].
  { constructor; [constructor|done]. }
  destruct (decide (a = b)) as [->|Hne]; [done|]. constructor; [done|].
  apply Forall_forall. intros x Hx. rewrite dedup_elem in Hx. rewrite Forall_forall in Ha.
  pose proof (Ha b ltac:(left)) as Hab. apply StronglySorted_inv in Hl as [_ Hb].
  assert (String.ltb a b = true) as Hlt.
  { destruct (String.ltb a b) eqn:E; [done|]. by destruct Hne; apply ltb_total. }
  apply elem_of_cons in Hx as [->|Hx]; [done|]. rewrite Forall_forall in Hb.
  pose proof (Hb x Hx) as Hbx. destruct (String.ltb a x) eqn:E; [done|].
  pose proof (ltb_negtrans x a b). destruct (String.ltb b x) eqn:E2.
  - pose proof (ltb_trans _ _ _ Hlt E2). congruence.
  - assert (b = x) as <- by by apply ltb_total. congruence.
Qed.

(** A strictly increasing list is determined by its elements. *)
Lemma increasing_unique l k :
  StronglySorted (fun a b => String.ltb a b = true) l ->
  StronglySorted (fun a b => String.ltb a b = true) k ->
  (forall x, x ∈ l <-> x ∈ k) -> l = k.
Proof.
  intros Hl. revert k. induction Hl as [|a l Hl IH Ha]; intros k Hk Heq.
  - destruct k as [|b k]; [done|]. pose proof (proj2 (Heq b) ltac:(left)) as Hb.
    by apply elem_of_nil in Hb.
  - destruct Hk as [|b k Hk Hb].
    { pose proof (proj1 (Heq a) ltac:(left)) as Hb. by apply elem_of_nil in Hb. }
    rewrite Forall_forall in Ha, Hb.
    assert (a = b) as <-.
    { pose proof (proj1 (Heq a) ltac:(left)) as H1. pose proof (proj2 (Heq b) ltac:(left)) as H2.
      apply elem_of_cons in H1 as [H1|H1]; [done|]. apply elem_of_cons in H2 as [H2|H2]; [done|].
      pose proof (ltb_asym _ _ (Ha b H2)). pose proof (Hb a H1). congruence. }
    f_equal. apply IH; [done|]. intros x. specialize (Heq x). rewrite !elem_of_cons in Heq.
    assert (~ a ∈ l) as Hna by (intros H%Ha; by rewrite ltb_irrefl in H).
    assert (~ a ∈ k) as Hnb by (intros H%Hb; by rewrite ltb_irrefl in H).
    split; intros Hx.
    + destruct (proj1 Heq (or_intror Hx)) as [-> |]; done.
    + destruct (proj2 Heq (or_intror Hx)) as [-> |]; done.
Qed.

Definition with_custom (custom : list (string * Value)) (c : JwtClaims) : JwtClaims :=
  {| jc_sub := jc_sub c; jc_iss := jc_iss c; jc_aud := jc_aud c; jc_exp := jc_exp c;
     jc_iat := jc_iat c; jc_nbf := jc_nbf c; jc_jti := jc_jti c; jc_scope := jc_scope c;
     jc_org_id := jc_org_id c; jc_team_id := jc_team_id c; jc_email := jc_email c;
     jc_email_verified := jc_email_verified c; jc_roles := jc_roles c;
     jc_rate_limit_rpm := jc_rate_limit_rpm c; jc_budget_limit_usd := jc_budget_limit_usd c;
     jc_custom := custom |}.

Lemma custom_roles_elem custom r : r ∈ custom_roles custom <->
  exists key m v, (key, VObject m) ∈ custom /\ is_project_roles key = true /\ (r, v) ∈ m.
Proof.
  unfold custom_roles. rewrite list_elem_of_In, in_flat_map. split.
  - intros ([key value] & Hin & Hr). destruct (is_project_roles key) eqn:E; [|done].
    destruct value; try done. cbn in Hr.
    apply list_elem_of_In, list_elem_of_fmap in Hr as ([r' v] & -> & Hr).
    exists key, members, v. by rewrite list_elem_of_In.
  - intros (key & m & v & Hin & Hk & Hr). exists (key, VObject m). rewrite <- list_elem_of_In.
    split; [done|]. rewrite Hk. cbn. apply list_elem_of_In, list_elem_of_fmap. by exists (r, v).
Qed.

Lemma jwt_roles_elem c r : r ∈ jwt_roles c <->
  r ∈ default [] (jc_roles c) \/
  exists key m v, (key, VObject m) ∈ jc_custom c /\ is_project_roles key = true /\ (r, v) ∈ m.
Proof. unfold jwt_roles. by rewrite dedup_elem, stable_sort_perm, elem_of_app, custom_roles_elem. Qed.

(** The roles of a token are those of its [roles] claim and the keys of its
    Zitadel project-role claims, each once, in order; the order in which the
    map of custom claims is read does not matter. *)
Theorem jwt_roles_spec c :
  StronglySorted (fun a b => String.ltb a b = true) (jwt_roles c) /\
  (forall r, r ∈ jwt_roles c <->
     r ∈ default [] (jc_roles c) \/
     exists key m v, (key, VObject m) ∈ jc_custom c /\ is_project_roles key = true /\ (r, v) ∈ m) /\
  (forall custom, custom ≡ₚ jc_custom c -> jwt_roles (with_custom custom c) = jwt_roles c).
Proof.
  split; [apply dedup_increasing, strings_sorted|]. split; [apply jwt_roles_elem|].
  intros custom Hp. apply increasing_unique; [apply dedup_increasing, strings_sorted..|].
  intros r. rewrite !jwt_roles_elem. cbn. by setoid_rewrite Hp.
Qed.

(** ** Proofs: the login *)

Lemma fold_lor_zero {A} (f : A -> Z) l d :
  foldl (fun d i => Z.lor d (f i)) d l = 0 <-> d = 0 /\ forall i, i ∈ l -> f i = 0.
Proof.
  revert d. induction l as [|a l IH]; intros d; cbn.
  - split; [|by intros []]. intros ->. split; [done|]. by intros i Hi%elem_of_nil.
  - rewrite IH, Z.lor_eq_0_iff. setoid_rewrite elem_of_cons. split.
    + intros [[-> Ha] Hl]. split; [done|]. intros i [->|Hi]; auto.
    + intros [-> Hl]. auto.
Qed.

Lemma lxor_mod_zero a b n : 0 <= n -> Z.lxor a b mod 2 ^ n = 0 <-> a mod 2 ^ n = b mod 2 ^ n.
Proof.
  intros Hn. split; intros Heq.
  - apply Z.bits_inj'. intros k Hk. destruct (Z.lt_ge_cases k n) as [Hlt|Hge].
    + rewrite !Z.mod_pow2_bits_low by done.
      assert (Z.testbit (Z.lxor a b mod 2 ^ n) k = false) as Hb by (rewrite Heq; apply Z.bits_0).
      rewrite Z.mod_pow2_bits_low, Z.lxor_spec in Hb by done. by apply xorb_eq in Hb.
    + by rewrite !Z.mod_pow2_bits_high.
  - apply Z.bits_inj'. intros k Hk. rewrite Z.bits_0. destruct (Z.lt_ge_cases k n) as [Hlt|Hge].
    + rewrite Z.mod_pow2_bits_low, Z.lxor_spec by done.
      rewrite <- (Z.mod_pow2_bits_low a n k), <- (Z.mod_pow2_bits_low b n k), Heq by done.
      apply xorb_nilpotent.
    + by rewrite Z.mod_pow2_bits_high.
Qed.

Lemma byte_beyond s i : (String.length s <= i)%nat -> byte_or_zero s i = 0.
Proof.
  unfold byte_or_zero. revert i. induction s as [|c s IH]; intros i Hi; [by destruct i|].
  destruct i; cbn in Hi; [lia|]. cbn. apply IH. lia.
Qed.

Lemma ct_eq_spec a b : ct_eq a b = true <->
  Z.of_nat (String.length a) mod 256 = Z.of_nat (String.length b) mod 256 /\
  forall i, byte_or_zero a i = byte_or_zero b i.
Proof.
  unfold ct_eq. rewrite Z.eqb_eq.
  rewrite (fold_lor_zero (fun i => Z.lxor (byte_or_zero a i) (byte_or_zero b i))).
  change 256 with (2 ^ 8). rewrite lxor_mod_zero by lia. setoid_rewrite Z.lxor_eq_0_iff.
  setoid_rewrite elem_of_seq. split; intros [Hl Hb]; (split; [done|]); intros i.
  - destruct (Nat.lt_ge_cases i (Nat.max (String.length a) (String.length b))); [apply Hb; lia|].
    by rewrite !byte_beyond by lia.
  - intros _. apply Hb.
Qed.

Lemma byte_inj a b : byte a = byte b -> a = b.
Proof.
  unfold byte. intros Heq%Nat2Z.inj. rewrite <- (ascii_nat_embedding a), <- (ascii_nat_embedding b).
  by rewrite Heq.
Qed.

Lemma bytes_determine a b : String.length a = String.length b ->
  (forall i, byte_or_zero a i = byte_or_zero b i) -> a = b.
Proof.
  revert b. induction a as [|c a IH]; intros [|d b] Hl Hb; cbn in Hl; try done.
  f_equal; [exact (byte_inj _ _ (Hb 0%nat))|]. apply IH; [lia|]. intros i. exact (Hb (S i)).
Qed.

(** The login accepts its own name and password, and, of texts whose lengths
    differ from theirs by less than 256 bytes, nothing else. *)
Theorem login_verify_spec username password l :
  Z.abs (Z.of_nat (String.length username) - Z.of_nat (String.length (lg_username l))) < 256 ->
  Z.abs (Z.of_nat (String.length password) - Z.of_nat (String.length (lg_password l))) < 256 ->
  login_verify username password l = true <->
  username = lg_username l /\ password = lg_password l.
Proof.
  assert (forall a b, Z.abs (Z.of_nat (String.length a) - Z.of_nat (String.length b)) < 256 ->
            ct_eq a b = true <-> a = b) as Hct.
  { intros a b Hab. rewrite ct_eq_spec. split; [|by intros ->]. intros [Hm Hb].
    apply bytes_determine; [|done]. apply Nat2Z.inj.
    pose proof (Z.div_mod (Z.of_nat (String.length a)) 256 ltac:(lia)).
    pose proof (Z.div_mod (Z.of_nat (String.length b)) 256 ltac:(lia)). lia. }
  intros Hu Hp. unfold login_verify. by rewrite andb_true_iff, !Hct.
Qed.

(** [n] NUL bytes *)
Fixpoint nuls (n : nat) : string :=
  match n with O => EmptyString | S n => String zero (nuls n) end.

Lemma nuls_length n : String.length (nuls n) = n.
Proof. induction n; cbn; congruence. Qed.

Lemma padded_bytes s n i : byte_or_zero (s +:+ nuls n) i = byte_or_zero s i.
Proof.
  unfold byte_or_zero. revert i. induction s as [|c s IH]; intros i.
  - cbn. assert (forall i, String.get i (nuls n) = Some zero \/ String.get i (nuls n) = None) as H.
    { clear. induction n as [|n IH]; intros [|i]; cbn; auto. }
    destruct (H i) as [-> | ->]; [done|by destruct i].
  - destruct i; cbn; [done|apply IH].
Qed.

(** A comparison of lengths in one byte is not a comparison of lengths: the
    right password followed by 256 NUL bytes is accepted too. *)
Theorem padded_password_accepted l :
  login_verify (lg_username l) (lg_password l +:+ nuls 256) l = true /\
  lg_password l +:+ nuls 256 <> lg_password l.
Proof.
  split.
  - unfold login_verify. rewrite andb_true_iff, !ct_eq_spec. split; [done|]. split.
    + rewrite str_length_app, nuls_length, Nat2Z.inj_add.
      replace (Z.of_nat 256) with (1 * 256) by lia. by rewrite Z.mod_add.
    + intros i. apply padded_bytes.
  - intros Heq%(f_equal String.length). rewrite str_length_app, nuls_length in Heq. lia.
Qed.

Section LoginProofs.
Context `{JwtLibrary}.

Lemma login_claims_ok now later l : u64 (now + lg_ttl_secs l) ->
  claims_ok login_validation later (login_claims now l) = (later - 30 <=? now + lg_ttl_secs l).
Proof.
  intros Hu. unfold claims_ok, login_claims. cbn. rewrite wrap_u64_small by done.
  by rewrite !bool_decide_true, !andb_true_r.
Qed.

(** The login issues a token, which opens to its claims exactly while it lives. *)
Lemma login_own_token message now l : u64 (now + lg_ttl_secs l) ->
  exists issued, login_issue now l = Ok issued /\ ia_expires_in issued = lg_ttl_secs l /\
    (forall later, later <= now + lg_ttl_secs l + 30 ->
      login_validate message (ia_access_token issued) later l = Ok (login_claims now l)) /\
    (forall later, now + lg_ttl_secs l + 30 < later ->
      exists e, login_validate message (ia_access_token issued) later l = Err e).
Proof.
  intros Hu. destruct (encode_total (login_claims now l) (lg_secret l)) as [token Ht].
  unfold login_issue. rewrite Ht. cbn. eexists. split; [done|]. split; [done|].
  unfold login_validate. cbn. split; intros later Hl.
  - rewrite (decode_own (login_claims now l) (lg_secret l) token login_validation later); try done.
    rewrite login_claims_ok by done. apply Z.leb_le. lia.
  - destruct (decode_invalid (login_claims now l) (lg_secret l) token login_validation later)
      as [e ->]; try done; [|by eexists].
    rewrite login_claims_ok by done. apply Z.leb_gt. lia.
Qed.

(** C39: The local login's tokens. The token that a login issues says how long it lives,
    and from then on it opens, as an administrator under the login's user name, exactly
    until thirty seconds after that lifetime, the leeway, and is refused later. *)
Theorem login_round_trip message now l : u64 (now + lg_ttl_secs l) ->
  exists issued, login_issue now l = Ok issued /\
    ia_token_type issued = "Bearer" /\ ia_expires_in issued = lg_ttl_secs l /\
    (forall later, later <= now + lg_ttl_secs l + 30 ->
       login_validate message (ia_access_token issued) later l = Ok (login_claims now l)) /\
    (forall later, now + lg_ttl_secs l + 30 < later ->
       exists e, login_validate message (ia_access_token issued) later l = Err e) /\
    auth_scope (into_auth_context (login_claims now l)) = Admin /\
    auth_user_id (into_auth_context (login_claims now l)) = Some (lg_username l).
Proof.
  intros Hu. destruct (login_own_token message now l Hu) as (issued & Hiss & Ht & Hown & Hlate).
  exists issued. split_and!; try done. revert Hiss. unfold login_issue.
  destruct (hs256_encode _ _); [|done]. cbn. by intros [= <-].
Qed.
End LoginProofs.

(** ** OIDC *)

Lemma algorithm_asymmetric k : algorithm_for_jwk k <> Some HS256.
Proof. unfold algorithm_for_jwk. destruct (jwk_key_algorithm k) as [[[]|]|], (jwk_type k) as [|[]| |]; done. Qed.

Section OidcProofs.
Context {Key : Type} (decode_header : string -> result (option string) string).
Context (key_from_jwk : Jwk -> result Key string).
Context (decode : string -> Key -> Validation -> Z -> result JwtClaims JwtErrorKind).
Context (kind_message : JwtErrorKind -> string).

(** A token is accepted only when it names a published key and opens under
    that key, by the algorithm the key is for, never a shared-secret one, with
    [nbf], the configured issuer and the configured audience checked. *)
Theorem oidc_token_pinned token now d c :
  validate_token decode_header key_from_jwk decode kind_message token now d = Ok c <->
  exists kid jwk a key,
    decode_header token = Ok (Some kid) /\
    head (List.filter (fun k => bool_decide (jwk_key_id k = Some kid)) (od_jwks d)) = Some jwk /\
    algorithm_for_jwk jwk = Some a /\ a <> HS256 /\ key_from_jwk jwk = Ok key /\
    decode token key {| val_algorithm := a; val_nbf := true; val_audience := od_audience d;
                        val_issuer := od_issuer d; val_leeway := 60 |} now = Ok c.
Proof.
  unfold validate_token. split.
  - destruct (decode_header token) as [[kid|]|]; try done. cbn.
    destruct (head _) as [jwk|] eqn:Ej; [|done]. cbn.
    destruct (algorithm_for_jwk jwk) as [a|] eqn:Ea; [|done]. cbn.
    destruct (key_from_jwk jwk) as [key|] eqn:Ek; [|done]. cbn.
    destruct (decode token key _ now) as [c'|] eqn:Ed; [|done]. intros [= ->].
    exists kid, jwk, a, key. repeat split; try done. intros ->. by apply algorithm_asymmetric in Ea.
  - intros (kid & jwk & a & key & -> & Hj & Ha & _ & Hk & Hd). cbn. rewrite Hj. cbn.
    rewrite Ha. cbn. rewrite Hk. cbn. unfold oidc_validation. by rewrite Hd.
Qed.

(** A refresh that fails keeps the keys there were. *)
Lemma refresh_failure_keeps {W} (get_jwks : string -> W -> result (list Jwk) string * W) now d w e :
  fst (get_jwks (od_jwks_uri d) w) = Err e ->
  fst (refresh_jwks get_jwks now d w) = (Err (JwksFetchFailed e), d).
Proof.
  unfold refresh_jwks, fetch_jwks. destruct (get_jwks _ w) as [r w']. cbn. by intros ->.
Qed.
End OidcProofs.

(** Issuer and audience are joined by a character either may contain. *)
Lemma discovery_cache_collides {W} (get_jwks : string -> W -> result (list Jwk) string * W)
    get_config d now w :
  fst (get_or_create_discovery get_jwks get_config "a|b" "c" None now {["a|b|c" := d]} w) =
  fst (get_or_create_discovery get_jwks get_config "a" "b|c" None now {["a|b|c" := d]} w).
Proof. done. Qed.

(** ** The theorems at concrete inputs *)
Module JwtDemo.
Import SqlDemo.

(** Tokens that carry the secret: enough for the library's laws. *)
Definition fields (c : JwtClaims) :=
  ((jc_sub c, jc_iss c, jc_aud c, jc_exp c, jc_iat c, jc_nbf c, jc_jti c),
   (jc_scope c, jc_org_id c, jc_team_id c, jc_email c, jc_email_verified c, jc_roles c, jc_rate_limit_rpm c)).

Definition unfields '((sub, iss, aud, exp, iat, nbf, jti), (scope, org, team, email, verified, roles, rpm)) :=
  {| jc_sub := sub; jc_iss := iss; jc_aud := aud; jc_exp := exp; jc_iat := iat; jc_nbf := nbf;
     jc_jti := jti; jc_scope := scope; jc_org_id := org; jc_team_id := team; jc_email := email;
     jc_email_verified := verified; jc_roles := roles; jc_rate_limit_rpm := rpm;
     jc_budget_limit_usd := None; jc_custom := [] |}.

Lemma unfields_fields c : plain_claims c -> unfields (fields c) = c.
Proof. destruct c. unfold plain_claims. cbn. by intros [-> ->]. Qed.

Definition demo_encode (c : JwtClaims) (secret : string) : result string string :=
  Ok (bits (encode (secret, fields c))).

Definition demo_decode (token secret : string) (v : Validation) (now : Z) : result JwtClaims JwtErrorKind :=
  match decode (unbits token) with
  | Some (s, f) =>
      let c := unfields f in
      if decide (s = secret) then
        if claims_ok v now c then Ok c else Err (KOther "claims")
      else Err KInvalidSignature
  | None => Err (KOther "malformed")
  end.

#[export] Instance demo_jwt : JwtLibrary.
Proof.
  refine {| hs256_encode := demo_encode; hs256_decode := demo_decode |}.
  - intros c secret. eexists. reflexivity.
  - intros c secret token v now Hp [= <-] Hok. unfold demo_decode.
    rewrite unbits_bits, decode_encode. cbv zeta.
    rewrite decide_True by done. rewrite (unfields_fields c Hp). by rewrite Hok.
  - intros c secret token v now Hp [= <-] Hok. unfold demo_decode.
    rewrite unbits_bits, decode_encode. cbv zeta.
    rewrite decide_True by done. rewrite (unfields_fields c Hp), Hok. by eexists.
Defined.

Definition login : AdminLogin :=
  {| lg_username := "admin"; lg_password := "hunter2"; lg_ttl_secs := 3600; lg_secret := "s" |}.

End JwtDemo.

Lemma login_verify_spec_witness :
  login_verify "admin" "hunter2X" JwtDemo.login = true <->
  "admin" = "admin" /\ "hunter2X" = "hunter2".
Proof.
  apply (login_verify_spec "admin" "hunter2X" JwtDemo.login); reflexivity.
Defined.

Lemma login_round_trip_witness :
  u64 (1000 + 3600) /\ exists issued,
    @login_issue JwtDemo.demo_jwt 1000 JwtDemo.login = Ok issued /\
    (forall later, later <= 4630 ->
       @login_validate JwtDemo.demo_jwt (fun _ => "") (ia_access_token issued) later JwtDemo.login =
       Ok (login_claims 1000 JwtDemo.login)) /\
    (forall later, 4630 < later ->
       exists e, @login_validate JwtDemo.demo_jwt (fun _ => "") (ia_access_token issued) later JwtDemo.login =
       Err e).
Proof.
  assert (u64 (1000 + 3600)) as Hu by (split; discriminate).
  split; [exact Hu|].
  destruct (@login_round_trip JwtDemo.demo_jwt (fun _ => "") 1000 JwtDemo.login Hu)
    as (issued & Hi & _ & _ & Hown & Hlate & _).
  by exists issued.
Defined.
