(* ===== verification/KeyStore.v ===== *)
(** * Gateway API keys and the in-memory store
    (src/crates/himadri-admin/src/store.rs)

    A gateway key is a record of what its holder may do and a SHA-256 of the
    secret; the secret itself is returned once, when it is made. [ApiKeyStore]
    keeps the records by identifier and the identifiers by hash, in two maps
    locked entry by entry: each operation is first a function of the two maps,
    as when it runs alone, and [Module Interleaved] gives its accesses one by
    one. [Module Spec] is what a store promises, a single map of records; the
    in-memory store refines it here and the SQL stores do in KeyRefine.v.

    Arguments: the hexadecimal SHA-256 digest, the text of a UUID, and the order
    in which a map of entries is read. Random UUIDs and the clock's readings are
    passed in; instants are integers. *)

From S2P Require Import Prelude Str Float Types Config.
From Stdlib Require Import Ascii.

(** ** Keys *)

Definition KEY_HASH_PREFIX : string := "sha256:".

Section Secrets.
Context (sha256_hex : string -> string) (uuid_text : Z -> string).

Definition hash_api_key (key : string) : string := KEY_HASH_PREFIX +:+ sha256_hex key.

(** [str.replace('-', "")] *)
Fixpoint drop_dashes (s : string) : string :=
  match s with
  | EmptyString => EmptyString
  | String c s => if is_char "-"%char c then drop_dashes s else String c (drop_dashes s)
  end.

Definition generate_api_key (u : Z) : string := "sk-" +:+ drop_dashes (uuid_text u).
End Secrets.

(** Stored values are ASCII, so the cut falls between characters. *)
Definition masked_key_display (stored : string) : string :=
  "sk-****" +:+ str_drop (String.length stored - 6) stored.

Record ApiKey := {
  ak_id : string;
  ak_name : string;
  ak_key : string;
  ak_scopes : list string;
  ak_enabled : bool;
  ak_created_at : Z;
  ak_last_used_at : option Z;
  ak_expires_at : option Z;
  ak_usage_count : Z;
  ak_metadata : option Value;
  ak_org_id : option string;
  ak_team_id : option string;
  ak_user_id : option string;
  ak_models : option (list string);
  ak_rate_limit_override : option RateLimitOverride;
  ak_token_budget : option OrgTokenBudget;
}.

Record CreateApiKeyRequest := {
  ck_name : string;
  ck_scopes : list string;
  ck_expires_at : option Z;
  ck_metadata : option Value;
  ck_org_id : option string;
  ck_team_id : option string;
  ck_user_id : option string;
  ck_models : option (list string);
  ck_rate_limit_override : option RateLimitOverride;
  ck_token_budget : option OrgTokenBudget;
}.

Record UpdateApiKeyRequest := {
  uk_name : option string;
  uk_scopes : option (list string);
  uk_enabled : option bool;
  uk_expires_at : option (option Z);
  uk_metadata : option (option Value);
  uk_org_id : option (option string);
  uk_team_id : option (option string);
  uk_user_id : option (option string);
  uk_models : option (option (list string));
  uk_rate_limit_override : option (option RateLimitOverride);
  uk_token_budget : option (option OrgTokenBudget);
}.

(** [ApiKey { key, ..k }] *)
Definition with_key (key : string) (k : ApiKey) : ApiKey :=
  {| ak_id := ak_id k; ak_name := ak_name k; ak_key := key; ak_scopes := ak_scopes k;
     ak_enabled := ak_enabled k; ak_created_at := ak_created_at k;
     ak_last_used_at := ak_last_used_at k; ak_expires_at := ak_expires_at k;
     ak_usage_count := ak_usage_count k; ak_metadata := ak_metadata k;
     ak_org_id := ak_org_id k; ak_team_id := ak_team_id k; ak_user_id := ak_user_id k;
     ak_models := ak_models k; ak_rate_limit_override := ak_rate_limit_override k;
     ak_token_budget := ak_token_budget k |}.

(** [key.enabled = enabled] *)
Definition with_enabled (enabled : bool) (k : ApiKey) : ApiKey :=
  {| ak_id := ak_id k; ak_name := ak_name k; ak_key := ak_key k; ak_scopes := ak_scopes k;
     ak_enabled := enabled; ak_created_at := ak_created_at k;
     ak_last_used_at := ak_last_used_at k; ak_expires_at := ak_expires_at k;
     ak_usage_count := ak_usage_count k; ak_metadata := ak_metadata k;
     ak_org_id := ak_org_id k; ak_team_id := ak_team_id k; ak_user_id := ak_user_id k;
     ak_models := ak_models k; ak_rate_limit_override := ak_rate_limit_override k;
     ak_token_budget := ak_token_budget k |}.

(** [last_used_at = Some(now); usage_count += 1] *)
Definition key_used (now : Z) (k : ApiKey) : ApiKey :=
  {| ak_id := ak_id k; ak_name := ak_name k; ak_key := ak_key k; ak_scopes := ak_scopes k;
     ak_enabled := ak_enabled k; ak_created_at := ak_created_at k;
     ak_last_used_at := Some now; ak_expires_at := ak_expires_at k;
     ak_usage_count := wrap_u64 (ak_usage_count k + 1); ak_metadata := ak_metadata k;
     ak_org_id := ak_org_id k; ak_team_id := ak_team_id k; ak_user_id := ak_user_id k;
     ak_models := ak_models k; ak_rate_limit_override := ak_rate_limit_override k;
     ak_token_budget := ak_token_budget k |}.

Definition mask_stored (k : ApiKey) : ApiKey := with_key (masked_key_display (ak_key k)) k.

Definition new_key (id key : string) (now : Z) (r : CreateApiKeyRequest) : ApiKey :=
  {| ak_id := id; ak_name := ck_name r; ak_key := key; ak_scopes := ck_scopes r;
     ak_enabled := true; ak_created_at := now; ak_last_used_at := None;
     ak_expires_at := ck_expires_at r; ak_usage_count := 0; ak_metadata := ck_metadata r;
     ak_org_id := ck_org_id r; ak_team_id := ck_team_id r; ak_user_id := ck_user_id r;
     ak_models := ck_models r; ak_rate_limit_override := ck_rate_limit_override r;
     ak_token_budget := ck_token_budget r |}.

(** The assignments of [update]: [None] leaves a field alone. *)
Definition key_update (r : UpdateApiKeyRequest) (k : ApiKey) : ApiKey :=
  {| ak_id := ak_id k; ak_name := default (ak_name k) (uk_name r); ak_key := ak_key k;
     ak_scopes := default (ak_scopes k) (uk_scopes r);
     ak_enabled := default (ak_enabled k) (uk_enabled r);
     ak_created_at := ak_created_at k; ak_last_used_at := ak_last_used_at k;
     ak_expires_at := default (ak_expires_at k) (uk_expires_at r);
     ak_usage_count := ak_usage_count k;
     ak_metadata := default (ak_metadata k) (uk_metadata r);
     ak_org_id := default (ak_org_id k) (uk_org_id r);
     ak_team_id := default (ak_team_id k) (uk_team_id r);
     ak_user_id := default (ak_user_id k) (uk_user_id r);
     ak_models := default (ak_models k) (uk_models r);
     ak_rate_limit_override := default (ak_rate_limit_override k) (uk_rate_limit_override r);
     ak_token_budget := default (ak_token_budget k) (uk_token_budget r) |}.

(** ** The in-memory store *)

Record ApiKeyStore := {
  ks_keys : gmap string ApiKey;
  ks_keys_by_key : gmap string string;
}.

Definition key_store_new : ApiKeyStore := {| ks_keys := ∅; ks_keys_by_key := ∅ |}.

(** The four kinds of access: insert or remove an entry of one of the maps. *)
Definition put_entry (id : string) (k : ApiKey) (s : ApiKeyStore) : ApiKeyStore :=
  {| ks_keys := <[id := k]> (ks_keys s); ks_keys_by_key := ks_keys_by_key s |}.
Definition remove_entry (id : string) (s : ApiKeyStore) : ApiKeyStore :=
  {| ks_keys := delete id (ks_keys s); ks_keys_by_key := ks_keys_by_key s |}.
Definition put_index (hash id : string) (s : ApiKeyStore) : ApiKeyStore :=
  {| ks_keys := ks_keys s; ks_keys_by_key := <[hash := id]> (ks_keys_by_key s) |}.
Definition remove_index (hash : string) (s : ApiKeyStore) : ApiKeyStore :=
  {| ks_keys := ks_keys s; ks_keys_by_key := delete hash (ks_keys_by_key s) |}.

Section Store.
Context (sha256_hex : string -> string) (uuid_text : Z -> string).
Context (entries : gmap string ApiKey -> list ApiKey).

Local Abbreviation hash := (hash_api_key sha256_hex).
Local Abbreviation fresh_secret := (generate_api_key uuid_text).

Definition store_create (u secret_u now : Z) (r : CreateApiKeyRequest) (s : ApiKeyStore)
    : ApiKey * ApiKeyStore :=
  let id := uuid_text u in
  let key := fresh_secret secret_u in
  let key_hash := hash key in
  let api_key := new_key id key_hash now r in
  (with_key key api_key, put_index key_hash id (put_entry id api_key s)).

Definition store_get (id : string) (s : ApiKeyStore) : option ApiKey :=
  mask_stored <$> ks_keys s !! id.

Definition store_list (s : ApiKeyStore) : list ApiKey := mask_stored <$> entries (ks_keys s).

Definition store_update (id : string) (r : UpdateApiKeyRequest) (s : ApiKeyStore)
    : option ApiKey * ApiKeyStore :=
  match ks_keys s !! id with
  | Some k => (Some (mask_stored (key_update r k)), put_entry id (key_update r k) s)
  | None => (None, s)
  end.

Definition store_delete (id : string) (s : ApiKeyStore) : bool * ApiKeyStore :=
  match ks_keys s !! id with
  | Some k => (true, remove_index (ak_key k) (remove_entry id s))
  | None => (false, s)
  end.

(** [now > expires_at] *)
Definition key_expired (now : Z) (k : ApiKey) : bool :=
  match ak_expires_at k with Some e => e <? now | None => false end.

Definition store_validate (key : string) (now : Z) (s : ApiKeyStore)
    : option ApiKey * ApiKeyStore :=
  match ks_keys_by_key s !! hash key with
  | None => (None, s)
  | Some id =>
      match ks_keys s !! id with
      | None => (None, s)
      | Some entry =>
          if negb (ak_enabled entry) then (None, s)
          else if key_expired now entry then (None, s)
          else (Some (mask_stored (key_used now entry)), put_entry id (key_used now entry) s)
      end
  end.

Definition store_revoke (id : string) (s : ApiKeyStore) : bool * ApiKeyStore :=
  match ks_keys s !! id with
  | Some k => (true, put_entry id (with_enabled false k) s)
  | None => (false, s)
  end.

Definition store_rotate (id : string) (secret_u : Z) (s : ApiKeyStore)
    : option ApiKey * ApiKeyStore :=
  match ks_keys s !! id with
  | None => (None, s)
  | Some old_key =>
      let key := fresh_secret secret_u in
      let new_hash := hash key in
      let stored := with_key new_hash old_key in
      (Some (with_key key stored),
       put_index new_hash id (put_entry id stored (remove_index (ak_key old_key) s)))
  end.

End Store.

(** ** Operations as data, for runs of a store *)

Inductive StoreOp :=
  | OpCreate (u secret_u now : Z) (r : CreateApiKeyRequest)
  | OpGet (id : string)
  | OpUpdate (id : string) (r : UpdateApiKeyRequest)
  | OpDelete (id : string)
  | OpValidate (key : string) (now : Z)
  | OpRevoke (id : string)
  | OpRotate (id : string) (secret_u : Z).

Inductive StoreReply :=
  | ReplyKey (k : ApiKey)
  | ReplyOption (k : option ApiKey)
  | ReplyBool (b : bool).

(** The operations of a run in turn, with their replies. *)
Fixpoint run_ops {S} (step : StoreOp -> S -> StoreReply * S) (ops : list StoreOp) (s : S)
    : list StoreReply * S :=
  match ops with
  | [] => ([], s)
  | op :: ops =>
      let '(r, s) := step op s in
      let '(rs, s) := run_ops step ops s in
      (r :: rs, s)
  end.

Section Step.
Context (sha256_hex : string -> string) (uuid_text : Z -> string).

Definition store_step (op : StoreOp) (s : ApiKeyStore) : StoreReply * ApiKeyStore :=
  match op with
  | OpCreate u su now r =>
      let '(k, s) := store_create sha256_hex uuid_text u su now r s in (ReplyKey k, s)
  | OpGet id => (ReplyOption (store_get id s), s)
  | OpUpdate id r => let '(k, s) := store_update id r s in (ReplyOption k, s)
  | OpDelete id => let '(b, s) := store_delete id s in (ReplyBool b, s)
  | OpValidate key now =>
      let '(k, s) := store_validate sha256_hex key now s in (ReplyOption k, s)
  | OpRevoke id => let '(b, s) := store_revoke id s in (ReplyBool b, s)
  | OpRotate id su =>
      let '(k, s) := store_rotate sha256_hex uuid_text id su s in (ReplyOption k, s)
  end.
End Step.

(** ** What a key store promises

    One map of records; a secret is looked up by its hash. Two backends read
    "expired" differently at the instant of expiry, so the test is an
    argument. *)
Module Spec.
Section Spec.
Context (sha256_hex : string -> string) (uuid_text : Z -> string).
Context (expired : Z -> ApiKey -> bool).

Local Abbreviation hash := (hash_api_key sha256_hex).
Local Abbreviation fresh_secret := (generate_api_key uuid_text).

Local Abbreviation keys := (gmap string ApiKey).

(** The record with this hash: at most one in a well-formed store. *)
Definition holder (h : string) (m : keys) : option (string * ApiKey) :=
  head (filter (fun '(_, k) => ak_key k = h) (map_to_list m)).

Definition validate (key : string) (now : Z) (m : keys) : option ApiKey * keys :=
  match holder (hash key) m with
  | Some (id, k) =>
      if ak_enabled k && negb (expired now k)
      then (Some (mask_stored (key_used now k)), <[id := key_used now k]> m)
      else (None, m)
  | None => (None, m)
  end.

Definition step (op : StoreOp) (m : keys) : StoreReply * keys :=
  match op with
  | OpCreate u su now r =>
      let k := new_key (uuid_text u) (hash (fresh_secret su)) now r in
      (ReplyKey (with_key (fresh_secret su) k), <[uuid_text u := k]> m)
  | OpGet id => (ReplyOption (mask_stored <$> m !! id), m)
  | OpUpdate id r =>
      (ReplyOption (mask_stored <$> (key_update r <$> m !! id)), alter (key_update r) id m)
  | OpDelete id => (ReplyBool (bool_decide (is_Some (m !! id))), delete id m)
  | OpValidate key now => let '(k, m) := validate key now m in (ReplyOption k, m)
  | OpRevoke id => (ReplyBool (bool_decide (is_Some (m !! id))), alter (with_enabled false) id m)
  | OpRotate id su =>
      (ReplyOption (with_key (fresh_secret su) <$> m !! id),
       alter (with_key (hash (fresh_secret su))) id m)
  end.

(** Identifiers name their records, and no two records share a hash. *)
Definition well_formed (m : keys) : Prop :=
  (forall id k, m !! id = Some k -> ak_id k = id) /\
  (forall id id' k k', m !! id = Some k -> m !! id' = Some k' -> ak_key k = ak_key k' -> id = id').

(** The randomness an operation draws is new to the store. *)
Definition unused_hash (h : string) (m : keys) : Prop :=
  forall id k, m !! id = Some k -> ak_key k <> h.

Definition draws_fresh (op : StoreOp) (m : keys) : Prop :=
  match op with
  | OpCreate u su _ _ => m !! uuid_text u = None /\ unused_hash (hash (fresh_secret su)) m
  | OpRotate _ su => unused_hash (hash (fresh_secret su)) m
  | _ => True
  end.

Lemma holder_sound h m id k : holder h m = Some (id, k) -> m !! id = Some k /\ ak_key k = h.
Proof.
  unfold holder. intros Hh. apply head_Some_elem_of in Hh.
  apply list_elem_of_filter in Hh as [Hk Hin]. split; [by apply elem_of_map_to_list|done].
Qed.

Lemma holder_spec h m id k : well_formed m ->
  (holder h m = Some (id, k) <-> m !! id = Some k /\ ak_key k = h).
Proof.
  intros [_ Hu]. split; [apply holder_sound|]. intros [Hk Hh].
  destruct (holder h m) as [[id' k']|] eqn:E.
  - apply holder_sound in E as [Hk' Hh'].
    assert (id' = id) as -> by (eapply Hu; eauto; congruence). congruence.
  - unfold holder in E. apply head_None in E.
    assert ((id, k) ∈ filter (fun '(_, k) => ak_key k = h) (map_to_list m)) as Hin.
    { apply list_elem_of_filter. split; [done|by apply elem_of_map_to_list]. }
    rewrite E in Hin. by apply not_elem_of_nil in Hin.
Qed.

(** Replacing a record by one with its identifier and a hash no other has. *)
Lemma well_formed_insert id k m : well_formed m -> ak_id k = id ->
  (forall id' k', id' <> id -> m !! id' = Some k' -> ak_key k' <> ak_key k) ->
  well_formed (<[id := k]> m).
Proof.
  intros [Hid Hu] Hk Hnew. split.
  - intros id' k' Hl. destruct (decide (id' = id)) as [->|]; simplify_map_eq; eauto.
  - intros id1 id2 k1 k2 H1 H2 He.
    destruct (decide (id1 = id)) as [->|], (decide (id2 = id)) as [->|]; simplify_map_eq;
      [done|destruct (Hnew id2 k2)|destruct (Hnew id1 k1)|]; eauto.
Qed.

Lemma alter_lookup {A} (f : A -> A) (m : gmap string A) id k :
  m !! id = Some k -> alter f id m = <[id := f k]> m.
Proof. intros E. rewrite <- (insert_id m id k E) at 1. apply alter_insert_eq. Qed.

Lemma alter_missing {A} (f : A -> A) (m : gmap string A) id :
  m !! id = None -> alter f id m = m.
Proof. intros E. apply alter_id. by rewrite E. Qed.

Lemma well_formed_alter f id m : well_formed m ->
  (forall k, m !! id = Some k -> ak_id (f k) = ak_id k) ->
  (forall k, m !! id = Some k -> forall id' k', id' <> id -> m !! id' = Some k' -> ak_key k' <> ak_key (f k)) ->
  well_formed (alter f id m).
Proof.
  intros Hwf Hi Hk. destruct (m !! id) as [k|] eqn:E.
  - rewrite (alter_lookup _ _ _ _ E). apply well_formed_insert; [done| |by apply Hk].
    rewrite Hi by done. by apply (proj1 Hwf) in E.
  - by rewrite alter_missing.
Qed.

Lemma alter_key_preserved f id m : well_formed m ->
  (forall k, ak_id (f k) = ak_id k) -> (forall k, ak_key (f k) = ak_key k) ->
  well_formed (alter f id m).
Proof.
  intros Hwf Hi Hk. apply well_formed_alter; [done|done|].
  intros k E id' k' Hne E'. rewrite Hk. intros Heq. apply Hne. by eapply (proj2 Hwf).
Qed.

Lemma validate_state key now m :
  snd (validate key now m) = m \/
  exists id k, m !! id = Some k /\ ak_key k = hash key /\ ak_enabled k = true /\
    expired now k = false /\ snd (validate key now m) = alter (key_used now) id m.
Proof.
  unfold validate. destruct (holder _ m) as [[id k]|] eqn:E; [|by left].
  apply holder_sound in E as [Hm Hk].
  destruct (ak_enabled k) eqn:He, (expired now k) eqn:Hx; cbn; try (by left).
  right. exists id, k. by rewrite (alter_lookup _ _ _ _ Hm).
Qed.

Lemma step_well_formed op m : well_formed m -> draws_fresh op m -> well_formed (snd (step op m)).
Proof.
  intros Hwf Hf. destruct op as [u su now r|id|id r|id|key now|id|id su]; cbn in *; try done.
  - apply well_formed_insert; [done|done|]. destruct Hf as [_ Hf]. intros ? k' _ ?. by eapply Hf.
  - by apply alter_key_preserved.
  - destruct Hwf as [Hid Hu]. split; intros *; rewrite ?lookup_delete_Some; naive_solver.
  - pose proof (validate_state key now m) as Hv. destruct (validate key now m) as [o m'].
    cbn in *. destruct Hv as [->|(id & k & _ & _ & _ & _ & ->)]; [done|].
    by apply alter_key_preserved.
  - by apply alter_key_preserved.
  - apply well_formed_alter; [done|done|]. intros. by eapply Hf.
Qed.

End Spec.
End Spec.

(** ** The in-memory store implements the contract *)
Section Refinement.
Context (sha256_hex : string -> string) (uuid_text : Z -> string).

Local Abbreviation hash := (hash_api_key sha256_hex).
Local Abbreviation fresh_secret := (generate_api_key uuid_text).
Local Abbreviation spec_step := (Spec.step sha256_hex uuid_text key_expired).
Local Abbreviation fresh := (Spec.draws_fresh sha256_hex uuid_text).

(** The index holds exactly the hashes of the records. *)
Definition store_ok (s : ApiKeyStore) : Prop :=
  Spec.well_formed (ks_keys s) /\
  forall h id, ks_keys_by_key s !! h = Some id <->
    exists k, ks_keys s !! id = Some k /\ ak_key k = h.

(** The index by record, which is how the operations use it. *)
Lemma index_of s id k : store_ok s -> ks_keys s !! id = Some k ->
  ks_keys_by_key s !! ak_key k = Some id.
Proof. intros [_ Hi] Hk. apply Hi. by exists k. Qed.

Lemma store_new_ok : store_ok key_store_new.
Proof.
  split; [split|]; cbn; intros *; rewrite ?lookup_empty; try done.
  split; [done|]. intros (k & Hk & _). by simplify_map_eq.
Qed.

(** A record replaced by one with the same hash leaves the index right. *)
Lemma put_entry_ok id k k' s : store_ok s -> ks_keys s !! id = Some k ->
  ak_key k' = ak_key k -> ak_id k' = ak_id k -> store_ok (put_entry id k' s).
Proof.
  intros [[Hids Hu] Hi] Hk Hh Hid. split; cbn.
  - apply Spec.well_formed_insert; [done|rewrite Hid; eauto|].
    intros id2 k2 Hne H2 He. apply Hne. eapply Hu; eauto; congruence.
  - intros h id2. rewrite Hi. destruct (decide (id2 = id)) as [->|]; simplify_map_eq; [|done].
    split; intros (? & ? & ?); simplify_eq; eexists; split; eauto; congruence.
Qed.

Lemma validate_refines key now s : store_ok s ->
  store_validate sha256_hex key now s =
  (fst (Spec.validate sha256_hex key_expired key now (ks_keys s)),
   {| ks_keys := snd (Spec.validate sha256_hex key_expired key now (ks_keys s));
      ks_keys_by_key := ks_keys_by_key s |}).
Proof.
  intros Hok. pose proof Hok as [Hwf Hi]. unfold store_validate, Spec.validate.
  destruct (ks_keys_by_key s !! hash key) as [id|] eqn:E.
  - apply Hi in E as (k & Hk & Hh).
    rewrite (proj2 (Spec.holder_spec _ _ id k Hwf)) by done. rewrite Hk.
    destruct (ak_enabled k), (key_expired now k); cbn; try done; by destruct s.
  - destruct (Spec.holder _ _) as [[id k]|] eqn:Eh; [|by destruct s].
    apply Spec.holder_sound in Eh as [Hk Hh]. pose proof (index_of s id k Hok Hk). congruence.
Qed.

(** Adding a record under a new identifier and a new hash; removing one. *)
Lemma add_ok id k s : store_ok s -> ks_keys s !! id = None -> ak_id k = id ->
  Spec.unused_hash (ak_key k) (ks_keys s) -> store_ok (put_index (ak_key k) id (put_entry id k s)).
Proof.
  intros [Hwf Hi] Hnone Hid Hun. split; cbn.
  - apply Spec.well_formed_insert; [done..|]. intros id2 k2 _ H2. by eapply Hun.
  - intros h id2. destruct (decide (h = ak_key k)) as [->|]; simplify_map_eq.
    + split; [intros [= <-]; exists k; by simplify_map_eq|].
      intros (k2 & H2 & Hh). destruct (decide (id2 = ak_id k)) as [->|]; [done|].
      simplify_map_eq. by destruct (Hun _ _ H2).
    + rewrite Hi. destruct (decide (id2 = ak_id k)) as [->|]; simplify_map_eq; naive_solver.
Qed.

Lemma remove_ok id k s : store_ok s -> ks_keys s !! id = Some k ->
  store_ok (remove_index (ak_key k) (remove_entry id s)).
Proof.
  intros [[Hids Hu] Hi] Hk. split; cbn.
  - split; intros *; rewrite ?lookup_delete_Some; naive_solver.
  - intros h id2. rewrite lookup_delete_Some, Hi. setoid_rewrite lookup_delete_Some.
    split; intros; naive_solver.
Qed.

Lemma step_ok op s : store_ok s -> fresh op (ks_keys s) ->
  store_ok (snd (store_step sha256_hex uuid_text op s)).
Proof.
  intros Hok Hf. destruct op as [u su now r|id|id r|id|key now|id|id su]; cbn in *.
  - destruct Hf as [Hnone Hun]. by apply (add_ok (uuid_text u) (new_key _ _ now r) s).
  - done.
  - unfold store_update. destruct (ks_keys s !! id) as [k|] eqn:E; [|done].
    by apply (put_entry_ok id k).
  - unfold store_delete. destruct (ks_keys s !! id) as [k|] eqn:E; [|done]. by apply remove_ok.
  - unfold store_validate. destruct (ks_keys_by_key s !! _) as [id|]; [|done].
    destruct (ks_keys s !! id) as [k|] eqn:E; [|done].
    destruct (ak_enabled k), (key_expired now k); cbn; try done. by apply (put_entry_ok id k).
  - unfold store_revoke. destruct (ks_keys s !! id) as [k|] eqn:E; [|done].
    by apply (put_entry_ok id k).
  - unfold store_rotate. destruct (ks_keys s !! id) as [k|] eqn:E; [|done]. cbn.
    pose proof (add_ok id (with_key (hash (fresh_secret su)) k) _ (remove_ok id k s Hok E)) as Ha.
    unfold put_index, put_entry, remove_index, remove_entry in *. cbn in *.
    rewrite insert_delete_eq in Ha. apply Ha; [by simplify_map_eq|by eapply (proj1 (proj1 Hok))|].
    intros id2 k2 [_ H2]%lookup_delete_Some. by eapply Hf.
Qed.

Lemma step_matches op s : store_ok s -> fresh op (ks_keys s) ->
  spec_step op (ks_keys s) =
  (fst (store_step sha256_hex uuid_text op s), ks_keys (snd (store_step sha256_hex uuid_text op s))).
Proof.
  intros Hok Hf. destruct op as [u su now r|id|id r|id|key now|id|id su]; cbn in *; try done.
  - unfold store_update. destruct (ks_keys s !! id) as [k|] eqn:E; cbn.
    + by rewrite (Spec.alter_lookup _ _ _ _ E).
    + by rewrite Spec.alter_missing.
  - unfold store_delete. destruct (ks_keys s !! id) as [k|] eqn:E; cbn; [done|].
    by rewrite delete_id.
  - rewrite validate_refines by done. by destruct (Spec.validate _ _ _ _ _).
  - unfold store_revoke. destruct (ks_keys s !! id) as [k|] eqn:E; cbn.
    + by rewrite (Spec.alter_lookup _ _ _ _ E).
    + by rewrite Spec.alter_missing.
  - unfold store_rotate. destruct (ks_keys s !! id) as [k|] eqn:E; cbn.
    + by rewrite (Spec.alter_lookup _ _ _ _ E).
    + by rewrite Spec.alter_missing.
Qed.

End Refinement.

(** ** Properties of the in-memory store *)
Section Properties.
Context (sha256_hex : string -> string) (uuid_text : Z -> string).

Local Abbreviation hash := (hash_api_key sha256_hex).
Local Abbreviation fresh_secret := (generate_api_key uuid_text).
Local Abbreviation mem_step := (store_step sha256_hex uuid_text).
Local Abbreviation spec_step := (Spec.step sha256_hex uuid_text key_expired).

(** Every operation of a run draws identifiers and secrets new to the store, and
    satisfies [P]. *)
Fixpoint fresh_run (P : StoreOp -> Prop) (ops : list StoreOp) (s : ApiKeyStore) : Prop :=
  match ops with
  | [] => True
  | op :: ops =>
      Spec.draws_fresh sha256_hex uuid_text op (ks_keys s) /\ P op /\
      fresh_run P ops (snd (mem_step op s))
  end.

Lemma fresh_run_ok P ops s : store_ok s -> fresh_run P ops s ->
  store_ok (snd (run_ops mem_step ops s)).
Proof.
  revert s. induction ops as [|op ops IH]; cbn; [done|]. intros s Hok (Hf & _ & Hr).
  pose proof (step_ok _ _ op s Hok Hf) as Hok'.
  destruct (mem_step op s) as [r s1]. cbn in *. specialize (IH s1 Hok' Hr).
  by destruct (run_ops mem_step ops s1).
Qed.

(** The hash of the secret an operation issues. *)
Definition issued (op : StoreOp) : option string :=
  match op with
  | OpCreate _ su _ _ | OpRotate _ su => Some (hash (fresh_secret su))
  | _ => None
  end.

(** A hash no record has stays unused unless an operation issues it again. *)
Lemma unused_step h op s : store_ok s ->
  Spec.draws_fresh sha256_hex uuid_text op (ks_keys s) -> issued op <> Some h ->
  Spec.unused_hash h (ks_keys s) -> Spec.unused_hash h (ks_keys (snd (mem_step op s))).
Proof.
  intros Hok Hf Hi Hun. pose proof (step_matches _ _ op s Hok Hf) as Hm.
  destruct (mem_step op s) as [rep s']. cbn in *.
  assert (snd (spec_step op (ks_keys s)) = ks_keys s') as <- by (by rewrite Hm).
  clear Hm. unfold Spec.unused_hash in *. intros id' k'.
  destruct op as [u su now r|id|id r|id|key now|id|id su]; cbn in *.
  - rewrite lookup_insert_Some. intros [[<- <-]|[_ H]]; [cbn; congruence|eauto].
  - eauto.
  - rewrite lookup_alter_Some. intros [(_ & k & H & ->)|[_ H]]; [by eapply Hun in H|eauto].
  - rewrite lookup_delete_Some. intros [_ H]; eauto.
  - pose proof (Spec.validate_state sha256_hex key_expired key now (ks_keys s)) as Hv.
    destruct (Spec.validate _ _ _ _ _) as [o m']. cbn in *.
    destruct Hv as [->|(id & k & _ & _ & _ & _ & ->)]; [eauto|].
    rewrite lookup_alter_Some. intros [(_ & k2 & H & ->)|[_ H]]; [by eapply Hun in H|eauto].
  - rewrite lookup_alter_Some. intros [(_ & k & H & ->)|[_ H]]; [by eapply Hun in H|eauto].
  - rewrite lookup_alter_Some. intros [(_ & k & H & ->)|[_ H]]; [cbn; congruence|eauto].
Qed.

Lemma unused_run h ops s : store_ok s -> fresh_run (fun op => issued op <> Some h) ops s ->
  Spec.unused_hash h (ks_keys s) ->
  Spec.unused_hash h (ks_keys (snd (run_ops mem_step ops s))).
Proof.
  revert s. induction ops as [|op ops IH]; cbn; [done|]. intros s Hok (Hf & Hi & Hr) Hun.
  pose proof (step_ok _ _ op s Hok Hf) as Hok'.
  pose proof (unused_step h op s Hok Hf Hi Hun) as Hun'.
  destruct (mem_step op s) as [r s1]. cbn in *. specialize (IH s1 Hok' Hr Hun').
  by destruct (run_ops mem_step ops s1).
Qed.

Lemma unused_rejected key now s : store_ok s -> Spec.unused_hash (hash key) (ks_keys s) ->
  fst (store_validate sha256_hex key now s) = None.
Proof.
  intros Hok Hun. rewrite validate_refines by done. cbn. unfold Spec.validate.
  destruct (Spec.holder _ _) as [[id k]|] eqn:E; [|done].
  apply Spec.holder_sound in E as [Hk Hh]. by destruct (Hun _ _ Hk).
Qed.

(** C5: Along any run whose random draws are new, the in-memory store answers
    as the one-map specification does, holds the same records, and keeps its two
    maps in step. *)
Theorem memory_store_refines ops s : store_ok s -> fresh_run (fun _ => True) ops s ->
  let '(replies, s') := run_ops mem_step ops s in
  run_ops spec_step ops (ks_keys s) = (replies, ks_keys s') /\ store_ok s'.
Proof.
  revert s. induction ops as [|op ops IH]; cbn; [done|]. intros s Hok (Hf & _ & Hr).
  rewrite (step_matches _ _ op s Hok Hf). pose proof (step_ok _ _ op s Hok Hf) as Hok'.
  destruct (mem_step op s) as [r s1]. cbn in *. specialize (IH s1 Hok' Hr).
  destruct (run_ops mem_step ops s1). by destruct IH as [-> ?].
Qed.

(** A presented secret is accepted exactly when some record holds its hash,
    is enabled and has not expired; the answer is that record, masked, with the
    use recorded. *)
Theorem store_validate_spec key now s k' : store_ok s ->
  fst (store_validate sha256_hex key now s) = Some k' <->
  exists id k, ks_keys s !! id = Some k /\ ak_key k = hash key /\ ak_enabled k = true /\
    (forall e, ak_expires_at k = Some e -> now <= e) /\ k' = mask_stored (key_used now k).
Proof.
  intros Hok. rewrite validate_refines by done. cbn. unfold Spec.validate.
  assert (forall k, key_expired now k = false <-> forall e, ak_expires_at k = Some e -> now <= e)
    as Hexp.
  { intros k. unfold key_expired. destruct (ak_expires_at k) as [e|]; [|naive_solver].
    rewrite Z.ltb_ge. split; [by intros ? ? [= <-]|auto]. }
  split.
  - destruct (Spec.holder _ _) as [[id k]|] eqn:E; [|done].
    apply Spec.holder_sound in E as [Hk Hh].
    destruct (ak_enabled k) eqn:He, (key_expired now k) eqn:Hx; cbn; try done.
    intros [= <-]. exists id, k. pose proof (proj1 (Hexp k) Hx). done.
  - intros (id & k & Hk & Hh & He & Hx & ->).
    rewrite (proj2 (Spec.holder_spec _ _ id k (proj1 Hok))) by done.
    by rewrite He, (proj2 (Hexp k) Hx).
Qed.

(** The secret of a deleted key, or the old secret of a rotated one, is
    never accepted again, whatever runs afterwards, as long as the same secret is
    not drawn again. *)
Theorem retired_secret_rejected id k key retire su ops now s :
  store_ok s -> ks_keys s !! id = Some k -> ak_key k = hash key ->
  retire = OpDelete id \/ retire = OpRotate id su ->
  fresh_run (fun op => issued op <> Some (hash key)) (retire :: ops) s ->
  fst (store_validate sha256_hex key now (snd (run_ops mem_step (retire :: ops) s))) = None.
Proof.
  intros Hok Hk Hh Hret (Hf & Hi & Hr). pose proof (step_ok _ _ retire s Hok Hf) as Hok1.
  apply unused_rejected.
  { by apply (fresh_run_ok (fun op => issued op <> Some (hash key)) (retire :: ops)). }
  assert (Spec.unused_hash (hash key) (ks_keys (snd (mem_step retire s)))) as Hun.
  { pose proof (proj2 (proj1 Hok)) as Hu.
    destruct Hret as [-> | ->]; cbn in *; unfold store_delete, store_rotate; rewrite Hk; cbn;
      intros id2 k2.
    - intros [Hne H2]%lookup_delete_Some He. apply Hne. eapply Hu; eauto; congruence.
    - rewrite lookup_insert_Some. intros [[<- <-]|[Hne H2]]; cbn; [congruence|].
      intros He. apply Hne. eapply Hu; eauto; congruence. }
  cbn [run_ops]. destruct (mem_step retire s) as [r s1]. cbn in *.
  pose proof (unused_run _ ops s1 Hok1 Hr Hun). by destruct (run_ops mem_step ops s1).
Qed.

End Properties.

(** ** Operations that overlap

    Each map locks the entry it is asked for, for one access; an operation of
    several accesses can be interrupted between them. A task is an operation at
    its next access, with what it has read. *)
Module Interleaved.
Section Interleaved.
Context (sha256_hex : string -> string) (uuid_text : Z -> string).

Local Abbreviation hash := (hash_api_key sha256_hex).
Local Abbreviation fresh_secret := (generate_api_key uuid_text).
Local Abbreviation mem_step := (store_step sha256_hex uuid_text).

Inductive Task :=
  | Start (op : StoreOp)
  | CreateIndex (id secret : string) (k : ApiKey)
  | DeleteIndex (k : ApiKey)
  | ValidateEntry (id : string) (now : Z)
  | RotateUnindex (id : string) (old_key : ApiKey) (secret : string)
  | RotateEntry (id : string) (old_key : ApiKey) (secret : string)
  | RotateIndex (id secret : string) (stored : ApiKey)
  | Done (r : StoreReply).

Definition task_step (t : Task) (s : ApiKeyStore) : Task * ApiKeyStore :=
  match t with
  | Start (OpCreate u su now r) =>
      let secret := fresh_secret su in
      let k := new_key (uuid_text u) (hash secret) now r in
      (CreateIndex (uuid_text u) secret k, put_entry (uuid_text u) k s)
  | CreateIndex id secret k => (Done (ReplyKey (with_key secret k)), put_index (ak_key k) id s)
  | Start (OpDelete id) =>
      match ks_keys s !! id with
      | Some k => (DeleteIndex k, remove_entry id s)
      | None => (Done (ReplyBool false), s)
      end
  | DeleteIndex k => (Done (ReplyBool true), remove_index (ak_key k) s)
  | Start (OpValidate key now) =>
      match ks_keys_by_key s !! hash key with
      | Some id => (ValidateEntry id now, s)
      | None => (Done (ReplyOption None), s)
      end
  | ValidateEntry id now =>
      match ks_keys s !! id with
      | None => (Done (ReplyOption None), s)
      | Some entry =>
          if negb (ak_enabled entry) then (Done (ReplyOption None), s)
          else if key_expired now entry then (Done (ReplyOption None), s)
          else (Done (ReplyOption (Some (mask_stored (key_used now entry)))),
                put_entry id (key_used now entry) s)
      end
  | Start (OpRotate id su) =>
      match ks_keys s !! id with
      | Some old_key => (RotateUnindex id old_key (fresh_secret su), s)
      | None => (Done (ReplyOption None), s)
      end
  | RotateUnindex id old_key secret =>
      (RotateEntry id old_key secret, remove_index (ak_key old_key) s)
  | RotateEntry id old_key secret =>
      let stored := with_key (hash secret) old_key in
      (RotateIndex id secret stored, put_entry id stored s)
  | RotateIndex id secret stored =>
      (Done (ReplyOption (Some (with_key secret stored))), put_index (ak_key stored) id s)
  | Start op => let '(r, s) := mem_step op s in (Done r, s)
  | Done r => (Done r, s)
  end.

(** Two tasks; each entry of the schedule says whether the second one runs. *)
Fixpoint race (schedule : list bool) (a b : Task) (s : ApiKeyStore) : Task * Task * ApiKeyStore :=
  match schedule with
  | [] => (a, b, s)
  | false :: sch => let '(a, s) := task_step a s in race sch a b s
  | true :: sch => let '(b, s) := task_step b s in race sch a b s
  end.

(** An operation that nothing interrupts is finished after four accesses at
    most, and does what its sequential definition says. *)
Theorem uninterrupted_task op s :
  Nat.iter 4 (fun '(t, s) => task_step t s) (Start op, s) =
  (Done (fst (mem_step op s)), snd (mem_step op s)).
Proof.
  destruct op as [u su now r|id|id r|id|key now|id|id su]; cbn; try done.
  - by destruct (store_update id r s).
  - unfold store_delete. by destruct (ks_keys s !! id).
  - unfold store_validate. destruct (ks_keys_by_key s !! _) as [id|]; cbn; [|done].
    destruct (ks_keys s !! id) as [k|]; cbn; [|done].
    by destruct (ak_enabled k), (key_expired now k).
  - by destruct (store_revoke id s).
  - unfold store_rotate. by destruct (ks_keys s !! id).
Qed.

(** A revocation that lands while a rotation of the same key is between its
    reading and its writing is undone: both calls report success, and the new
    secret is accepted. *)
Theorem rotate_undoes_revoke id k su now s :
  ks_keys s !! id = Some k -> ak_enabled k = true -> key_expired now k = false ->
  exists s', race [false; true; false; false; false]
      (Start (OpRotate id su)) (Start (OpRevoke id)) s =
    (Done (ReplyOption (Some (with_key (fresh_secret su) k))), Done (ReplyBool true), s') /\
  is_Some (fst (store_validate sha256_hex (fresh_secret su) now s')).
Proof.
  intros Hk He Hx. unfold race, task_step. rewrite Hk. cbn. unfold store_revoke. rewrite Hk.
  eexists. split; [done|]. unfold store_validate. cbn. simplify_map_eq. cbn.
  rewrite He. unfold key_expired in *. cbn. by rewrite Hx.
Qed.

(** Two rotations of one key that overlap leave the first one's secret in
    the index; it is accepted after both, and after any later rotation. *)
Theorem overlapping_rotations_leak id k su1 su2 su3 now s :
  ks_keys s !! id = Some k -> ak_enabled k = true -> key_expired now k = false ->
  NoDup [hash (fresh_secret su1); hash (fresh_secret su2); hash (fresh_secret su3); ak_key k] ->
  exists k1 k2 s', race [false; true; false; false; false; true; true; true]
      (Start (OpRotate id su1)) (Start (OpRotate id su2)) s =
    (Done (ReplyOption (Some k1)), Done (ReplyOption (Some k2)), s') /\
  ak_key k1 = fresh_secret su1 /\
  is_Some (fst (store_validate sha256_hex (ak_key k1) now
    (snd (store_rotate sha256_hex uuid_text id su3 s')))).
Proof.
  intros Hk He Hx Hnd. rewrite !NoDup_cons, !not_elem_of_cons in Hnd.
  destruct Hnd as ((H12 & H13 & H1k & _) & (H23 & H2k & _) & _).
  unfold race, task_step. rewrite Hk. cbn. rewrite Hk. cbn. do 3 eexists. split; [done|].
  split; [done|]. unfold store_rotate. cbn. simplify_map_eq. cbn.
  unfold store_validate. cbn. simplify_map_eq. cbn.
  rewrite He. unfold key_expired in *. cbn. by rewrite Hx.
Qed.

End Interleaved.
End Interleaved.

(** ** The theorems at concrete inputs *)
Module Demo.

Definition sha (s : string) : string := s.
Definition uuid (u : Z) : string := if decide (u = 1) then "u-1" else if decide (u = 2) then "u-2" else "u-3".

Definition request : CreateApiKeyRequest :=
  {| ck_name := "ci"; ck_scopes := ["admin"]; ck_expires_at := Some 50; ck_metadata := None;
     ck_org_id := None; ck_team_id := None; ck_user_id := None; ck_models := None;
     ck_rate_limit_override := None; ck_token_budget := None |}.

(** A store with the key "u-1", whose secret is "sk-u1". *)
Definition key1 : ApiKey := new_key "u-1" (hash_api_key sha "sk-u1") 10 request.
Definition store1 : ApiKeyStore := snd (store_step sha uuid (OpCreate 1 1 10 request) key_store_new).

Lemma store1_ok : store_ok store1.
Proof.
  apply step_ok; [apply store_new_ok|]. split; [done|]. intros id k H.
  by simplify_map_eq.
Qed.

Lemma store1_holds id k : ks_keys store1 !! id = Some k -> ak_key k = hash_api_key sha "sk-u1".
Proof.
  change (ks_keys store1) with (<["u-1" := key1]> (∅ : gmap string ApiKey)).
  rewrite lookup_insert_Some, lookup_empty. by intros [[_ <-]|[_ ?]].
Qed.

End Demo.

Lemma memory_store_refines_witness :
  fresh_run Demo.sha Demo.uuid (fun _ => True) [OpCreate 1 1 10 Demo.request] key_store_new /\
  (let '(replies, s') :=
     run_ops (store_step Demo.sha Demo.uuid) [OpCreate 1 1 10 Demo.request] key_store_new in
   run_ops (Spec.step Demo.sha Demo.uuid key_expired) [OpCreate 1 1 10 Demo.request] ∅ =
     (replies, ks_keys s') /\ store_ok s').
Proof.
  assert (fresh_run Demo.sha Demo.uuid (fun _ => True) [OpCreate 1 1 10 Demo.request] key_store_new)
    as Hf.
  { split; [|done]. split; [done|]. intros id k H. by simplify_map_eq. }
  split; [exact Hf|]. exact (memory_store_refines Demo.sha Demo.uuid _ _ store_new_ok Hf).
Defined.

Lemma store_validate_spec_witness :
  store_ok Demo.store1 /\
  (fst (store_validate Demo.sha "sk-u1" 50 Demo.store1) =
     Some (mask_stored (key_used 50 Demo.key1)) <->
   exists id k, ks_keys Demo.store1 !! id = Some k /\
     ak_key k = hash_api_key Demo.sha "sk-u1" /\ ak_enabled k = true /\
     (forall e, ak_expires_at k = Some e -> 50 <= e) /\
     mask_stored (key_used 50 Demo.key1) = mask_stored (key_used 50 k)).
Proof.
  split; [exact Demo.store1_ok|]. exact (store_validate_spec Demo.sha Demo.uuid _ _ _ _ Demo.store1_ok).
Defined.

Lemma retired_secret_rejected_witness :
  fresh_run Demo.sha Demo.uuid
    (fun op => issued Demo.sha Demo.uuid op <> Some (hash_api_key Demo.sha "sk-u1"))
    [OpRotate "u-1" 2; OpRevoke "u-1"] Demo.store1 /\
  fst (store_validate Demo.sha "sk-u1" 20
    (snd (run_ops (store_step Demo.sha Demo.uuid) [OpRotate "u-1" 2; OpRevoke "u-1"] Demo.store1)))
  = None.
Proof.
  assert (fresh_run Demo.sha Demo.uuid
    (fun op => issued Demo.sha Demo.uuid op <> Some (hash_api_key Demo.sha "sk-u1"))
    [OpRotate "u-1" 2; OpRevoke "u-1"] Demo.store1) as Hf.
  { split; [|split; [discriminate|split; [done|split; [discriminate|done]]]].
    intros id k Hk. rewrite (Demo.store1_holds id k Hk). discriminate. }
  split; [exact Hf|].
  apply (retired_secret_rejected Demo.sha Demo.uuid "u-1" Demo.key1 "sk-u1" (OpRotate "u-1" 2) 2
           [OpRevoke "u-1"] 20 Demo.store1 Demo.store1_ok); [reflexivity|reflexivity|by right|exact Hf].
Defined.

Lemma rotate_undoes_revoke_witness :
  ks_keys Demo.store1 !! "u-1" = Some Demo.key1 /\
  exists s', Interleaved.race Demo.sha Demo.uuid [false; true; false; false; false]
      (Interleaved.Start (OpRotate "u-1" 2)) (Interleaved.Start (OpRevoke "u-1")) Demo.store1 =
    (Interleaved.Done (ReplyOption (Some (with_key "sk-u2" Demo.key1))),
     Interleaved.Done (ReplyBool true), s') /\
  is_Some (fst (store_validate Demo.sha "sk-u2" 20 s')).
Proof.
  split; [reflexivity|].
  exact (Interleaved.rotate_undoes_revoke Demo.sha Demo.uuid "u-1" Demo.key1 2 20 Demo.store1
           eq_refl eq_refl eq_refl).
Defined.

Lemma overlapping_rotations_leak_witness :
  ks_keys Demo.store1 !! "u-1" = Some Demo.key1 /\
  exists k1 k2 s', Interleaved.race Demo.sha Demo.uuid
      [false; true; false; false; false; true; true; true]
      (Interleaved.Start (OpRotate "u-1" 2)) (Interleaved.Start (OpRotate "u-1" 3)) Demo.store1 =
    (Interleaved.Done (ReplyOption (Some k1)), Interleaved.Done (ReplyOption (Some k2)), s') /\
  ak_key k1 = "sk-u2" /\
  is_Some (fst (store_validate Demo.sha (ak_key k1) 20
    (snd (store_rotate Demo.sha (fun _ => "u-4") "u-1" 4 s')))).
Proof.
  split; [reflexivity|].
  pose (text := fun u => if decide (u = 4) then "u-4" else Demo.uuid u).
  exact (Interleaved.overlapping_rotations_leak Demo.sha text "u-1" Demo.key1 2 3 4 20 Demo.store1
           eq_refl eq_refl eq_refl ltac:(by apply (bool_decide_unpack _); vm_compute)).
Defined.
