(* ===== verification/KeySql.v ===== *)
(** * The SQL stores of gateway keys
    (src/crates/himadri-admin/src/store.rs, sqlite_time.rs)

    The Postgres store and the SQLite store keep a table of keys, and each
    method is its statements in order. SQLite keeps lists, documents and instants
    as text, Postgres as JSONB and timestamps; a row of either becomes an
    [ApiKey] by the conversions of the source. [StoreBackend] dispatches to
    them or to the in-memory store.

    Arguments: what KeyStore.v takes, UUID parsing, chrono's RFC 3339 text and
    serde_json's text (with the part of their contract the stores rely on, the
    classes [TimeText] and [JsonText]), the order of tied rows, and connecting.
    A count of 2^63 uses is out of reach and the columns' overflow is not
    modelled. JSONB columns take any document (one that holds a NUL, which Postgres
    refuses, is not told apart). *)

From S2P Require Import Prelude Str Float Types Json Config Sql KeyStore.
From Stdlib Require Import Ascii.

(** ** Documents kept in columns *)

Definition u64_value (n : Z) : Value := VNumber (PosInt n).

(** [Number::from_f64]: a number that is not finite is [null]. *)
Definition f64_value (x : f64) : Value :=
  match x with
  | S754_zero _ | S754_finite _ _ _ => VNumber (FloatNum x)
  | _ => VNull
  end.

Definition strings_value (l : list string) : Value := VArray (VString <$> l).

Definition override_value (o : RateLimitOverride) : Value :=
  VObject [("burst_size", opt_value u64_value (ov_burst_size o));
           ("requests_per_second", opt_value u64_value (ov_requests_per_second o))].

Definition budget_value (b : OrgTokenBudget) : Value :=
  VObject [("cost_limit_per_day", opt_value f64_value (tbud_cost_limit_per_day b));
           ("cost_limit_per_month", opt_value f64_value (tbud_cost_limit_per_month b));
           ("max_tokens_per_day", opt_value u64_value (tbud_max_tokens_per_day b));
           ("max_tokens_per_month", opt_value u64_value (tbud_max_tokens_per_month b));
           ("max_tokens_per_request", opt_value u64_value (tbud_max_tokens_per_request b))].

(** [serde_json::from_value], of the shapes [to_value] writes. *)
Definition strings_from_value (v : Value) : option (list string) :=
  match v with VArray l => mapM value_as_str l | _ => None end.

(** A field of type [Option<_>]: absent or [null] is [None]. *)
Definition field_from {A} (get : Value -> option A) (k : string) (v : Value) : option (option A) :=
  match value_index k v with
  | VNull => Some None
  | x => Some <$> get x
  end.

Definition value_as_f64 (v : Value) : option f64 :=
  match v with
  | VNumber (FloatNum x) => Some x
  | VNumber (PosInt n) | VNumber (NegInt n) => Some (f64_of_Z n)
  | _ => None
  end.

Definition value_as_u32 (v : Value) : option Z :=
  n ← value_as_u64 v; if n <=? U32_MAX then Some n else None.

Definition override_from_value (v : Value) : option RateLimitOverride :=
  _ ← value_as_object v;
  rps ← field_from value_as_u64 "requests_per_second" v;
  burst ← field_from value_as_u64 "burst_size" v;
  Some {| ov_requests_per_second := rps; ov_burst_size := burst |}.

Definition budget_from_value (v : Value) : option OrgTokenBudget :=
  _ ← value_as_object v;
  request ← field_from value_as_u32 "max_tokens_per_request" v;
  day ← field_from value_as_u64 "max_tokens_per_day" v;
  month ← field_from value_as_u64 "max_tokens_per_month" v;
  cost_day ← field_from value_as_f64 "cost_limit_per_day" v;
  cost_month ← field_from value_as_f64 "cost_limit_per_month" v;
  Some {| tbud_max_tokens_per_request := request; tbud_max_tokens_per_day := day;
          tbud_max_tokens_per_month := month; tbud_cost_limit_per_day := cost_day;
          tbud_cost_limit_per_month := cost_month |}.

(** ** Text *)

(** serde_json's printer and parser, exact on strings and integers. *)
Class JsonText := {
  json_print : Value -> string;
  json_parse : string -> option Value;
  json_round_strings l : json_parse (json_print (strings_value l)) = Some (strings_value l);
  json_round_override o : json_parse (json_print (override_value o)) = Some (override_value o);
}.

Section Stores.
Context `{TimeText, JsonText}.
Context (sha256_hex : string -> string) (uuid_text : Z -> string).
Context (parse_uuid : string -> option Z).
Context (order_by : forall Row, (Row -> Row -> bool) -> list Row -> list Row).

Local Abbreviation hash := (hash_api_key sha256_hex).
Local Abbreviation fresh_secret := (generate_api_key uuid_text).

(** *** SQLite *)

Record SqliteApiKeyRow := {
  sr_id : string;
  sr_name : string;
  sr_key : string;
  sr_scopes : string;
  sr_enabled : Z;
  sr_created_at : string;
  sr_last_used_at : option string;
  sr_expires_at : option string;
  sr_usage_count : Z;
  sr_metadata : option string;
  sr_org_id : option string;
  sr_team_id : option string;
  sr_user_id : option string;
  sr_models : option string;
  sr_rate_limit_override : option string;
  sr_token_budget : option string;
}.

(** [From<SqliteApiKeyRow> for ApiKey], but for the key it shows *)
Definition sqlite_entry (r : SqliteApiKeyRow) : ApiKey :=
  {| ak_id := sr_id r;
     ak_name := sr_name r;
     ak_key := sr_key r;
     ak_scopes := default [] (json_parse (sr_scopes r) ≫= strings_from_value);
     ak_enabled := negb (sr_enabled r =? 0);
     ak_created_at := time_parse_or_default (sr_created_at r);
     ak_last_used_at := sr_last_used_at r ≫= time_parse;
     ak_expires_at := sr_expires_at r ≫= time_parse;
     ak_usage_count := wrap_u64 (sr_usage_count r);
     ak_metadata := sr_metadata r ≫= json_parse;
     ak_org_id := sr_org_id r;
     ak_team_id := sr_team_id r;
     ak_user_id := sr_user_id r;
     ak_models := sr_models r ≫= (fun s => json_parse s ≫= strings_from_value);
     ak_rate_limit_override :=
       sr_rate_limit_override r ≫= (fun s => json_parse s ≫= override_from_value);
     ak_token_budget := sr_token_budget r ≫= (fun s => json_parse s ≫= budget_from_value) |}.

Definition sqlite_row_into (r : SqliteApiKeyRow) : ApiKey :=
  with_key (masked_key_display (sr_key r)) (sqlite_entry r).

(** The constraints of the table: [id] is its primary key, [key] is unique. *)
Definition sqlite_valid (rows : list SqliteApiKeyRow) : bool :=
  bool_decide (NoDup (sr_id <$> rows)) && bool_decide (NoDup (sr_key <$> rows)).

Definition sqlite_id_is (id : string) (r : SqliteApiKeyRow) : bool := bool_decide (sr_id r = id).

Definition sqlite_get (id : string) : Sql (list SqliteApiKeyRow) (option ApiKey) :=
  let! row := fetch_optional (sqlite_id_is id) in
  sql_ret (sqlite_row_into <$> row).

Definition sqlite_create (u secret_u now : Z) (r : CreateApiKeyRequest)
    : Sql (list SqliteApiKeyRow) ApiKey :=
  let id := uuid_text u in
  let key := fresh_secret secret_u in
  let! _ := insert_row sqlite_valid
    {| sr_id := id; sr_name := ck_name r; sr_key := hash key;
       sr_scopes := json_print (strings_value (ck_scopes r)); sr_enabled := 1;
       sr_created_at := to_rfc3339 now; sr_last_used_at := None;
       sr_expires_at := to_rfc3339 <$> ck_expires_at r; sr_usage_count := 0;
       sr_metadata := json_print <$> ck_metadata r;
       sr_org_id := ck_org_id r; sr_team_id := ck_team_id r; sr_user_id := ck_user_id r;
       sr_models := (fun m => json_print (strings_value m)) <$> ck_models r;
       sr_rate_limit_override :=
         (fun o => json_print (override_value o)) <$> ck_rate_limit_override r;
       sr_token_budget := (fun b => json_print (budget_value b)) <$> ck_token_budget r |} in
  let! found := sqlite_get id in
  let! stored := sql_found found in
  sql_ret (with_key key stored).

(** [ORDER BY created_at DESC]: the text, in descending order *)
Definition sqlite_list : Sql (list SqliteApiKeyRow) (list ApiKey) :=
  let! rows := fetch_all (fun _ => true) in
  sql_ret (sqlite_row_into <$>
    order_by _ (fun a b => String.ltb (sr_created_at b) (sr_created_at a)) rows).

(** The columns [update] writes: those of [k]. *)
Definition sqlite_set_columns (k : ApiKey) (r : SqliteApiKeyRow) : SqliteApiKeyRow :=
  {| sr_id := sr_id r; sr_name := ak_name k; sr_key := sr_key r;
     sr_scopes := json_print (strings_value (ak_scopes k));
     sr_enabled := if ak_enabled k then 1 else 0;
     sr_created_at := sr_created_at r; sr_last_used_at := sr_last_used_at r;
     sr_expires_at := to_rfc3339 <$> ak_expires_at k; sr_usage_count := sr_usage_count r;
     sr_metadata := json_print <$> ak_metadata k;
     sr_org_id := ak_org_id k; sr_team_id := ak_team_id k; sr_user_id := ak_user_id k;
     sr_models := (fun m => json_print (strings_value m)) <$> ak_models k;
     sr_rate_limit_override :=
       (fun o => json_print (override_value o)) <$> ak_rate_limit_override k;
     sr_token_budget := (fun b => json_print (budget_value b)) <$> ak_token_budget k |}.

(** [request.f.unwrap_or(current.f)] for each field is [key_update]. *)
Definition sqlite_update (id : string) (r : UpdateApiKeyRequest)
    : Sql (list SqliteApiKeyRow) (option ApiKey) :=
  let! found := sqlite_get id in
  let! current := sql_found found in
  let! _ := update_where sqlite_valid (sqlite_id_is id) (sqlite_set_columns (key_update r current)) in
  sqlite_get id.

Definition sqlite_delete (id : string) : Sql (list SqliteApiKeyRow) bool :=
  let! n := delete_where (sqlite_id_is id) in sql_ret (Nat.ltb 0 n).

(** [NOT LIKE 'sha256:%']: SQLite's [LIKE] ignores the case of ASCII letters. *)
Definition sqlite_hashed (key : string) : bool :=
  starts_with KEY_HASH_PREFIX (to_ascii_lowercase key).

Definition sqlite_validate (key : string) (now : Z) : Sql (list SqliteApiKeyRow) (option ApiKey) :=
  let now := to_rfc3339 now in
  let key_hash := hash key in
  let! rows := update_where sqlite_valid
    (fun r =>
      (bool_decide (sr_key r = key_hash) ||
       bool_decide (sr_key r = key) && negb (sqlite_hashed (sr_key r))) &&
      (sr_enabled r =? 1) &&
      match sr_expires_at r with None => true | Some e => String.ltb now e end)
    (fun r =>
      {| sr_id := sr_id r; sr_name := sr_name r; sr_key := key_hash; sr_scopes := sr_scopes r;
         sr_enabled := sr_enabled r; sr_created_at := sr_created_at r;
         sr_last_used_at := Some now; sr_expires_at := sr_expires_at r;
         sr_usage_count := sr_usage_count r + 1; sr_metadata := sr_metadata r;
         sr_org_id := sr_org_id r; sr_team_id := sr_team_id r; sr_user_id := sr_user_id r;
         sr_models := sr_models r; sr_rate_limit_override := sr_rate_limit_override r;
         sr_token_budget := sr_token_budget r |}) in
  sql_ret (sqlite_row_into <$> head rows).

Definition sqlite_set_enabled (enabled : Z) (r : SqliteApiKeyRow) : SqliteApiKeyRow :=
  {| sr_id := sr_id r; sr_name := sr_name r; sr_key := sr_key r; sr_scopes := sr_scopes r;
     sr_enabled := enabled; sr_created_at := sr_created_at r;
     sr_last_used_at := sr_last_used_at r; sr_expires_at := sr_expires_at r;
     sr_usage_count := sr_usage_count r; sr_metadata := sr_metadata r;
     sr_org_id := sr_org_id r; sr_team_id := sr_team_id r; sr_user_id := sr_user_id r;
     sr_models := sr_models r; sr_rate_limit_override := sr_rate_limit_override r;
     sr_token_budget := sr_token_budget r |}.

Definition sqlite_set_key (key : string) (r : SqliteApiKeyRow) : SqliteApiKeyRow :=
  {| sr_id := sr_id r; sr_name := sr_name r; sr_key := key; sr_scopes := sr_scopes r;
     sr_enabled := sr_enabled r; sr_created_at := sr_created_at r;
     sr_last_used_at := sr_last_used_at r; sr_expires_at := sr_expires_at r;
     sr_usage_count := sr_usage_count r; sr_metadata := sr_metadata r;
     sr_org_id := sr_org_id r; sr_team_id := sr_team_id r; sr_user_id := sr_user_id r;
     sr_models := sr_models r; sr_rate_limit_override := sr_rate_limit_override r;
     sr_token_budget := sr_token_budget r |}.

Definition sqlite_revoke (id : string) : Sql (list SqliteApiKeyRow) bool :=
  let! rows := update_where sqlite_valid (sqlite_id_is id) (sqlite_set_enabled 0) in
  sql_ret (Nat.ltb 0 (length rows)).

Definition sqlite_rotate (id : string) (secret_u : Z) : Sql (list SqliteApiKeyRow) (option ApiKey) :=
  let new_key := fresh_secret secret_u in
  let! _ := update_where sqlite_valid (sqlite_id_is id) (sqlite_set_key (hash new_key)) in
  let! found := sqlite_get id in
  sql_ret (with_key new_key <$> found).

(** *** Postgres *)

Record ApiKeyRow := {
  pr_id : Z;
  pr_name : string;
  pr_key : string;
  pr_scopes : Value;
  pr_enabled : bool;
  pr_created_at : Z;
  pr_last_used_at : option Z;
  pr_expires_at : option Z;
  pr_usage_count : Z;
  pr_metadata : option Value;
  pr_org_id : option string;
  pr_team_id : option string;
  pr_user_id : option string;
  pr_models : option Value;
  pr_rate_limit_override : option Value;
  pr_token_budget : option Value;
}.

(** [From<ApiKeyRow> for ApiKey], but for the key it shows *)
Definition pg_entry (r : ApiKeyRow) : ApiKey :=
  {| ak_id := uuid_text (pr_id r);
     ak_name := pr_name r;
     ak_key := pr_key r;
     ak_scopes := default [] (strings_from_value (pr_scopes r));
     ak_enabled := pr_enabled r;
     ak_created_at := pr_created_at r;
     ak_last_used_at := pr_last_used_at r;
     ak_expires_at := pr_expires_at r;
     ak_usage_count := wrap_u64 (pr_usage_count r);
     ak_metadata := pr_metadata r;
     ak_org_id := pr_org_id r;
     ak_team_id := pr_team_id r;
     ak_user_id := pr_user_id r;
     ak_models := pr_models r ≫= strings_from_value;
     ak_rate_limit_override := pr_rate_limit_override r ≫= override_from_value;
     ak_token_budget := pr_token_budget r ≫= budget_from_value |}.

Definition pg_row_into (r : ApiKeyRow) : ApiKey :=
  with_key (masked_key_display (pr_key r)) (pg_entry r).

Definition pg_valid (rows : list ApiKeyRow) : bool :=
  bool_decide (NoDup (pr_id <$> rows)) && bool_decide (NoDup (pr_key <$> rows)).

Definition pg_id_is (u : Z) (r : ApiKeyRow) : bool := pr_id r =? u.

(** [Uuid::parse_str(id).map_err(|_| sqlx::Error::RowNotFound)?] *)
Definition pg_uuid (id : string) : Sql (list ApiKeyRow) Z := sql_found (parse_uuid id).

(** The columns of migrations/postgres that take 255 characters; a hash always fits. *)
Definition pg_texts_fit (name : string) (org_id team_id user_id : option string) : bool :=
  text_fits 255 name && optional_text_fits 255 org_id && optional_text_fits 255 team_id &&
  optional_text_fits 255 user_id.

(** [NOW()] is the database's clock, in microseconds; the expiry is the client's. *)
Definition pg_create (u secret_u now : Z) (r : CreateApiKeyRequest) : Sql (list ApiKeyRow) ApiKey :=
  let key := fresh_secret secret_u in
  let row :=
    {| pr_id := u; pr_name := ck_name r; pr_key := hash key;
       pr_scopes := strings_value (ck_scopes r); pr_enabled := true;
       pr_created_at := now; pr_last_used_at := None; pr_expires_at := pg_micros <$> ck_expires_at r;
       pr_usage_count := 0; pr_metadata := ck_metadata r;
       pr_org_id := ck_org_id r; pr_team_id := ck_team_id r; pr_user_id := ck_user_id r;
       pr_models := strings_value <$> ck_models r;
       pr_rate_limit_override := override_value <$> ck_rate_limit_override r;
       pr_token_budget := budget_value <$> ck_token_budget r |} in
  let fits := pg_texts_fit (ck_name r) (ck_org_id r) (ck_team_id r) (ck_user_id r) in
  let! _ := binding fits (insert_row pg_valid row) in
  sql_ret (with_key key (pg_row_into row)).

Definition pg_get (id : string) : Sql (list ApiKeyRow) (option ApiKey) :=
  let! u := pg_uuid id in
  let! row := fetch_optional (pg_id_is u) in
  sql_ret (pg_row_into <$> row).

Definition pg_newest_first (a b : ApiKeyRow) : bool := pr_created_at b <? pr_created_at a.

Definition pg_list : Sql (list ApiKeyRow) (list ApiKey) :=
  let! rows := fetch_all (fun _ => true) in
  sql_ret (pg_row_into <$> order_by _ pg_newest_first rows).

(** [WHERE org_id = $1] does not hold of a null. *)
Definition pg_list_by_org (org_id : string) : Sql (list ApiKeyRow) (list ApiKey) :=
  let! rows := fetch_all (fun r => bool_decide (pr_org_id r = Some org_id)) in
  sql_ret (pg_row_into <$> order_by _ pg_newest_first rows).

Definition pg_set_columns (k : ApiKey) (r : ApiKeyRow) : ApiKeyRow :=
  {| pr_id := pr_id r; pr_name := ak_name k; pr_key := pr_key r;
     pr_scopes := strings_value (ak_scopes k); pr_enabled := ak_enabled k;
     pr_created_at := pr_created_at r; pr_last_used_at := pr_last_used_at r;
     pr_expires_at := pg_micros <$> ak_expires_at k; pr_usage_count := pr_usage_count r;
     pr_metadata := ak_metadata k;
     pr_org_id := ak_org_id k; pr_team_id := ak_team_id k; pr_user_id := ak_user_id k;
     pr_models := strings_value <$> ak_models k;
     pr_rate_limit_override := override_value <$> ak_rate_limit_override k;
     pr_token_budget := budget_value <$> ak_token_budget k |}.

Definition pg_update (id : string) (r : UpdateApiKeyRequest)
    : Sql (list ApiKeyRow) (option ApiKey) :=
  let! u := pg_uuid id in
  let! found := pg_get id in
  match found with
  | None => sql_ret None
  | Some current =>
      let k := key_update r current in
      let fits := pg_texts_fit (ak_name k) (ak_org_id k) (ak_team_id k) (ak_user_id k) in
      let! rows := binding fits (update_where pg_valid (pg_id_is u) (pg_set_columns k)) in
      sql_ret (pg_row_into <$> head rows)
  end.

Definition pg_delete (id : string) : Sql (list ApiKeyRow) bool :=
  let! u := pg_uuid id in
  let! n := delete_where (pg_id_is u) in sql_ret (Nat.ltb 0 n).

Definition pg_validate (key : string) (now : Z) : Sql (list ApiKeyRow) (option ApiKey) :=
  let key_hash := hash key in
  let! rows := update_where pg_valid
    (fun r =>
      (bool_decide (pr_key r = key_hash) ||
       bool_decide (pr_key r = key) && negb (starts_with KEY_HASH_PREFIX (pr_key r))) &&
      pr_enabled r &&
      match pr_expires_at r with None => true | Some e => now <? e end)
    (fun r =>
      {| pr_id := pr_id r; pr_name := pr_name r; pr_key := key_hash; pr_scopes := pr_scopes r;
         pr_enabled := pr_enabled r; pr_created_at := pr_created_at r;
         pr_last_used_at := Some now; pr_expires_at := pr_expires_at r;
         pr_usage_count := pr_usage_count r + 1; pr_metadata := pr_metadata r;
         pr_org_id := pr_org_id r; pr_team_id := pr_team_id r; pr_user_id := pr_user_id r;
         pr_models := pr_models r; pr_rate_limit_override := pr_rate_limit_override r;
         pr_token_budget := pr_token_budget r |}) in
  sql_ret (pg_row_into <$> head rows).

Definition pg_set_enabled (enabled : bool) (r : ApiKeyRow) : ApiKeyRow :=
  {| pr_id := pr_id r; pr_name := pr_name r; pr_key := pr_key r; pr_scopes := pr_scopes r;
     pr_enabled := enabled; pr_created_at := pr_created_at r;
     pr_last_used_at := pr_last_used_at r; pr_expires_at := pr_expires_at r;
     pr_usage_count := pr_usage_count r; pr_metadata := pr_metadata r;
     pr_org_id := pr_org_id r; pr_team_id := pr_team_id r; pr_user_id := pr_user_id r;
     pr_models := pr_models r; pr_rate_limit_override := pr_rate_limit_override r;
     pr_token_budget := pr_token_budget r |}.

Definition pg_set_key (key : string) (r : ApiKeyRow) : ApiKeyRow :=
  {| pr_id := pr_id r; pr_name := pr_name r; pr_key := key; pr_scopes := pr_scopes r;
     pr_enabled := pr_enabled r; pr_created_at := pr_created_at r;
     pr_last_used_at := pr_last_used_at r; pr_expires_at := pr_expires_at r;
     pr_usage_count := pr_usage_count r; pr_metadata := pr_metadata r;
     pr_org_id := pr_org_id r; pr_team_id := pr_team_id r; pr_user_id := pr_user_id r;
     pr_models := pr_models r; pr_rate_limit_override := pr_rate_limit_override r;
     pr_token_budget := pr_token_budget r |}.

Definition pg_revoke (id : string) : Sql (list ApiKeyRow) bool :=
  let! u := pg_uuid id in
  let! rows := update_where pg_valid (pg_id_is u) (pg_set_enabled false) in
  sql_ret (Nat.ltb 0 (length rows)).

Definition pg_rotate (id : string) (secret_u : Z) : Sql (list ApiKeyRow) (option ApiKey) :=
  let! u := pg_uuid id in
  let new_key := fresh_secret secret_u in
  let! rows := update_where pg_valid (pg_id_is u) (pg_set_key (hash new_key)) in
  sql_ret (with_key new_key <$> (pg_row_into <$> head rows)).

(** *** The backends together *)

Inductive StoreBackend :=
  | Memory (s : ApiKeyStore)
  | Postgres (db : Db (list ApiKeyRow))
  | Sqlite (db : Db (list SqliteApiKeyRow)).

(** [store_dispatch!] *)
Definition store_dispatch {A} (memory : ApiKeyStore -> A * ApiKeyStore)
    (postgres : Sql (list ApiKeyRow) A) (sqlite : Sql (list SqliteApiKeyRow) A)
    (b : StoreBackend) : result A AdminError * StoreBackend :=
  match b with
  | Memory s => let '(a, s) := memory s in (Ok a, Memory s)
  | Postgres db => let '(r, db) := postgres db in (map_err admin_error r, Postgres db)
  | Sqlite db => let '(r, db) := sqlite db in (map_err admin_error r, Sqlite db)
  end.

Context (entries : gmap string ApiKey -> list ApiKey).

Definition backend_create (u secret_u now : Z) (r : CreateApiKeyRequest) :=
  store_dispatch (store_create sha256_hex uuid_text u secret_u now r)
    (pg_create u secret_u now r) (sqlite_create u secret_u now r).

Definition backend_get (id : string) :=
  store_dispatch (fun s => (store_get id s, s)) (pg_get id) (sqlite_get id).

Definition backend_list :=
  store_dispatch (fun s => (store_list entries s, s)) pg_list sqlite_list.

Definition backend_update (id : string) (r : UpdateApiKeyRequest) :=
  store_dispatch (store_update id r) (pg_update id r) (sqlite_update id r).

Definition backend_delete (id : string) :=
  store_dispatch (store_delete id) (pg_delete id) (sqlite_delete id).

Definition backend_validate (key : string) (now : Z) :=
  store_dispatch (store_validate sha256_hex key now) (pg_validate key now) (sqlite_validate key now).

Definition backend_revoke (id : string) :=
  store_dispatch (store_revoke id) (pg_revoke id) (sqlite_revoke id).

Definition backend_rotate (id : string) (secret_u : Z) :=
  store_dispatch (store_rotate sha256_hex uuid_text id secret_u)
    (pg_rotate id secret_u) (sqlite_rotate id secret_u).

Definition backend_is_empty (b : StoreBackend) : bool :=
  match b with
  | Memory s => match store_list entries s with [] => true | _ => false end
  | _ => false
  end.

(** The URL a SQLite pool is opened with: the file is created. *)
Definition sqlite_url (url : string) : string :=
  if contains_char "?"%char url then url else url +:+ "?mode=rwc".

(** Connecting and migrating; which databases the build supports. *)
Context (postgres_enabled sqlite_enabled : bool).
Context (connect_postgres : string -> result (Db (list ApiKeyRow)) string).
Context (connect_sqlite : string -> result (Db (list SqliteApiKeyRow)) string).

Definition backend_new (database_url : option string) : StoreBackend :=
  let memory := Memory key_store_new in
  let sqlite :=
    match database_url with
    | Some url =>
        if sqlite_enabled && starts_with "sqlite" url then
          match connect_sqlite (sqlite_url url) with Ok db => Sqlite db | Err _ => memory end
        else memory
    | None => memory
    end in
  match database_url with
  | Some url =>
      if postgres_enabled && starts_with "postgres" url then
        match connect_postgres url with Ok db => Postgres db | Err _ => sqlite end
      else sqlite
  | None => sqlite
  end.

End Stores.
