(* ===== verification/KeyRefine.v ===== *)
(** * The SQL key stores keep the contract of the in-memory one
    (src/crates/himadri-admin/src/store.rs)

    A table represents a map of records when its rows, decoded, are the map's
    values. With a connection that does not fail and random draws that are new,
    each method of the SQLite and the Postgres store then answers as
    [KeyStore.Spec] does, expiry being reached a moment earlier, and keeps the
    representation; Postgres as long as the texts fit its columns, and with expiries cut
    to the microsecond. What differs between the backends is stated: a missing
    identifier on update, a malformed one, the instant of expiry, keys stored
    before hashing. *)

From S2P Require Import Prelude Str Float Types Json Config Sql KeyStore KeySql.

Local Abbreviation represents := (Sql.represents ak_id).
Local Abbreviation selects := (Sql.selects ak_id).

Lemma rep_keys_distinct {Row} (entry : Row -> ApiKey) rows m :
  represents entry rows m -> Spec.well_formed m -> NoDup ((fun r => ak_key (entry r)) <$> rows).
Proof.
  intros Hrep [_ Hu]. destruct Hrep as [Hnd Hm].
  assert (NoDup (entry <$> rows)) as Hn.
  { apply (NoDup_fmap_1 ak_id). by rewrite <- list_fmap_compose. }
  rewrite (list_fmap_compose entry ak_key). apply NoDup_fmap_2_strong; [|done].
  intros k k' (r & -> & Hr)%list_elem_of_fmap (r' & -> & Hr')%list_elem_of_fmap He.
  apply (rep_same_id entry rows m (conj Hnd Hm)); [done|done|].
  eapply Hu; [by apply (rep_row entry rows m (conj Hnd Hm))..|done].
Qed.

(** Writing and reading a document. *)
Lemma strings_from_to l : strings_from_value (strings_value l) = Some l.
Proof. cbn. induction l as [|s l IH]; cbn; [done|]. by rewrite IH. Qed.

Lemma override_from_to o : override_from_value (override_value o) = Some o.
Proof. by destruct o as [[?|] [?|]]. Qed.

(** Expiry as the SQL stores read it: [NOT (expires_at > now)]. *)
Definition key_expired_sql (now : Z) (k : ApiKey) : bool :=
  match ak_expires_at k with Some e => e <=? now | None => false end.

(** Every key of the map was hashed. *)
Definition all_hashed (m : gmap string ApiKey) : Prop :=
  forall id k, m !! id = Some k -> starts_with KEY_HASH_PREFIX (ak_key k) = true.

Section Contract.
Context (sha256_hex : string -> string) (uuid_text : Z -> string).

Local Abbreviation hash := (hash_api_key sha256_hex).
Local Abbreviation spec_step := (Spec.step sha256_hex uuid_text key_expired_sql).

Lemma hash_prefixed s : starts_with KEY_HASH_PREFIX (hash s) = true.
Proof. apply starts_with_app. by exists (sha256_hex s). Qed.

Lemma hashed_step op m : all_hashed m -> all_hashed (snd (spec_step op m)).
Proof.
  intros Hm. destruct op as [u su now r|id|id r|id|key now|id|id su]; cbn; try done;
    try (intros i k; rewrite lookup_alter_Some; intros [(_ & k0 & H & ->)|[_ H]]; [|eauto]).
  - intros i k. rewrite lookup_insert_Some. intros [[_ <-]|[_ H]]; [apply hash_prefixed|eauto].
  - by apply Hm in H.
  - intros i k. rewrite lookup_delete_Some. intros [_ H]. eauto.
  - pose proof (Spec.validate_state sha256_hex key_expired_sql key now m) as Hv.
    destruct (Spec.validate _ _ _ _ _) as [o m']. cbn in *.
    destruct Hv as [->|(id & k & _ & _ & _ & _ & ->)]; [done|]. intros i k1.
    rewrite lookup_alter_Some. intros [(_ & k0 & H & ->)|[_ H]]; [by apply Hm in H|eauto].
  - by apply Hm in H.
  - apply hash_prefixed.
Qed.

(** What a [validate] statement does on a table: [p] accepts the rows of the
    hash that are enabled and not expired. *)
Lemma rep_validate {Row} (entry : Row -> ApiKey) rows m key now p fr :
  represents entry rows m -> Spec.well_formed m ->
  (forall r, r ∈ rows -> p r = bool_decide (ak_key (entry r) = hash key) &&
     ak_enabled (entry r) && negb (key_expired_sql now (entry r))) ->
  (forall r, r ∈ rows -> p r = true -> entry (fr r) = key_used now (entry r)) ->
  let '(o, m') := Spec.validate sha256_hex key_expired_sql key now m in
  represents entry (set_where p fr rows) m' /\
  mask_stored <$> (entry <$> head (fr <$> filter (fun r => p r) rows)) = o.
Proof.
  intros Hrep Hwf Hp Hf. unfold Spec.validate.
  destruct (Spec.holder (hash key) m) as [[id k]|] eqn:E.
  - apply Spec.holder_sound in E as [Hk Hh].
    destruct (ak_enabled k && negb (key_expired_sql now k)) eqn:Hok.
    + assert (selects entry p id rows) as Hsel.
      { intros r Hr. rewrite (Hp r Hr). pose proof (rep_row entry rows m Hrep r Hr) as Hm. split.
        - rewrite !andb_true_iff, bool_decide_eq_true. intros [[He _] _].
          eapply (proj2 Hwf); eauto; congruence.
        - intros Hid. rewrite Hid, Hk in Hm. injection Hm as <-.
          rewrite Hh, bool_decide_true by done. done. }
      rewrite <- (Spec.alter_lookup (key_used now) _ _ _ Hk). split.
      * apply rep_set; [done|done|]. intros r Hr Hpr. by rewrite (Hf r Hr Hpr).
      * pose proof (rep_filter entry rows m Hrep p id Hsel) as Hfi. rewrite Hk in Hfi.
        destruct Hfi as (r & -> & Hr & <-). cbn. rewrite (Hf r Hr); [done|]. apply Hsel; [done|].
        by eapply (proj1 Hwf).
    + assert (forall r, r ∈ rows -> p r = false) as Hnone.
      { intros r Hr. rewrite (Hp r Hr). pose proof (rep_row entry rows m Hrep r Hr) as Hm.
        destruct (decide (ak_key (entry r) = hash key)) as [He|He].
        - assert (ak_id (entry r) = id) as Hid by (eapply (proj2 Hwf); eauto; congruence).
          rewrite Hid, Hk in Hm. injection Hm as <-. by rewrite <- andb_assoc, Hok, andb_false_r.
        - by rewrite bool_decide_false. }
      by rewrite (select_none p rows Hnone), set_none.
  - assert (forall r, r ∈ rows -> p r = false) as Hnone.
    { intros r Hr. rewrite (Hp r Hr). rewrite bool_decide_false; [done|]. intros He.
      pose proof (rep_row entry rows m Hrep r Hr) as Hm.
      pose proof (proj2 (Spec.holder_spec (hash key) m _ _ Hwf) (conj Hm He)). congruence. }
    by rewrite (select_none p rows Hnone), set_none.
Qed.
End Contract.

(** ** SQLite *)
Section Sqlite.
Context `{TimeText, JsonText}.
Context (sha256_hex : string -> string) (uuid_text : Z -> string).

Local Abbreviation hash := (hash_api_key sha256_hex).
Local Abbreviation fresh_secret := (generate_api_key uuid_text).
Local Abbreviation spec_step := (Spec.step sha256_hex uuid_text key_expired_sql).

Definition sqlite_step (op : StoreOp) : Sql (list SqliteApiKeyRow) StoreReply :=
  match op with
  | OpCreate u su now r => let! k := sqlite_create sha256_hex uuid_text u su now r in sql_ret (ReplyKey k)
  | OpGet id => let! k := sqlite_get id in sql_ret (ReplyOption k)
  | OpUpdate id r => let! k := sqlite_update id r in sql_ret (ReplyOption k)
  | OpDelete id => let! b := sqlite_delete id in sql_ret (ReplyBool b)
  | OpValidate key now => let! k := sqlite_validate sha256_hex key now in sql_ret (ReplyOption k)
  | OpRevoke id => let! b := sqlite_revoke id in sql_ret (ReplyBool b)
  | OpRotate id su => let! k := sqlite_rotate sha256_hex uuid_text id su in sql_ret (ReplyOption k)
  end.

(** What the text columns keep of a record. *)
Definition document_kept (v : Value) : Prop := json_parse (json_print v) = Some v.
Definition budget_kept (b : OrgTokenBudget) : Prop :=
  json_parse (json_print (budget_value b)) ≫= budget_from_value = Some b.

Definition entry_kept (k : ApiKey) : Prop :=
  (forall t, ak_expires_at k = Some t -> time_ok t) /\
  (forall v, ak_metadata k = Some v -> document_kept v) /\
  (forall b, ak_token_budget k = Some b -> budget_kept b).

Definition op_kept (op : StoreOp) : Prop :=
  match op with
  | OpCreate _ _ now r =>
      time_ok now /\ (forall t, ck_expires_at r = Some t -> time_ok t) /\
      (forall v, ck_metadata r = Some v -> document_kept v) /\
      (forall b, ck_token_budget r = Some b -> budget_kept b)
  | OpUpdate _ r =>
      (forall t, uk_expires_at r = Some (Some t) -> time_ok t) /\
      (forall v, uk_metadata r = Some (Some v) -> document_kept v) /\
      (forall b, uk_token_budget r = Some (Some b) -> budget_kept b)
  | OpValidate _ now => time_ok now
  | _ => True
  end.

Definition sqlite_row_ok (r : SqliteApiKeyRow) : Prop :=
  (sr_enabled r = 0 \/ sr_enabled r = 1) /\
  starts_with KEY_HASH_PREFIX (sr_key r) = true /\
  sr_expires_at r = to_rfc3339 <$> ak_expires_at (sqlite_entry r) /\
  entry_kept (sqlite_entry r).

Definition sqlite_sim (rows : list SqliteApiKeyRow) (m : gmap string ApiKey) : Prop :=
  represents sqlite_entry rows m /\ Spec.well_formed m /\ Forall sqlite_row_ok rows.

(** The reply: an update of a missing identifier is an error. *)
Definition sqlite_reply (op : StoreOp) (m : gmap string ApiKey) (r : StoreReply)
    : result StoreReply SqlError :=
  match op with
  | OpUpdate id _ => match m !! id with Some _ => Ok r | None => Err RowNotFound end
  | _ => Ok r
  end.

Lemma sqlite_selects id rows : selects sqlite_entry (sqlite_id_is id) id rows.
Proof. intros r _. apply bool_decide_eq_true. Qed.

Lemma sqlite_rows_valid rows m : represents sqlite_entry rows m -> Spec.well_formed m ->
  sqlite_valid rows = true.
Proof.
  intros Hrep Hwf. unfold sqlite_valid. apply andb_true_iff. split; apply bool_decide_eq_true.
  - exact (proj1 Hrep).
  - exact (rep_keys_distinct _ _ _ Hrep Hwf).
Qed.

Lemma times_round (o : option Z) : (forall t, o = Some t -> time_ok t) ->
  (to_rfc3339 <$> o) ≫= time_parse = o.
Proof. intros Ho. destruct o as [t|]; [|done]. cbn. by apply time_round, Ho. Qed.

Lemma strings_text l : json_parse (json_print (strings_value l)) ≫= strings_from_value = Some l.
Proof. rewrite json_round_strings. apply strings_from_to. Qed.

Lemma override_text o : json_parse (json_print (override_value o)) ≫= override_from_value = Some o.
Proof. rewrite json_round_override. apply override_from_to. Qed.

Lemma sqlite_set_columns_entry k r : entry_kept k ->
  ak_id k = sr_id r -> ak_created_at k = ak_created_at (sqlite_entry r) ->
  ak_last_used_at k = ak_last_used_at (sqlite_entry r) ->
  ak_usage_count k = ak_usage_count (sqlite_entry r) ->
  sqlite_entry (sqlite_set_columns k r) = with_key (sr_key r) k.
Proof.
  intros (Ht & Hd & Hb) Hid Hc Hl Hu. unfold sqlite_entry, sqlite_set_columns, with_key in *.
  destruct k as [id name key scopes en created last ex cnt meta org team user models ov bud].
  cbn in *. subst id created last cnt. f_equal.
  - by rewrite strings_text.
  - by destruct en.
  - by apply times_round.
  - destruct meta as [v|]; [|done]. by apply Hd.
  - destruct models as [l|]; [|done]. apply strings_text.
  - destruct ov as [o|]; [|done]. apply override_text.
  - destruct bud as [b|]; [|done]. by apply Hb.
Qed.

Lemma sqlite_get_steady id rows m : represents sqlite_entry rows m ->
  sqlite_get id (steady rows) = (Ok (mask_stored <$> m !! id), steady rows).
Proof.
  intros Hrep. unfold sqlite_get. erewrite sql_bind_ok by apply fetch_optional_steady.
  rewrite <- (rep_find _ _ _ Hrep _ _ (sqlite_selects id rows)).
  by destruct (head _).
Qed.

(** Changing the row of an identifier by [fr], the record by [f]. *)
Lemma sqlite_set_sim id f fr rows m : sqlite_sim rows m -> Spec.well_formed (alter f id m) ->
  (forall r, r ∈ rows -> sr_id r = id ->
    sqlite_entry (fr r) = f (sqlite_entry r) /\ sr_id (fr r) = sr_id r /\ sqlite_row_ok (fr r)) ->
  update_where sqlite_valid (sqlite_id_is id) fr (steady rows) =
    (Ok (fr <$> filter (fun r => sqlite_id_is id r) rows),
     steady (set_where (sqlite_id_is id) fr rows)) /\
  sqlite_sim (set_where (sqlite_id_is id) fr rows) (alter f id m).
Proof.
  intros (Hrep & Hwf & Hok) Hwf' Hf.
  assert (represents sqlite_entry (set_where (sqlite_id_is id) fr rows) (alter f id m)) as Hrep'.
  { apply rep_set; [done|apply sqlite_selects|]. intros r Hr E%bool_decide_eq_true.
    destruct (Hf r Hr E) as (He & Hi & _). split; [done|exact Hi]. }
  split; [apply update_where_steady; by eapply sqlite_rows_valid|].
  split; [done|]. split; [done|]. apply set_where_Forall; [done|].
  intros r Hr E%bool_decide_eq_true _. by apply Hf.
Qed.

(** The rows an update returns: the row of the identifier. *)
Lemma sqlite_set_count id (fr : SqliteApiKeyRow -> SqliteApiKeyRow) rows m :
  represents sqlite_entry rows m ->
  Nat.ltb 0 (length (fr <$> filter (fun r => sqlite_id_is id r) rows)) =
  bool_decide (is_Some (m !! id)).
Proof.
  intros Hrep. rewrite length_fmap. exact (rep_count _ _ _ Hrep _ _ (sqlite_selects id rows)).
Qed.

Lemma sqlite_entry_of id rows m r : represents sqlite_entry rows m -> r ∈ rows -> sr_id r = id ->
  m !! id = Some (sqlite_entry r).
Proof. intros Hrep Hr <-. exact (rep_row _ _ _ Hrep r Hr). Qed.

Lemma update_kept id r k : op_kept (OpUpdate id r) -> entry_kept k -> entry_kept (key_update r k).
Proof.
  intros (Ht & Hd & Hb) (Kt & Kd & Kb). repeat split; cbn.
  - destruct (uk_expires_at r) as [[t|]|]; cbn; [intros ? [= <-]; eauto|done|done].
  - destruct (uk_metadata r) as [[v|]|]; cbn; [intros ? [= <-]; eauto|done|done].
  - destruct (uk_token_budget r) as [[b|]|]; cbn; [intros ? [= <-]; eauto|done|done].
Qed.

Lemma sqlite_update_sim id r rows m k : sqlite_sim rows m -> op_kept (OpUpdate id r) ->
  m !! id = Some k ->
  sqlite_update id r (steady rows) =
    (Ok (Some (mask_stored (key_update r k))),
     steady (set_where (sqlite_id_is id) (sqlite_set_columns (key_update r (mask_stored k))) rows)) /\
  sqlite_sim (set_where (sqlite_id_is id) (sqlite_set_columns (key_update r (mask_stored k))) rows)
    (alter (key_update r) id m).
Proof.
  intros Hsim Hkept Hk. pose proof Hsim as (Hrep & Hwf & Hok).
  assert (Spec.well_formed (alter (key_update r) id m)) as Hwf' by by apply Spec.alter_key_preserved.
  destruct (sqlite_set_sim id (key_update r) (sqlite_set_columns (key_update r (mask_stored k)))
              rows m Hsim Hwf') as [Hup Hsim'].
  { intros x Hx Hid. pose proof (sqlite_entry_of _ _ _ _ Hrep Hx Hid) as Hm.
    rewrite Hk in Hm. injection Hm as ->. rewrite Forall_forall in Hok.
    destruct (Hok x Hx) as (_ & Hp & _ & Hke).
    assert (entry_kept (key_update r (mask_stored (sqlite_entry x)))) as Hke'
      by (by apply (update_kept id)).
    pose proof (sqlite_set_columns_entry _ x Hke' eq_refl eq_refl eq_refl eq_refl) as He.
    split; [exact He|]. split; [done|]. unfold sqlite_row_ok. rewrite He.
    split; [cbn; destruct (default _ _); auto|]. done. }
  split; [|done]. unfold sqlite_update.
  erewrite sql_bind_ok by by apply sqlite_get_steady. rewrite Hk. cbn [fmap option_fmap option_map].
  unfold sql_found. erewrite sql_bind_ok by done. erewrite sql_bind_ok by exact Hup.
  rewrite (sqlite_get_steady id _ _ (proj1 Hsim')).
  by rewrite lookup_alter_eq, Hk.
Qed.
Lemma sqlite_create_sim u su now r rows m : sqlite_sim rows m -> op_kept (OpCreate u su now r) ->
  Spec.draws_fresh sha256_hex uuid_text (OpCreate u su now r) m ->
  exists rows', sqlite_create sha256_hex uuid_text u su now r (steady rows) =
    (Ok (with_key (fresh_secret su) (new_key (uuid_text u) (hash (fresh_secret su)) now r)),
     steady rows') /\
  sqlite_sim rows' (<[uuid_text u := new_key (uuid_text u) (hash (fresh_secret su)) now r]> m).
Proof.
  intros (Hrep & Hwf & Hok) (Hnow & Ht & Hd & Hb) Hfresh.
  pose proof (Spec.step_well_formed sha256_hex uuid_text key_expired_sql
                (OpCreate u su now r) m Hwf Hfresh) as Hwf'. cbn in Hwf'.
  unfold sqlite_create. set (row := Build_SqliteApiKeyRow _ _ _ _ _ _ _ _ _ _ _ _ _ _ _ _).
  assert (sqlite_entry row = new_key (uuid_text u) (hash (fresh_secret su)) now r) as He.
  { unfold sqlite_entry, row, new_key. cbn [sr_id sr_name sr_key sr_scopes sr_enabled sr_created_at
      sr_last_used_at sr_expires_at sr_usage_count sr_metadata sr_org_id sr_team_id sr_user_id
      sr_models sr_rate_limit_override sr_token_budget].
    f_equal.
    - by rewrite strings_text.
    - unfold time_parse_or_default. by rewrite time_round.
    - by apply times_round.
    - destruct (ck_metadata r) as [v|]; [|done]. by apply Hd.
    - destruct (ck_models r) as [l|]; [|done]. apply strings_text.
    - destruct (ck_rate_limit_override r) as [o|]; [|done]. apply override_text.
    - destruct (ck_token_budget r) as [b|]; [|done]. by apply Hb. }
  exists (rows ++ [row])%list.
  assert (represents sqlite_entry (rows ++ [row])%list
            (<[uuid_text u := new_key (uuid_text u) (hash (fresh_secret su)) now r]> m)) as Hrep'.
  { rewrite <- He. apply rep_insert; [done|by rewrite He|exact (proj1 Hfresh)]. }
  split.
  - erewrite sql_bind_ok by (apply insert_row_steady; by eapply sqlite_rows_valid).
    erewrite sql_bind_ok by by apply sqlite_get_steady.
    by rewrite lookup_insert_eq.
  - split; [done|]. split; [done|]. apply Forall_app. split; [done|]. apply Forall_singleton.
    unfold sqlite_row_ok. rewrite He. split; [by right|].
    split; [apply hash_prefixed|]. done.
Qed.

Lemma starts_with_lower p s : starts_with p s = true ->
  starts_with (to_ascii_lowercase p) (to_ascii_lowercase s) = true.
Proof.
  revert s. induction p as [|a p IH]; intros s; [by destruct s|].
  destruct s as [|b s]; cbn; [done|]. destruct (decide (a = b)) as [->|]; [|done].
  rewrite decide_True by done. apply IH.
Qed.

Lemma sqlite_hashed_prefix key :
  starts_with KEY_HASH_PREFIX key = true -> sqlite_hashed key = true.
Proof. exact (starts_with_lower KEY_HASH_PREFIX key). Qed.

Lemma sqlite_validate_sim key now rows m : sqlite_sim rows m -> time_ok now ->
  exists rows',
    sqlite_validate sha256_hex key now (steady rows) =
      (Ok (fst (Spec.validate sha256_hex key_expired_sql key now m)), steady rows') /\
    sqlite_sim rows' (snd (Spec.validate sha256_hex key_expired_sql key now m)).
Proof.
  intros (Hrep & Hwf & Hok) Hnow. rewrite Forall_forall in Hok. unfold sqlite_validate.
  set (p := fun r : SqliteApiKeyRow => _ && _ && _). set (fr := fun r : SqliteApiKeyRow => Build_SqliteApiKeyRow _ _ _ _ _ _ _ _ _ _ _ _ _ _ _ _).
  assert (forall r, r ∈ rows -> p r = bool_decide (ak_key (sqlite_entry r) = hash key) &&
     ak_enabled (sqlite_entry r) && negb (key_expired_sql now (sqlite_entry r))) as Hp.
  { intros r Hr. destruct (Hok r Hr) as (Hen & Hpre & Hex & (Ht & _ & _)). unfold p, key_expired_sql.
    rewrite (sqlite_hashed_prefix _ Hpre), andb_false_r, orb_false_r, Hex. f_equal; [f_equal|].
    - cbn. by destruct Hen as [-> | ->].
    - destruct (ak_expires_at _) as [e|]; [|done]. cbn. rewrite rfc3339_order by auto.
      by rewrite Z.leb_antisym, negb_involutive. }
  assert (forall r, r ∈ rows -> p r = true -> sqlite_entry (fr r) = key_used now (sqlite_entry r)) as Hf.
  { intros r Hr Hpr. rewrite (Hp r Hr), !andb_true_iff, bool_decide_eq_true in Hpr.
    destruct Hpr as [[Hh _] _]. cbn in Hh. unfold sqlite_entry, fr, key_used. cbn.
    rewrite (time_round now Hnow). f_equal; [done|].
    unfold wrap_u64. by rewrite Zplus_mod_idemp_l. }
  pose proof (rep_validate sha256_hex sqlite_entry rows m key now p fr Hrep Hwf Hp Hf) as Hv.
  pose proof (Spec.step_well_formed sha256_hex uuid_text key_expired_sql (OpValidate key now) m Hwf I) as Hwf'.
  cbn in Hwf'. destruct (Spec.validate _ _ _ _ _) as [o m']. destruct Hv as [Hrep' Ho].
  exists (set_where p fr rows). split.
  - erewrite sql_bind_ok by (apply update_where_steady; by eapply sqlite_rows_valid).
    cbn [fst]. rewrite <- Ho. by destruct (head _).
  - split; [done|]. split; [done|]. apply set_where_Forall; [by apply Forall_forall|].
    intros r Hr Hpr (Hen & Hpre & Hex & Hke). unfold sqlite_row_ok. rewrite (Hf r Hr Hpr).
    split; [done|]. split; [apply hash_prefixed|]. done.
Qed.
Lemma sqlite_delete_sim id rows m : sqlite_sim rows m ->
  sqlite_sim (filter (fun r => ~ sqlite_id_is id r) rows) (delete id m).
Proof.
  intros (Hrep & Hwf & Hok). split; [|split].
  - apply rep_delete; [done|apply sqlite_selects].
  - exact (Spec.step_well_formed sha256_hex uuid_text key_expired_sql (OpDelete id) m Hwf I).
  - rewrite Forall_forall in *. intros r [_ Hr]%list_elem_of_filter. auto.
Qed.

Lemma sqlite_revoke_sim id rows m : sqlite_sim rows m ->
  exists rows', sqlite_revoke id (steady rows) = (Ok (bool_decide (is_Some (m !! id))), steady rows') /\
    sqlite_sim rows' (alter (with_enabled false) id m).
Proof.
  intros Hsim. pose proof Hsim as (Hrep & Hwf & Hok). rewrite Forall_forall in Hok.
  destruct (sqlite_set_sim id (with_enabled false) (sqlite_set_enabled 0) rows m Hsim) as [Hup Hsim'].
  { by apply Spec.alter_key_preserved. }
  { intros r Hr _. destruct (Hok r Hr) as (_ & Hp & Hex & Hke). split; [done|]. split; [done|].
    split; [by left|]. done. }
  eexists. split; [|done]. unfold sqlite_revoke. erewrite sql_bind_ok by exact Hup.
  unfold sql_ret. by rewrite (sqlite_set_count id _ rows m Hrep).
Qed.

Lemma sqlite_rotate_sim id su rows m : sqlite_sim rows m ->
  Spec.draws_fresh sha256_hex uuid_text (OpRotate id su) m ->
  exists rows', sqlite_rotate sha256_hex uuid_text id su (steady rows) =
      (Ok (with_key (fresh_secret su) <$> m !! id), steady rows') /\
    sqlite_sim rows' (alter (with_key (hash (fresh_secret su))) id m).
Proof.
  intros Hsim Hfresh. pose proof Hsim as (Hrep & Hwf & Hok). rewrite Forall_forall in Hok.
  destruct (sqlite_set_sim id (with_key (hash (fresh_secret su)))
              (sqlite_set_key (hash (fresh_secret su))) rows m Hsim) as [Hup Hsim'].
  { exact (Spec.step_well_formed sha256_hex uuid_text key_expired_sql (OpRotate id su) m Hwf Hfresh). }
  { intros r Hr _. destruct (Hok r Hr) as (Hen & Hp & Hex & Hke). split; [done|]. split; [done|].
    split; [done|]. split; [apply hash_prefixed|]. done. }
  eexists. split; [|exact Hsim']. unfold sqlite_rotate. erewrite sql_bind_ok by exact Hup.
  erewrite sql_bind_ok by (apply sqlite_get_steady; exact (proj1 Hsim')).
  rewrite lookup_alter_eq. by destruct (m !! id).
Qed.

(** C23: On a connection that does not fail, each operation of the SQLite store
    answers as the one-map specification (an update of a missing identifier is
    the error "not found"), and leaves a table that represents the new map. *)
Theorem sqlite_store_refines op rows m : sqlite_sim rows m -> op_kept op ->
  Spec.draws_fresh sha256_hex uuid_text op m ->
  exists rows', sqlite_step op (steady rows) =
      (sqlite_reply op m (fst (spec_step op m)), steady rows') /\
    sqlite_sim rows' (snd (spec_step op m)).
Proof.
  intros Hsim Hkept Hfresh. pose proof Hsim as (Hrep & Hwf & Hok).
  destruct op as [u su now r|id|id r|id|key now|id|id su]; cbn [sqlite_step Spec.step fst snd].
  - destruct (sqlite_create_sim u su now r rows m Hsim Hkept Hfresh) as (rows' & Hc & Hsim').
    exists rows'. split; [|done]. by erewrite sql_bind_ok by exact Hc.
  - exists rows. split; [|done]. by erewrite sql_bind_ok by by apply sqlite_get_steady.
  - destruct (m !! id) as [k|] eqn:Hk.
    + destruct (sqlite_update_sim id r rows m k Hsim Hkept Hk) as [Hu Hsim'].
      eexists. split; [|exact Hsim']. cbn. rewrite Hk. by erewrite sql_bind_ok by exact Hu.
    + exists rows. rewrite Spec.alter_missing by done. split; [|done]. cbn. rewrite Hk.
      erewrite sql_bind_err; [done|]. unfold sqlite_update.
      erewrite sql_bind_ok by by apply sqlite_get_steady. by rewrite Hk.
  - eexists. split; [|by apply sqlite_delete_sim]. unfold sqlite_delete.
    erewrite sql_bind_ok by (erewrite sql_bind_ok by apply delete_where_steady; done).
    by rewrite (rep_count _ _ _ Hrep _ _ (sqlite_selects id rows)).
  - destruct (sqlite_validate_sim key now rows m Hsim Hkept) as (rows' & Hv & Hsim').
    exists rows'. erewrite sql_bind_ok by exact Hv. by destruct (Spec.validate _ _ _ _ _).
  - destruct (sqlite_revoke_sim id rows m Hsim) as (rows' & Hr & Hsim').
    exists rows'. split; [|done]. by erewrite sql_bind_ok by exact Hr.
  - destruct (sqlite_rotate_sim id su rows m Hsim Hfresh) as (rows' & Hr & Hsim').
    exists rows'. split; [|done]. by erewrite sql_bind_ok by exact Hr.
Qed.

End Sqlite.

(** ** Postgres *)
Section Postgres.
Context (sha256_hex : string -> string) (uuid_text : Z -> string) (parse_uuid : string -> option Z).
Hypothesis uuid_round : forall u, parse_uuid (uuid_text u) = Some u.

Local Abbreviation hash := (hash_api_key sha256_hex).
Local Abbreviation fresh_secret := (generate_api_key uuid_text).
Local Abbreviation spec_step := (Spec.step sha256_hex uuid_text key_expired_sql).
Local Abbreviation entry := (pg_entry uuid_text).

Definition pg_step (op : StoreOp) : Sql (list ApiKeyRow) StoreReply :=
  match op with
  | OpCreate u su now r => let! k := pg_create sha256_hex uuid_text u su now r in sql_ret (ReplyKey k)
  | OpGet id => let! k := pg_get uuid_text parse_uuid id in sql_ret (ReplyOption k)
  | OpUpdate id r => let! k := pg_update uuid_text parse_uuid id r in sql_ret (ReplyOption k)
  | OpDelete id => let! b := pg_delete parse_uuid id in sql_ret (ReplyBool b)
  | OpValidate key now => let! k := pg_validate sha256_hex uuid_text key now in sql_ret (ReplyOption k)
  | OpRevoke id => let! b := pg_revoke parse_uuid id in sql_ret (ReplyBool b)
  | OpRotate id su =>
      let! k := pg_rotate sha256_hex uuid_text parse_uuid id su in sql_ret (ReplyOption k)
  end.

(** What a JSONB column keeps of a budget: its numbers must be finite. *)
Definition pg_budget_kept (b : OrgTokenBudget) : Prop := budget_from_value (budget_value b) = Some b.

(** What the columns keep of a key: a finite budget, texts that fit, microseconds. *)
Definition pg_entry_kept (k : ApiKey) : Prop :=
  (forall b, ak_token_budget k = Some b -> pg_budget_kept b) /\
  pg_texts_fit (ak_name k) (ak_org_id k) (ak_team_id k) (ak_user_id k) = true /\
  pg_micros <$> ak_expires_at k = ak_expires_at k.

(** An operation whose values the columns keep, but for the fraction of a microsecond. *)
Definition pg_op_kept (op : StoreOp) : Prop :=
  match op with
  | OpCreate _ _ _ r =>
      (forall b, ck_token_budget r = Some b -> pg_budget_kept b) /\
      pg_texts_fit (ck_name r) (ck_org_id r) (ck_team_id r) (ck_user_id r) = true
  | OpUpdate _ r =>
      (forall b, uk_token_budget r = Some (Some b) -> pg_budget_kept b) /\
      pg_texts_fit (default "" (uk_name r)) (default None (uk_org_id r)) (default None (uk_team_id r))
        (default None (uk_user_id r)) = true
  | _ => True
  end.

Definition create_kept_at (r : CreateApiKeyRequest) : CreateApiKeyRequest :=
  {| ck_name := ck_name r; ck_scopes := ck_scopes r; ck_expires_at := pg_micros <$> ck_expires_at r;
     ck_metadata := ck_metadata r; ck_org_id := ck_org_id r; ck_team_id := ck_team_id r;
     ck_user_id := ck_user_id r; ck_models := ck_models r;
     ck_rate_limit_override := ck_rate_limit_override r; ck_token_budget := ck_token_budget r |}.

Definition update_kept_at (r : UpdateApiKeyRequest) : UpdateApiKeyRequest :=
  {| uk_name := uk_name r; uk_scopes := uk_scopes r; uk_enabled := uk_enabled r;
     uk_expires_at := option_map (option_map pg_micros) (uk_expires_at r); uk_metadata := uk_metadata r;
     uk_org_id := uk_org_id r; uk_team_id := uk_team_id r; uk_user_id := uk_user_id r;
     uk_models := uk_models r; uk_rate_limit_override := uk_rate_limit_override r;
     uk_token_budget := uk_token_budget r |}.

(** The operation with the expiry the database keeps. *)
Definition kept_at (op : StoreOp) : StoreOp :=
  match op with
  | OpCreate u su now r => OpCreate u su now (create_kept_at r)
  | OpUpdate id r => OpUpdate id (update_kept_at r)
  | op => op
  end.

Definition op_id (op : StoreOp) : option string :=
  match op with
  | OpGet id | OpUpdate id _ | OpDelete id | OpRevoke id | OpRotate id _ => Some id
  | OpCreate _ _ _ _ | OpValidate _ _ => None
  end.

(** An identifier that parses is written as the store writes it. *)
Definition canonical (op : StoreOp) : Prop :=
  forall id u, op_id op = Some id -> parse_uuid id = Some u -> uuid_text u = id.

(** The reply: an identifier that does not parse is an error. *)
Definition pg_reply (op : StoreOp) (r : StoreReply) : result StoreReply SqlError :=
  match op_id op ≫= (fun id => match parse_uuid id with Some _ => None | None => Some id end) with
  | Some _ => Err RowNotFound
  | None => Ok r
  end.

Definition pg_row_ok (r : ApiKeyRow) : Prop :=
  starts_with KEY_HASH_PREFIX (pr_key r) = true /\ pg_entry_kept (entry r).

Definition pg_sim (rows : list ApiKeyRow) (m : gmap string ApiKey) : Prop :=
  represents entry rows m /\ Spec.well_formed m /\ Forall pg_row_ok rows.

Lemma pg_selects u rows : selects entry (pg_id_is u) (uuid_text u) rows.
Proof.
  intros r _. unfold pg_id_is. rewrite Z.eqb_eq. split; [by intros <-|]. cbn. intros He.
  pose proof (uuid_round u) as Hu. rewrite <- He, uuid_round in Hu. by injection Hu.
Qed.

Lemma pg_rows_valid rows m : represents entry rows m -> Spec.well_formed m -> pg_valid rows = true.
Proof.
  intros Hrep Hwf. unfold pg_valid. apply andb_true_iff. split; apply bool_decide_eq_true.
  - apply (NoDup_fmap_1 uuid_text). rewrite <- list_fmap_compose. exact (proj1 Hrep).
  - exact (rep_keys_distinct _ _ _ Hrep Hwf).
Qed.

Lemma pg_find u rows m : represents entry rows m ->
  pg_row_into uuid_text <$> head (filter (fun r => pg_id_is u r) rows) =
  mask_stored <$> m !! uuid_text u.
Proof.
  intros Hrep. rewrite <- (rep_find _ _ _ Hrep _ _ (pg_selects u rows)). by destruct (head _).
Qed.

Lemma pg_set_columns_entry k r : pg_entry_kept k ->
  ak_id k = uuid_text (pr_id r) -> ak_created_at k = pr_created_at r ->
  ak_last_used_at k = pr_last_used_at r -> ak_usage_count k = wrap_u64 (pr_usage_count r) ->
  entry (pg_set_columns k r) = with_key (pr_key r) k.
Proof.
  intros (Hb & _ & Hx) Hid Hc Hl Hu.
  destruct k as [id name key scopes en created last ex cnt meta org team user models ov bud].
  unfold pg_entry, pg_set_columns, with_key. cbn in Hid, Hc, Hl, Hu, Hx.
  cbn [pr_id pr_name pr_key pr_scopes pr_enabled pr_created_at pr_last_used_at pr_expires_at
    pr_usage_count pr_metadata pr_org_id pr_team_id pr_user_id pr_models pr_rate_limit_override
    pr_token_budget ak_id ak_name ak_key ak_scopes ak_enabled ak_created_at ak_last_used_at
    ak_expires_at ak_usage_count ak_metadata ak_org_id ak_team_id ak_user_id ak_models
    ak_rate_limit_override ak_token_budget].
  subst id created last cnt. rewrite strings_from_to, Hx. f_equal.
  - destruct models as [l|]; [|done]. apply strings_from_to.
  - destruct ov as [o|]; [|done]. apply override_from_to.
  - destruct bud as [b|]; [|done]. by apply Hb.
Qed.

(** Changing the row of an identifier by [fr], the record by [f]. *)
Lemma pg_set_sim u f fr rows m : pg_sim rows m -> Spec.well_formed (alter f (uuid_text u) m) ->
  (forall r, r ∈ rows -> pr_id r = u ->
    entry (fr r) = f (entry r) /\ pr_id (fr r) = pr_id r /\ pg_row_ok (fr r)) ->
  update_where pg_valid (pg_id_is u) fr (steady rows) =
    (Ok (fr <$> filter (fun r => pg_id_is u r) rows), steady (set_where (pg_id_is u) fr rows)) /\
  pg_sim (set_where (pg_id_is u) fr rows) (alter f (uuid_text u) m) /\
  entry <$> head (fr <$> filter (fun r => pg_id_is u r) rows) = f <$> m !! uuid_text u.
Proof.
  intros (Hrep & Hwf & Hok) Hwf' Hf.
  assert (represents entry (set_where (pg_id_is u) fr rows) (alter f (uuid_text u) m)) as Hrep'.
  { apply rep_set; [done|apply pg_selects|]. intros r Hr E%Z.eqb_eq.
    destruct (Hf r Hr E) as (He & Hi & _). split; [done|]. cbn. by rewrite Hi. }
  split; [apply update_where_steady; by eapply pg_rows_valid|]. split.
  - split; [done|]. split; [done|]. apply set_where_Forall; [done|].
    intros r Hr E%Z.eqb_eq _. by apply Hf.
  - pose proof (rep_filter _ _ _ Hrep _ _ (pg_selects u rows)) as Hfi.
    destruct (m !! uuid_text u) as [k|] eqn:E; [|by rewrite Hfi].
    destruct Hfi as (r & -> & Hr & <-). cbn. f_equal. apply Hf; [done|].
    apply Z.eqb_eq. apply (pg_selects u rows r Hr). by eapply (proj1 Hwf).
Qed.

Lemma mask_first (rows : list ApiKeyRow) :
  pg_row_into uuid_text <$> head rows = mask_stored <$> (entry <$> head rows).
Proof. by destruct rows. Qed.

Lemma pg_get_steady id u rows m : represents entry rows m -> parse_uuid id = Some u ->
  pg_get uuid_text parse_uuid id (steady rows) = (Ok (mask_stored <$> m !! uuid_text u), steady rows).
Proof.
  intros Hrep Hu. unfold pg_get, pg_uuid. rewrite Hu. erewrite sql_bind_ok by done.
  erewrite sql_bind_ok by apply fetch_optional_steady. unfold sql_ret. by rewrite (pg_find u rows m).
Qed.

Lemma pg_missing id rows m : represents entry rows m -> parse_uuid id = None -> m !! id = None.
Proof.
  intros [_ Hm] Hid. destruct (m !! id) as [k|] eqn:E; [|done].
  apply Hm in E as (r & _ & <- & <-). cbn in Hid. by rewrite uuid_round in Hid.
Qed.

Lemma pg_create_sim u su now r rows m : pg_sim rows m -> pg_op_kept (OpCreate u su now r) ->
  Spec.draws_fresh sha256_hex uuid_text (OpCreate u su now r) m ->
  exists rows', pg_create sha256_hex uuid_text u su now r (steady rows) =
    (Ok (with_key (fresh_secret su) (new_key (uuid_text u) (hash (fresh_secret su)) now (create_kept_at r))),
     steady rows') /\
  pg_sim rows' (<[uuid_text u := new_key (uuid_text u) (hash (fresh_secret su)) now (create_kept_at r)]> m).
Proof.
  intros (Hrep & Hwf & Hok) [Hb Hfits] Hfresh.
  pose proof (Spec.step_well_formed sha256_hex uuid_text key_expired_sql
                (OpCreate u su now (create_kept_at r)) m Hwf Hfresh) as Hwf'. cbn [Spec.step snd] in Hwf'.
  unfold pg_create. rewrite Hfits. set (row := Build_ApiKeyRow _ _ _ _ _ _ _ _ _ _ _ _ _ _ _ _).
  assert (entry row = new_key (uuid_text u) (hash (fresh_secret su)) now (create_kept_at r)) as He.
  { unfold pg_entry, row, new_key, create_kept_at. cbn [pr_id pr_name pr_key pr_scopes pr_enabled pr_created_at
      pr_last_used_at pr_expires_at pr_usage_count pr_metadata pr_org_id pr_team_id pr_user_id
      pr_models pr_rate_limit_override pr_token_budget].
    rewrite strings_from_to. f_equal.
    - destruct (ck_models r) as [l|]; [|done]. apply strings_from_to.
    - destruct (ck_rate_limit_override r) as [o|]; [|done]. apply override_from_to.
    - destruct (ck_token_budget r) as [b|]; [|done]. by apply Hb. }
  exists (rows ++ [row])%list.
  assert (represents entry (rows ++ [row])%list
            (<[uuid_text u := new_key (uuid_text u) (hash (fresh_secret su)) now (create_kept_at r)]> m)) as Hrep'.
  { rewrite <- He. apply rep_insert; [done|by rewrite He|exact (proj1 Hfresh)]. }
  split.
  - unfold binding. erewrite sql_bind_ok by (apply insert_row_steady; by eapply pg_rows_valid).
    unfold sql_ret, pg_row_into. by rewrite He.
  - split; [done|]. split; [done|]. apply Forall_app. split; [done|]. apply Forall_singleton.
    unfold pg_row_ok. rewrite He. split; [apply hash_prefixed|]. split; [done|]. split; [done|].
    cbn. destruct (ck_expires_at r); cbn; by rewrite ?pg_micros_again.
Qed.

Lemma pg_validate_sim key now rows m : pg_sim rows m ->
  exists rows',
    pg_validate sha256_hex uuid_text key now (steady rows) =
      (Ok (fst (Spec.validate sha256_hex key_expired_sql key now m)), steady rows') /\
    pg_sim rows' (snd (Spec.validate sha256_hex key_expired_sql key now m)).
Proof.
  intros (Hrep & Hwf & Hok). rewrite Forall_forall in Hok. unfold pg_validate.
  set (p := fun r : ApiKeyRow => _ && _ && _).
  set (fr := fun r : ApiKeyRow => Build_ApiKeyRow _ _ _ _ _ _ _ _ _ _ _ _ _ _ _ _).
  assert (forall r, r ∈ rows -> p r = bool_decide (ak_key (entry r) = hash key) &&
     ak_enabled (entry r) && negb (key_expired_sql now (entry r))) as Hp.
  { intros r Hr. destruct (Hok r Hr) as (Hpre & _). unfold p, key_expired_sql.
    rewrite Hpre, andb_false_r, orb_false_r. f_equal. cbn.
    destruct (pr_expires_at r) as [e|]; [|done]. by rewrite Z.leb_antisym, negb_involutive. }
  assert (forall r, r ∈ rows -> p r = true -> entry (fr r) = key_used now (entry r)) as Hf.
  { intros r Hr Hpr. rewrite (Hp r Hr), !andb_true_iff, bool_decide_eq_true in Hpr.
    destruct Hpr as [[Hh _] _]. cbn in Hh. unfold pg_entry, fr, key_used. cbn.
    f_equal; [done|]. unfold wrap_u64. by rewrite Zplus_mod_idemp_l. }
  pose proof (rep_validate sha256_hex entry rows m key now p fr Hrep Hwf Hp Hf) as Hv.
  pose proof (Spec.step_well_formed sha256_hex uuid_text key_expired_sql (OpValidate key now) m Hwf I) as Hwf'.
  cbn in Hwf'. destruct (Spec.validate _ _ _ _ _) as [o m']. destruct Hv as [Hrep' Ho].
  exists (set_where p fr rows). split.
  - erewrite sql_bind_ok by (apply update_where_steady; by eapply pg_rows_valid).
    cbn [fst]. rewrite <- Ho. unfold sql_ret. by rewrite mask_first.
  - split; [done|]. split; [done|]. apply set_where_Forall; [by apply Forall_forall|].
    intros r Hr Hpr (Hpre & Hke). unfold pg_row_ok. rewrite (Hf r Hr Hpr).
    split; [apply hash_prefixed|done].
Qed.

(** The row an update writes, and that its values fit when the stored ones do. *)
Lemma set_columns_kept r k x :
  pg_set_columns (key_update r k) x = pg_set_columns (key_update (update_kept_at r) k) x.
Proof.
  unfold pg_set_columns, key_update, update_kept_at. cbn. f_equal.
  destruct (uk_expires_at r) as [[e|]|]; cbn; by rewrite ?pg_micros_again.
Qed.

Lemma optional_fits_updated (o : option string) (o' : option (option string)) :
  optional_text_fits 255 o -> optional_text_fits 255 (default None o') -> optional_text_fits 255 (default o o').
Proof. by destruct o'. Qed.

Lemma entry_kept_updated r k : pg_entry_kept k -> pg_op_kept (OpUpdate "" r) ->
  pg_entry_kept (key_update (update_kept_at r) k).
Proof.
  intros (Hb & Hf & Hx) [Hb' Hf']. split; [|split].
  - cbn. destruct (uk_token_budget r) as [[b|]|]; cbn; [intros ? [= <-]; by apply Hb'|done|done].
  - apply Is_true_true in Hf, Hf'. unfold pg_texts_fit in *. cbn. rewrite !andb_True in *.
    destruct Hf as [[[? ?] ?] ?], Hf' as [[[? ?] ?] ?].
    apply Is_true_true. rewrite !andb_True. split_and!; try by apply optional_fits_updated.
    by destruct (uk_name r).
  - cbn. destruct (uk_expires_at r) as [[e|]|]; cbn; by rewrite ?pg_micros_again.
Qed.

Lemma pg_update_sim id u r rows m : pg_sim rows m -> pg_op_kept (OpUpdate id r) ->
  parse_uuid id = Some u -> uuid_text u = id ->
  exists rows', pg_update uuid_text parse_uuid id r (steady rows) =
      (Ok (mask_stored <$> (key_update (update_kept_at r) <$> m !! id)), steady rows') /\
    pg_sim rows' (alter (key_update (update_kept_at r)) id m).
Proof.
  intros Hsim Hkept Hu Hid. pose proof Hsim as (Hrep & Hwf & Hok). rewrite Forall_forall in Hok.
  unfold pg_update, pg_uuid. rewrite Hu. erewrite sql_bind_ok by done.
  erewrite sql_bind_ok by by apply pg_get_steady. rewrite Hid.
  destruct (m !! id) as [k|] eqn:Hk.
  - cbn [fmap option_fmap option_map].
    pose proof (proj1 (proj2 Hrep _ _) Hk) as (x0 & Hx0 & Hx0k & _).
    assert (pg_entry_kept (key_update (update_kept_at r) (mask_stored k))) as Hke.
    { apply entry_kept_updated; [|done]. destruct (Hok x0 Hx0) as [_ Hkept0]. by rewrite Hx0k in Hkept0. }
    destruct (pg_set_sim u (key_update (update_kept_at r)) (pg_set_columns (key_update r (mask_stored k)))
      rows m Hsim) as (Hup & Hsim' & Hfirst).
    { by apply Spec.alter_key_preserved. }
    { intros x Hx Hxu. pose proof (rep_row _ _ _ Hrep x Hx) as Hm. cbn [pg_entry ak_id] in Hm.
      rewrite Hxu, Hid, Hk in Hm. injection Hm as ->.
      destruct (Hok x Hx) as (Hp & _).
      pose proof (pg_set_columns_entry _ x Hke eq_refl eq_refl eq_refl eq_refl) as He.
      rewrite set_columns_kept. split; [exact He|]. split; [done|]. unfold pg_row_ok. by rewrite He. }
    rewrite Hid in Hsim', Hfirst. eexists. split; [|exact Hsim'].
    assert (pg_texts_fit (ak_name (key_update r (mask_stored k))) (ak_org_id (key_update r (mask_stored k)))
      (ak_team_id (key_update r (mask_stored k))) (ak_user_id (key_update r (mask_stored k))) = true) as Hfits
      by exact (proj1 (proj2 Hke)).
    rewrite Hfits. erewrite sql_bind_ok by exact Hup. unfold sql_ret. by rewrite mask_first, Hfirst, Hk.
  - exists rows. rewrite Spec.alter_missing by done. done.
Qed.

(** On a connection that does not fail, each operation of the Postgres
    store whose texts fit answers as the one-map specification (an identifier that is
    not a UUID is the error "not found") with expiries cut to the microsecond, and
    leaves a table that represents the new map. *)
Theorem postgres_store_refines op rows m : pg_sim rows m -> pg_op_kept op ->
  Spec.draws_fresh sha256_hex uuid_text op m -> canonical op ->
  exists rows', pg_step op (steady rows) = (pg_reply op (fst (spec_step (kept_at op) m)), steady rows') /\
    pg_sim rows' (snd (spec_step (kept_at op) m)).
Proof.
  intros Hsim Hkept Hfresh Hcan. pose proof Hsim as (Hrep & Hwf & Hok).
  rewrite Forall_forall in Hok. unfold pg_reply.
  destruct op as [u su now r|id|id r|id|key now|id|id su];
    cbn [pg_step kept_at Spec.step fst snd op_id mbind option_bind];
    [destruct (pg_create_sim u su now r rows m Hsim Hkept Hfresh) as (rows' & Hc & Hs)
    | | | |destruct (pg_validate_sim key now rows m Hsim) as (rows' & Hc & Hs)| |].
  1: { exists rows'. split; [|done]. by erewrite sql_bind_ok by exact Hc. }
  4: { exists rows'. erewrite sql_bind_ok by exact Hc. by destruct (Spec.validate _ _ _ _ _). }
  all: destruct (parse_uuid id) as [u|] eqn:Hu;
    [pose proof (Hcan id u eq_refl Hu) as Hid
    |exists rows; rewrite ?Spec.alter_missing, ?delete_id by (by apply (pg_missing id rows m)); split; [|done]; cbn;
     unfold pg_get, pg_update, pg_delete, pg_revoke, pg_rotate, pg_uuid; by rewrite Hu].
  - exists rows. split; [|done]. erewrite sql_bind_ok by by apply pg_get_steady. by rewrite Hid.
  - destruct (pg_update_sim id u r rows m Hsim Hkept Hu Hid) as (rows' & Hc & Hs).
    exists rows'. split; [|done]. by erewrite sql_bind_ok by exact Hc.
  - eexists. split.
    + unfold pg_delete, pg_uuid. rewrite Hu.
      erewrite sql_bind_ok by (erewrite sql_bind_ok by done;
        erewrite sql_bind_ok by apply delete_where_steady; done).
      by rewrite (rep_count _ _ _ Hrep _ _ (pg_selects u rows)), Hid.
    + rewrite <- Hid. split; [apply rep_delete; [done|apply pg_selects]|]. split.
      * exact (Spec.step_well_formed sha256_hex uuid_text key_expired_sql (OpDelete _) m Hwf I).
      * apply Forall_forall. intros x [_ Hx]%list_elem_of_filter. auto.
  - destruct (pg_set_sim u (with_enabled false) (pg_set_enabled false) rows m Hsim) as (Hup & Hs & _).
    { by apply Spec.alter_key_preserved. }
    { intros x Hx _. by destruct (Hok x Hx). }
    rewrite Hid in Hs. eexists. split; [|exact Hs]. unfold pg_revoke, pg_uuid. rewrite Hu.
    erewrite sql_bind_ok by (erewrite sql_bind_ok by done; erewrite sql_bind_ok by exact Hup; done).
    rewrite length_fmap. by rewrite (rep_count _ _ _ Hrep _ _ (pg_selects u rows)), Hid.
  - destruct (pg_set_sim u (with_key (hash (fresh_secret su))) (pg_set_key (hash (fresh_secret su)))
                rows m Hsim) as (Hup & Hs & Hfirst).
    { rewrite Hid. exact (Spec.step_well_formed sha256_hex uuid_text key_expired_sql (OpRotate id su) m Hwf Hfresh). }
    { intros x Hx _. destruct (Hok x Hx) as [_ Hke]. split; [done|]. split; [done|].
      split; [apply hash_prefixed|done]. }
    rewrite Hid in Hs, Hfirst. eexists. split; [|exact Hs]. unfold pg_rotate, pg_uuid. rewrite Hu.
    erewrite sql_bind_ok by (erewrite sql_bind_ok by done; erewrite sql_bind_ok by exact Hup; done).
    rewrite mask_first, Hfirst. by destruct (m !! id).
Qed.

End Postgres.

(** ** What a key grants, on any backend *)
Section AnyBackend.
Context `{TimeText, JsonText}.
Context (sha256_hex : string -> string) (uuid_text : Z -> string).

Local Abbreviation hash := (hash_api_key sha256_hex).
Local Abbreviation validate := (backend_validate sha256_hex uuid_text).

(** A stored key is the secret's: it holds its hash, or it is a row from before keys
    were hashed, which holds the secret itself. *)
Definition secret_matches (stored secret : string) : Prop :=
  stored = hash secret \/ stored = secret /\ starts_with KEY_HASH_PREFIX secret = false.

(** The backend holds [key] for the presented secret, enabled and not expired. SQLite
    compares instants as text, in the order of time for instants it wrote itself. *)
Inductive backend_grants (secret : string) (now : Z) : StoreBackend -> ApiKey -> Prop :=
  | MemoryGrants s id key :
      ks_keys s !! id = Some key -> ak_key key = hash secret ->
      ak_enabled key = true -> key_expired now key = false ->
      backend_grants secret now (Memory s) key
  | PostgresGrants db r :
      r ∈ db_table db -> secret_matches (pr_key r) secret ->
      pr_enabled r = true -> (forall e, pr_expires_at r = Some e -> now < e) ->
      backend_grants secret now (Postgres db) (pg_entry uuid_text r)
  | SqliteGrants db r :
      r ∈ db_table db -> secret_matches (sr_key r) secret -> sr_enabled r = 1 ->
      (forall e, sr_expires_at r = Some e -> String.ltb (to_rfc3339 now) e = true) ->
      (forall e, sr_expires_at r = Some (to_rfc3339 e) -> time_ok now -> time_ok e -> now < e) ->
      backend_grants secret now (Sqlite db) (sqlite_entry r).

(** The in-memory store is only as good as its index, which its operations keep
    ([store_ok]); a table has none. *)
Definition backend_ok (b : StoreBackend) : Prop := match b with Memory s => store_ok s | _ => True end.

(** What validation has no part in: who a key is and what its holder may do. *)
Definition unused (k : ApiKey) : ApiKey :=
  {| ak_id := ak_id k; ak_name := ak_name k; ak_key := ""; ak_scopes := ak_scopes k;
     ak_enabled := ak_enabled k; ak_created_at := ak_created_at k; ak_last_used_at := None;
     ak_expires_at := ak_expires_at k; ak_usage_count := 0; ak_metadata := ak_metadata k;
     ak_org_id := ak_org_id k; ak_team_id := ak_team_id k; ak_user_id := ak_user_id k;
     ak_models := ak_models k; ak_rate_limit_override := ak_rate_limit_override k;
     ak_token_budget := ak_token_budget k |}.

(** A key that validates is one that the backend holds for the secret, on a connection
    that may fail at any statement. *)
Lemma validate_sound secret now b key b' : backend_ok b ->
  validate secret now b = (Ok (Some key), b') ->
  exists stored, backend_grants secret now b stored /\ unused key = unused stored.
Proof.
  intros Hok. destruct b as [s|db|db]; cbn [backend_validate store_dispatch].
  - unfold backend_validate. cbn [store_dispatch]. rewrite validate_refines by done. unfold Spec.validate.
    destruct (Spec.holder _ _) as [[id k]|] eqn:Eh; cbn; [|done]. apply Spec.holder_sound in Eh as [Hk Hh].
    destruct (ak_enabled k) eqn:He; cbn; [|done]. destruct (key_expired now k) eqn:Hx; cbn; [done|].
    intros [= <- _]. exists k. split; [by eapply MemoryGrants|done].
  - unfold backend_validate. cbn [store_dispatch]. unfold pg_validate, sql_bind.
    destruct (update_where _ _ _ db) as [[rows|e] db1] eqn:E; cbn; [|done].
    apply update_where_ok in E as ->. intros Hv.
    destruct (head _) as [r'|] eqn:Ef; cbn in Hv; [|done]. injection Hv as <- _.
    apply head_filter_map in Ef as (r & Hr & Hp & ->).
    apply andb_true_iff in Hp as [[Hkey Hen]%andb_true_iff Hex].
    exists (pg_entry uuid_text r). split; [|done]. apply PostgresGrants; [done| |done|].
    + apply orb_true_iff in Hkey as [Hkey%bool_decide_eq_true|[Hkey%bool_decide_eq_true Hn]%andb_true_iff];
        [by left|right]. rewrite <- Hkey at 2. by apply negb_true_iff in Hn.
    + intros e He. rewrite He in Hex. by apply Z.ltb_lt.
  - unfold backend_validate. cbn [store_dispatch]. unfold sqlite_validate, sql_bind.
    destruct (update_where _ _ _ db) as [[rows|e] db1] eqn:E; cbn; [|done].
    apply update_where_ok in E as ->. intros Hv.
    destruct (head _) as [r'|] eqn:Ef; cbn in Hv; [|done]. injection Hv as <- _.
    apply head_filter_map in Ef as (r & Hr & Hp & ->).
    apply andb_true_iff in Hp as [[Hkey Hen%Z.eqb_eq]%andb_true_iff Hex].
    exists (sqlite_entry r). split; [|done]. apply SqliteGrants; [done| |done| |].
    + apply orb_true_iff in Hkey as [Hkey%bool_decide_eq_true|[Hkey%bool_decide_eq_true Hn]%andb_true_iff];
        [by left|right]. split; [done|]. rewrite <- Hkey. apply negb_true_iff in Hn.
      destruct (starts_with KEY_HASH_PREFIX (sr_key r)) eqn:Es; [|done].
      by rewrite (sqlite_hashed_prefix _ Es) in Hn.
    + intros e He. by rewrite He in Hex.
    + intros e He Hnow Ht. rewrite He, rfc3339_order in Hex by done. by apply Z.ltb_lt.
Qed.

(** *** What validation leaves *)

(** A row but for the record of its use, and with the key as [key]. *)
Definition sqlite_unused (key : string) (r : SqliteApiKeyRow) : SqliteApiKeyRow :=
  {| sr_id := sr_id r; sr_name := sr_name r; sr_key := key; sr_scopes := sr_scopes r;
     sr_enabled := sr_enabled r; sr_created_at := sr_created_at r; sr_last_used_at := None;
     sr_expires_at := sr_expires_at r; sr_usage_count := 0; sr_metadata := sr_metadata r;
     sr_org_id := sr_org_id r; sr_team_id := sr_team_id r; sr_user_id := sr_user_id r;
     sr_models := sr_models r; sr_rate_limit_override := sr_rate_limit_override r;
     sr_token_budget := sr_token_budget r |}.

Definition pg_unused (key : string) (r : ApiKeyRow) : ApiKeyRow :=
  {| pr_id := pr_id r; pr_name := pr_name r; pr_key := key; pr_scopes := pr_scopes r;
     pr_enabled := pr_enabled r; pr_created_at := pr_created_at r; pr_last_used_at := None;
     pr_expires_at := pr_expires_at r; pr_usage_count := 0; pr_metadata := pr_metadata r;
     pr_org_id := pr_org_id r; pr_team_id := pr_team_id r; pr_user_id := pr_user_id r;
     pr_models := pr_models r; pr_rate_limit_override := pr_rate_limit_override r;
     pr_token_budget := pr_token_budget r |}.

(** The same key, or the hash of one stored in plain text. *)
Definition same_key (k k' : string) : Prop := k' = k \/ k' = hash k /\ starts_with KEY_HASH_PREFIX k = false.

Definition same_keys (s s' : ApiKeyStore) : Prop :=
  ks_keys_by_key s' = ks_keys_by_key s /\
  dom (ks_keys s') = dom (ks_keys s) /\
  forall id k k', ks_keys s !! id = Some k -> ks_keys s' !! id = Some k' ->
    ak_key k' = ak_key k /\ unused k' = unused k.

(** The same keys, but for the record of their use. *)
Definition same_backend (b b' : StoreBackend) : Prop :=
  match b, b' with
  | Memory s, Memory s' => same_keys s s'
  | Postgres db, Postgres db' =>
      Forall2 (fun r r' => same_key (pr_key r) (pr_key r') /\ pg_unused "" r' = pg_unused "" r)
        (db_table db) (db_table db')
  | Sqlite db, Sqlite db' =>
      Forall2 (fun r r' => same_key (sr_key r) (sr_key r') /\ sqlite_unused "" r' = sqlite_unused "" r)
        (db_table db) (db_table db')
  | _, _ => False
  end.

Lemma same_backend_refl b : same_backend b b.
Proof.
  destruct b as [s|db|db]; cbn.
  - split_and!; try done. by intros id k k' -> [= ->].
  - induction (db_table db); constructor; [split; [by left|done]|done].
  - induction (db_table db); constructor; [split; [by left|done]|done].
Qed.

Lemma bind_ret_state {T A B} (m : Sql T A) (g : A -> B) db :
  (sql_bind m (fun x => sql_ret (g x)) db).2 = (m db).2.
Proof. unfold sql_bind, sql_ret. by destruct (m db) as [[] ?]. Qed.

(** Validation, answered or not, changes no key but for the record of its use. *)
Lemma validate_keeps secret now b : same_backend b (validate secret now b).2.
Proof.
  destruct b as [s|db|db]; unfold backend_validate; cbn [store_dispatch].
  - unfold store_validate. pose proof (same_backend_refl (Memory s)) as Hr. cbn in Hr.
    destruct (ks_keys_by_key s !! _) as [id|]; [|done].
    destruct (ks_keys s !! id) as [e|] eqn:Ee; [|done].
    destruct (negb (ak_enabled e)); [done|]. destruct (key_expired now e); [done|].
    cbn [snd same_backend]. unfold put_entry, same_keys. cbn [ks_keys ks_keys_by_key].
    split; [done|]. split; [rewrite dom_insert_L; apply elem_of_dom_2 in Ee; set_solver|].
    intros i k k' Hk Hk'. destruct (decide (id = i)) as [<-|Hne].
    + rewrite lookup_insert_eq in Hk'. rewrite Ee in Hk. by injection Hk as <-; injection Hk' as <-.
    + rewrite lookup_insert_ne in Hk' by done. rewrite Hk in Hk'. by injection Hk' as <-.
  - destruct (pg_validate _ _ _ _ db) as [r db'] eqn:E. cbn.
    assert (db' = (pg_validate sha256_hex uuid_text secret now db).2) as -> by (by rewrite E).
    unfold pg_validate. rewrite bind_ret_state. apply update_where_related; [by split; [left|]|].
    intros r' [[Hk _]%andb_true_iff _]%andb_true_iff. split; [|done]. cbn [pr_key].
    apply orb_true_iff in Hk as [Hk%bool_decide_eq_true|[Hk%bool_decide_eq_true Hn]%andb_true_iff];
      [left; by rewrite Hk|right; rewrite Hk in *; by apply negb_true_iff in Hn].
  - destruct (sqlite_validate _ _ _ db) as [r db'] eqn:E. cbn.
    assert (db' = (sqlite_validate sha256_hex secret now db).2) as -> by (by rewrite E).
    unfold sqlite_validate. rewrite bind_ret_state. apply update_where_related; [by split; [left|]|].
    intros r' [[Hk _]%andb_true_iff _]%andb_true_iff. split; [|done]. cbn [sr_key].
    apply orb_true_iff in Hk as [Hk%bool_decide_eq_true|[Hk%bool_decide_eq_true Hn]%andb_true_iff];
      [left; by rewrite Hk|right]. rewrite Hk in *. split; [done|]. apply negb_true_iff in Hn.
    destruct (starts_with KEY_HASH_PREFIX secret) eqn:Es; [|done]. by rewrite (sqlite_hashed_prefix _ Es) in Hn.
Qed.
End AnyBackend.

(** ** Where the backends differ, and keys stored before hashing *)
Section Differences.
Context `{TimeText, JsonText}.
Context (sha256_hex : string -> string) (uuid_text : Z -> string).

Local Abbreviation hash := (hash_api_key sha256_hex).

(** At the very instant of expiry the in-memory store still accepts a key
    that both SQL stores reject. *)
Theorem expiry_instant_backends_differ key e s id k sqlite postgres :
  store_ok s -> ks_keys s !! id = Some k -> ak_key k = hash key -> ak_enabled k = true ->
  ak_expires_at k = Some e -> time_ok e ->
  sqlite_sim sqlite (ks_keys s) -> pg_sim uuid_text postgres (ks_keys s) ->
  is_Some (fst (store_validate sha256_hex key e s)) /\
  (exists db, sqlite_validate sha256_hex key e (steady sqlite) = (Ok None, db)) /\
  (exists db, pg_validate sha256_hex uuid_text key e (steady postgres) = (Ok None, db)).
Proof.
  intros Hok Hk Hh He Hx Ht Hs Hp.
  assert (forall expired, fst (Spec.validate sha256_hex expired key e (ks_keys s)) =
    if negb (expired e k) then Some (mask_stored (key_used e k)) else None) as Hv.
  { intros expired. unfold Spec.validate.
    rewrite (proj2 (Spec.holder_spec _ _ id k (proj1 Hok))) by done. rewrite He. cbn.
    by destruct (expired e k). }
  split; [|split].
  - rewrite (validate_refines sha256_hex) by done. cbn. rewrite Hv. unfold key_expired.
    by rewrite Hx, Z.ltb_irrefl.
  - destruct (sqlite_validate_sim sha256_hex uuid_text key e sqlite _ Hs Ht) as (rows & Hr & _).
    exists (steady rows). rewrite Hr, Hv. unfold key_expired_sql. by rewrite Hx, Z.leb_refl.
  - destruct (pg_validate_sim sha256_hex uuid_text key e postgres _ Hp) as (rows & Hr & _).
    exists (steady rows). rewrite Hr, Hv. unfold key_expired_sql. by rewrite Hx, Z.leb_refl.
Qed.

(** A Postgres row that a presented secret selects. *)
Definition pg_row_live (now : Z) (r : ApiKeyRow) : bool :=
  pr_enabled r && match pr_expires_at r with None => true | Some e => now <? e end.

(** What [validate] does with a table of one row. *)
Lemma pg_validate_one key now r :
  let accepted := (bool_decide (pr_key r = hash key) ||
     bool_decide (pr_key r = key) && negb (starts_with KEY_HASH_PREFIX (pr_key r))) && pg_row_live now r in
  exists r', pr_key r' = hash key /\ pg_row_live now r' = pg_row_live now r /\
  pg_validate sha256_hex uuid_text key now (steady [r]) =
  if accepted then (Ok (Some (pg_row_into uuid_text r')), steady [r']) else (Ok None, steady [r]).
Proof.
  eexists (Build_ApiKeyRow (pr_id r) (pr_name r) (hash key) (pr_scopes r) (pr_enabled r)
    (pr_created_at r) (Some now) (pr_expires_at r) (pr_usage_count r + 1) (pr_metadata r)
    (pr_org_id r) (pr_team_id r) (pr_user_id r) (pr_models r) (pr_rate_limit_override r)
    (pr_token_budget r)). split; [done|]. split; [done|].
  unfold pg_validate. erewrite sql_bind_ok; [|apply update_where_one].
  - unfold pg_row_live. rewrite <- andb_assoc. by destruct (_ && _).
  - unfold pg_valid. cbn [fmap list_fmap]. by rewrite !bool_decide_true by apply NoDup_singleton.
Qed.

(** A row stored before hashing is accepted for its plaintext secret, and
    holds the hash from then on: the same secret is accepted again, and the stored
    hash itself, presented as a secret, is not. *)
Theorem legacy_key_upgraded key now r :
  starts_with KEY_HASH_PREFIX key = false -> pr_key r = key -> pg_row_live now r = true ->
  hash (hash key) <> hash key ->
  exists r', pr_key r' = hash key /\
    pg_validate sha256_hex uuid_text key now (steady [r]) =
      (Ok (Some (pg_row_into uuid_text r')), steady [r']) /\
    (exists k db, pg_validate sha256_hex uuid_text key now (steady [r']) = (Ok (Some k), db)) /\
    pg_validate sha256_hex uuid_text (hash key) now (steady [r']) = (Ok None, steady [r']).
Proof.
  intros Hpre Hk Hlive Hne. destruct (pg_validate_one key now r) as (r' & Hk' & Hl' & Hv).
  exists r'. split; [done|]. cbv zeta in Hv.
  rewrite Hk, (bool_decide_true (key = key)), Hpre, orb_true_r, Hlive in Hv by done.
  split; [exact Hv|]. rewrite Hlive in Hl'. split.
  - destruct (pg_validate_one key now r') as (r2 & _ & _ & ->). cbv zeta.
    rewrite Hk', (bool_decide_true (hash key = hash key)), Hl' by done. by do 2 eexists.
  - destruct (pg_validate_one (hash key) now r') as (r2 & _ & _ & ->). cbv zeta.
    rewrite Hk', (bool_decide_false (hash key = hash (hash key))) by congruence.
    rewrite (hash_prefixed sha256_hex). cbn [negb]. by rewrite andb_false_r.
Qed.
End Differences.

(** ** The theorems at concrete inputs *)
Module RefineDemo.

Import SqlDemo.

(** Documents written as the bits of an encoding. *)
Definition print (v : Value) : string :=
  match strings_from_value v, override_from_value v with
  | Some l, _ => "s" +:+ bits (encode l)
  | _, Some o => "o" +:+ bits (encode (ov_requests_per_second o, ov_burst_size o))
  | _, _ => ""
  end.

Definition parse (s : string) : option Value :=
  match strip_prefix "s" s, strip_prefix "o" s with
  | Some r, _ => strings_value <$> decode (unbits r)
  | _, Some r => (fun '(a, b) => override_value {| ov_requests_per_second := a; ov_burst_size := b |})
                   <$> decode (unbits r)
  | _, _ => None
  end.

Lemma print_strings l : parse (print (strings_value l)) = Some (strings_value l).
Proof.
  unfold print. rewrite strings_from_to. unfold parse. cbn [String.append].
  change (strip_prefix "s" _) with (Some (bits (encode l))).
  cbv beta iota. by rewrite unbits_bits, decode_encode.
Qed.

Lemma print_override o : parse (print (override_value o)) = Some (override_value o).
Proof.
  unfold print. rewrite override_from_to. change (strings_from_value _) with (@None (list string)).
  unfold parse. cbn [String.append].
  set (p := encode _). change (strip_prefix "s" _) with (@None string).
  change (strip_prefix "o" _) with (Some (bits p)). unfold p.
  cbv beta iota.
  rewrite unbits_bits, decode_encode. by destruct o.
Qed.

#[export] Instance json_text : JsonText :=
  {| json_print := print; json_parse := parse; json_round_strings := print_strings;
     json_round_override := print_override |}.

Definition sha (s : string) : string := s.

(** A key that expires at 0, and tables that hold it. *)
Definition request : CreateApiKeyRequest :=
  {| ck_name := "ci"; ck_scopes := ["admin"]; ck_expires_at := Some 0; ck_metadata := None;
     ck_org_id := None; ck_team_id := None; ck_user_id := None; ck_models := Some ["gpt-4o"];
     ck_rate_limit_override := None; ck_token_budget := None |}.

(** One that expires at 50. *)
Definition lasting : CreateApiKeyRequest :=
  {| ck_name := "ci"; ck_scopes := ["admin"]; ck_expires_at := Some 50; ck_metadata := None;
     ck_org_id := None; ck_team_id := None; ck_user_id := None; ck_models := Some ["gpt-4o"];
     ck_rate_limit_override := None; ck_token_budget := None |}.

Definition create : StoreOp := OpCreate 1 2 10 request.
Definition key1 : ApiKey := new_key (uuid 1) (hash_api_key sha (generate_api_key uuid 2)) 10 request.
Definition store1 : ApiKeyStore := snd (store_step sha uuid create key_store_new).

Lemma empty_represents {Row} (entry : Row -> ApiKey) : represents entry [] ∅.
Proof.
  split; [apply NoDup_nil_2|]. intros id k. rewrite lookup_empty. split; [done|].
  intros (r & Hr & _). by apply elem_of_nil in Hr.
Qed.

Lemma empty_well_formed : Spec.well_formed ∅.
Proof. split; intros *; by rewrite lookup_empty. Qed.

Lemma create_fresh : Spec.draws_fresh sha uuid create ∅.
Proof. split; [apply lookup_empty|]. intros id k. by rewrite lookup_empty. Qed.

Lemma empty_sqlite : sqlite_sim [] ∅.
Proof. split; [apply empty_represents|split; [apply empty_well_formed|constructor]]. Qed.

Lemma empty_pg : pg_sim uuid [] ∅.
Proof. split; [apply empty_represents|split; [apply empty_well_formed|constructor]]. Qed.

Lemma create_kept : op_kept create.
Proof. split; [by vm_compute|]. split; [intros ? [= <-]; by vm_compute|done]. Qed.

Lemma create_pg_kept : pg_op_kept create.
Proof. split; [done|by vm_compute]. Qed.

Lemma create_canonical : canonical uuid parse_uuid create.
Proof. done. Qed.

Lemma demo_store_ok : store_ok store1.
Proof. apply step_ok; [apply store_new_ok|exact create_fresh]. Qed.

Lemma demo_store_holds : ks_keys store1 !! uuid 1 = Some key1.
Proof. apply lookup_insert_eq. Qed.

Lemma tables : exists sqlite postgres,
  sqlite_sim sqlite (ks_keys store1) /\ pg_sim uuid postgres (ks_keys store1).
Proof.
  destruct (sqlite_create_sim sha uuid 1 2 10 request [] ∅ empty_sqlite create_kept create_fresh)
    as (sq & _ & Hs).
  destruct (pg_create_sim sha uuid 1 2 10 request [] ∅ empty_pg create_pg_kept create_fresh)
    as (pg & _ & Hp).
  exists sq, pg. by split.
Qed.

End RefineDemo.
#[local] Existing Instances SqlDemo.time_text RefineDemo.json_text.

Lemma sqlite_store_refines_witness :
  op_kept RefineDemo.create /\ exists rows',
    sqlite_step RefineDemo.sha SqlDemo.uuid RefineDemo.create (steady []) =
      (Ok (ReplyKey (with_key (generate_api_key SqlDemo.uuid 2) RefineDemo.key1)), steady rows') /\
    sqlite_sim rows' (<[SqlDemo.uuid 1 := RefineDemo.key1]> ∅).
Proof.
  split; [exact RefineDemo.create_kept|].
  exact (sqlite_store_refines RefineDemo.sha SqlDemo.uuid RefineDemo.create [] ∅
           RefineDemo.empty_sqlite RefineDemo.create_kept RefineDemo.create_fresh).
Defined.

Lemma postgres_store_refines_witness :
  canonical SqlDemo.uuid SqlDemo.parse_uuid RefineDemo.create /\ exists rows',
    pg_step RefineDemo.sha SqlDemo.uuid SqlDemo.parse_uuid RefineDemo.create (steady []) =
      (Ok (ReplyKey (with_key (generate_api_key SqlDemo.uuid 2) RefineDemo.key1)), steady rows') /\
    pg_sim SqlDemo.uuid rows' (<[SqlDemo.uuid 1 := RefineDemo.key1]> ∅).
Proof.
  split; [exact RefineDemo.create_canonical|].
  exact (postgres_store_refines RefineDemo.sha SqlDemo.uuid SqlDemo.parse_uuid
           SqlDemo.uuid_parses RefineDemo.create [] ∅ RefineDemo.empty_pg
           RefineDemo.create_pg_kept RefineDemo.create_fresh RefineDemo.create_canonical).
Defined.

Lemma expiry_instant_backends_differ_witness :
  exists sqlite postgres,
  is_Some (fst (store_validate RefineDemo.sha (generate_api_key SqlDemo.uuid 2) 0 RefineDemo.store1)) /\
  (exists db, sqlite_validate RefineDemo.sha (generate_api_key SqlDemo.uuid 2) 0 (steady sqlite) =
     (Ok None, db)) /\
  (exists db, pg_validate RefineDemo.sha SqlDemo.uuid (generate_api_key SqlDemo.uuid 2) 0
     (steady postgres) = (Ok None, db)).
Proof.
  destruct RefineDemo.tables as (sq & pg & Hs & Hp). exists sq, pg.
  apply (expiry_instant_backends_differ RefineDemo.sha SqlDemo.uuid _ 0 RefineDemo.store1
           (SqlDemo.uuid 1) RefineDemo.key1 sq pg).
  - exact RefineDemo.demo_store_ok.
  - exact RefineDemo.demo_store_holds.
  - reflexivity.
  - reflexivity.
  - reflexivity.
  - split; [discriminate|reflexivity].
  - exact Hs.
  - exact Hp.
Defined.

(** A row whose secret was stored as it is. *)
Definition demo_legacy_row : ApiKeyRow :=
  {| pr_id := 1; pr_name := "old"; pr_key := "sk-old"; pr_scopes := strings_value [];
     pr_enabled := true; pr_created_at := 0; pr_last_used_at := None; pr_expires_at := None;
     pr_usage_count := 0; pr_metadata := None; pr_org_id := None; pr_team_id := None;
     pr_user_id := None; pr_models := None; pr_rate_limit_override := None;
     pr_token_budget := None |}.

Lemma legacy_key_upgraded_witness :
  pr_key demo_legacy_row = "sk-old" /\
  exists r', pr_key r' = "sha256:sk-old" /\
    pg_validate (fun s => s) SqlDemo.uuid "sk-old" 10 (steady [demo_legacy_row]) =
      (Ok (Some (pg_row_into SqlDemo.uuid r')), steady [r']) /\
    (exists k db, pg_validate (fun s => s) SqlDemo.uuid "sk-old" 10 (steady [r']) = (Ok (Some k), db)) /\
    pg_validate (fun s => s) SqlDemo.uuid "sha256:sk-old" 10 (steady [r']) = (Ok None, steady [r']).
Proof.
  split; [reflexivity|].
  apply (legacy_key_upgraded (fun s => s) SqlDemo.uuid "sk-old" 10 demo_legacy_row
           eq_refl eq_refl eq_refl). discriminate.
Defined.
