(* ===== verification/ModelStore.v ===== *)
(** * Models and their endpoints: records, encryption, the two SQL stores
    (src/crates/himadri-admin/src/models.rs, crypto.rs, model_store.rs,
    provider_store.rs, postgres_provider_store.rs)

    A model is what clients name; its endpoints are the provider routes that
    serve it, each with its own key, encrypted at rest. Both stores implement the
    same trait over two tables. They are written apart, as in the source; the
    class of operations that [AdminHandlers.v] uses and the parity theorems are in
    that file and in ModelRefine.v.

    Arguments: AES-256-GCM, base64 and random nonces ([Cipher], whose laws are
    the ones decryption relies on), UUIDs, chrono's text, the order of ties. *)

From S2P Require Import Prelude Str Float Types Sse Sql.

(** ** Database rows *)

Record Model := {
  model_id : string;
  model_name : string;
  model_display_name : option string;
  model_enabled : bool;
  model_created_at : Z;
  model_updated_at : Z;
}.

Record ModelEndpoint := {
  ep_id : string;
  ep_model_id : string;
  ep_provider_type : string;
  ep_base_url : option string;
  ep_api_key : option string;
  ep_weight : f64;
  ep_enabled : bool;
  ep_created_at : Z;
  ep_updated_at : Z;
}.

#[export] Instance Model_eq_dec : EqDecision Model.
Proof. solve_decision. Defined.

Record CreateModelRequest := {
  cm_name : string; cm_display_name : option string; cm_enabled : bool;
}.

Record UpdateModelRequest := {
  um_name : option string; um_display_name : option (option string); um_enabled : option bool;
}.

Record CreateModelEndpointRequest := {
  ce_provider_type : string;
  ce_base_url : option string;
  ce_api_key : option string;
  ce_weight : f64;
  ce_enabled : bool;
}.

Record UpdateModelEndpointRequest := {
  ue_provider_type : option string;
  ue_base_url : option (option string);
  ue_api_key : option (option string);
  ue_weight : option f64;
  ue_enabled : option bool;
}.

Definition effective_routing_pair (r : UpdateModelEndpointRequest) (current : ModelEndpoint)
    : string * option string :=
  (default (ep_provider_type current) (ue_provider_type r),
   default (ep_base_url current) (ue_base_url r)).

(** [Utc::now()] is read once for each instant. *)
Definition model_new (id : string) (created updated : Z) (r : CreateModelRequest) : Model :=
  {| model_id := id; model_name := cm_name r; model_display_name := cm_display_name r;
     model_enabled := cm_enabled r; model_created_at := created; model_updated_at := updated |}.

Definition endpoint_new (id model_id : string) (created updated : Z)
    (r : CreateModelEndpointRequest) : ModelEndpoint :=
  {| ep_id := id; ep_model_id := model_id; ep_provider_type := ce_provider_type r;
     ep_base_url := ce_base_url r; ep_api_key := ce_api_key r; ep_weight := ce_weight r;
     ep_enabled := ce_enabled r; ep_created_at := created; ep_updated_at := updated |}.

Definition with_endpoint_key (key : option string) (e : ModelEndpoint) : ModelEndpoint :=
  {| ep_id := ep_id e; ep_model_id := ep_model_id e; ep_provider_type := ep_provider_type e;
     ep_base_url := ep_base_url e; ep_api_key := key; ep_weight := ep_weight e;
     ep_enabled := ep_enabled e; ep_created_at := ep_created_at e; ep_updated_at := ep_updated_at e |}.

Definition with_request_key (key : option string) (r : CreateModelEndpointRequest)
    : CreateModelEndpointRequest :=
  {| ce_provider_type := ce_provider_type r; ce_base_url := ce_base_url r; ce_api_key := key;
     ce_weight := ce_weight r; ce_enabled := ce_enabled r |}.

(** ** Encryption at rest (crypto.rs) *)

Definition ENC_PREFIX : string := "enc:v1:".

Inductive CryptoError := InvalidKeyLength | InvalidBase64 (reason : string) | DecryptFailed.

(** The two libraries: a sealed text opens under its key and nonce, and base64
    reads back what it wrote. A nonce has twelve bytes. *)
Class Cipher := {
  b64_encode : string -> string;
  b64_decode : string -> result string string;
  aes_encrypt : string -> string -> string -> string;
  aes_decrypt : string -> string -> string -> option string;
  b64_round s : b64_decode (b64_encode s) = Ok s;
  aes_round key nonce s : String.length nonce = 12%nat ->
    aes_decrypt key nonce (aes_encrypt key nonce s) = Some s;
}.

Section Crypto.
Context `{Cipher}.

(** A key is its 32 bytes. *)
Definition cipher_from_base64 (encoded : string) : result string CryptoError :=
  match b64_decode (trim encoded) with
  | Err e => Err (InvalidBase64 e)
  | Ok bytes => if Nat.eqb (String.length bytes) 32 then Ok bytes else Err InvalidKeyLength
  end.

Definition cipher_from_env (env : string -> option string) : option string :=
  match env "PROVIDER_ENCRYPTION_KEY" with
  | None => None
  | Some raw => match cipher_from_base64 raw with Ok key => Some key | Err _ => None end
  end.

Definition cipher_encrypt (key nonce plaintext : string) : string :=
  ENC_PREFIX +:+ b64_encode (nonce +:+ aes_encrypt key nonce plaintext).

(** The last test is [String::from_utf8]. *)
Definition cipher_decrypt (key value : string) : result string CryptoError :=
  match strip_prefix ENC_PREFIX value with
  | None => Ok value
  | Some encoded =>
      match b64_decode encoded with
      | Err e => Err (InvalidBase64 e)
      | Ok combined =>
          if Nat.ltb (String.length combined) 12 then Err DecryptFailed
          else match aes_decrypt key (str_take 12 combined) (str_drop 12 combined) with
               | None => Err DecryptFailed
               | Some plaintext =>
                   if decide (valid_utf8 plaintext) then Ok plaintext else Err DecryptFailed
               end
      end
  end.

Definition encrypt_endpoint_api_key (cipher : option string) (nonce : string)
    (api_key : option string) : option string :=
  match cipher, api_key with
  | Some key, Some plaintext =>
      if str_is_empty plaintext then api_key else Some (cipher_encrypt key nonce plaintext)
  | _, other => other
  end.

Definition decrypt_endpoint (cipher : option string) (e : ModelEndpoint) : ModelEndpoint :=
  match cipher, ep_api_key e with
  | Some key, Some value =>
      match cipher_decrypt key value with
      | Ok plaintext => with_endpoint_key (Some plaintext) e
      | Err _ => with_endpoint_key None e
      end
  | _, _ => e
  end.

End Crypto.

(** ** The tables *)

Record ModelTables (M E : Type) := { mt_models : list M; mt_endpoints : list E }.
Arguments mt_models {M E} m.
Arguments mt_endpoints {M E} m.
Arguments Build_ModelTables {M E} _ _.

Definition on_models {M E A} : Sql (list M) A -> Sql (ModelTables M E) A :=
  zoom mt_models (fun ms t => {| mt_models := ms; mt_endpoints := mt_endpoints t |}).
Definition on_endpoints {M E A} : Sql (list E) A -> Sql (ModelTables M E) A :=
  zoom mt_endpoints (fun es t => {| mt_models := mt_models t; mt_endpoints := es |}).

(** The message of a refused deletion. *)
Definition model_in_use (m : Model) : string :=
  "Cannot delete model '" +:+ model_name m +:+ "' (id: " +:+ model_id m +:+
  "): model is enabled. Disable it first before deletion.".

(** A store's method: statements, and errors of its own. *)
Definition Admin (T A : Type) : Type := Db T -> result A AdminError * Db T.

Definition admin {T A} (m : Sql T A) : Admin T A := fun db =>
  let '(r, db) := m db in (map_err admin_error r, db).
Definition admin_ret {T A} (a : A) : Admin T A := fun db => (Ok a, db).
Definition admin_err {T A} (e : AdminError) : Admin T A := fun db => (Err e, db).
Definition admin_bind {T A B} (m : Admin T A) (k : A -> Admin T B) : Admin T B := fun db =>
  match m db with
  | (Ok a, db) => k a db
  | (Err e, db) => (Err e, db)
  end.
Notation "'let@' x ':=' m 'in' k" := (admin_bind m (fun x => k))
  (at level 10, x pattern, m at level 100, k at level 200) : himadri_scope.

(** ** SQLite (provider_store.rs) *)
Module SqliteModels.
Section Sqlite.
Context `{TimeText, Cipher}.
Context (uuid_text : Z -> string).
Context (order_by : forall Row, (Row -> Row -> bool) -> list Row -> list Row).

Record ModelRow := {
  mr_id : string; mr_name : string; mr_display_name : option string; mr_enabled : Z;
  mr_created_at : string; mr_updated_at : string;
}.

Record EndpointRow := {
  er_id : string; er_model_id : string; er_provider_type : string; er_base_url : option string;
  er_api_key : option string; er_weight : f64; er_enabled : Z;
  er_created_at : string; er_updated_at : string;
}.

Definition model_of (r : ModelRow) : Model :=
  {| model_id := mr_id r; model_name := mr_name r; model_display_name := mr_display_name r;
     model_enabled := negb (mr_enabled r =? 0);
     model_created_at := time_parse_or_default (mr_created_at r);
     model_updated_at := time_parse_or_default (mr_updated_at r) |}.

Definition endpoint_of (r : EndpointRow) : ModelEndpoint :=
  {| ep_id := er_id r; ep_model_id := er_model_id r; ep_provider_type := er_provider_type r;
     ep_base_url := er_base_url r; ep_api_key := er_api_key r; ep_weight := er_weight r;
     ep_enabled := negb (er_enabled r =? 0);
     ep_created_at := time_parse_or_default (er_created_at r);
     ep_updated_at := time_parse_or_default (er_updated_at r) |}.

Local Abbreviation Tables := (ModelTables ModelRow EndpointRow).

Definition int (b : bool) : Z := if b then 1 else 0.

Definition models_valid (rows : list ModelRow) : bool := bool_decide (NoDup (mr_id <$> rows)).
Definition endpoints_valid (rows : list EndpointRow) : bool := bool_decide (NoDup (er_id <$> rows)).

Definition model_is (id : string) (r : ModelRow) : bool := bool_decide (mr_id r = id).
Definition endpoint_is (id : string) (r : EndpointRow) : bool := bool_decide (er_id r = id).

(** *** Models *)

Definition model_create (u created updated : Z) (r : CreateModelRequest) : Admin Tables Model :=
  let model := model_new (uuid_text u) created updated r in
  let@ _ := admin (on_models (insert_row models_valid
    {| mr_id := model_id model; mr_name := model_name model;
       mr_display_name := model_display_name model; mr_enabled := int (model_enabled model);
       mr_created_at := to_rfc3339 (model_created_at model);
       mr_updated_at := to_rfc3339 (model_updated_at model) |})) in
  admin_ret model.

Definition model_get (id : string) : Admin Tables (option Model) :=
  let@ row := admin (on_models (fetch_optional (model_is id))) in
  admin_ret (model_of <$> row).

(** [ORDER BY name] *)
Definition model_list : Admin Tables (list Model) :=
  let@ rows := admin (on_models (fetch_all (fun _ => true))) in
  admin_ret (model_of <$> order_by _ (fun a b => String.ltb (mr_name a) (mr_name b)) rows).

Definition model_list_enabled : Admin Tables (list Model) :=
  let@ rows := admin (on_models (fetch_all (fun r => mr_enabled r =? 1))) in
  admin_ret (model_of <$> order_by _ (fun a b => String.ltb (mr_name a) (mr_name b)) rows).

Definition set_model (name : string) (display_name : option string) (enabled : bool) (now : Z)
    (r : ModelRow) : ModelRow :=
  {| mr_id := mr_id r; mr_name := name; mr_display_name := display_name;
     mr_enabled := int enabled; mr_created_at := mr_created_at r; mr_updated_at := to_rfc3339 now |}.

Definition set_model_enabled (enabled : bool) (now : Z) (r : ModelRow) : ModelRow :=
  {| mr_id := mr_id r; mr_name := mr_name r; mr_display_name := mr_display_name r;
     mr_enabled := int enabled; mr_created_at := mr_created_at r; mr_updated_at := to_rfc3339 now |}.

Definition model_update (id : string) (now : Z) (r : UpdateModelRequest)
    : Admin Tables (option Model) :=
  let@ found := model_get id in
  let@ current := admin (sql_found found) in
  let name := default (model_name current) (um_name r) in
  let display_name := default (model_display_name current) (um_display_name r) in
  let enabled := default (model_enabled current) (um_enabled r) in
  let@ _ := admin (on_models (update_where models_valid (model_is id)
                     (set_model name display_name enabled now))) in
  model_get id.

Definition model_delete (id : string) : Admin Tables bool :=
  let@ found := model_get id in
  match found with
  | None => admin_ret false
  | Some model =>
      if model_enabled model then admin_err (Conflict (model_in_use model))
      else
        let@ _ := admin (on_endpoints (delete_where (fun e => bool_decide (er_model_id e = id)))) in
        let@ n := admin (on_models (delete_where (model_is id))) in
        admin_ret (Nat.ltb 0 n)
  end.

Definition model_toggle (id : string) (enabled : bool) (now : Z) : Admin Tables (option Model) :=
  let@ _ := admin (on_models (update_where models_valid (model_is id)
                     (set_model_enabled enabled now))) in
  model_get id.

(** *** Endpoints; [cipher] is the store's key, the nonce is drawn by it. *)
Context (cipher : option string).

Definition endpoint_create (mid : string) (u created updated : Z) (nonce : string)
    (r : CreateModelEndpointRequest) : Admin Tables ModelEndpoint :=
  let@ model_exists := admin (on_models (fetch_optional (model_is mid))) in
  match model_exists with
  | None => admin_err NotFound
  | Some _ =>
      let stored := encrypt_endpoint_api_key cipher nonce (ce_api_key r) in
      let e := endpoint_new (uuid_text u) mid created updated (with_request_key stored r) in
      let@ _ := admin (on_endpoints (insert_row endpoints_valid
        {| er_id := ep_id e; er_model_id := ep_model_id e; er_provider_type := ep_provider_type e;
           er_base_url := ep_base_url e; er_api_key := ep_api_key e; er_weight := ep_weight e;
           er_enabled := int (ep_enabled e); er_created_at := to_rfc3339 (ep_created_at e);
           er_updated_at := to_rfc3339 (ep_updated_at e) |})) in
      admin_ret (with_endpoint_key (ce_api_key r) e)
  end.

Definition endpoint_get (id : string) : Admin Tables (option ModelEndpoint) :=
  let@ row := admin (on_endpoints (fetch_optional (endpoint_is id))) in
  admin_ret ((fun r => decrypt_endpoint cipher (endpoint_of r)) <$> row).

(** [ORDER BY created_at] *)
Definition endpoint_list : Admin Tables (list ModelEndpoint) :=
  let@ rows := admin (on_endpoints (fetch_all (fun _ => true))) in
  admin_ret ((fun r => decrypt_endpoint cipher (endpoint_of r)) <$>
    order_by _ (fun a b => String.ltb (er_created_at a) (er_created_at b)) rows).

Definition endpoint_list_by_model (mid : string) : Admin Tables (list ModelEndpoint) :=
  let@ rows := admin (on_endpoints (fetch_all (fun r => bool_decide (er_model_id r = mid)))) in
  admin_ret ((fun r => decrypt_endpoint cipher (endpoint_of r)) <$>
    order_by _ (fun a b => String.ltb (er_created_at a) (er_created_at b)) rows).

(** The columns an update sets; the key's only when the request has one. *)
Definition set_endpoint (pair : string * option string) (key : option (option string)) (weight : f64)
    (enabled : bool) (now : Z) (r : EndpointRow) : EndpointRow :=
  {| er_id := er_id r; er_model_id := er_model_id r; er_provider_type := fst pair;
     er_base_url := snd pair; er_api_key := default (er_api_key r) key; er_weight := weight;
     er_enabled := int enabled; er_created_at := er_created_at r; er_updated_at := to_rfc3339 now |}.

Definition set_endpoint_enabled (enabled : bool) (now : Z) (r : EndpointRow) : EndpointRow :=
  {| er_id := er_id r; er_model_id := er_model_id r; er_provider_type := er_provider_type r;
     er_base_url := er_base_url r; er_api_key := er_api_key r; er_weight := er_weight r;
     er_enabled := int enabled; er_created_at := er_created_at r; er_updated_at := to_rfc3339 now |}.

Definition endpoint_update (id : string) (now : Z) (nonce : string) (r : UpdateModelEndpointRequest)
    : Admin Tables (option ModelEndpoint) :=
  let@ found := endpoint_get id in
  let@ current := admin (sql_found found) in
  let pair := effective_routing_pair r current in
  let weight := default (ep_weight current) (ue_weight r) in
  let enabled := default (ep_enabled current) (ue_enabled r) in
  let key :=
    match ue_api_key r with
    | Some new_key => Some (encrypt_endpoint_api_key cipher nonce new_key)
    | None => None
    end in
  let@ _ := admin (on_endpoints (update_where endpoints_valid (endpoint_is id)
                     (set_endpoint pair key weight enabled now))) in
  endpoint_get id.

Definition endpoint_delete (id : string) : Admin Tables bool :=
  let@ n := admin (on_endpoints (delete_where (endpoint_is id))) in admin_ret (Nat.ltb 0 n).

Definition endpoint_toggle (id : string) (enabled : bool) (now : Z)
    : Admin Tables (option ModelEndpoint) :=
  let@ _ := admin (on_endpoints (update_where endpoints_valid (endpoint_is id)
                     (set_endpoint_enabled enabled now))) in
  endpoint_get id.

End Sqlite.
End SqliteModels.

(** ** Postgres (postgres_provider_store.rs)

    Three columns are [VARCHAR(255)] and no text may hold a NUL (migrations/postgres,
    002_providers_models.sql and 004_model_endpoints.sql): a statement that binds another
    text is refused. Instants are in nanoseconds; a [TIMESTAMPTZ] keeps microseconds, as
    does the database's own clock, [NOW()]. *)
Module PgModels.
Section Postgres.
Context `{Cipher}.
Context (uuid_text : Z -> string) (parse_uuid : string -> option Z).
Context (order_by : forall Row, (Row -> Row -> bool) -> list Row -> list Row).

Record ModelRow := {
  mr_id : Z; mr_name : string; mr_display_name : option string; mr_enabled : bool;
  mr_created_at : Z; mr_updated_at : Z;
}.

Record EndpointRow := {
  er_id : Z; er_model_id : Z; er_provider_type : string; er_base_url : option string;
  er_api_key : option string; er_weight : f64; er_enabled : bool;
  er_created_at : Z; er_updated_at : Z;
}.

Definition model_of (r : ModelRow) : Model :=
  {| model_id := uuid_text (mr_id r); model_name := mr_name r;
     model_display_name := mr_display_name r; model_enabled := mr_enabled r;
     model_created_at := mr_created_at r; model_updated_at := mr_updated_at r |}.

Definition endpoint_of (r : EndpointRow) : ModelEndpoint :=
  {| ep_id := uuid_text (er_id r); ep_model_id := uuid_text (er_model_id r);
     ep_provider_type := er_provider_type r; ep_base_url := er_base_url r;
     ep_api_key := er_api_key r; ep_weight := er_weight r; ep_enabled := er_enabled r;
     ep_created_at := er_created_at r; ep_updated_at := er_updated_at r |}.

Local Abbreviation Tables := (ModelTables ModelRow EndpointRow).

Definition models_valid (rows : list ModelRow) : bool := bool_decide (NoDup (mr_id <$> rows)).
Definition endpoints_valid (rows : list EndpointRow) : bool := bool_decide (NoDup (er_id <$> rows)).

(** The columns of migrations/postgres: [models.name], [models.display_name] and
    [model_endpoints.provider_type] are [VARCHAR(255)], [base_url] and [api_key] are
    [TEXT]. *)
Definition model_fits (name : string) (display_name : option string) : bool :=
  text_fits 255 name && optional_text_fits 255 display_name.

Definition optional_fits (o : option string) : bool := match o with Some s => no_nul s | None => true end.

Definition endpoint_fits (pair : string * option string) : bool :=
  text_fits 255 pair.1 && optional_fits pair.2.

Definition model_is (u : Z) (r : ModelRow) : bool := mr_id r =? u.
Definition endpoint_is (u : Z) (r : EndpointRow) : bool := er_id r =? u.

Definition model_create (u now : Z) (r : CreateModelRequest) : Admin Tables Model :=
  let@ _ := admin (on_models (binding (model_fits (cm_name r) (cm_display_name r)) (insert_row models_valid
    {| mr_id := u; mr_name := cm_name r; mr_display_name := cm_display_name r;
       mr_enabled := cm_enabled r; mr_created_at := pg_micros now; mr_updated_at := pg_micros now |}))) in
  admin_ret (model_new (uuid_text u) now now r).

Definition model_get (id : string) : Admin Tables (option Model) :=
  match parse_uuid id with
  | None => admin_ret None
  | Some u =>
      let@ row := admin (on_models (fetch_optional (model_is u))) in
      admin_ret (model_of <$> row)
  end.

Definition model_list : Admin Tables (list Model) :=
  let@ rows := admin (on_models (fetch_all (fun _ => true))) in
  admin_ret (model_of <$> order_by _ (fun a b => String.ltb (mr_name a) (mr_name b)) rows).

Definition model_list_enabled : Admin Tables (list Model) :=
  let@ rows := admin (on_models (fetch_all (fun r => mr_enabled r))) in
  admin_ret (model_of <$> order_by _ (fun a b => String.ltb (mr_name a) (mr_name b)) rows).

Definition set_model (name : string) (display_name : option string) (enabled : bool) (now : Z)
    (r : ModelRow) : ModelRow :=
  {| mr_id := mr_id r; mr_name := name; mr_display_name := display_name; mr_enabled := enabled;
     mr_created_at := mr_created_at r; mr_updated_at := pg_micros now |}.

(** [Uuid::parse_str(id).map_err(|_| sqlx::Error::RowNotFound)?] *)
Definition uuid_or_not_found (id : string) : Admin Tables Z := admin (sql_found (parse_uuid id)).

Definition model_update (id : string) (now : Z) (r : UpdateModelRequest)
    : Admin Tables (option Model) :=
  let@ found := model_get id in
  let@ current := admin (sql_found found) in
  let@ u := uuid_or_not_found id in
  let name := default (model_name current) (um_name r) in
  let display_name := default (model_display_name current) (um_display_name r) in
  let enabled := default (model_enabled current) (um_enabled r) in
  let@ _ := admin (on_models (binding (model_fits name display_name) (update_where models_valid (model_is u)
                     (set_model name display_name enabled now)))) in
  model_get id.

(** [DELETE FROM models WHERE id = $1]; the schema deletes the endpoints that
    reference the model with it. *)
Definition delete_cascade (u : Z) : Sql Tables nat :=
  statement (fun t =>
    Ok (length (filter (fun r => model_is u r) (mt_models t)),
        {| mt_models := filter (fun r => ~ model_is u r) (mt_models t);
           mt_endpoints := filter (fun e => er_model_id e <> u) (mt_endpoints t) |})).

Definition model_delete (id : string) : Admin Tables bool :=
  match parse_uuid id with
  | None => admin_ret false
  | Some u =>
      let@ found := model_get id in
      match found with
      | None => admin_ret false
      | Some model =>
          if model_enabled model then admin_err (Conflict (model_in_use model))
          else let@ n := admin (delete_cascade u) in admin_ret (Nat.ltb 0 n)
      end
  end.

Definition model_toggle (id : string) (enabled : bool) (now : Z) : Admin Tables (option Model) :=
  match parse_uuid id with
  | None => admin_ret None
  | Some u =>
      let@ _ := admin (on_models (update_where models_valid (model_is u) (fun r =>
        {| mr_id := mr_id r; mr_name := mr_name r; mr_display_name := mr_display_name r;
           mr_enabled := enabled; mr_created_at := mr_created_at r; mr_updated_at := pg_micros now |}))) in
      model_get id
  end.

Context (cipher : option string).

Definition endpoint_create (mid : string) (u now : Z) (nonce : string)
    (r : CreateModelEndpointRequest) : Admin Tables ModelEndpoint :=
  match parse_uuid mid with
  | None => admin_err NotFound
  | Some model_uuid =>
      let@ model_exists := admin (on_models (fetch_optional (model_is model_uuid))) in
      match model_exists with
      | None => admin_err NotFound
      | Some _ =>
          let stored := encrypt_endpoint_api_key cipher nonce (ce_api_key r) in
          let fits := endpoint_fits (ce_provider_type r, ce_base_url r) && optional_fits stored in
          let@ _ := admin (on_endpoints (binding fits (insert_row endpoints_valid
            {| er_id := u; er_model_id := model_uuid; er_provider_type := ce_provider_type r;
               er_base_url := ce_base_url r; er_api_key := stored; er_weight := ce_weight r;
               er_enabled := ce_enabled r; er_created_at := pg_micros now; er_updated_at := pg_micros now |}))) in
          admin_ret (endpoint_new (uuid_text u) mid now now r)
      end
  end.

Definition endpoint_get (id : string) : Admin Tables (option ModelEndpoint) :=
  match parse_uuid id with
  | None => admin_ret None
  | Some u =>
      let@ row := admin (on_endpoints (fetch_optional (endpoint_is u))) in
      admin_ret ((fun r => decrypt_endpoint cipher (endpoint_of r)) <$> row)
  end.

Definition endpoint_list : Admin Tables (list ModelEndpoint) :=
  let@ rows := admin (on_endpoints (fetch_all (fun _ => true))) in
  admin_ret ((fun r => decrypt_endpoint cipher (endpoint_of r)) <$>
    order_by _ (fun a b => er_created_at a <? er_created_at b) rows).

Definition endpoint_list_by_model (mid : string) : Admin Tables (list ModelEndpoint) :=
  match parse_uuid mid with
  | None => admin_ret []
  | Some model_uuid =>
      let@ rows := admin (on_endpoints (fetch_all (fun r => er_model_id r =? model_uuid))) in
      admin_ret ((fun r => decrypt_endpoint cipher (endpoint_of r)) <$>
        order_by _ (fun a b => er_created_at a <? er_created_at b) rows)
  end.

Definition set_endpoint (pair : string * option string) (key : option (option string)) (weight : f64)
    (enabled : bool) (now : Z) (r : EndpointRow) : EndpointRow :=
  {| er_id := er_id r; er_model_id := er_model_id r; er_provider_type := fst pair;
     er_base_url := snd pair; er_api_key := default (er_api_key r) key; er_weight := weight;
     er_enabled := enabled; er_created_at := er_created_at r; er_updated_at := pg_micros now |}.

Definition endpoint_update (id : string) (now : Z) (nonce : string) (r : UpdateModelEndpointRequest)
    : Admin Tables (option ModelEndpoint) :=
  let@ found := endpoint_get id in
  let@ current := admin (sql_found found) in
  let@ u := uuid_or_not_found id in
  let pair := effective_routing_pair r current in
  let weight := default (ep_weight current) (ue_weight r) in
  let enabled := default (ep_enabled current) (ue_enabled r) in
  let key :=
    match ue_api_key r with
    | Some new_key => Some (encrypt_endpoint_api_key cipher nonce new_key)
    | None => None
    end in
  let fits := endpoint_fits pair && match key with Some stored => optional_fits stored | None => true end in
  let@ _ := admin (on_endpoints (binding fits (update_where endpoints_valid (endpoint_is u)
                     (set_endpoint pair key weight enabled now)))) in
  endpoint_get id.

Definition endpoint_delete (id : string) : Admin Tables bool :=
  match parse_uuid id with
  | None => admin_ret false
  | Some u => let@ n := admin (on_endpoints (delete_where (endpoint_is u))) in admin_ret (Nat.ltb 0 n)
  end.

Definition endpoint_toggle (id : string) (enabled : bool) (now : Z)
    : Admin Tables (option ModelEndpoint) :=
  match parse_uuid id with
  | None => admin_ret None
  | Some u =>
      let@ _ := admin (on_endpoints (update_where endpoints_valid (endpoint_is u) (fun r =>
        {| er_id := er_id r; er_model_id := er_model_id r; er_provider_type := er_provider_type r;
           er_base_url := er_base_url r; er_api_key := er_api_key r; er_weight := er_weight r;
           er_enabled := enabled; er_created_at := er_created_at r; er_updated_at := pg_micros now |}))) in
      endpoint_get id
  end.

End Postgres.
End PgModels.
