(* ===== verification/ModelRefine.v ===== *)
(** * The two model stores behave alike
    (src/crates/himadri-admin/src/provider_store.rs, postgres_provider_store.rs,
    and the contract store_parity_tests.rs states)

    [Module Contract] is what a method does to two maps, models and endpoints by
    identifier. On a connection that does not fail each method of either store
    does that to the tables that represent the maps, Postgres with every instant cut
    to the microsecond and as long as the texts fit its columns, so the two stores
    give the same answers, errors and malformed identifiers included. What is
    stored for a key opens again to the key. The two part on a text that does not
    fit and on a deletion of the SQLite store that is cut short. *)

From S2P Require Import Prelude Str Float Types Sse Sql ModelStore.

(** ** Keys at rest *)
Section Keys.
Context `{Cipher}.

Lemma cipher_round key nonce s : String.length nonce = 12%nat -> valid_utf8 s ->
  cipher_decrypt key (cipher_encrypt key nonce s) = Ok s.
Proof.
  intros Hn Hv. unfold cipher_decrypt, cipher_encrypt. rewrite strip_prefix_app, b64_round.
  rewrite str_length_app, Hn. cbn [Nat.add Nat.ltb Nat.leb].
  rewrite <- Hn, str_take_app, str_drop_app, aes_round by done. by rewrite decide_True.
Qed.

(** Whatever key an endpoint is stored with, with or without encryption,
    reading the endpoint gives it back. *)
Theorem endpoint_key_round_trip cipher nonce key e :
  String.length nonce = 12%nat -> valid_utf8 key ->
  starts_with ENC_PREFIX key = false ->
  decrypt_endpoint cipher
    (with_endpoint_key (encrypt_endpoint_api_key cipher nonce (Some key)) e) =
  with_endpoint_key (Some key) e.
Proof.
  intros Hn Hv Hp. unfold encrypt_endpoint_api_key, decrypt_endpoint.
  destruct cipher as [k|]; [|done].
  destruct (str_is_empty key) eqn:E; cbn [with_endpoint_key ep_api_key].
  - unfold cipher_decrypt, strip_prefix. by rewrite Hp.
  - by rewrite cipher_round.
Qed.

(** Only the key of an endpoint is decrypted. *)
Lemma decrypt_id cipher e : ep_id (decrypt_endpoint cipher e) = ep_id e.
Proof.
  unfold decrypt_endpoint. destruct cipher, (ep_api_key e); try done.
  by destruct (cipher_decrypt _ _).
Qed.

Lemma decrypt_fields cipher e :
  ep_provider_type (decrypt_endpoint cipher e) = ep_provider_type e /\
  ep_base_url (decrypt_endpoint cipher e) = ep_base_url e /\
  ep_weight (decrypt_endpoint cipher e) = ep_weight e /\
  ep_enabled (decrypt_endpoint cipher e) = ep_enabled e.
Proof.
  unfold decrypt_endpoint. destruct cipher, (ep_api_key e); try done.
  by destruct (cipher_decrypt _ _).
Qed.
End Keys.

(** ** Operations as data *)

Inductive ModelOp :=
  | MCreate (u now : Z) (r : CreateModelRequest)
  | MGet (id : string)
  | MUpdate (id : string) (now : Z) (r : UpdateModelRequest)
  | MDelete (id : string)
  | MToggle (id : string) (enabled : bool) (now : Z)
  | ECreate (mid : string) (u now : Z) (nonce : string) (r : CreateModelEndpointRequest)
  | EGet (id : string)
  | EUpdate (id : string) (now : Z) (nonce : string) (r : UpdateModelEndpointRequest)
  | EDelete (id : string)
  | EToggle (id : string) (enabled : bool) (now : Z).

Inductive ModelReply :=
  | ReplyModel (m : Model)
  | ReplyModelOption (m : option Model)
  | ReplyEndpoint (e : ModelEndpoint)
  | ReplyEndpointOption (e : option ModelEndpoint)
  | ReplyDeleted (b : bool).

(** ** What a model store promises *)
Module Contract.
Section Contract.
Context `{Cipher}.
Context (uuid_text : Z -> string) (cipher : option string).

Record Maps := { models : gmap string Model; endpoints : gmap string ModelEndpoint }.

Definition updated_model (r : UpdateModelRequest) (now : Z) (m : Model) : Model :=
  {| model_id := model_id m; model_name := default (model_name m) (um_name r);
     model_display_name := default (model_display_name m) (um_display_name r);
     model_enabled := default (model_enabled m) (um_enabled r);
     model_created_at := model_created_at m; model_updated_at := now |}.

Definition toggled_model (enabled : bool) (now : Z) (m : Model) : Model :=
  {| model_id := model_id m; model_name := model_name m; model_display_name := model_display_name m;
     model_enabled := enabled; model_created_at := model_created_at m; model_updated_at := now |}.

(** An update leaves the stored key alone unless it brings one. *)
Definition updated_endpoint (r : UpdateModelEndpointRequest) (nonce : string) (now : Z)
    (e : ModelEndpoint) : ModelEndpoint :=
  {| ep_id := ep_id e; ep_model_id := ep_model_id e;
     ep_provider_type := default (ep_provider_type e) (ue_provider_type r);
     ep_base_url := default (ep_base_url e) (ue_base_url r);
     ep_api_key :=
       match ue_api_key r with
       | Some key => encrypt_endpoint_api_key cipher nonce key
       | None => ep_api_key e
       end;
     ep_weight := default (ep_weight e) (ue_weight r);
     ep_enabled := default (ep_enabled e) (ue_enabled r);
     ep_created_at := ep_created_at e; ep_updated_at := now |}.

Definition toggled_endpoint (enabled : bool) (now : Z) (e : ModelEndpoint) : ModelEndpoint :=
  {| ep_id := ep_id e; ep_model_id := ep_model_id e; ep_provider_type := ep_provider_type e;
     ep_base_url := ep_base_url e; ep_api_key := ep_api_key e; ep_weight := ep_weight e;
     ep_enabled := enabled; ep_created_at := ep_created_at e; ep_updated_at := now |}.

Definition alter_models (f : Model -> Model) (id : string) (s : Maps) : Maps :=
  {| models := alter f id (models s); endpoints := endpoints s |}.
Definition alter_endpoints (f : ModelEndpoint -> ModelEndpoint) (id : string) (s : Maps) : Maps :=
  {| models := models s; endpoints := alter f id (endpoints s) |}.

Definition step (op : ModelOp) (s : Maps) : result ModelReply AdminError * Maps :=
  match op with
  | MCreate u now r =>
      let m := model_new (uuid_text u) now now r in
      (Ok (ReplyModel m), {| models := <[uuid_text u := m]> (models s); endpoints := endpoints s |})
  | MGet id => (Ok (ReplyModelOption (models s !! id)), s)
  | MUpdate id now r =>
      match models s !! id with
      | None => (Err NotFound, s)
      | Some m => (Ok (ReplyModelOption (Some (updated_model r now m))),
                   alter_models (updated_model r now) id s)
      end
  | MDelete id =>
      match models s !! id with
      | None => (Ok (ReplyDeleted false), s)
      | Some m =>
          if model_enabled m then (Err (Conflict (model_in_use m)), s)
          else (Ok (ReplyDeleted true),
                {| models := delete id (models s);
                   endpoints := filter (fun kv => ~ bool_decide (ep_model_id (snd kv) = id)) (endpoints s) |})
      end
  | MToggle id enabled now =>
      (Ok (ReplyModelOption (toggled_model enabled now <$> models s !! id)),
       alter_models (toggled_model enabled now) id s)
  | ECreate mid u now nonce r =>
      match models s !! mid with
      | None => (Err NotFound, s)
      | Some _ =>
          let e := endpoint_new (uuid_text u) mid now now r in
          let stored := encrypt_endpoint_api_key cipher nonce (ce_api_key r) in
          (Ok (ReplyEndpoint e),
           {| models := models s;
              endpoints := <[uuid_text u := with_endpoint_key stored e]> (endpoints s) |})
      end
  | EGet id => (Ok (ReplyEndpointOption (decrypt_endpoint cipher <$> endpoints s !! id)), s)
  | EUpdate id now nonce r =>
      match endpoints s !! id with
      | None => (Err NotFound, s)
      | Some e =>
          (Ok (ReplyEndpointOption (Some (decrypt_endpoint cipher (updated_endpoint r nonce now e)))),
           alter_endpoints (updated_endpoint r nonce now) id s)
      end
  | EDelete id =>
      (Ok (ReplyDeleted (bool_decide (is_Some (endpoints s !! id)))),
       {| models := models s; endpoints := delete id (endpoints s) |})
  | EToggle id enabled now =>
      (Ok (ReplyEndpointOption
             (decrypt_endpoint cipher <$> (toggled_endpoint enabled now <$> endpoints s !! id))),
       alter_endpoints (toggled_endpoint enabled now) id s)
  end.

(** New identifiers are new. *)
Definition draws_fresh (op : ModelOp) (s : Maps) : Prop :=
  match op with
  | MCreate u _ _ => models s !! uuid_text u = None
  | ECreate _ u _ _ _ => endpoints s !! uuid_text u = None
  | _ => True
  end.

End Contract.
End Contract.

(** ** Shared steps of the refinements *)

Lemma admin_bind_ok {T A B} (m : Admin T A) (k : A -> Admin T B) db a db' :
  m db = (Ok a, db') -> admin_bind m k db = k a db'.
Proof. unfold admin_bind. by intros ->. Qed.

Lemma admin_bind_err {T A B} (m : Admin T A) (k : A -> Admin T B) db e db' :
  m db = (Err e, db') -> admin_bind m k db = (Err e, db').
Proof. unfold admin_bind. by intros ->. Qed.

Lemma admin_ok {T A} (m : Sql T A) db a db' : m db = (Ok a, db') -> admin m db = (Ok a, db').
Proof. unfold admin. by intros ->. Qed.

(** A statement on one of the two tables. *)
Lemma on_models_ok {M E A} (m : Sql (list M) A) (t : ModelTables M E) a ms :
  m (steady (mt_models t)) = (Ok a, steady ms) ->
  admin (on_models m) (steady t) = (Ok a, steady {| mt_models := ms; mt_endpoints := mt_endpoints t |}).
Proof. intros Hm. apply admin_ok. exact (zoom_steady _ _ _ _ _ _ Hm). Qed.

Lemma on_endpoints_ok {M E A} (m : Sql (list E) A) (t : ModelTables M E) a es :
  m (steady (mt_endpoints t)) = (Ok a, steady es) ->
  admin (on_endpoints m) (steady t) = (Ok a, steady {| mt_models := mt_models t; mt_endpoints := es |}).
Proof. intros Hm. apply admin_ok. exact (zoom_steady _ _ _ _ _ _ Hm). Qed.

Lemma alter_absent {A} (f : A -> A) (m : gmap string A) id : m !! id = None -> alter f id m = m.
Proof. intros E. apply alter_id. by rewrite E. Qed.

(** Every instant an operation writes is one that text keeps. *)
Definition op_now (op : ModelOp) : option Z :=
  match op with
  | MCreate _ now _ | MUpdate _ now _ | MToggle _ _ now | ECreate _ _ now _ _
  | EUpdate _ now _ _ | EToggle _ _ now => Some now
  | _ => None
  end.

(** ** SQLite *)
Section Sqlite.
Context `{TimeText, Cipher}.
Context (uuid_text : Z -> string) (cipher : option string).

Import SqliteModels.
Local Abbreviation Tables := (ModelTables ModelRow EndpointRow).
Local Abbreviation Maps := Contract.Maps.

Record sqlite_sim (t : Tables) (s : Maps) : Prop := {
  sl_models : represents model_id model_of (mt_models t) (Contract.models s);
  sl_endpoints : represents ep_id endpoint_of (mt_endpoints t) (Contract.endpoints s);
}.

Definition wrap {A} (f : A -> ModelReply) (m : Admin Tables A) : Admin Tables ModelReply :=
  let@ a := m in admin_ret (f a).

Definition sqlite_step (op : ModelOp) : Admin Tables ModelReply :=
  match op with
  | MCreate u now r => wrap ReplyModel (model_create uuid_text u now now r)
  | MGet id => wrap ReplyModelOption (model_get id)
  | MUpdate id now r => wrap ReplyModelOption (model_update id now r)
  | MDelete id => wrap ReplyDeleted (model_delete id)
  | MToggle id enabled now => wrap ReplyModelOption (model_toggle id enabled now)
  | ECreate mid u now nonce r =>
      wrap ReplyEndpoint (endpoint_create uuid_text cipher mid u now now nonce r)
  | EGet id => wrap ReplyEndpointOption (endpoint_get cipher id)
  | EUpdate id now nonce r => wrap ReplyEndpointOption (endpoint_update cipher id now nonce r)
  | EDelete id => wrap ReplyDeleted (endpoint_delete id)
  | EToggle id enabled now => wrap ReplyEndpointOption (endpoint_toggle cipher id enabled now)
  end.

Lemma sl_model_is id rows : selects model_id model_of (model_is id) id rows.
Proof. intros r _. apply bool_decide_eq_true. Qed.

Lemma sl_endpoint_is id rows : selects ep_id endpoint_of (endpoint_is id) id rows.
Proof. intros r _. apply bool_decide_eq_true. Qed.

Lemma sl_model_get id t s : sqlite_sim t s ->
  model_get id (steady t) = (Ok (Contract.models s !! id), steady t).
Proof.
  intros [Hm _]. unfold model_get.
  erewrite admin_bind_ok by (apply on_models_ok, fetch_optional_steady).
  unfold admin_ret. rewrite (rep_find _ _ _ Hm _ _ (sl_model_is id _)). by destruct t.
Qed.

Lemma sl_endpoint_get id t s : sqlite_sim t s ->
  endpoint_get cipher id (steady t) =
  (Ok (decrypt_endpoint cipher <$> Contract.endpoints s !! id), steady t).
Proof.
  intros [_ He]. unfold endpoint_get.
  erewrite admin_bind_ok by (apply on_endpoints_ok, fetch_optional_steady).
  unfold admin_ret. rewrite <- (rep_find _ _ _ He _ _ (sl_endpoint_is id _)).
  destruct t. by destruct (head _).
Qed.

Lemma sl_set_model id f fr t s : sqlite_sim t s ->
  (forall r, r ∈ mt_models t -> mr_id r = id ->
    model_of (fr r) = f (model_of r) /\ mr_id (fr r) = mr_id r) ->
  exists a t', admin (on_models (update_where models_valid (model_is id) fr)) (steady t) =
      (Ok a, steady t') /\ sqlite_sim t' (Contract.alter_models f id s).
Proof.
  intros [Hm He] Hf.
  assert (represents model_id model_of (set_where (model_is id) fr (mt_models t))
            (alter f id (Contract.models s))) as Hm'.
  { apply rep_set; [done|apply sl_model_is|]. intros r Hr E%bool_decide_eq_true.
    destruct (Hf r Hr E) as [H1 H2]. split; [done|exact H2]. }
  do 2 eexists. split.
  - apply on_models_ok, update_where_steady. apply bool_decide_eq_true. exact (proj1 Hm').
  - by constructor.
Qed.

Lemma sl_set_endpoint id f fr t s : sqlite_sim t s ->
  (forall r, r ∈ mt_endpoints t -> er_id r = id ->
    endpoint_of (fr r) = f (endpoint_of r) /\ er_id (fr r) = er_id r) ->
  exists a t', admin (on_endpoints (update_where endpoints_valid (endpoint_is id) fr)) (steady t) =
      (Ok a, steady t') /\ sqlite_sim t' (Contract.alter_endpoints f id s).
Proof.
  intros [Hm He] Hf.
  assert (represents ep_id endpoint_of (set_where (endpoint_is id) fr (mt_endpoints t))
            (alter f id (Contract.endpoints s))) as He'.
  { apply rep_set; [done|apply sl_endpoint_is|]. intros r Hr E%bool_decide_eq_true.
    destruct (Hf r Hr E) as [H1 H2]. split; [done|exact H2]. }
  do 2 eexists. split.
  - apply on_endpoints_ok, update_where_steady. apply bool_decide_eq_true. exact (proj1 He').
  - by constructor.
Qed.

Lemma int_bool b : negb (int b =? 0) = b.
Proof. by destruct b. Qed.

Lemma default_time now : time_ok now -> time_parse_or_default (to_rfc3339 now) = now.
Proof. intros Hn. unfold time_parse_or_default. by rewrite time_round. Qed.

(** The record an identifier's row decodes to. *)
Lemma sl_model_row t s id r m : sqlite_sim t s -> r ∈ mt_models t -> mr_id r = id ->
  Contract.models s !! id = Some m -> model_of r = m.
Proof. intros [Hm _] Hr <- E. pose proof (rep_row _ _ _ Hm r Hr) as E'. cbn in E'. congruence. Qed.

Lemma sl_endpoint_row t s id r e : sqlite_sim t s -> r ∈ mt_endpoints t -> er_id r = id ->
  Contract.endpoints s !! id = Some e -> endpoint_of r = e.
Proof. intros [_ He] Hr <- E. pose proof (rep_row _ _ _ He r Hr) as E'. cbn in E'. congruence. Qed.

Local Abbreviation contract_step := (Contract.step uuid_text cipher).

Definition time_kept (op : ModelOp) : Prop := forall now, op_now op = Some now -> time_ok now.

(** The outcome of one operation, as the refinement states it. *)
Definition sqlite_follows (op : ModelOp) (t : Tables) (s : Maps) : Prop :=
  exists t', sqlite_step op (steady t) = (fst (contract_step op s), steady t') /\
    sqlite_sim t' (snd (contract_step op s)).

Lemma sl_create u now r t s : sqlite_sim t s -> time_kept (MCreate u now r) ->
  Contract.draws_fresh uuid_text (MCreate u now r) s -> sqlite_follows (MCreate u now r) t s.
Proof.
  intros [Hm He] Ht Hf. specialize (Ht now eq_refl). cbn in Hf.
  assert (represents model_id model_of (mt_models t ++ [
     {| mr_id := uuid_text u; mr_name := cm_name r; mr_display_name := cm_display_name r;
        mr_enabled := int (cm_enabled r); mr_created_at := to_rfc3339 now;
        mr_updated_at := to_rfc3339 now |}])%list
     (<[uuid_text u := model_new (uuid_text u) now now r]> (Contract.models s))) as Hm'.
  { match goal with |- context [[?row]] => assert (model_of row = model_new (uuid_text u) now now r) as Hr end.
    { unfold model_of, model_new. cbn. by rewrite int_bool, !default_time. }
    rewrite <- Hr. by apply rep_insert. }
  eexists. split.
  - cbn. unfold wrap, model_create.
    erewrite admin_bind_ok; [done|].
    erewrite admin_bind_ok; [done|]. apply on_models_ok, insert_row_steady.
    apply bool_decide_eq_true. exact (proj1 Hm').
  - by constructor.
Qed.

Lemma sl_update id now r t s : sqlite_sim t s -> time_kept (MUpdate id now r) ->
  sqlite_follows (MUpdate id now r) t s.
Proof.
  intros Hs Ht. specialize (Ht now eq_refl). unfold sqlite_follows. cbn.
  destruct (Contract.models s !! id) as [m|] eqn:E; cbn.
  - destruct (sl_set_model id (Contract.updated_model r now)
      (set_model (default (model_name m) (um_name r)) (default (model_display_name m) (um_display_name r))
         (default (model_enabled m) (um_enabled r)) now) t s Hs) as (a & t' & Hup & Hs').
    { intros x Hx Hid. rewrite <- (sl_model_row t s id x m Hs Hx Hid E). split; [|done].
      unfold model_of, set_model, Contract.updated_model. cbn. by rewrite int_bool, default_time. }
    exists t'. split; [|done]. unfold wrap, model_update.
    erewrite admin_bind_ok; [done|]. erewrite admin_bind_ok by by apply sl_model_get.
    rewrite E. erewrite admin_bind_ok by done. erewrite admin_bind_ok by exact Hup.
    rewrite (sl_model_get id t' _ Hs'). cbn. by rewrite lookup_alter_eq, E.
  - exists t. split; [|done]. unfold wrap, model_update.
    erewrite admin_bind_err; [done|]. erewrite admin_bind_ok by by apply sl_model_get.
    rewrite E. by erewrite admin_bind_err by done.
Qed.

Lemma sl_delete id t s : sqlite_sim t s -> sqlite_follows (MDelete id) t s.
Proof.
  intros Hs. unfold sqlite_follows. cbn. unfold wrap, model_delete.
  destruct (Contract.models s !! id) as [m|] eqn:E; cbn.
  - destruct (model_enabled m) eqn:Hen; cbn.
    + exists t. split; [|done]. erewrite admin_bind_err; [done|].
      erewrite admin_bind_ok by by apply sl_model_get. by rewrite E, Hen.
    + eexists. split.
      * erewrite admin_bind_ok; [done|]. erewrite admin_bind_ok by by apply sl_model_get.
        rewrite E, Hen.
        erewrite admin_bind_ok by (apply on_endpoints_ok, delete_where_steady).
        erewrite admin_bind_ok by (apply on_models_ok, delete_where_steady).
        unfold admin_ret. cbn [mt_models mt_endpoints].
        pose proof (rep_filter _ _ _ (sl_models _ _ Hs) _ _ (sl_model_is id _)) as Hfi.
        rewrite E in Hfi. destruct Hfi as (x & -> & _). done.
      * destruct Hs as [Hm He]. constructor; [by apply rep_delete; [|apply sl_model_is]|].
        pose (q := fun e : ModelEndpoint => bool_decide (ep_model_id e = id)).
        exact (rep_remove _ _ _ He (fun r => bool_decide (er_model_id r = id)) q (fun _ _ => eq_refl)).
  - exists t. split; [|done]. erewrite admin_bind_ok; [done|].
    erewrite admin_bind_ok by by apply sl_model_get. by rewrite E.
Qed.

Lemma sl_toggle id enabled now t s : sqlite_sim t s -> time_kept (MToggle id enabled now) ->
  sqlite_follows (MToggle id enabled now) t s.
Proof.
  intros Hs Ht. specialize (Ht now eq_refl). unfold sqlite_follows. cbn.
  destruct (sl_set_model id (Contract.toggled_model enabled now) (set_model_enabled enabled now) t s Hs)
    as (a & t' & Hup & Hs').
  { intros x Hx Hid. split; [|done]. unfold model_of, set_model_enabled, Contract.toggled_model. cbn.
    by rewrite int_bool, default_time. }
  exists t'. split; [|done]. unfold wrap, model_toggle.
  erewrite admin_bind_ok; [done|]. erewrite admin_bind_ok by exact Hup.
  rewrite (sl_model_get id t' _ Hs'). cbn. by rewrite lookup_alter_eq.
Qed.

Lemma sl_create_endpoint mid u now nonce r t s : sqlite_sim t s ->
  time_kept (ECreate mid u now nonce r) ->
  Contract.draws_fresh uuid_text (ECreate mid u now nonce r) s ->
  sqlite_follows (ECreate mid u now nonce r) t s.
Proof.
  intros Hs Ht Hf. specialize (Ht now eq_refl). cbn in Hf. pose proof Hs as [Hm He].
  unfold sqlite_follows. cbn. unfold wrap, endpoint_create.
  pose proof (rep_find _ _ _ Hm _ _ (sl_model_is mid _)) as Hfind.
  destruct (Contract.models s !! mid) as [m|] eqn:E; cbn.
  - set (stored := encrypt_endpoint_api_key cipher nonce (ce_api_key r)).
    set (row := {| er_id := uuid_text u; er_model_id := mid; er_provider_type := ce_provider_type r;
      er_base_url := ce_base_url r; er_api_key := stored; er_weight := ce_weight r;
      er_enabled := int (ce_enabled r); er_created_at := to_rfc3339 now;
      er_updated_at := to_rfc3339 now |}).
    assert (endpoint_of row = with_endpoint_key stored (endpoint_new (uuid_text u) mid now now r)) as Hrow.
    { unfold endpoint_of, row, with_endpoint_key, endpoint_new. cbn. by rewrite int_bool, !default_time. }
    assert (represents ep_id endpoint_of (mt_endpoints t ++ [row])%list
      (<[uuid_text u := with_endpoint_key stored (endpoint_new (uuid_text u) mid now now r)]>
         (Contract.endpoints s))) as He'.
    { rewrite <- Hrow. by apply rep_insert. }
    exists {| mt_models := mt_models t; mt_endpoints := (mt_endpoints t ++ [row])%list |}.
    split; [|by constructor]. erewrite admin_bind_ok; [done|].
    erewrite admin_bind_ok by (apply on_models_ok, fetch_optional_steady).
    destruct (head _) as [x|]; [|done]. destruct t as [ms es].
    erewrite admin_bind_ok; [done|]. apply on_endpoints_ok. apply (insert_row_steady _ row).
    apply bool_decide_eq_true. exact (proj1 He').
  - exists t. split; [|done]. erewrite admin_bind_err; [done|].
    erewrite admin_bind_ok by (apply on_models_ok, fetch_optional_steady).
    destruct (head _) as [x|]; [done|]. by destruct t.
Qed.

Lemma sl_update_endpoint id now nonce r t s : sqlite_sim t s -> time_kept (EUpdate id now nonce r) ->
  sqlite_follows (EUpdate id now nonce r) t s.
Proof.
  intros Hs Ht. specialize (Ht now eq_refl). unfold sqlite_follows. cbn.
  destruct (Contract.endpoints s !! id) as [e|] eqn:E; cbn.
  - pose proof (decrypt_fields cipher e) as (Hp & Hb & Hw & Hen).
    edestruct (sl_set_endpoint id (Contract.updated_endpoint cipher r nonce now)) as (a & t' & Hup & Hs');
      [exact Hs| |exists t'; split; [|exact Hs'];
        unfold wrap, endpoint_update; erewrite admin_bind_ok; [done|];
        erewrite admin_bind_ok by (by apply sl_endpoint_get); rewrite E;
        erewrite admin_bind_ok by done; erewrite admin_bind_ok by exact Hup;
        rewrite (sl_endpoint_get id t' _ Hs'); cbn; by rewrite lookup_alter_eq, E].
    intros x Hx Hid. rewrite <- (sl_endpoint_row t s id x e Hs Hx Hid E) in *. split; [|done].
    unfold endpoint_of at 1, set_endpoint, Contract.updated_endpoint, effective_routing_pair. cbn [er_id
      er_model_id er_provider_type er_base_url er_api_key er_weight er_enabled er_created_at er_updated_at fst snd].
    rewrite int_bool, default_time, Hp, Hb, Hw, Hen by done. by destruct (ue_api_key r).
  - exists t. split; [|done]. unfold wrap, endpoint_update.
    erewrite admin_bind_err; [done|]. erewrite admin_bind_ok by by apply sl_endpoint_get.
    rewrite E. by erewrite admin_bind_err by done.
Qed.

Lemma sl_toggle_endpoint id enabled now t s : sqlite_sim t s -> time_kept (EToggle id enabled now) ->
  sqlite_follows (EToggle id enabled now) t s.
Proof.
  intros Hs Ht. specialize (Ht now eq_refl). unfold sqlite_follows. cbn.
  destruct (sl_set_endpoint id (Contract.toggled_endpoint enabled now)
              (set_endpoint_enabled enabled now) t s Hs) as (a & t' & Hup & Hs').
  { intros x Hx Hid. split; [|done].
    unfold endpoint_of, set_endpoint_enabled, Contract.toggled_endpoint. cbn.
    by rewrite int_bool, default_time. }
  exists t'. split; [|done]. unfold wrap, endpoint_toggle.
  erewrite admin_bind_ok; [done|]. erewrite admin_bind_ok by exact Hup.
  rewrite (sl_endpoint_get id t' _ Hs'). cbn. by rewrite lookup_alter_eq.
Qed.

Lemma sl_delete_endpoint id t s : sqlite_sim t s -> sqlite_follows (EDelete id) t s.
Proof.
  intros [Hm He]. unfold sqlite_follows.
  exists {| mt_models := mt_models t;
            mt_endpoints := filter (fun r => ~ endpoint_is id r) (mt_endpoints t) |}. split.
  - unfold sqlite_step, wrap, endpoint_delete.
    erewrite admin_bind_ok; [done|].
    erewrite admin_bind_ok by (apply on_endpoints_ok, delete_where_steady).
    by rewrite (rep_count _ _ _ He _ _ (sl_endpoint_is id _)).
  - constructor; [done|]. by apply rep_delete; [|apply sl_endpoint_is].
Qed.

Lemma sqlite_models_follow op t s : sqlite_sim t s -> time_kept op ->
  Contract.draws_fresh uuid_text op s -> sqlite_follows op t s.
Proof.
  intros Hs Ht Hf. destruct op.
  - by apply sl_create.
  - exists t. split; [|done]. unfold sqlite_step, wrap. by erewrite admin_bind_ok by by apply sl_model_get.
  - by apply sl_update.
  - by apply sl_delete.
  - by apply sl_toggle.
  - by apply sl_create_endpoint.
  - exists t. split; [|done]. unfold sqlite_step, wrap. by erewrite admin_bind_ok by by apply sl_endpoint_get.
  - by apply sl_update_endpoint.
  - by apply sl_delete_endpoint.
  - by apply sl_toggle_endpoint.
Qed.

End Sqlite.

(** ** Postgres *)
Section Postgres.
Context `{Cipher}.
Context (uuid_text : Z -> string) (parse_uuid : string -> option Z) (cipher : option string).
Hypothesis uuid_round : forall u, parse_uuid (uuid_text u) = Some u.

Import PgModels.
Local Abbreviation Tables := (ModelTables ModelRow EndpointRow).
Local Abbreviation Maps := Contract.Maps.
Local Abbreviation model_of := (PgModels.model_of uuid_text).
Local Abbreviation endpoint_of := (PgModels.endpoint_of uuid_text).
Local Abbreviation contract_step := (Contract.step uuid_text cipher).

Definition fits_model (m : Model) : bool := model_fits (model_name m) (model_display_name m).
Definition fits_endpoint (e : ModelEndpoint) : bool := endpoint_fits (ep_provider_type e, ep_base_url e).

(** The tables hold the records, whose texts fit their columns. *)
Record pg_models_sim (t : Tables) (s : Maps) : Prop := {
  pg_models : represents model_id model_of (mt_models t) (Contract.models s);
  pg_endpoints : represents ep_id endpoint_of (mt_endpoints t) (Contract.endpoints s);
  pg_models_fit : map_Forall (fun _ m => fits_model m) (Contract.models s);
  pg_endpoints_fit : map_Forall (fun _ e => fits_endpoint e) (Contract.endpoints s);
}.

(** The texts an operation brings fit their columns. *)
Definition op_fits (op : ModelOp) : bool :=
  match op with
  | MCreate _ _ r => model_fits (cm_name r) (cm_display_name r)
  | MUpdate _ _ r => model_fits (default "" (um_name r)) (default None (um_display_name r))
  | ECreate _ _ _ nonce r =>
      endpoint_fits (ce_provider_type r, ce_base_url r) &&
      optional_fits (encrypt_endpoint_api_key cipher nonce (ce_api_key r))
  | EUpdate _ _ nonce r =>
      endpoint_fits (default "" (ue_provider_type r), default None (ue_base_url r)) &&
      match ue_api_key r with
      | Some key => optional_fits (encrypt_endpoint_api_key cipher nonce key)
      | None => true
      end
  | _ => true
  end.

(** The operation, at the instant the database keeps. *)
Definition at_micros (op : ModelOp) : ModelOp :=
  match op with
  | MCreate u now r => MCreate u (pg_micros now) r
  | MUpdate id now r => MUpdate id (pg_micros now) r
  | MToggle id enabled now => MToggle id enabled (pg_micros now)
  | ECreate mid u now nonce r => ECreate mid u (pg_micros now) nonce r
  | EUpdate id now nonce r => EUpdate id (pg_micros now) nonce r
  | EToggle id enabled now => EToggle id enabled (pg_micros now)
  | op => op
  end.

(** A creation answers with the instant it drew, anything else with what is stored. *)
Definition answers_as_drawn (op : ModelOp) : ModelOp :=
  match op with MCreate _ _ _ | ECreate _ _ _ _ _ => op | _ => at_micros op end.

Definition pg_wrap {A} (f : A -> ModelReply) (m : Admin Tables A) : Admin Tables ModelReply :=
  let@ a := m in admin_ret (f a).

Definition pg_models_step (op : ModelOp) : Admin Tables ModelReply :=
  match op with
  | MCreate u now r => pg_wrap ReplyModel (model_create uuid_text u now r)
  | MGet id => pg_wrap ReplyModelOption (model_get uuid_text parse_uuid id)
  | MUpdate id now r => pg_wrap ReplyModelOption (model_update uuid_text parse_uuid id now r)
  | MDelete id => pg_wrap ReplyDeleted (model_delete uuid_text parse_uuid id)
  | MToggle id enabled now => pg_wrap ReplyModelOption (model_toggle uuid_text parse_uuid id enabled now)
  | ECreate mid u now nonce r =>
      pg_wrap ReplyEndpoint (endpoint_create uuid_text parse_uuid cipher mid u now nonce r)
  | EGet id => pg_wrap ReplyEndpointOption (endpoint_get uuid_text parse_uuid cipher id)
  | EUpdate id now nonce r =>
      pg_wrap ReplyEndpointOption (endpoint_update uuid_text parse_uuid cipher id now nonce r)
  | EDelete id => pg_wrap ReplyDeleted (endpoint_delete parse_uuid id)
  | EToggle id enabled now =>
      pg_wrap ReplyEndpointOption (endpoint_toggle uuid_text parse_uuid cipher id enabled now)
  end.

Definition op_target (op : ModelOp) : option string :=
  match op with
  | MCreate _ _ _ => None
  | MGet id | MUpdate id _ _ | MDelete id | MToggle id _ _ | ECreate id _ _ _ _ | EGet id
  | EUpdate id _ _ _ | EDelete id | EToggle id _ _ => Some id
  end.

(** An identifier that parses is written as the stores write it. *)
Definition canonical_target (op : ModelOp) : Prop :=
  forall id u, op_target op = Some id -> parse_uuid id = Some u -> uuid_text u = id.

Definition pg_follows (op : ModelOp) (t : Tables) (s : Maps) : Prop :=
  exists t', pg_models_step op (steady t) = (fst (contract_step (answers_as_drawn op) s), steady t') /\
    pg_models_sim t' (snd (contract_step (at_micros op) s)).

Lemma pg_model_is u rows : selects model_id model_of (model_is u) (uuid_text u) rows.
Proof.
  intros r _. unfold model_is. rewrite Z.eqb_eq. split; [by intros <-|]. cbn. intros He.
  pose proof (uuid_round u) as Hu. rewrite <- He, uuid_round in Hu. by injection Hu.
Qed.

Lemma pg_endpoint_is u rows : selects ep_id endpoint_of (endpoint_is u) (uuid_text u) rows.
Proof.
  intros r _. unfold endpoint_is. rewrite Z.eqb_eq. split; [by intros <-|]. cbn. intros He.
  pose proof (uuid_round u) as Hu. rewrite <- He, uuid_round in Hu. by injection Hu.
Qed.

Lemma pg_no_model id t s : pg_models_sim t s -> parse_uuid id = None -> Contract.models s !! id = None.
Proof.
  intros [[_ Hm] _ _ _] Hid. destruct (Contract.models s !! id) as [m|] eqn:E; [|done].
  apply Hm in E as (r & _ & <- & <-). cbn in Hid. by rewrite uuid_round in Hid.
Qed.

Lemma pg_no_endpoint id t s : pg_models_sim t s -> parse_uuid id = None ->
  Contract.endpoints s !! id = None.
Proof.
  intros [_ [_ He] _ _] Hid. destruct (Contract.endpoints s !! id) as [e|] eqn:E; [|done].
  apply He in E as (r & _ & <- & <-). cbn in Hid. by rewrite uuid_round in Hid.
Qed.

Lemma nodup_models rows m : represents model_id model_of rows m -> models_valid rows = true.
Proof.
  intros [Hn _]. apply bool_decide_eq_true, (NoDup_fmap_1 uuid_text).
  by rewrite <- list_fmap_compose.
Qed.

Lemma nodup_endpoints rows m : represents ep_id endpoint_of rows m -> endpoints_valid rows = true.
Proof.
  intros [Hn _]. apply bool_decide_eq_true, (NoDup_fmap_1 uuid_text).
  by rewrite <- list_fmap_compose.
Qed.

Lemma pg_model_get id t s : pg_models_sim t s -> canonical_target (MGet id) ->
  model_get uuid_text parse_uuid id (steady t) = (Ok (Contract.models s !! id), steady t).
Proof.
  intros Hs Hc. unfold model_get. destruct (parse_uuid id) as [u|] eqn:Hu.
  - erewrite admin_bind_ok by (apply on_models_ok, fetch_optional_steady). unfold admin_ret.
    rewrite (rep_find _ _ _ (pg_models _ _ Hs) _ _ (pg_model_is u _)), (Hc id u eq_refl Hu).
    by destruct t.
  - by rewrite (pg_no_model id t s).
Qed.

Lemma pg_endpoint_get id t s : pg_models_sim t s -> canonical_target (EGet id) ->
  endpoint_get uuid_text parse_uuid cipher id (steady t) =
  (Ok (decrypt_endpoint cipher <$> Contract.endpoints s !! id), steady t).
Proof.
  intros Hs Hc. unfold endpoint_get. destruct (parse_uuid id) as [u|] eqn:Hu.
  - erewrite admin_bind_ok by (apply on_endpoints_ok, fetch_optional_steady). unfold admin_ret.
    rewrite <- (Hc id u eq_refl Hu), <- (rep_find _ _ _ (pg_endpoints _ _ Hs) _ _ (pg_endpoint_is u _)).
    destruct t. by destruct (head _).
  - by rewrite (pg_no_endpoint id t s).
Qed.

Lemma map_Forall_alter_2 {A} (P : A -> Prop) (f : A -> A) id (m : gmap string A) :
  (forall a, m !! id = Some a -> P a -> P (f a)) -> map_Forall (fun _ => P) m ->
  map_Forall (fun _ => P) (alter f id m).
Proof.
  intros Hf Hm i a. rewrite lookup_alter_Some. intros [(<- & x & Hx & ->)|[_ Hi]]; [|by eapply Hm].
  apply Hf; [done|]. by eapply Hm.
Qed.

Lemma pg_set_model u f fr t s : pg_models_sim t s ->
  (forall r, r ∈ mt_models t -> mr_id r = u ->
    model_of (fr r) = f (model_of r) /\ mr_id (fr r) = mr_id r) ->
  (forall m, Contract.models s !! uuid_text u = Some m -> fits_model m -> fits_model (f m)) ->
  exists a t', admin (on_models (update_where models_valid (model_is u) fr)) (steady t) =
      (Ok a, steady t') /\ pg_models_sim t' (Contract.alter_models f (uuid_text u) s).
Proof.
  intros [Hm He Hmf Hef] Hf Hk.
  assert (represents model_id model_of (set_where (model_is u) fr (mt_models t))
            (alter f (uuid_text u) (Contract.models s))) as Hm'.
  { apply rep_set; [done|apply pg_model_is|]. intros r Hr E%Z.eqb_eq.
    destruct (Hf r Hr E) as [H1 H2]. split; [done|]. cbn. by rewrite H2. }
  do 2 eexists. split.
  - apply on_models_ok, update_where_steady. by eapply nodup_models.
  - constructor; [done..| |done]. by apply map_Forall_alter_2.
Qed.

Lemma pg_set_endpoint u f fr t s : pg_models_sim t s ->
  (forall r, r ∈ mt_endpoints t -> er_id r = u ->
    endpoint_of (fr r) = f (endpoint_of r) /\ er_id (fr r) = er_id r) ->
  (forall e, Contract.endpoints s !! uuid_text u = Some e -> fits_endpoint e -> fits_endpoint (f e)) ->
  exists a t', admin (on_endpoints (update_where endpoints_valid (endpoint_is u) fr)) (steady t) =
      (Ok a, steady t') /\ pg_models_sim t' (Contract.alter_endpoints f (uuid_text u) s).
Proof.
  intros [Hm He Hmf Hef] Hf Hk.
  assert (represents ep_id endpoint_of (set_where (endpoint_is u) fr (mt_endpoints t))
            (alter f (uuid_text u) (Contract.endpoints s))) as He'.
  { apply rep_set; [done|apply pg_endpoint_is|]. intros r Hr E%Z.eqb_eq.
    destruct (Hf r Hr E) as [H1 H2]. split; [done|]. cbn. by rewrite H2. }
  do 2 eexists. split.
  - apply on_endpoints_ok, update_where_steady. by eapply nodup_endpoints.
  - constructor; [done..|]. by apply map_Forall_alter_2.
Qed.

Lemma pg_model_row t s u r m : pg_models_sim t s -> r ∈ mt_models t -> mr_id r = u ->
  Contract.models s !! uuid_text u = Some m -> model_of r = m.
Proof. intros [Hm _ _ _] Hr <- E. pose proof (rep_row _ _ _ Hm r Hr) as E'. cbn in E'. congruence. Qed.

Lemma pg_endpoint_row t s u r e : pg_models_sim t s -> r ∈ mt_endpoints t -> er_id r = u ->
  Contract.endpoints s !! uuid_text u = Some e -> endpoint_of r = e.
Proof. intros [_ He _ _] Hr <- E. pose proof (rep_row _ _ _ He r Hr) as E'. cbn in E'. congruence. Qed.

(** An update keeps what it does not bring. *)
Lemma fits_updated name display (name' : option string) (display' : option (option string)) :
  model_fits name display -> model_fits (default "" name') (default None display') ->
  model_fits (default name name') (default display display') = true.
Proof.
  unfold model_fits. rewrite !andb_True. intros [H1 H2] [H3 H4]. apply Is_true_true, andb_True.
  by destruct name', display'.
Qed.

Lemma fits_rerouted kind base (kind' : option string) (base' : option (option string)) :
  endpoint_fits (kind, base) -> endpoint_fits (default "" kind', default None base') ->
  endpoint_fits (default kind kind', default base base') = true.
Proof.
  unfold endpoint_fits. cbn [fst snd]. rewrite !andb_True. intros [H1 H2] [H3 H4].
  apply Is_true_true, andb_True. by destruct kind', base'.
Qed.

Lemma pgm_create u now r t s : pg_models_sim t s -> op_fits (MCreate u now r) ->
  Contract.draws_fresh uuid_text (MCreate u now r) s -> pg_follows (MCreate u now r) t s.
Proof.
  intros [Hm He Hmf Hef] Ho%Is_true_true Hf. cbn in Hf, Ho. set (kept := pg_micros now).
  assert (represents model_id model_of (mt_models t ++ [
     {| mr_id := u; mr_name := cm_name r; mr_display_name := cm_display_name r;
        mr_enabled := cm_enabled r; mr_created_at := kept; mr_updated_at := kept |}])%list
     (<[uuid_text u := model_new (uuid_text u) kept kept r]> (Contract.models s))) as Hm'.
  { by apply (rep_insert _ _ _ Hm (Build_ModelRow _ _ _ _ _ _)). }
  eexists. split.
  - unfold pg_models_step, pg_wrap, model_create. rewrite Ho.
    erewrite admin_bind_ok; [done|].
    erewrite admin_bind_ok; [done|]. apply on_models_ok, insert_row_steady.
    by eapply nodup_models.
  - constructor; [done..| |done]. apply map_Forall_insert_2; [|done]. by apply Is_true_true.
Qed.

Lemma pgm_update id now r t s : pg_models_sim t s -> op_fits (MUpdate id now r) ->
  canonical_target (MUpdate id now r) -> pg_follows (MUpdate id now r) t s.
Proof.
  intros Hs Ho Hc. unfold pg_follows. cbn [answers_as_drawn at_micros Contract.step].
  destruct (Contract.models s !! id) as [m|] eqn:E.
  - destruct (parse_uuid id) as [u|] eqn:Hu; [|by rewrite (pg_no_model id t s Hs Hu) in E].
    pose proof (Hc id u eq_refl Hu) as Hid. subst id.
    pose proof (fits_updated _ _ _ _ (pg_models_fit _ _ Hs _ _ E) Ho) as Hfits.
    destruct (pg_set_model u (Contract.updated_model r (pg_micros now))
      (set_model (default (model_name m) (um_name r)) (default (model_display_name m) (um_display_name r))
         (default (model_enabled m) (um_enabled r)) now) t s Hs) as (a & t' & Hup & Hs').
    { intros x Hx Hid. by rewrite <- (pg_model_row t s u x m Hs Hx Hid E). }
    { intros m' [= <-]%(eq_trans (eq_sym E)) _. by apply Is_true_true. }
    exists t'. split; [|done]. unfold pg_models_step, pg_wrap, model_update.
    erewrite admin_bind_ok; [done|]. erewrite admin_bind_ok by by apply pg_model_get.
    rewrite E. erewrite admin_bind_ok by done. unfold uuid_or_not_found. rewrite Hu.
    erewrite admin_bind_ok by done. rewrite Hfits. erewrite admin_bind_ok by exact Hup.
    rewrite (pg_model_get _ t' _ Hs' Hc). cbn. by rewrite lookup_alter_eq, E.
  - exists t. split; [|done]. unfold pg_models_step, pg_wrap, model_update.
    erewrite admin_bind_err; [done|]. erewrite admin_bind_ok by by apply pg_model_get.
    rewrite E. by erewrite admin_bind_err by done.
Qed.

Lemma delete_cascade_steady u t :
  delete_cascade u (steady t) =
  (Ok (length (filter (fun r => model_is u r) (mt_models t))),
   steady {| mt_models := filter (fun r => ~ model_is u r) (mt_models t);
             mt_endpoints := filter (fun e => er_model_id e <> u) (mt_endpoints t) |}).
Proof. unfold delete_cascade. by rewrite statement_steady. Qed.

Lemma pgm_delete id t s : pg_models_sim t s -> canonical_target (MDelete id) -> pg_follows (MDelete id) t s.
Proof.
  intros Hs Hc. unfold pg_follows. cbn [answers_as_drawn at_micros Contract.step].
  unfold pg_models_step, pg_wrap, model_delete.
  destruct (parse_uuid id) as [u|] eqn:Hu.
  2: { rewrite (pg_no_model id t s Hs Hu). by exists t. }
  destruct (Contract.models s !! id) as [m|] eqn:E.
  - destruct (model_enabled m) eqn:Hen.
    + exists t. split; [|done]. erewrite admin_bind_err; [done|].
      erewrite admin_bind_ok by by apply pg_model_get. by rewrite E, Hen.
    + pose proof (Hc id u eq_refl Hu) as Hid. subst id. pose proof Hs as [Hm He Hmf Hef].
      eexists. split.
      * erewrite admin_bind_ok; [done|]. erewrite admin_bind_ok by by apply pg_model_get.
        rewrite E, Hen. erewrite admin_bind_ok by (apply admin_ok; apply delete_cascade_steady).
        unfold admin_ret. rewrite (rep_count _ _ _ Hm _ _ (pg_model_is u _)), E. done.
      * constructor; cbn; [by apply rep_delete; [|apply pg_model_is]| |by apply map_Forall_delete
          |intros i e [Hi _]%map_lookup_filter_Some; by eapply Hef].
        pose (q := fun e : ModelEndpoint => bool_decide (ep_model_id e = uuid_text u)).
        pose proof (rep_remove _ _ _ He (fun r => bool_decide (uuid_text (er_model_id r) = uuid_text u)) q
                      (fun _ _ => eq_refl)) as Hr.
        erewrite list_filter_iff; [exact Hr|]. intros r. cbn. rewrite bool_decide_spec. split.
        -- intros Hne Heq. apply Hne. pose proof (uuid_round u) as Hru.
           rewrite <- Heq, uuid_round in Hru. by injection Hru.
        -- intros Hne Heq. apply Hne. by rewrite Heq.
  - exists t. split; [|done]. erewrite admin_bind_ok; [done|].
    erewrite admin_bind_ok by by apply pg_model_get. by rewrite E.
Qed.

Lemma pgm_toggle id enabled now t s : pg_models_sim t s -> canonical_target (MToggle id enabled now) ->
  pg_follows (MToggle id enabled now) t s.
Proof.
  intros Hs Hc. unfold pg_follows. cbn [answers_as_drawn at_micros Contract.step].
  unfold pg_models_step, pg_wrap, model_toggle.
  destruct (parse_uuid id) as [u|] eqn:Hu.
  - pose proof (Hc id u eq_refl Hu) as Hid. subst id.
    edestruct (pg_set_model u (Contract.toggled_model enabled (pg_micros now))) as (a & t' & Hup & Hs');
      [exact Hs| |done|exists t'; split; [|exact Hs'];
        erewrite admin_bind_ok; [done|]; erewrite admin_bind_ok by exact Hup;
        rewrite (pg_model_get _ t' _ Hs' Hc); cbn; by rewrite lookup_alter_eq].
    by intros x Hx Hid.
  - pose proof (pg_no_model id t s Hs Hu) as E. rewrite E. exists t. split; [done|].
    cbn. unfold Contract.alter_models. rewrite alter_absent by done. by destruct s.
Qed.

Lemma pgm_create_endpoint mid u now nonce r t s : pg_models_sim t s ->
  op_fits (ECreate mid u now nonce r) -> canonical_target (ECreate mid u now nonce r) ->
  Contract.draws_fresh uuid_text (ECreate mid u now nonce r) s ->
  pg_follows (ECreate mid u now nonce r) t s.
Proof.
  intros Hs Ho%Is_true_true Hc Hf. cbn in Hf, Ho. pose proof Hs as [Hm He Hmf Hef].
  unfold pg_follows. cbn [answers_as_drawn at_micros Contract.step].
  unfold pg_models_step, pg_wrap, endpoint_create.
  destruct (parse_uuid mid) as [v|] eqn:Hv.
  2: { rewrite (pg_no_model mid t s Hs Hv). by exists t. }
  pose proof (Hc mid v eq_refl Hv) as Hid. subst mid.
  pose proof (rep_find _ _ _ Hm _ _ (pg_model_is v _)) as Hfind.
  destruct (Contract.models s !! uuid_text v) as [m|] eqn:E; cbn [fst snd].
  - set (stored := encrypt_endpoint_api_key cipher nonce (ce_api_key r)).
    set (row := {| er_id := u; er_model_id := v; er_provider_type := ce_provider_type r;
      er_base_url := ce_base_url r; er_api_key := stored; er_weight := ce_weight r;
      er_enabled := ce_enabled r; er_created_at := pg_micros now; er_updated_at := pg_micros now |}).
    assert (represents ep_id endpoint_of (mt_endpoints t ++ [row])%list
      (<[uuid_text u := with_endpoint_key stored
           (endpoint_new (uuid_text u) (uuid_text v) (pg_micros now) (pg_micros now) r)]>
         (Contract.endpoints s))) as He'.
    { by apply (rep_insert _ _ _ He row). }
    exists {| mt_models := mt_models t; mt_endpoints := (mt_endpoints t ++ [row])%list |}.
    split.
    2: { constructor; [done..|]. apply map_Forall_insert_2; [|done].
      by apply andb_prop in Ho as [Ho _]; apply Is_true_true. }
    erewrite admin_bind_ok; [done|].
    erewrite admin_bind_ok by (apply on_models_ok, fetch_optional_steady).
    destruct (head _) as [x|]; [|done]. destruct t as [ms es]. unfold stored in row |- *. rewrite Ho.
    erewrite admin_bind_ok; [done|]. apply on_endpoints_ok. apply (insert_row_steady _ row).
    by eapply nodup_endpoints.
  - exists t. split; [|done]. erewrite admin_bind_err; [done|].
    erewrite admin_bind_ok by (apply on_models_ok, fetch_optional_steady).
    destruct (head _) as [x|]; [done|]. by destruct t.
Qed.

Lemma pgm_update_endpoint id now nonce r t s : pg_models_sim t s -> op_fits (EUpdate id now nonce r) ->
  canonical_target (EUpdate id now nonce r) -> pg_follows (EUpdate id now nonce r) t s.
Proof.
  intros Hs [Ho Hk]%andb_True Hc. unfold pg_follows. cbn [answers_as_drawn at_micros Contract.step].
  destruct (Contract.endpoints s !! id) as [e|] eqn:E.
  - destruct (parse_uuid id) as [u|] eqn:Hu; [|by rewrite (pg_no_endpoint id t s Hs Hu) in E].
    pose proof (Hc id u eq_refl Hu) as Hid. subst id.
    pose proof (decrypt_fields cipher e) as (Hp & Hb & Hw & Hen).
    pose proof (fits_rerouted _ _ _ _ (pg_endpoints_fit _ _ Hs _ _ E) Ho) as Hfits.
    assert (endpoint_fits (effective_routing_pair r (decrypt_endpoint cipher e)) &&
      match match ue_api_key r with
            | Some key => Some (encrypt_endpoint_api_key cipher nonce key)
            | None => None
            end with
      | Some stored => optional_fits stored
      | None => true
      end = true) as Hstored.
    { apply Is_true_true, andb_True. unfold effective_routing_pair. rewrite Hp, Hb.
      split; [by apply Is_true_true|]. by destruct (ue_api_key r). }
    edestruct (pg_set_endpoint u (Contract.updated_endpoint cipher r nonce (pg_micros now)))
      as (a & t' & Hup & Hs');
      [exact Hs| |intros e' [= <-]%(eq_trans (eq_sym E)) _; by apply Is_true_true|exists t'; split; [|exact Hs'];
        unfold pg_models_step, pg_wrap, endpoint_update; erewrite admin_bind_ok; [done|];
        erewrite admin_bind_ok by (by apply pg_endpoint_get); rewrite E;
        erewrite admin_bind_ok by done; unfold uuid_or_not_found; rewrite Hu;
        erewrite admin_bind_ok by done; cbv zeta; rewrite Hstored;
        erewrite admin_bind_ok by exact Hup;
        rewrite (pg_endpoint_get _ t' _ Hs' Hc); cbn; by rewrite lookup_alter_eq, E].
    intros x Hx Hid. rewrite <- (pg_endpoint_row t s u x e Hs Hx Hid E) in *. split; [|done].
    unfold PgModels.endpoint_of at 1, set_endpoint, Contract.updated_endpoint, effective_routing_pair.
    cbn [er_id er_model_id er_provider_type er_base_url er_api_key er_weight er_enabled er_created_at
      er_updated_at fst snd].
    rewrite Hp, Hb, Hw, Hen. by destruct (ue_api_key r).
  - exists t. split; [|done]. unfold pg_models_step, pg_wrap, endpoint_update.
    erewrite admin_bind_err; [done|]. erewrite admin_bind_ok by by apply pg_endpoint_get.
    rewrite E. by erewrite admin_bind_err by done.
Qed.

Lemma pgm_toggle_endpoint id enabled now t s : pg_models_sim t s ->
  canonical_target (EToggle id enabled now) -> pg_follows (EToggle id enabled now) t s.
Proof.
  intros Hs Hc. unfold pg_follows. cbn [answers_as_drawn at_micros Contract.step].
  unfold pg_models_step, pg_wrap, endpoint_toggle.
  destruct (parse_uuid id) as [u|] eqn:Hu.
  - pose proof (Hc id u eq_refl Hu) as Hid. subst id.
    edestruct (pg_set_endpoint u (Contract.toggled_endpoint enabled (pg_micros now)))
      as (a & t' & Hup & Hs');
      [exact Hs| |done|exists t'; split; [|exact Hs'];
        erewrite admin_bind_ok; [done|]; erewrite admin_bind_ok by exact Hup;
        rewrite (pg_endpoint_get _ t' _ Hs' Hc); cbn; by rewrite lookup_alter_eq].
    by intros x Hx Hid.
  - pose proof (pg_no_endpoint id t s Hs Hu) as E. rewrite E. exists t. split; [done|].
    cbn. unfold Contract.alter_endpoints. rewrite alter_absent by done. by destruct s.
Qed.

Lemma pgm_delete_endpoint id t s : pg_models_sim t s -> canonical_target (EDelete id) ->
  pg_follows (EDelete id) t s.
Proof.
  intros Hs Hc. unfold pg_follows. cbn [answers_as_drawn at_micros Contract.step fst snd].
  unfold pg_models_step, pg_wrap, endpoint_delete. destruct (parse_uuid id) as [u|] eqn:Hu.
  - pose proof (Hc id u eq_refl Hu) as Hid. subst id. pose proof Hs as [Hm He Hmf Hef].
    exists {| mt_models := mt_models t;
              mt_endpoints := filter (fun r => ~ endpoint_is u r) (mt_endpoints t) |}. split.
    + erewrite admin_bind_ok; [done|].
      erewrite admin_bind_ok by (apply on_endpoints_ok, delete_where_steady).
      by rewrite (rep_count _ _ _ He _ _ (pg_endpoint_is u _)).
    + constructor; [done|by apply rep_delete; [|apply pg_endpoint_is]|done|by apply map_Forall_delete].
  - pose proof (pg_no_endpoint id t s Hs Hu) as E. rewrite E. exists t. split; [done|].
    rewrite delete_id by done. by destruct s.
Qed.

Lemma pg_models_follow op t s : pg_models_sim t s -> op_fits op -> canonical_target op ->
  Contract.draws_fresh uuid_text op s -> pg_follows op t s.
Proof.
  intros Hs Ho Hc Hf. destruct op.
  - by apply pgm_create.
  - exists t. split; [|done]. unfold pg_models_step, pg_wrap.
    by erewrite admin_bind_ok by by apply pg_model_get.
  - by apply pgm_update.
  - by apply pgm_delete.
  - by apply pgm_toggle.
  - by apply pgm_create_endpoint.
  - exists t. split; [|done]. unfold pg_models_step, pg_wrap.
    by erewrite admin_bind_ok by by apply pg_endpoint_get.
  - by apply pgm_update_endpoint.
  - by apply pgm_delete_endpoint.
  - by apply pgm_toggle_endpoint.
Qed.

End Postgres.

(** ** The two stores together *)
Section Parity.
Context `{TimeText, Cipher}.
Context (uuid_text : Z -> string) (parse_uuid : string -> option Z) (cipher : option string).

Local Abbreviation sl_step := (sqlite_step uuid_text cipher).
Local Abbreviation pg_step := (pg_models_step uuid_text parse_uuid cipher).
Local Abbreviation contract_step := (Contract.step uuid_text cipher).

(** The records with their instants cut to the microsecond, as Postgres keeps
    them. *)
Definition trunc_model (m : Model) : Model :=
  {| model_id := model_id m; model_name := model_name m; model_display_name := model_display_name m;
     model_enabled := model_enabled m; model_created_at := pg_micros (model_created_at m);
     model_updated_at := pg_micros (model_updated_at m) |}.

Definition trunc_endpoint (e : ModelEndpoint) : ModelEndpoint :=
  {| ep_id := ep_id e; ep_model_id := ep_model_id e; ep_provider_type := ep_provider_type e;
     ep_base_url := ep_base_url e; ep_api_key := ep_api_key e; ep_weight := ep_weight e;
     ep_enabled := ep_enabled e; ep_created_at := pg_micros (ep_created_at e);
     ep_updated_at := pg_micros (ep_updated_at e) |}.

Definition truncated (s : Contract.Maps) : Contract.Maps :=
  {| Contract.models := trunc_model <$> Contract.models s;
     Contract.endpoints := trunc_endpoint <$> Contract.endpoints s |}.

Definition trunc_reply (r : ModelReply) : ModelReply :=
  match r with
  | ReplyModel m => ReplyModel (trunc_model m)
  | ReplyModelOption m => ReplyModelOption (trunc_model <$> m)
  | ReplyEndpoint e => ReplyEndpoint (trunc_endpoint e)
  | ReplyEndpointOption e => ReplyEndpointOption (trunc_endpoint <$> e)
  | ReplyDeleted b => ReplyDeleted b
  end.

(** What Postgres answers where the contract answers [answer]: a creation the
    instants it drew, anything else those it stored. *)
Definition pg_answer (op : ModelOp) (answer : result ModelReply AdminError) : result ModelReply AdminError :=
  match op, answer with
  | (MCreate _ _ _ | ECreate _ _ _ _ _), _ | _, Err _ => answer
  | _, Ok reply => Ok (trunc_reply reply)
  end.

Lemma decrypt_trunc e : decrypt_endpoint cipher (trunc_endpoint e) = trunc_endpoint (decrypt_endpoint cipher e).
Proof.
  unfold decrypt_endpoint. destruct cipher as [k|], e as [? ? ? ? [key|] ? ? ? ?]; cbn; try done.
  by destruct (cipher_decrypt k key).
Qed.

Lemma truncated_answer op s :
  fst (contract_step (answers_as_drawn op) (truncated s)) = pg_answer op (fst (contract_step op s)).
Proof.
  destruct op; cbn; rewrite ?lookup_fmap; try done; try destruct (_ !! _) as [x|]; cbn; try done;
    rewrite ?decrypt_trunc; try done; [by destruct (model_enabled x)|..].
  all: by rewrite <- decrypt_trunc.
Qed.

Lemma truncated_state op s :
  snd (contract_step (at_micros op) (truncated s)) = truncated (snd (contract_step op s)).
Proof.
  destruct op; cbn; rewrite ?lookup_fmap; try done; try destruct (_ !! _) as [x|]; cbn; try done;
    try (destruct (model_enabled x); [done|]); unfold truncated, Contract.alter_models,
      Contract.alter_endpoints; cbn [Contract.models Contract.endpoints snd].
  all: try by rewrite ?fmap_insert, ?fmap_delete.
  all: try by f_equal; symmetry; apply fmap_alter.
  f_equal; [by rewrite fmap_delete|]. by rewrite map_filter_fmap.
Qed.

(** C24: From tables that hold the same models and endpoints, Postgres with every
    instant cut to the microsecond, an operation on connections that do not fail,
    whose texts fit the Postgres columns and whose identifier, where it is one, is
    written as the stores write it, has the same answer or error on both stores, a
    malformed identifier included, up to that cut, and leaves the same models and
    endpoints, those of the contract. *)
Theorem model_stores_parity op sqlite pg s :
  (forall u, parse_uuid (uuid_text u) = Some u) ->
  sqlite_sim sqlite s -> pg_models_sim uuid_text pg (truncated s) -> time_kept op ->
  op_fits cipher op -> canonical_target uuid_text parse_uuid op -> Contract.draws_fresh uuid_text op s ->
  let '(answer, s') := contract_step op s in
  exists sqlite' pg',
    sl_step op (steady sqlite) = (answer, steady sqlite') /\
    pg_step op (steady pg) = (pg_answer op answer, steady pg') /\
    sqlite_sim sqlite' s' /\ pg_models_sim uuid_text pg' (truncated s').
Proof.
  intros Hu Hs Hp Ht Ho Hc Hf.
  destruct (sqlite_models_follow uuid_text cipher op sqlite s Hs Ht Hf) as (sl' & H1 & H2).
  assert (Contract.draws_fresh uuid_text op (truncated s)) as Hf'.
  { destruct op; try done; cbn in *; by rewrite lookup_fmap, Hf. }
  destruct (pg_models_follow uuid_text parse_uuid cipher Hu op pg _ Hp Ho Hc Hf') as (pg' & H3 & H4).
  rewrite truncated_answer in H3. rewrite truncated_state in H4.
  destruct (contract_step op s) as [answer s']. by exists sl', pg'.
Qed.

(** A name longer than 255 characters is a model on SQLite and an error on
    Postgres, whose tables stay as they were. *)
Theorem long_name_differs u now r sqlite pg s :
  sqlite_sim sqlite s -> time_ok now -> Contract.models s !! uuid_text u = None ->
  PgModels.model_fits (cm_name r) (cm_display_name r) = false ->
  (exists sqlite', sl_step (MCreate u now r) (steady sqlite) =
     (Ok (ReplyModel (model_new (uuid_text u) now now r)), steady sqlite')) /\
  exists msg, pg_step (MCreate u now r) (steady pg) = (Err (Store msg), steady pg).
Proof.
  intros Hs Ht Hf Hlong. split.
  - destruct (sqlite_models_follow uuid_text cipher (MCreate u now r) sqlite s Hs) as (sl' & H1 & _);
      [by intros ? [= <-]|done|by exists sl'].
  - eexists. unfold pg_models_step, pg_wrap, PgModels.model_create. rewrite Hlong. by destruct pg.
Qed.

(** SQLite deletes a model in two statements, its endpoints first: when the
    second one fails the model is still there without its endpoints. On Postgres a
    failed deletion changes nothing. *)
Theorem interrupted_delete_differs id u m msg sqlite pg s :
  sqlite_sim sqlite s -> pg_models_sim uuid_text pg (truncated s) ->
  (forall u, parse_uuid (uuid_text u) = Some u) -> parse_uuid id = Some u -> uuid_text u = id ->
  Contract.models s !! id = Some m -> model_enabled m = false ->
  SqliteModels.model_delete id
      {| db_table := sqlite; db_faults := [None; None; Some (FaultBefore msg)] |} =
    (Err (Store msg),
     steady {| mt_models := mt_models sqlite;
               mt_endpoints := filter (fun e => ~ bool_decide (SqliteModels.er_model_id e = id))
                                 (mt_endpoints sqlite) |}) /\
  PgModels.model_delete uuid_text parse_uuid id
      {| db_table := pg; db_faults := [None; Some (FaultBefore msg)] |} =
    (Err (Store msg), steady pg).
Proof.
  intros [Hm _] [Hpm _ _ _] Hround Hu Hid E Hen. split.
  - pose proof (rep_find _ _ _ Hm _ _ (sl_model_is id _)) as Hfind. rewrite E in Hfind.
    destruct (head _) as [x|] eqn:Eh; [|done]. apply (inj Some) in Hfind as Hx.
    unfold SqliteModels.model_delete, SqliteModels.model_get, admin_bind, admin, on_models, zoom,
      fetch_optional, statement. cbn [db_table db_faults head tail].
    rewrite Eh. cbn [map_err fmap option_fmap option_map admin_ret]. rewrite Hx, Hen. by destruct sqlite.
  - pose proof (rep_find _ _ _ Hpm _ _ (pg_model_is uuid_text parse_uuid Hround u _)) as Hfind.
    cbn [truncated Contract.models] in Hfind. rewrite Hid, lookup_fmap, E in Hfind.
    destruct (head _) as [x|] eqn:Eh; [|done]. apply (inj Some) in Hfind as Hx.
    assert (model_enabled (PgModels.model_of uuid_text x) = false) as Hx' by by rewrite Hx.
    unfold PgModels.model_delete, PgModels.model_get. rewrite Hu.
    unfold admin_bind, admin, on_models, zoom, fetch_optional, statement. cbn [db_table db_faults head tail].
    rewrite Eh. cbn [map_err fmap option_fmap option_map admin_ret]. rewrite Hx'. by destruct pg.
Qed.

End Parity.

(** ** The theorems at concrete inputs *)
Module ModelDemo.
Import SqlDemo.

(** A cipher that hides nothing. *)
#[export] Instance open_cipher : Cipher.
Proof.
  refine {| b64_encode := fun s => s; b64_decode := Ok; aes_encrypt := fun _ _ s => s;
            aes_decrypt := fun _ _ s => Some s |}; done.
Defined.

Definition nonce : string := "0123456789ab".
Definition endpoint (key : option string) : ModelEndpoint :=
  {| ep_id := "e"; ep_model_id := "m"; ep_provider_type := "openai"; ep_base_url := None;
     ep_api_key := key; ep_weight := f64_of_Z 1; ep_enabled := true; ep_created_at := 0;
     ep_updated_at := 0 |}.

Definition empty : Contract.Maps := {| Contract.models := ∅; Contract.endpoints := ∅ |}.
Definition tables {M E} : ModelTables M E := {| mt_models := []; mt_endpoints := [] |}.

Lemma empty_table {Row Entry} (eid : Entry -> string) (entry : Row -> Entry) :
  represents eid entry [] ∅.
Proof.
  split; [apply NoDup_nil_2|]. intros id k. rewrite lookup_empty. split; [done|].
  intros (r & Hr & _). by apply elem_of_nil in Hr.
Qed.

Lemma sqlite_empty : sqlite_sim tables empty.
Proof. constructor; apply empty_table. Qed.

Lemma pg_empty : pg_models_sim uuid tables empty.
Proof. constructor; [apply empty_table..|apply map_Forall_empty|apply map_Forall_empty]. Qed.

Definition create : ModelOp :=
  MCreate 1 10 {| cm_name := "gpt-4o"; cm_display_name := None; cm_enabled := false |}.

Lemma create_time : time_kept create.
Proof. intros now [= <-]. by vm_compute. Qed.

Definition draft : Model := model_new (uuid 1) 10 10 {| cm_name := "gpt-4o"; cm_display_name := None; cm_enabled := false |}.
Definition draft_maps : Contract.Maps :=
  {| Contract.models := <[uuid 1 := draft]> ∅; Contract.endpoints := ∅ |}.

Lemma draft_tables : exists sl pg, sqlite_sim sl draft_maps /\ pg_models_sim uuid pg (truncated draft_maps).
Proof.
  destruct (sqlite_models_follow uuid None create tables empty sqlite_empty create_time eq_refl)
    as (sl & _ & Hs).
  destruct (pg_models_follow uuid parse_uuid None uuid_parses create tables empty pg_empty I
              ltac:(done) eq_refl) as (pg & _ & Hp).
  by exists sl, pg.
Qed.

Definition long_name : string := Nat.iter 256 (String (Ascii.ascii_of_nat 110)) EmptyString.

End ModelDemo.
#[local] Existing Instances SqlDemo.time_text ModelDemo.open_cipher.

Lemma endpoint_key_round_trip_witness :
  starts_with ENC_PREFIX "sk-live" = false /\
  decrypt_endpoint (Some "k")
    (with_endpoint_key (encrypt_endpoint_api_key (Some "k") ModelDemo.nonce (Some "sk-live"))
       (ModelDemo.endpoint None)) = ModelDemo.endpoint (Some "sk-live").
Proof.
  split; [reflexivity|].
  exact (endpoint_key_round_trip (Some "k") ModelDemo.nonce "sk-live" (ModelDemo.endpoint None)
           eq_refl eq_refl eq_refl).
Defined.

Lemma model_stores_parity_witness :
  time_kept ModelDemo.create /\ exists sqlite' pg',
    sqlite_step SqlDemo.uuid None ModelDemo.create (steady ModelDemo.tables) =
      (Ok (ReplyModel ModelDemo.draft), steady sqlite') /\
    pg_models_step SqlDemo.uuid SqlDemo.parse_uuid None ModelDemo.create (steady ModelDemo.tables) =
      (Ok (ReplyModel ModelDemo.draft), steady pg') /\
    sqlite_sim sqlite' ModelDemo.draft_maps /\
    pg_models_sim SqlDemo.uuid pg' (truncated ModelDemo.draft_maps).
Proof.
  split; [exact ModelDemo.create_time|].
  exact (model_stores_parity SqlDemo.uuid SqlDemo.parse_uuid None ModelDemo.create
           ModelDemo.tables ModelDemo.tables ModelDemo.empty SqlDemo.uuid_parses
           ModelDemo.sqlite_empty ModelDemo.pg_empty ModelDemo.create_time I
           (fun id u H => False_rect _ (eq_ind None (fun o => match o with None => True | _ => False end) I _ H))
           eq_refl).
Defined.

Lemma interrupted_delete_differs_witness : exists sqlite pg,
  fst (SqliteModels.model_delete (SqlDemo.uuid 1)
      {| db_table := sqlite; db_faults := [None; None; Some (FaultBefore "gone")] |}) =
    Err (Store "gone") /\
  PgModels.model_delete SqlDemo.uuid SqlDemo.parse_uuid (SqlDemo.uuid 1)
      {| db_table := pg; db_faults := [None; Some (FaultBefore "gone")] |} =
    (Err (Store "gone"), steady pg).
Proof.
  destruct ModelDemo.draft_tables as (sl & pg & Hs & Hp). exists sl, pg.
  destruct (interrupted_delete_differs SqlDemo.uuid SqlDemo.parse_uuid (SqlDemo.uuid 1) 1
    ModelDemo.draft "gone" sl pg ModelDemo.draft_maps Hs Hp SqlDemo.uuid_parses
    (SqlDemo.uuid_parses 1) eq_refl (lookup_insert_eq _ _ _) eq_refl) as [H1 H2].
  split; [rewrite H1; reflexivity|exact H2].
Defined.

Lemma long_name_differs_witness :
  let r := {| cm_name := ModelDemo.long_name; cm_display_name := None; cm_enabled := true |} in
  PgModels.model_fits (cm_name r) (cm_display_name r) = false /\
  exists msg, pg_models_step SqlDemo.uuid SqlDemo.parse_uuid None (MCreate 1 10 r) (steady ModelDemo.tables) =
    (Err (Store msg), steady ModelDemo.tables).
Proof.
  split; [reflexivity|].
  exact (proj2 (long_name_differs SqlDemo.uuid SqlDemo.parse_uuid None 1 10
    {| cm_name := ModelDemo.long_name; cm_display_name := None; cm_enabled := true |} ModelDemo.tables ModelDemo.tables
    ModelDemo.empty ModelDemo.sqlite_empty (ModelDemo.create_time 10 eq_refl) eq_refl
    eq_refl)).
Defined.
