(* ===== verification/Provider.v ===== *)
(** * Provider clients and their registry
    (src/crates/himadri-provider/src/traits.rs, registry.rs,
    compatible/mod.rs, the configuration half of compatible/provider.rs,
    anthropic/mod.rs, gemini/mod.rs, src/crates/himadri/src/wire/providers.rs)

    A client is a trait object: the record of its methods, each acting on the
    outside world [W]; [S] is the type of an open stream. What a client does
    with a request is in Clients.v: here [compatible], [anthropic] and [gemini]
    stand for the constructors of the three clients. *)

From S2P Require Import Prelude Str Types Errors NetGuard.
From Stdlib Require Import Ascii.

(** ** The trait *)

Record Provider (W S : Type) := {
  prov_name : string;
  prov_display_name : string;
  prov_supported_models : list string;
  prov_complete : ChatCompletionRequest -> string -> W ->
    result ChatCompletionResponse ProviderError * W;
  prov_complete_stream : ChatCompletionRequest -> string -> W -> result S ProviderError * W;
  prov_embed : EmbeddingRequest -> string -> W -> result EmbeddingResponse ProviderError * W;
}.
Arguments prov_name {W S}.
Arguments prov_display_name {W S}.
Arguments prov_supported_models {W S}.
Arguments prov_complete {W S}.
Arguments prov_complete_stream {W S}.
Arguments prov_embed {W S}.

(** The trait's default [embed]. *)
Definition default_embed {W : Type} (name : string) (_ : EmbeddingRequest) (_ : string) (w : W)
    : result EmbeddingResponse ProviderError * W :=
  (Err (PUnsupported (name +:+ " does not support embeddings")), w).

(** ** The OpenAI-compatible configuration *)

Inductive AuthMethod := Bearer | Header (header_name : string).

Record OpenAiCompatibleConfig := {
  oc_name : string;
  oc_display_name : string;
  oc_base_url : string;
  oc_auth_method : AuthMethod;
  oc_chat_completions_path : string;
  oc_extra_headers : list (string * string);
  oc_models : list string;
}.

Definition compatible_bearer (name base_url : string) : OpenAiCompatibleConfig :=
  {| oc_name := name; oc_display_name := name; oc_base_url := base_url;
     oc_auth_method := Bearer; oc_chat_completions_path := "/chat/completions";
     oc_extra_headers := []; oc_models := [] |}.

(** [s.trim_end_matches('/')] *)
Fixpoint trim_end_slash (s : string) : string :=
  match s with
  | EmptyString => EmptyString
  | String a s =>
      match trim_end_slash s with
      | EmptyString => if decide (a = "/"%char) then EmptyString else String a EmptyString
      | s => String a s
      end
  end.

Definition compatible_azure (base_url deployment api_version : string)
    : OpenAiCompatibleConfig :=
  {| oc_name := "azure-openai"; oc_display_name := "Azure OpenAI";
     oc_base_url := trim_end_slash base_url; oc_auth_method := Header "api-key";
     oc_chat_completions_path :=
       "/openai/deployments/" +:+ deployment +:+ "/chat/completions?api-version=" +:+ api_version;
     oc_extra_headers := []; oc_models := [deployment] |}.

Definition build_auth_header (c : OpenAiCompatibleConfig) (api_key : string) : string * string :=
  match oc_auth_method c with
  | Bearer => ("Authorization", "Bearer " +:+ api_key)
  | Header h => (h, api_key)
  end.

Definition get_url (c : OpenAiCompatibleConfig) : string :=
  oc_base_url c +:+ oc_chat_completions_path c.

Definition get_embeddings_url (c : OpenAiCompatibleConfig) : string :=
  trim_end_slash (oc_base_url c) +:+ "/embeddings".

Definition preset (name display_name base_url : string) (extra_headers : list (string * string))
    (models : list string) : OpenAiCompatibleConfig :=
  {| oc_name := name; oc_display_name := display_name; oc_base_url := base_url;
     oc_auth_method := Bearer; oc_chat_completions_path := "/chat/completions";
     oc_extra_headers := extra_headers; oc_models := models |}.

Definition preset_openai : OpenAiCompatibleConfig :=
  preset "openai" "OpenAI" "https://api.openai.com/v1" []
    ["gpt-4"; "gpt-4-turbo"; "gpt-4o"; "gpt-4o-mini"; "gpt-3.5-turbo"; "o1"; "o1-mini"; "o1-pro"].

Definition preset_openrouter : OpenAiCompatibleConfig :=
  preset "openrouter" "OpenRouter" "https://openrouter.ai/api/v1"
    [("HTTP-Referer", "https://github.com/himadri"); ("X-Title", "himadri")]
    ["openrouter/auto"; "openai/gpt-4o"; "anthropic/claude-3.5-sonnet"; "google/gemini-2.0-flash"].

Definition preset_together_ai : OpenAiCompatibleConfig :=
  preset "together" "Together AI" "https://api.together.xyz/v1" []
    ["meta-llama/Llama-3-70b-chat-hf"; "meta-llama/Llama-3-8b-chat-hf";
     "mistralai/Mixtral-8x7B-Instruct-v0.1"].

Definition preset_groq : OpenAiCompatibleConfig :=
  preset "groq" "Groq" "https://api.groq.com/openai/v1" []
    ["llama3-70b-8192"; "llama3-8b-8192"; "mixtral-8x7b-32768"; "gemma-7b-it"].

Definition preset_fireworks : OpenAiCompatibleConfig :=
  preset "fireworks" "Fireworks AI" "https://api.fireworks.ai/inference/v1" []
    ["accounts/fireworks/models/llama-v3p1-70b-instruct";
     "accounts/fireworks/models/mixtral-8x7b-instruct"].

Definition preset_deepinfra : OpenAiCompatibleConfig :=
  preset "deepinfra" "DeepInfra" "https://api.deepinfra.com/v1/openai" []
    ["meta-llama/Meta-Llama-3-70B-Instruct"; "mistralai/Mixtral-8x7B-Instruct-v0.1"].

Definition preset_cerebras : OpenAiCompatibleConfig :=
  preset "cerebras" "Cerebras" "https://api.cerebras.ai/v1" [] ["llama3.1-70b"; "llama3.1-8b"].

Definition preset_novita : OpenAiCompatibleConfig :=
  preset "novita" "Novita AI" "https://api.novita.ai/v3/openai" []
    ["meta-llama/llama-3.1-70b-instruct"; "meta-llama/llama-3.1-8b-instruct"].

Definition PRESETS : list (string * OpenAiCompatibleConfig) :=
  [("openai", preset_openai); ("openrouter", preset_openrouter); ("together", preset_together_ai);
   ("groq", preset_groq); ("fireworks", preset_fireworks); ("deepinfra", preset_deepinfra);
   ("cerebras", preset_cerebras); ("novita", preset_novita)].

(** [preset()] with the registered name and the override. *)
Definition preset_config (name : string) (c : OpenAiCompatibleConfig) (base_url : option string)
    : OpenAiCompatibleConfig :=
  {| oc_name := name; oc_display_name := oc_display_name c;
     oc_base_url := default (oc_base_url c) base_url;
     oc_auth_method := oc_auth_method c;
     oc_chat_completions_path := oc_chat_completions_path c;
     oc_extra_headers := oc_extra_headers c; oc_models := oc_models c |}.

(** ** The registry *)

(** What the gateway asks of a registry. *)
Class ProviderRegistry (R P : Type) := {
  reg_build : R -> string -> option string -> result P ProviderError;
}.

Definition reg_validate {R P} `{ProviderRegistry R P} (r : R) (provider_type : string)
    (base_url : option string) : result unit ProviderError :=
  match reg_build r provider_type base_url with Ok _ => Ok tt | Err e => Err e end.

Definition reg_is_known {R P} `{ProviderRegistry R P} (r : R) (provider_type : string) : bool :=
  is_ok (reg_validate r provider_type None).

Section Registry.
Context {P : Type} (compatible : OpenAiCompatibleConfig -> P).
Context (anthropic gemini : option string -> P).

Record MapProviderRegistry := {
  builders : gmap string (option string -> result P ProviderError);
}.

Definition registry_new : MapProviderRegistry := {| builders := ∅ |}.

Definition registry_register (provider_type : string)
    (builder : option string -> result P ProviderError) (r : MapProviderRegistry)
    : MapProviderRegistry :=
  {| builders := <[provider_type := builder]> (builders r) |}.

(** [base_url.map(str::trim).filter(|s| !s.is_empty())] *)
Definition clean_url (base_url : option string) : option string :=
  match base_url with
  | Some u => let u := trim u in if str_is_empty u then None else Some u
  | None => None
  end.

Definition registry_build (r : MapProviderRegistry) (provider_type : string)
    (base_url : option string) : result P ProviderError :=
  let base_url := clean_url base_url in
  match builders r !! provider_type with
  | Some builder => builder base_url
  | None =>
      let? base_url := ok_or base_url (PMissingBaseUrl provider_type) in
      Ok (compatible (compatible_bearer provider_type base_url))
  end.

Instance map_provider_registry : ProviderRegistry MapProviderRegistry P :=
  {| reg_build := registry_build |}.

Definition anthropic_register (r : MapProviderRegistry) : MapProviderRegistry :=
  registry_register "anthropic" (fun u => Ok (anthropic u)) r.

Definition gemini_register (r : MapProviderRegistry) : MapProviderRegistry :=
  registry_register "gemini" (fun u => Ok (gemini u)) r.

Definition compatible_register (r : MapProviderRegistry) : MapProviderRegistry :=
  foldl (fun r '(name, c) =>
    registry_register name (fun u => Ok (compatible (preset_config name c u))) r) r PRESETS.

Definition build_provider_registry : MapProviderRegistry :=
  compatible_register (gemini_register (anthropic_register registry_new)).
End Registry.

Section EnvVars.
Context (to_uppercase : string -> string).

Definition api_key_env_var (provider_type : string) : string :=
  to_uppercase provider_type +:+ "_API_KEY".
End EnvVars.

(** ** Properties *)

Section Properties.
Context {P : Type} (compatible : OpenAiCompatibleConfig -> P).
Context (anthropic gemini : option string -> P).

Lemma registered_types t :
  is_Some (builders (build_provider_registry compatible anthropic gemini) !! t) <->
  t ∈ KNOWN_PROVIDER_TYPES.
Proof.
  unfold build_provider_registry, compatible_register, gemini_register, anthropic_register,
    registry_register, registry_new, PRESETS. cbn [foldl builders].
  rewrite !lookup_insert_is_Some', lookup_empty.
  pose proof (is_Some_None (A := option string -> result P ProviderError)).
  unfold KNOWN_PROVIDER_TYPES. rewrite !elem_of_cons. pose proof (not_elem_of_nil t). naive_solver.
Qed.

Lemma registered_build t u b :
  builders (build_provider_registry compatible anthropic gemini) !! t = Some b ->
  exists p, b u = Ok p.
Proof.
  unfold build_provider_registry, compatible_register, gemini_register, anthropic_register,
    registry_register, registry_new, PRESETS. cbn [foldl builders].
  rewrite !lookup_insert_Some, lookup_empty. naive_solver.
Qed.

(** What the catalogue calls routable is what the gateway can build. For
    every provider type and base URL, the static mirror the admin API and
    [/v1/models] consult agrees with the registry the target rebuild uses: a
    known type always builds, any other exactly with a base URL that is not
    blank, and the only failure is the missing URL. *)
Theorem routable_iff_buildable t u :
  let r := registry_build compatible (build_provider_registry compatible anthropic gemini) t u in
  is_ok r = endpoint_is_routable t u /\
  (endpoint_is_routable t u = false -> r = Err (PMissingBaseUrl t)).
Proof.
  cbn zeta. unfold registry_build, endpoint_is_routable, is_known_provider_type, clean_url.
  destruct (builders (build_provider_registry compatible anthropic gemini) !! t) as [b|] eqn:E.
  - rewrite bool_decide_true by (apply registered_types; rewrite E; eauto). cbn [orb].
    destruct (registered_build t (match u with
      | Some u => let u := trim u in if str_is_empty u then None else Some u
      | None => None end) b E) as [p Hp]. cbn zeta in Hp.
    rewrite Hp. done.
  - rewrite bool_decide_false by (rewrite <- registered_types, E; by intros []). cbn [orb].
    destruct u as [u|]; cbn; [|done]. by destruct (str_is_empty (trim u)).
Qed.
(** The same, of the registry's answer alone. *)
Lemma routable_build t u :
  is_ok (registry_build compatible (build_provider_registry compatible anthropic gemini) t u) =
  endpoint_is_routable t u.
Proof. apply routable_iff_buildable. Qed.
End Properties.
