(* ===== verification/Clients.v ===== *)
(** * Provider clients: wire formats and transport
    (src/crates/himadri-provider/src/compatible/provider.rs,
    anthropic/provider.rs, gemini/provider.rs, the response half of error.rs,
    http_client.rs)

    A client builds a request, sends it, and reads the answer. The HTTP library
    is an argument: [http_send] answers with the status, the headers and the
    ways to read the body, or fails with the text of the error. serde_json's
    parser and printer, and the derived [Deserialize] of the response types,
    are arguments too. A step that panics is [None]. The clock and the
    identifiers of a stream's chunks come by position. *)

From S2P Require Import Prelude Str Float Types Json Errors Sse Provider.
From Stdlib Require Import Ascii.

(** ** Transport settings *)

(** Durations in seconds; 0 disables a bound. *)
Record TransportConfig := {
  tp_max_idle_per_host : Z;
  tp_pool_idle_timeout : Z;
  tp_connect_timeout : Z;
  tp_request_timeout : Z;
  tp_read_timeout : Z;
  tp_tcp_keepalive : Z;
  tp_tcp_nodelay : bool;
}.

Definition transport_default : TransportConfig :=
  {| tp_max_idle_per_host := 100; tp_pool_idle_timeout := 90; tp_connect_timeout := 10;
     tp_request_timeout := 600; tp_read_timeout := 120; tp_tcp_keepalive := 60;
     tp_tcp_nodelay := true |}.

Definition transport_openai : TransportConfig :=
  {| tp_max_idle_per_host := 200; tp_pool_idle_timeout := 90; tp_connect_timeout := 10;
     tp_request_timeout := 600; tp_read_timeout := 120; tp_tcp_keepalive := 60;
     tp_tcp_nodelay := true |}.

Definition transport_anthropic : TransportConfig :=
  {| tp_max_idle_per_host := 150; tp_pool_idle_timeout := 90; tp_connect_timeout := 10;
     tp_request_timeout := 600; tp_read_timeout := 180; tp_tcp_keepalive := 60;
     tp_tcp_nodelay := true |}.

Definition transport_cloud_provider : TransportConfig :=
  {| tp_max_idle_per_host := 100; tp_pool_idle_timeout := 90; tp_connect_timeout := 15;
     tp_request_timeout := 600; tp_read_timeout := 180; tp_tcp_keepalive := 60;
     tp_tcp_nodelay := true |}.

Definition transport_streaming : TransportConfig :=
  {| tp_max_idle_per_host := 100; tp_pool_idle_timeout := 300; tp_connect_timeout := 10;
     tp_request_timeout := 0; tp_read_timeout := 300; tp_tcp_keepalive := 60;
     tp_tcp_nodelay := true |}.

Definition transport_local : TransportConfig :=
  {| tp_max_idle_per_host := 20; tp_pool_idle_timeout := 30; tp_connect_timeout := 5;
     tp_request_timeout := 600; tp_read_timeout := 120; tp_tcp_keepalive := 30;
     tp_tcp_nodelay := true |}.

(** The configuration [build_provider_client] chooses. *)
Definition provider_transport (provider : string) : TransportConfig :=
  if bool_decide (provider ∈ ["openai"; "azure-openai"; "azure"]) then transport_openai
  else if bool_decide (provider = "anthropic") then transport_anthropic
  else if bool_decide (provider ∈ ["bedrock"; "vertex"]) then transport_cloud_provider
  else if bool_decide (provider = "ollama") then transport_local
  else if bool_decide (provider ∈ ["openrouter"; "together"; "groq"; "fireworks"; "deepinfra";
                                   "cerebras"; "novita"]) then transport_openai
  else transport_default.

(** ** Requests and responses of the HTTP library *)

Record HttpRequest := {
  http_transport : TransportConfig;
  http_url : string;
  http_headers : list (string * string);
  http_body : Value;
}.

Record HttpResponse := {
  http_status : Z;
  http_retry_after : option string;
  http_text : result string string;
  http_json : result Value string;
  http_chunks : list (result string string);
}.

Definition is_success (status : Z) : bool := (200 <=? status) && (status <? 300).

(** [x as u32] *)
Definition as_u32 (x : Z) : Z := wrap_u32 x.

(** [map[k].as_u64().unwrap_or(0) as u32]: the panic is a missing key. *)
Definition map_u32 (k : string) (m : list (string * Value)) : option Z :=
  (fun v => as_u32 (default 0 (value_as_u64 v))) <$> object_get k m.

(** [tool_calls: []] is [None]. *)
Definition normalize_tool_calls {T} (tool_calls : option (list T)) : option (list T) :=
  match tool_calls with Some [] => None | t => t end.

(** A list of computations that may panic. *)
Fixpoint sequence {A} (l : list (option A)) : option (list A) :=
  match l with
  | [] => Some []
  | x :: l => a ← x; r ← sequence l; Some (a :: r)
  end.

Section Clients.
Context {W : Type} (http_send : HttpRequest -> W -> result HttpResponse string * W).
Context (json_from_str : string -> result Value string) (json_to_string : Value -> string).
Context (response_from_value : Value -> result ChatCompletionResponse string).
Context (chunk_from_str : string -> result StreamChunk string).
Context (embedding_from_value : Value -> result EmbeddingResponse string).
Context (now_secs : W -> Z) (uuid : W -> string * W).
(** The order in which a [HashMap] yields its entries. *)
Context (hash_order : gmap string Value -> list (string * Value)).

(** ** Unsuccessful responses *)

Definition from_response (response : HttpResponse) (auth_statuses : list Z)
    (extract_message : Value -> option string) : ProviderError :=
  let retry_after_secs := http_retry_after response ≫= (fun v => parse_u64 (trim v)) in
  let body := match http_text response with Ok t => t | Err _ => "" end in
  let message :=
    default body (match json_from_str body with Ok v => extract_message v | Err _ => None end) in
  from_response_status (http_status response) retry_after_secs auth_statuses message.

(** The closure of [from_openai_response], which Gemini's [handle_error] repeats. *)
Definition error_message (v : Value) : option string :=
  match value_as_str (value_index "message" (value_index "error" v)) with
  | Some m => Some m
  | None => value_as_str (value_index "message" v)
  end.

Definition from_openai_response (response : HttpResponse) : ProviderError :=
  from_response response [401] error_message.

(** [send().await?], then the check of the status. *)
Definition send_checked (handle_error : HttpResponse -> ProviderError) (request : HttpRequest) (w : W)
    : result HttpResponse ProviderError * W :=
  let '(r, w) := http_send request w in
  (match r with
   | Err e => Err (PNetwork e)
   | Ok response =>
       if is_success (http_status response) then Ok response else Err (handle_error response)
   end, w).

(** ** The OpenAI-compatible client *)

Section Compatible.
Context (config : OpenAiCompatibleConfig).

Definition compatible_request_body (request : ChatCompletionRequest) (stream : bool) : Value :=
  let body := value_set "stream" (VBool stream) (request_value request) in
  if stream then value_set "stream_options" (json_object [("include_usage", VBool true)]) body
  else body.

Definition compatible_parse_response (response : Value)
    : result ChatCompletionResponse ProviderError :=
  let? parsed :=
    map_err (fun e => PParse ("malformed provider response: " +:+ e)) (response_from_value response) in
  Ok {| resp_id := resp_id parsed; resp_object := "chat.completion";
        resp_created := resp_created parsed; resp_model := resp_model parsed;
        resp_choices :=
          (fun c => {| choice_index := choice_index c;
                       choice_message :=
                         {| rm_role := rm_role (choice_message c);
                            rm_content := rm_content (choice_message c);
                            rm_tool_calls := normalize_tool_calls (rm_tool_calls (choice_message c)) |};
                       choice_finish_reason := choice_finish_reason c |}) <$> resp_choices parsed;
        resp_usage := resp_usage parsed;
        resp_system_fingerprint := resp_system_fingerprint parsed |}.

Definition compatible_parse_stream_chunk (data : string) : result StreamChunk ProviderError :=
  let? chunk := map_err (fun e => PParse ("malformed stream chunk: " +:+ e)) (chunk_from_str data) in
  Ok {| chunk_id := chunk_id chunk; chunk_object := "chat.completion.chunk";
        chunk_created := chunk_created chunk; chunk_model := chunk_model chunk;
        chunk_choices :=
          (fun c => {| sc_index := sc_index c;
                       sc_delta :=
                         {| delta_role := delta_role (sc_delta c);
                            delta_content := delta_content (sc_delta c);
                            delta_tool_calls := normalize_tool_calls (delta_tool_calls (sc_delta c)) |};
                       sc_finish_reason := sc_finish_reason c |}) <$> chunk_choices chunk;
        chunk_usage := chunk_usage chunk;
        chunk_system_fingerprint := chunk_system_fingerprint chunk |}.

Definition compatible_http (transport : TransportConfig) (url api_key : string) (body : Value)
    (streaming : bool) : HttpRequest :=
  {| http_transport := transport; http_url := url;
     http_headers :=
       ([build_auth_header config api_key; ("Content-Type", "application/json")] ++
        (if streaming then [("Accept", "text/event-stream")] else []) ++
        oc_extra_headers config)%list;
     http_body := body |}.

Definition compatible_send (transport : TransportConfig) (url api_key : string) (body : Value)
    (streaming : bool) (w : W) : result HttpResponse ProviderError * W :=
  send_checked from_openai_response (compatible_http transport url api_key body streaming) w.

Definition compatible_complete (request : ChatCompletionRequest) (api_key : string) (w : W)
    : result ChatCompletionResponse ProviderError * W :=
  let '(r, w) := compatible_send (provider_transport (oc_name config)) (get_url config) api_key
                   (compatible_request_body request false) false w in
  (let? response := r in
   let? body := map_err PNetwork (http_json response) in
   compatible_parse_response body, w).

Definition compatible_complete_stream (request : ChatCompletionRequest) (api_key : string) (w : W)
    : result (list (result StreamChunk ProviderError)) ProviderError * W :=
  let '(r, w) := compatible_send transport_streaming (get_url config) api_key
                   (compatible_request_body request true) true w in
  (let? response := r in
   Ok ((fun event => let? event := event in compatible_parse_stream_chunk (sse_data event)) <$>
         sse_events (http_chunks response)), w).

Definition compatible_embed (request : EmbeddingRequest) (api_key : string) (w : W)
    : result EmbeddingResponse ProviderError * W :=
  let '(r, w) := compatible_send (provider_transport (oc_name config)) (get_embeddings_url config)
                   api_key (embedding_request_value hash_order request) false w in
  (let? response := r in
   map_err PParse (let? body := http_json response in embedding_from_value body), w).

Definition OpenAiCompatibleProvider : Provider W (list (result StreamChunk ProviderError)) :=
  {| prov_name := oc_name config; prov_display_name := oc_display_name config;
     prov_supported_models := oc_models config;
     prov_complete := compatible_complete; prov_complete_stream := compatible_complete_stream;
     prov_embed := compatible_embed |}.
End Compatible.

(** ** The Anthropic client *)

Definition anthropic_finish_reason (reason : string) : string :=
  if decide (reason = "end_turn") then "stop"
  else if decide (reason = "max_tokens") then "length"
  else if decide (reason = "tool_use") then "tool_calls"
  else reason.

Definition default_delta : Delta :=
  {| delta_role := None; delta_content := None; delta_tool_calls := None |}.

(** [stream_chunk(delta, finish_reason, usage)], with the id and model a
    [message_start] puts in. *)
Definition stream_chunk (created : Z) (id model : string) (delta : Delta)
    (finish_reason : option string) (usage : option Usage) : StreamChunk :=
  {| chunk_id := id; chunk_object := "chat.completion.chunk"; chunk_created := created;
     chunk_model := model;
     chunk_choices := [{| sc_index := 0; sc_delta := delta; sc_finish_reason := finish_reason |}];
     chunk_usage := usage; chunk_system_fingerprint := None |}.

Definition anthropic_base_url (base_url : option string) : string :=
  default "https://api.anthropic.com/v1" base_url.

(** The loop over the messages: the system prompt, the others. *)
Definition anthropic_message (m : Message) : Value :=
  json_object
    [("role", VString match msg_role m with User => "user" | Assistant => "assistant" | _ => "user" end);
     ("content", VString (default "" (flat_text <$> msg_content m)))].

Definition anthropic_messages (ms : list Message) : option string * list Value :=
  foldl (fun '(system, messages) m =>
    match msg_role m with
    | System =>
        (match msg_content m with Some content => as_text content | None => system end, messages)
    | _ => (system, (messages ++ [anthropic_message m])%list)
    end) (None, []) ms.

Definition anthropic_tool_choice (choice : Value) : option Value :=
  match choice with
  | VString s =>
      if decide (s = "auto") then Some (json_object [("type", VString "auto")])
      else if decide (s = "required") then Some (json_object [("type", VString "any")])
      else if decide (s = "none") then Some (json_object [("type", VString "none")])
      else None
  | VObject obj =>
      f ← object_get "function" obj;
      name ← value_get "name" f;
      n ← value_as_str name;
      Some (json_object [("type", VString "tool"); ("name", VString n)])
  | _ => None
  end.

Definition anthropic_tool (t : Tool) : Value :=
  json_object
    [("name", VString (tf_name (tool_function t)));
     ("description", opt_value VString (tf_description (tool_function t)));
     ("input_schema", default (json_object [("type", VString "object")]) (tf_parameters (tool_function t)))].

(** [if let Some(x) = o { body[k] = f(x) }] *)
Definition set_opt {A} (k : string) (f : A -> Value) (o : option A) (body : Value) : Value :=
  match o with Some x => value_set k (f x) body | None => body end.

Definition anthropic_request_body (request : ChatCompletionRequest) (stream : bool) : Value :=
  let '(system, messages) := anthropic_messages (req_messages request) in
  let body := json_object
    [("model", VString (req_model request)); ("messages", VArray messages);
     ("stream", VBool stream); ("max_tokens", u32_value (default 4096 (req_max_tokens request)))] in
  let body := set_opt "system" VString system body in
  let body := set_opt "temperature" f32_value (req_temperature request) body in
  let body := set_opt "top_p" f32_value (req_top_p request) body in
  let body := set_opt "stop_sequences" (fun l => VArray (VString <$> l)) (req_stop request) body in
  match req_tools request with
  | Some tools =>
      let body := value_set "tools" (VArray (anthropic_tool <$> tools)) body in
      set_opt "tool_choice" id (req_tool_choice request ≫= anthropic_tool_choice) body
  | None => body
  end.

(** [.filter(|v| !v.is_empty())] *)
Definition nonempty {A} (l : list A) : option (list A) := match l with [] => None | _ => Some l end.

Definition str_or_empty (v : Value) : string := default "" (value_as_str v).

Definition anthropic_text (blocks : list Value) : string :=
  join "" (omap (fun c => value_as_str (value_index "text" c))
    (List.filter (fun c => value_is "text" (value_index "type" c)) blocks)).

Definition anthropic_tool_call (c : Value) : ToolCall :=
  {| tc_id := str_or_empty (value_index "id" c); tc_tool_type := "function";
     tc_function := {| fc_name := str_or_empty (value_index "name" c);
                       fc_arguments := json_to_string (value_index "input" c) |} |}.

Definition anthropic_tool_calls (blocks : list Value) : list ToolCall :=
  anthropic_tool_call <$> List.filter (fun c => value_is "tool_use" (value_index "type" c)) blocks.

(** An object's usage, or the panic of a missing key. *)
Definition anthropic_usage (u : list (string * Value)) : option Usage :=
  input ← map_u32 "input_tokens" u;
  output ← map_u32 "output_tokens" u;
  Some {| usage_prompt_tokens := input; usage_completion_tokens := output;
          usage_total_tokens := wrap_u32 (input + output) |}.

(** [o.map(f)] for an [f] that may panic. *)
Definition map_or_panic {A B} (f : A -> option B) (o : option A) : option (option B) :=
  match o with Some x => Some <$> f x | None => Some None end.

Definition anthropic_parse_response (created : Z) (response : Value)
    : option (result ChatCompletionResponse ProviderError) :=
  let blocks := value_as_array (value_index "content" response) in
  usage ← map_or_panic anthropic_usage (value_as_object (value_index "usage" response));
  Some (Ok
    {| resp_id := str_or_empty (value_index "id" response); resp_object := "chat.completion";
       resp_created := created; resp_model := str_or_empty (value_index "model" response);
       resp_choices :=
         [{| choice_index := 0;
             choice_message :=
               {| rm_role := Assistant;
                  rm_content := blocks ≫= (fun b => nonempty_text (anthropic_text b));
                  rm_tool_calls := blocks ≫= (fun b => nonempty (anthropic_tool_calls b)) |};
             choice_finish_reason :=
               anthropic_finish_reason <$> value_as_str (value_index "stop_reason" response) |}];
       resp_usage := usage; resp_system_fingerprint := None |}).

(** An event: the chunk it yields, if any, and the prompt tokens stashed. *)
Definition anthropic_stream_event (created : Z) (event_type : string) (data : Value)
    (input_tokens : Z) : option (option StreamChunk * Z) :=
  if decide (event_type = "message_start") then
    let message := value_index "message" data in
    let input_tokens :=
      as_u32 (default 0 (value_as_u64 (value_index "input_tokens" (value_index "usage" message)))) in
    Some (Some (stream_chunk created (str_or_empty (value_index "id" message))
                  (str_or_empty (value_index "model" message))
                  {| delta_role := Some Assistant; delta_content := None; delta_tool_calls := None |}
                  None None), input_tokens)
  else if decide (event_type = "content_block_delta") then
    let text := str_or_empty (value_index "text" (value_index "delta" data)) in
    Some (Some (stream_chunk created "" ""
                  {| delta_role := None; delta_content := nonempty_text text;
                     delta_tool_calls := None |} None None), input_tokens)
  else if decide (event_type = "message_delta") then
    let stop_reason := anthropic_finish_reason <$>
      value_as_str (value_index "stop_reason" (value_index "delta" data)) in
    usage ← map_or_panic (fun u =>
      output ← map_u32 "output_tokens" u;
      Some {| usage_prompt_tokens := input_tokens; usage_completion_tokens := output;
              usage_total_tokens := wrap_u32 (input_tokens + output) |})
      (value_as_object (value_index "usage" data));
    Some (Some (stream_chunk created "" "" default_delta stop_reason usage), input_tokens)
  else Some (None, input_tokens).

(** The [filter_map] over the server's events; [created k] is the clock at the
    [k]-th of them. A panic ends the stream: [None] after the items before it. *)
Fixpoint anthropic_stream (created : nat -> Z) (input_tokens : Z)
    (events : list (result SseEvent ProviderError))
    : list (option (result StreamChunk ProviderError)) :=
  match events with
  | [] => []
  | Err e :: events => Some (Err e) :: anthropic_stream (fun k => created (S k)) input_tokens events
  | Ok event :: events =>
      match json_from_str (sse_data event) with
      | Err _ => anthropic_stream (fun k => created (S k)) input_tokens events
      | Ok data =>
          match anthropic_stream_event (created 0%nat) (default "" (sse_event event)) data input_tokens with
          | None => [None]
          | Some (chunk, input_tokens) =>
              (option_list ((fun c => Some (Ok c)) <$> chunk) ++
               anthropic_stream (fun k => created (S k)) input_tokens events)%list
          end
      end
  end.

Definition anthropic_http (base_url api_key : string) (streaming : bool) (body : Value) : HttpRequest :=
  {| http_transport := if streaming then transport_streaming else provider_transport "anthropic";
     http_url := base_url +:+ "/messages";
     http_headers :=
       ([("x-api-key", api_key); ("anthropic-version", "2023-06-01");
         ("Content-Type", "application/json")] ++
        if streaming then [("Accept", "text/event-stream")] else [])%list;
     http_body := body |}.

Definition anthropic_complete (base_url : string) (request : ChatCompletionRequest) (api_key : string)
    (w : W) : option (result ChatCompletionResponse ProviderError) * W :=
  let '(r, w) := send_checked from_openai_response
    (anthropic_http base_url api_key false (anthropic_request_body request false)) w in
  match (let? response := r in map_err PNetwork (http_json response)) with
  | Err e => (Some (Err e), w)
  | Ok body => (anthropic_parse_response (now_secs w) body, w)
  end.

Definition anthropic_complete_stream (created : nat -> Z) (base_url : string)
    (request : ChatCompletionRequest) (api_key : string) (w : W)
    : result (list (option (result StreamChunk ProviderError))) ProviderError * W :=
  let '(r, w) := send_checked from_openai_response
    (anthropic_http base_url api_key true (anthropic_request_body request true)) w in
  (let? response := r in
   Ok (anthropic_stream created 0 (sse_events (http_chunks response))), w).

Definition anthropic_models : list string :=
  ["claude-3-5-sonnet-20241022"; "claude-3-5-haiku-20241022"; "claude-3-opus-20240229";
   "claude-3-sonnet-20240229"; "claude-3-haiku-20240307"].

(** ** The Gemini client *)

Definition gemini_finish_reason (reason : string) : string :=
  if decide (reason = "STOP") then "stop"
  else if decide (reason = "MAX_TOKENS") then "length"
  else reason.

Definition gemini_base_url (base_url : option string) : string :=
  default "https://generativelanguage.googleapis.com/v1beta" base_url.

Definition gemini_parts (text : string) : Value :=
  VArray [json_object [("text", VString text)]].

Definition gemini_content (m : Message) : option Value :=
  role ← match msg_role m with
         | System => None | User => Some "user" | Assistant => Some "model" | RoleTool => Some "user"
         end;
  content ← msg_content m;
  Some (json_object [("role", VString role); ("parts", gemini_parts (flat_text content))]).

Definition gemini_system (ms : list Message) : option Value :=
  m ← List.find (fun m => bool_decide (msg_role m = System)) ms;
  content ← msg_content m;
  text ← as_text content;
  Some (json_object [("parts", gemini_parts text)]).

Definition gemini_generation_config (request : ChatCompletionRequest) : Value :=
  set_opt "stopSequences" (fun l => VArray (VString <$> l)) (req_stop request)
    (set_opt "maxOutputTokens" u32_value (req_max_tokens request)
      (set_opt "topP" f32_value (req_top_p request)
        (set_opt "temperature" f32_value (req_temperature request) (json_object [])))).

Definition gemini_tool (t : Tool) : Value :=
  set_opt "parameters" id (tf_parameters (tool_function t))
    (set_opt "description" VString (tf_description (tool_function t))
      (json_object [("name", VString (tf_name (tool_function t)))])).

Definition gemini_tool_choice_mode (choice : Value) : option string :=
  match choice with
  | VString s =>
      if decide (s = "auto") then Some "AUTO"
      else if decide (s = "required") then Some "ANY"
      else if decide (s = "none") then Some "NONE"
      else None
  | VObject _ => Some "ANY"
  | _ => None
  end.

Definition gemini_request_body (request : ChatCompletionRequest) : Value :=
  let body := json_object
    [("contents", VArray (omap gemini_content (req_messages request)));
     ("generationConfig", gemini_generation_config request)] in
  let body := set_opt "systemInstruction" id (gemini_system (req_messages request)) body in
  match req_tools request with
  | Some tools =>
      let body := value_set "tools"
        (VArray [json_object [("functionDeclarations", VArray (gemini_tool <$> tools))]]) body in
      set_opt "toolConfig"
        (fun mode => json_object
          [("functionCallingConfig", json_object [("mode", VString mode)])])
        (req_tool_choice request ≫= gemini_tool_choice_mode) body
  | None => body
  end.

Definition gemini_usage (u : list (string * Value)) : option Usage :=
  prompt ← map_u32 "promptTokenCount" u;
  completion ← map_u32 "candidatesTokenCount" u;
  total ← map_u32 "totalTokenCount" u;
  Some {| usage_prompt_tokens := prompt; usage_completion_tokens := completion;
          usage_total_tokens := total |}.

(** The calls of the parts, each with a fresh identifier. *)
Fixpoint gemini_tool_calls (calls : list Value) (w : W) : list ToolCall * W :=
  match calls with
  | [] => ([], w)
  | fc :: calls =>
      let '(id, w) := uuid w in
      let '(rest, w) := gemini_tool_calls calls w in
      ({| tc_id := "call-" +:+ id; tc_tool_type := "function";
          tc_function := {| fc_name := str_or_empty (value_index "name" fc);
                            fc_arguments := json_to_string (value_index "args" fc) |} |} :: rest, w)
  end.

Definition first_candidate (response : Value) : option Value :=
  value_as_array (value_index "candidates" response) ≫= head.

Definition gemini_parse_response (response : Value) (model : string) (w : W)
    : option (result ChatCompletionResponse ProviderError) * W :=
  match first_candidate response with
  | None => (Some (Err (PInternal "No candidates in response")), w)
  | Some candidate =>
      let parts := value_as_array (value_index "parts" (value_index "content" candidate)) in
      let content := parts ≫= (fun l =>
        nonempty_text (join "" (omap (fun p => value_as_str (value_index "text" p)) l))) in
      let '(calls, w) := gemini_tool_calls (omap (value_get "functionCall") (default [] parts)) w in
      match map_or_panic gemini_usage (value_as_object (value_index "usageMetadata" response)) with
      | None => (None, w)
      | Some usage =>
          let '(id, w) := uuid w in
          (Some (Ok
             {| resp_id := "gemini-" +:+ id; resp_object := "chat.completion";
                resp_created := now_secs w; resp_model := model;
                resp_choices :=
                  [{| choice_index := 0;
                      choice_message :=
                        {| rm_role := Assistant; rm_content := content;
                           rm_tool_calls := nonempty calls |};
                      choice_finish_reason :=
                        gemini_finish_reason <$> value_as_str (value_index "finishReason" candidate) |}];
                resp_usage := usage; resp_system_fingerprint := None |}), w)
      end
  end.

Definition gemini_parse_stream_chunk (id : string) (created : Z) (chunk : Value) (model : string)
    : option StreamChunk :=
  let candidate := first_candidate chunk in
  let content := c ← candidate;
    parts ← value_as_array (value_index "parts" (value_index "content" c));
    p ← head parts; value_as_str (value_index "text" p) in
  let finish_reason := c ← candidate;
    gemini_finish_reason <$> value_as_str (value_index "finishReason" c) in
  usage ← map_or_panic gemini_usage (value_as_object (value_index "usageMetadata" chunk));
  Some {| chunk_id := "gemini-" +:+ id; chunk_object := "chat.completion.chunk";
          chunk_created := created; chunk_model := model;
          chunk_choices :=
            [{| sc_index := 0;
                sc_delta := {| delta_role := None; delta_content := content; delta_tool_calls := None |};
                sc_finish_reason := finish_reason |}];
          chunk_usage := usage; chunk_system_fingerprint := None |}.

(** What one server event fans out into. *)
Definition gemini_event (id : nat -> string) (created : nat -> Z) (model : string)
    (event : result SseEvent ProviderError) : option (list (result StreamChunk ProviderError)) :=
  match event with
  | Err e => Some [Err e]
  | Ok event =>
      match json_from_str (sse_data event) with
      | Err e => Some [Err (PParse e)]
      | Ok chunk =>
          match value_as_array (value_index "candidates" chunk) with
          | None => Some []
          | Some candidates =>
              sequence (imap (fun k candidate =>
                Ok <$> gemini_parse_stream_chunk (id k) (created k)
                  (json_object [("candidates", VArray [candidate]);
                                ("usageMetadata", value_index "usageMetadata" chunk)]) model)
                candidates)
          end
      end
  end.

(** The [flat_map] over the events: [id i k] and [created i k] are drawn for the
    [k]-th candidate of the [i]-th event. *)
Fixpoint gemini_stream (id : nat -> nat -> string) (created : nat -> nat -> Z) (model : string)
    (events : list (result SseEvent ProviderError))
    : list (option (result StreamChunk ProviderError)) :=
  match events with
  | [] => []
  | event :: events =>
      match gemini_event (id 0%nat) (created 0%nat) model event with
      | None => [None]
      | Some items =>
          ((Some <$> items) ++
           gemini_stream (fun i => id (S i)) (fun i => created (S i)) model events)%list
      end
  end.

Definition gemini_handle_error (response : HttpResponse) : ProviderError :=
  from_response response [401; 403] error_message.

Definition gemini_http (base_url api_key model : string) (streaming : bool) (body : Value) : HttpRequest :=
  {| http_transport := if streaming then transport_streaming else provider_transport "gemini";
     http_url := base_url +:+ "/models/" +:+ model +:+
       (if streaming then ":streamGenerateContent?alt=sse" else ":generateContent");
     http_headers :=
       ([("Content-Type", "application/json"); ("x-goog-api-key", api_key)] ++
        if streaming then [("Accept", "text/event-stream")] else [])%list;
     http_body := body |}.

Definition gemini_complete (base_url : string) (request : ChatCompletionRequest) (api_key : string)
    (w : W) : option (result ChatCompletionResponse ProviderError) * W :=
  let '(r, w) := send_checked gemini_handle_error
    (gemini_http base_url api_key (req_model request) false (gemini_request_body request)) w in
  match (let? response := r in map_err PNetwork (http_json response)) with
  | Err e => (Some (Err e), w)
  | Ok body => gemini_parse_response body (req_model request) w
  end.

(** [body["generationConfig"]["responseModalities"] = json!(["TEXT"])] *)
Definition gemini_stream_body (request : ChatCompletionRequest) : Value :=
  let body := gemini_request_body request in
  value_set "generationConfig"
    (value_set "responseModalities" (VArray [VString "TEXT"]) (value_index "generationConfig" body)) body.

Definition gemini_complete_stream (id : nat -> nat -> string) (created : nat -> nat -> Z)
    (base_url : string) (request : ChatCompletionRequest) (api_key : string) (w : W)
    : result (list (option (result StreamChunk ProviderError))) ProviderError * W :=
  let '(r, w) := send_checked gemini_handle_error
    (gemini_http base_url api_key (req_model request) true (gemini_stream_body request)) w in
  (let? response := r in
   Ok (gemini_stream id created (req_model request) (sse_events (http_chunks response))), w).

Definition gemini_models : list string :=
  ["gemini-2.0-flash"; "gemini-1.5-pro"; "gemini-1.5-flash"; "gemini-pro"].
End Clients.

(** ** Proofs *)

(** What a request says of its declared fields, but [stream], as JSON. *)
Definition request_fields (r : ChatCompletionRequest) : list (string * option Value) :=
  [("model", Some (VString (req_model r)));
   ("messages", Some (VArray (message_value <$> req_messages r)));
   ("temperature", f32_value <$> req_temperature r); ("top_p", f32_value <$> req_top_p r);
   ("max_tokens", u32_value <$> req_max_tokens r);
   ("stop", (fun l => VArray (VString <$> l)) <$> req_stop r);
   ("presence_penalty", f32_value <$> req_presence_penalty r);
   ("frequency_penalty", f32_value <$> req_frequency_penalty r);
   ("user", VString <$> req_user r);
   ("tools", (fun l => VArray (tool_value <$> l)) <$> req_tools r);
   ("tool_choice", req_tool_choice r)].

Fixpoint field_lookup (k : string) (fs : list (string * option Value)) : option Value :=
  match fs with
  | [] => None
  | (k', o) :: fs => if decide (k' = k) then o else field_lookup k fs
  end.

(** A field of the request under its name: a declared one, or a member of the
    passthrough map. *)
Definition request_field (r : ChatCompletionRequest) (k : string) : option Value :=
  match field_lookup k (request_fields r) with Some v => Some v | None => req_extra r !! k end.

Definition declared_fields : list string :=
  ["model"; "messages"; "temperature"; "top_p"; "max_tokens"; "stop"; "presence_penalty";
   "frequency_penalty"; "user"; "tools"; "tool_choice"].

Definition field_members (fs : list (string * option Value)) : list (string * Value) :=
  concat ((fun '(k, o) => opt_member k id o) <$> fs).

Lemma object_get_map_to_list (m : gmap string Value) k l :
  l ≡ₚ map_to_list m -> object_get k l = m !! k.
Proof.
  intros Hp. assert (NoDup l.*1) as Hnd by (rewrite Hp; apply NoDup_fst_map_to_list).
  destruct (m !! k) as [v|] eqn:Ek.
  - assert ((k, v) ∈ l) as Hin by (rewrite Hp; by apply elem_of_map_to_list).
    clear Hp Ek. induction l as [|[k' v'] l IH]; [by apply not_elem_of_nil in Hin|].
    cbn in Hnd |- *. apply NoDup_cons in Hnd as [Hk Hnd].
    apply elem_of_cons in Hin as [[= -> ->]|Hin]; [by rewrite decide_True|].
    case_decide as Hkk; [subst|by apply IH]. exfalso. apply Hk.
    apply list_elem_of_fmap. by exists (k, v).
  - assert (k ∉ l.*1) as Hnin.
    { intros ([k1 v1] & Heq & Hin)%list_elem_of_fmap. cbn in Heq. subst.
      rewrite Hp in Hin. apply elem_of_map_to_list in Hin. congruence. }
    clear Hp. induction l as [|[k' v'] l IH]; [done|]. cbn in *.
    apply not_elem_of_cons in Hnin as [Hne Hnin]. rewrite decide_False by done.
    apply IH; [by apply NoDup_cons in Hnd as [_ ?]|done].
Qed.

Lemma field_lookup_notin k fs : k ∉ fs.*1 -> field_lookup k fs = None.
Proof.
  induction fs as [|[k' o] fs IH]; cbn; [done|]. intros [Hk Hf]%not_elem_of_cons.
  by rewrite decide_False, IH.
Qed.

Lemma field_members_get k fs : NoDup fs.*1 ->
  object_get k (reverse (field_members fs)) = field_lookup k fs.
Proof.
  unfold field_members. induction fs as [|[k' o] fs IH];
    cbn [fmap list_fmap concat field_lookup fst]; [done|]. intros [Hk Hnd]%NoDup_cons.
  rewrite reverse_app, object_get_app, IH by done. destruct (decide (k' = k)) as [->|Hne].
  - rewrite field_lookup_notin by done. destruct o; cbn; by rewrite ?decide_True.
  - destruct (field_lookup k fs); [done|]. destruct o; cbn; by rewrite ?decide_False.
Qed.

Lemma request_value_members r :
  request_value r = VObject (foldl (fun l '(k, v) => object_insert k v l) []
    ([("model", VString (req_model r)); ("messages", VArray (message_value <$> req_messages r));
      ("stream", VBool (req_stream r))] ++ field_members (drop 2 (request_fields r)) ++
     map_to_list (req_extra r))%list).
Proof.
  unfold request_value, request_fields, field_members. cbn [drop fmap list_fmap concat].
  do 2 f_equal. rewrite app_nil_r, <- !app_assoc. f_equal.
  assert (forall A k (f : A -> Value) o, opt_member k f o = opt_member k id (f <$> o)) as Hopt
    by by intros ? ? ? [].
  rewrite (Hopt _ "temperature"), (Hopt _ "top_p"), (Hopt _ "max_tokens"), (Hopt _ "stop"),
    (Hopt _ "presence_penalty"), (Hopt _ "frequency_penalty"), (Hopt _ "user"), (Hopt _ "tools").
  done.
Qed.

Lemma request_value_get r k : k <> "stream" ->
  (forall d, d ∈ declared_fields -> req_extra r !! d = None) ->
  value_get k (request_value r) = request_field r k.
Proof.
  intros Hs Hd. rewrite request_value_members. cbn [value_get]. rewrite object_get_members.
  rewrite !reverse_app, !object_get_app, (object_get_map_to_list (req_extra r) k)
    by apply reverse_Permutation.
  rewrite field_members_get by (cbn; repeat constructor; set_solver).
  change (reverse [("model", VString (req_model r)); ("messages", VArray (message_value <$> req_messages r));
    ("stream", VBool (req_stream r))]) with [("stream", VBool (req_stream r));
    ("messages", VArray (message_value <$> req_messages r)); ("model", VString (req_model r))].
  unfold request_field. set (rest := drop 2 (request_fields r)).
  change (request_fields r) with (("model", Some (VString (req_model r))) ::
    ("messages", Some (VArray (message_value <$> req_messages r))) :: rest).
  cbn [object_get field_lookup].
  rewrite (decide_False _ _ (not_eq_sym Hs)).
  destruct (decide ("model" = k)) as [<-|Hm]; [by rewrite (Hd "model") by (by left)|].
  destruct (decide ("messages" = k)) as [<-|Hms]; [by rewrite (Hd "messages") by (by right; left)|].
  destruct (decide (k ∈ declared_fields)) as [Hk|Hk]; [rewrite (Hd k Hk); by repeat case_match|].
  rewrite field_lookup_notin; [by destruct (req_extra r !! k)|].
  intros Hin. apply Hk. unfold declared_fields. do 2 right. exact Hin.
Qed.


(** What an embedding request says of a name: its declared fields, then the extras. *)
Definition embedding_fields (r : EmbeddingRequest) : list (string * option Value) :=
  [("model", Some (VString (ereq_model r))); ("input", Some (input_value (ereq_input r)));
   ("encoding_format", VString <$> ereq_encoding_format r); ("dimensions", u32_value <$> ereq_dimensions r);
   ("user", VString <$> ereq_user r)].

Lemma object_get_field_members k fs : NoDup fs.*1 -> object_get k (field_members fs) = field_lookup k fs.
Proof.
  unfold field_members. induction fs as [|[k' o] fs IH]; cbn [fmap list_fmap concat field_lookup fst]; [done|].
  intros [Hk Hnd]%NoDup_cons. rewrite object_get_app, IH by done. destruct (decide (k' = k)) as [->|Hne].
  - rewrite field_lookup_notin by done. destruct o; cbn; by rewrite ?decide_True.
  - destruct o; cbn; by rewrite ?decide_False.
Qed.

(** The body of an embedding request, whatever the order of its extras: every field
    of the client's request under its own name, and nothing else. *)
Theorem embedding_body_forwards hash_order r k :
  hash_order (ereq_extra r) ≡ₚ map_to_list (ereq_extra r) ->
  value_get k (embedding_request_value hash_order r) =
    match field_lookup k (embedding_fields r) with Some v => Some v | None => ereq_extra r !! k end.
Proof.
  intros Hp. unfold embedding_request_value. cbn [value_get].
  rewrite <- (object_get_map_to_list (ereq_extra r) k _ Hp),
    <- (object_get_field_members k (embedding_fields r)) by (cbn; repeat constructor; set_solver).
  rewrite <- object_get_app. f_equal. unfold field_members, embedding_fields.
  cbn [fmap list_fmap concat]. rewrite app_nil_r, <- !app_assoc.
  by destruct (ereq_encoding_format r), (ereq_dimensions r), (ereq_user r).
Qed.

Lemma map_u32_none k u : map_u32 k u = None <-> object_get k u = None.
Proof. unfold map_u32. by destruct (object_get k u). Qed.

Lemma map_or_panic_none {A B} (f : A -> option B) o :
  map_or_panic f o = None <-> exists x, o = Some x /\ f x = None.
Proof.
  destruct o as [x|]; cbn; [|naive_solver]. destruct (f x) eqn:E; cbn; [|naive_solver].
  split; [done|]. intros (y & [= <-] & Hy). congruence.
Qed.

Lemma as_object_some v u : value_as_object v = Some u <-> v = VObject u.
Proof. destruct v; cbn; naive_solver. Qed.

(** Members of an object among which one is missing. *)
Definition lacks (keys : list string) (u : list (string * Value)) : Prop :=
  exists k, k ∈ keys /\ object_get k u = None.

Lemma anthropic_usage_none u :
  anthropic_usage u = None <-> lacks ["input_tokens"; "output_tokens"] u.
Proof.
  unfold anthropic_usage, lacks, map_u32.
  destruct (object_get "input_tokens" u) eqn:E1; cbn.
  2: { split; [|done]. intros _. exists "input_tokens". split; [by left|done]. }
  destruct (object_get "output_tokens" u) eqn:E2; cbn.
  2: { split; [|done]. intros _. exists "output_tokens". split; [by right; left|done]. }
  split; [done|]. intros (k & Hk & Hn).
  repeat (apply elem_of_cons in Hk as [->|Hk]; [congruence|]). by apply not_elem_of_nil in Hk.
Qed.

Lemma gemini_usage_none u :
  gemini_usage u = None <-> lacks ["promptTokenCount"; "candidatesTokenCount"; "totalTokenCount"] u.
Proof.
  unfold gemini_usage, lacks, map_u32.
  destruct (object_get "promptTokenCount" u) eqn:E1; cbn.
  2: { split; [|done]. intros _. exists "promptTokenCount". split; [by left|done]. }
  destruct (object_get "candidatesTokenCount" u) eqn:E2; cbn.
  2: { split; [|done]. intros _. exists "candidatesTokenCount". split; [by right; left|done]. }
  destruct (object_get "totalTokenCount" u) eqn:E3; cbn.
  2: { split; [|done]. intros _. exists "totalTokenCount". split; [by right; right; left|done]. }
  split; [done|]. intros (k & Hk & Hn).
  repeat (apply elem_of_cons in Hk as [->|Hk]; [congruence|]). by apply not_elem_of_nil in Hk.
Qed.

(** A provider's usage counts can panic the request. Reading an answer panics
    exactly when it reports usage with one of the expected counts left out:
    the two of Anthropic, or the three of Gemini once there is a candidate. *)
Theorem missing_count_panics json_to_string {W} (now_secs : W -> Z) (uuid : W -> string * W)
    created response model w :
  (anthropic_parse_response json_to_string created response = None <->
     exists u, value_index "usage" response = VObject u /\
       lacks ["input_tokens"; "output_tokens"] u) /\
  ((gemini_parse_response json_to_string now_secs uuid response model w).1 = None <->
     is_Some (first_candidate response) /\
     exists u, value_index "usageMetadata" response = VObject u /\
       lacks ["promptTokenCount"; "candidatesTokenCount"; "totalTokenCount"] u).
Proof.
  split.
  - unfold anthropic_parse_response.
    pose proof (map_or_panic_none anthropic_usage (value_as_object (value_index "usage" response))) as Hn.
    setoid_rewrite as_object_some in Hn. setoid_rewrite anthropic_usage_none in Hn. rewrite <- Hn.
    by destruct (map_or_panic anthropic_usage _).
  - unfold gemini_parse_response. destruct (first_candidate response) as [c|].
    2: { cbn. split; [done|]. by intros [[] _]. }
    destruct (gemini_tool_calls _ _ _ _) as [calls w1].
    pose proof (map_or_panic_none gemini_usage
      (value_as_object (value_index "usageMetadata" response))) as Hn.
    setoid_rewrite as_object_some in Hn. setoid_rewrite gemini_usage_none in Hn.
    destruct (map_or_panic gemini_usage _) as [usage|].
    + destruct (uuid w1) as [id w2]. cbn. split; [done|]. intros [_ H]. by apply Hn in H.
    + cbn. split; [|done]. intros _. split; [eauto|]. by apply Hn.
Qed.

(** A message as Anthropic and Gemini are told of it. *)
Definition forget_tools (m : Message) : Message :=
  {| msg_role := match msg_role m with RoleTool => User | r => r end;
     msg_content := msg_content m; msg_name := None; msg_tool_calls := None;
     msg_tool_call_id := None |}.

Definition forget_request (r : ChatCompletionRequest) : ChatCompletionRequest :=
  {| req_model := req_model r; req_messages := forget_tools <$> req_messages r;
     req_stream := req_stream r; req_temperature := req_temperature r; req_top_p := req_top_p r;
     req_max_tokens := req_max_tokens r; req_stop := req_stop r;
     req_presence_penalty := None; req_frequency_penalty := None; req_user := None;
     req_tools := req_tools r; req_tool_choice := req_tool_choice r; req_extra := ∅ |}.

Lemma anthropic_messages_forget ms : anthropic_messages (forget_tools <$> ms) = anthropic_messages ms.
Proof.
  unfold anthropic_messages. generalize (None : option string, [] : list Value) as acc.
  induction ms as [|m ms IH]; intros [sys out]; [done|]. cbn [fmap list_fmap foldl].
  change (list_fmap Message Message forget_tools ms) with (forget_tools <$> ms). rewrite IH. f_equal.
  by destruct m as [[] c n tc ti].
Qed.

Lemma gemini_content_forget (ms : list Message) : omap gemini_content (forget_tools <$> ms) = omap gemini_content ms.
Proof.
  assert (forall m l, omap gemini_content (m :: l) =
    (option_list (gemini_content m) ++ omap gemini_content l)%list) as Hcons
    by (intros m l; cbn; by destruct (gemini_content m)).
  induction ms as [|m ms IH]; [done|]. rewrite fmap_cons, !Hcons, IH.
  by destruct m as [[] c n tc ti].
Qed.

Lemma gemini_system_forget ms : gemini_system (forget_tools <$> ms) = gemini_system ms.
Proof. unfold gemini_system. induction ms as [|[[] c n tc ti] ms IH]; [done|..|done]; apply IH || done. Qed.

(** Anthropic and Gemini never see the tool calls of a conversation: the
    body sent is that of the request with every tool call and its identifier
    removed and every tool result turned into a user message, and with the
    passthrough parameters removed. *)
Theorem tool_history_dropped r stream :
  anthropic_request_body (forget_request r) stream = anthropic_request_body r stream /\
  gemini_request_body (forget_request r) = gemini_request_body r /\
  gemini_stream_body (forget_request r) = gemini_stream_body r.
Proof.
  assert (gemini_request_body (forget_request r) = gemini_request_body r) as Hg.
  { unfold gemini_request_body, forget_request, gemini_generation_config.
    cbn [req_messages req_tools req_tool_choice req_temperature req_top_p req_max_tokens req_stop].
    by rewrite gemini_content_forget, gemini_system_forget. }
  split_and!; [|done|].
  - unfold anthropic_request_body. cbn [req_messages forget_request].
    by rewrite anthropic_messages_forget.
  - unfold gemini_stream_body. by rewrite Hg.
Qed.

(** The prompt tokens of the last [message_start] among the events. *)
Definition prompt_tokens_of (data : Value) : Z :=
  as_u32 (default 0 (value_as_u64
    (value_index "input_tokens" (value_index "usage" (value_index "message" data))))).

Fixpoint prompt_tokens (json_from_str : string -> result Value string) (input_tokens : Z)
    (events : list (result SseEvent ProviderError)) : Z :=
  match events with
  | [] => input_tokens
  | Ok event :: events =>
      match json_from_str (sse_data event) with
      | Ok data =>
          prompt_tokens json_from_str
            (if decide (sse_event event = Some "message_start") then prompt_tokens_of data
             else input_tokens) events
      | Err _ => prompt_tokens json_from_str input_tokens events
      end
  | Err _ :: events => prompt_tokens json_from_str input_tokens events
  end.

Lemma anthropic_event_tokens created ev data t chunk t' :
  anthropic_stream_event created (default "" ev) data t = Some (chunk, t') ->
  t' = if decide (ev = Some "message_start") then prompt_tokens_of data else t.
Proof.
  unfold anthropic_stream_event. destruct (decide (ev = Some "message_start")) as [->|Hs].
  - rewrite decide_True by done. by intros [= _ <-].
  - assert (default "" ev <> "message_start") by (destruct ev; cbn; congruence).
    rewrite decide_False by done. case_decide; [by intros [= _ <-]|].
    case_decide; [|by intros [= _ <-]].
    destruct (map_or_panic _ _); cbn; [|done]. by intros [= _ <-].
Qed.

(** The prompt tokens that Anthropic reports when a stream starts are in the
    usage the gateway meters at its end, whatever came in between: malformed
    events, transport errors, text. *)
Theorem anthropic_stream_usage json_from_str created events event data u v t :
  None ∉ anthropic_stream json_from_str created t events ->
  json_from_str (sse_data event) = Ok data -> sse_event event = Some "message_delta" ->
  value_index "usage" data = VObject u -> object_get "output_tokens" u = Some v ->
  let prompt := prompt_tokens json_from_str t events in
  let output := as_u32 (default 0 (value_as_u64 v)) in
  exists chunk,
    anthropic_stream json_from_str created t (events ++ [Ok event]) =
      (anthropic_stream json_from_str created t events ++ [Some (Ok chunk)])%list /\
    chunk_usage chunk = Some {| usage_prompt_tokens := prompt; usage_completion_tokens := output;
                                usage_total_tokens := wrap_u32 (prompt + output) |}.
Proof.
  intros Hok Hj Hev Hu Ho. cbn zeta. revert created t Hok.
  induction events as [|[e|err] events IH]; intros created t Hok; cbn [app anthropic_stream prompt_tokens] in Hok |- *.
  - rewrite Hj, Hev. cbn [default]. unfold anthropic_stream_event. cbn [decide].
    rewrite (decide_False (P := "message_delta" = "message_start")) by done.
    rewrite (decide_False (P := "message_delta" = "content_block_delta")) by done.
    rewrite (decide_True (P := "message_delta" = "message_delta")) by done.
    rewrite Hu. cbn [value_as_object map_or_panic]. unfold map_u32. rewrite Ho. cbn.
    eexists. by split.
  - destruct (json_from_str (sse_data e)) as [d|]; [|by apply IH].
    destruct (anthropic_stream_event (created 0%nat) (default "" (sse_event e)) d t)
      as [[chunk t']|] eqn:Ee; [|by apply not_elem_of_cons in Hok as [? _]].
    pose proof (anthropic_event_tokens _ _ _ _ _ _ Ee) as ->.
    apply not_elem_of_app in Hok as [_ Hok]. destruct (IH _ _ Hok) as (c & Hc & Hcu).
    exists c. by rewrite Hc, app_assoc.
  - apply not_elem_of_cons in Hok as [_ Hok]. destruct (IH _ _ Hok) as (c & Hc & Hcu).
    exists c. by rewrite Hc.
Qed.

(** The system messages of a conversation. *)
Definition system_contents (ms : list Message) : list MessageContent :=
  omap (fun m => match msg_role m with System => msg_content m | _ => None end) ms.

Lemma anthropic_messages_spec ms acc out :
  foldl (fun '(system, messages) m =>
    match msg_role m with
    | System =>
        (match msg_content m with Some content => as_text content | None => system end, messages)
    | _ => (system, (messages ++ [anthropic_message m])%list)
    end) (acc, out) ms =
  (match last (system_contents ms) with Some c => as_text c | None => acc end,
   (out ++ (anthropic_message <$> List.filter (fun m => negb (bool_decide (msg_role m = System))) ms))%list).
Proof.
  revert acc out. induction ms as [|m ms IH]; intros acc out; cbn [foldl List.filter].
  - by rewrite app_nil_r.
  - unfold system_contents. cbn [omap list_omap]. destruct (msg_role m) eqn:Er.
    + rewrite IH. cbn. unfold system_contents, omap. destruct (msg_content m) as [c|]; [|done].
      rewrite last_cons. by destruct (last _).
    + rewrite IH. cbn. by rewrite <- app_assoc.
    + rewrite IH. cbn. by rewrite <- app_assoc.
    + rewrite IH. cbn. by rewrite <- app_assoc.
Qed.

(** Of several system messages Anthropic is sent the last that has content,
    and nothing when that one is made of parts; Gemini is sent the first,
    under the same restriction. The other messages keep their order. *)
Theorem system_prompt_kept ms :
  anthropic_messages ms =
    (last (system_contents ms) ≫= as_text,
     anthropic_message <$> List.filter (fun m => negb (bool_decide (msg_role m = System))) ms) /\
  (forall m, List.find (fun m => bool_decide (msg_role m = System)) ms = Some m ->
     gemini_system ms =
       (fun text => json_object [("parts", gemini_parts text)]) <$> (msg_content m ≫= as_text)).
Proof.
  split.
  - unfold anthropic_messages. rewrite anthropic_messages_spec. by destruct (last _).
  - intros m Hm. unfold gemini_system. rewrite Hm. cbn.
    destruct (msg_content m) as [c|]; [|done]. cbn. by destruct (as_text c).
Qed.

(** ** Witnesses *)

Definition demo_request : ChatCompletionRequest :=
  {| req_model := "m"; req_messages := []; req_stream := false; req_temperature := None;
     req_top_p := None; req_max_tokens := None; req_stop := None; req_presence_penalty := None;
     req_frequency_penalty := None; req_user := None; req_tools := None; req_tool_choice := None;
     req_extra := {[ "seed" := u32_value 42 ]} |}.


Definition demo_json (s : string) : result Value string :=
  if decide (s = "start") then
    Ok (json_object [("message", json_object [("usage", json_object [("input_tokens", u32_value 9)])])])
  else if decide (s = "delta") then
    Ok (json_object [("usage", json_object [("output_tokens", u32_value 5)])])
  else Err "malformed".

Lemma anthropic_stream_usage_witness :
  exists chunk, last (anthropic_stream demo_json (fun _ => 0) 0
    ([Ok {| sse_event := Some "message_start"; sse_data := "start" |}; Err (PNetwork "reset")] ++
     [Ok {| sse_event := Some "message_delta"; sse_data := "delta" |}])) = Some (Some (Ok chunk)) /\
    chunk_usage chunk = Some {| usage_prompt_tokens := 9; usage_completion_tokens := 5;
                                usage_total_tokens := 14 |}.
Proof.
  destruct (anthropic_stream_usage demo_json (fun _ => 0)
    [Ok {| sse_event := Some "message_start"; sse_data := "start" |}; Err (PNetwork "reset")]
    {| sse_event := Some "message_delta"; sse_data := "delta" |}
    (json_object [("usage", json_object [("output_tokens", u32_value 5)])])
    [("output_tokens", u32_value 5)] (u32_value 5) 0) as (chunk & -> & Hu);
    [|by vm_compute..|].
  - vm_compute. intros Hin. repeat (apply elem_of_cons in Hin as [?|Hin]; [done|]).
    by apply not_elem_of_nil in Hin.
  - exists chunk. rewrite last_snoc. split; [done|]. rewrite Hu. by vm_compute.
Defined.

Lemma embedding_body_forwards_witness :
  value_get "seed" (embedding_request_value map_to_list
    {| ereq_model := "m"; ereq_input := InputSingle "text"; ereq_encoding_format := None;
       ereq_dimensions := None; ereq_user := None; ereq_extra := {[ "seed" := u32_value 42 ]} |}) =
    Some (u32_value 42).
Proof. by rewrite embedding_body_forwards. Defined.
