(* ===== verification/HttpPool.v ===== *)
(** * The pool of HTTP clients
    (src/crates/himadri-provider/src/http_client.rs)

    Clients.v sends each request with the transport settings of its provider. The process
    shares one pool, which builds a client on first use and keeps it: here is that pool,
    and that the client it gives out has those settings whatever was asked of it before. A
    built client is what the builder was told; the connections behind it are outside. *)

From S2P Require Import Prelude Str Types Clients.

(** What [Client::builder] is given; a deadline of zero is not set. *)
Record HttpClient := {
  hc_max_idle_per_host : Z;
  hc_pool_idle_timeout : Z;
  hc_connect_timeout : Z;
  hc_tcp_keepalive : Z;
  hc_tcp_nodelay : bool;
  hc_timeout : option Z;
  hc_read_timeout : option Z;
}.

Definition unless_zero (d : Z) : option Z := if d =? 0 then None else Some d.

Definition build_client_from_config (c : TransportConfig) : HttpClient :=
  {| hc_max_idle_per_host := tp_max_idle_per_host c; hc_pool_idle_timeout := tp_pool_idle_timeout c;
     hc_connect_timeout := tp_connect_timeout c; hc_tcp_keepalive := tp_tcp_keepalive c;
     hc_tcp_nodelay := tp_tcp_nodelay c; hc_timeout := unless_zero (tp_request_timeout c);
     hc_read_timeout := unless_zero (tp_read_timeout c) |}.

Definition build_provider_client (provider : string) : HttpClient :=
  build_client_from_config (provider_transport provider).

Definition build_streaming_client : HttpClient := build_client_from_config transport_streaming.

Record ProviderHttpClient := { ph_clients : gmap string HttpClient; ph_streaming_client : HttpClient }.

Definition http_client_new : ProviderHttpClient :=
  {| ph_clients := ∅; ph_streaming_client := build_streaming_client |}.

(** [get], else [entry(key).or_insert(client)] *)
Definition get_or_insert (key : string) (client : HttpClient) (p : ProviderHttpClient)
    : HttpClient * ProviderHttpClient :=
  match ph_clients p !! key with
  | Some c => (c, p)
  | None => (client, {| ph_clients := <[key := client]> (ph_clients p);
                        ph_streaming_client := ph_streaming_client p |})
  end.

Definition for_provider (provider : string) : ProviderHttpClient -> HttpClient * ProviderHttpClient :=
  get_or_insert provider (build_provider_client provider).

Definition for_provider_with_config (provider : string) (config : TransportConfig)
    : ProviderHttpClient -> HttpClient * ProviderHttpClient :=
  get_or_insert (provider +:+ ":custom") (build_client_from_config config).

Definition shared_streaming (p : ProviderHttpClient) : HttpClient := ph_streaming_client p.

(** ** Runs *)

Inductive PoolCall := ForProvider (provider : string) | WithConfig (provider : string) (config : TransportConfig).

Definition pool_call (c : PoolCall) : ProviderHttpClient -> HttpClient * ProviderHttpClient :=
  match c with
  | ForProvider provider => for_provider provider
  | WithConfig provider config => for_provider_with_config provider config
  end.

Definition pool_run (cs : list PoolCall) : ProviderHttpClient :=
  foldl (fun p c => (pool_call c p).2) http_client_new cs.

(** A name that no custom client takes. *)
Definition plain_name (key : string) : Prop := forall provider, key <> provider +:+ ":custom".

Record pool_ok (p : ProviderHttpClient) : Prop := {
  po_streaming : ph_streaming_client p = build_streaming_client;
  po_clients : forall key c, plain_name key -> ph_clients p !! key = Some c -> c = build_provider_client key;
}.

Lemma get_or_insert_ok key client p : pool_ok p ->
  (plain_name key -> client = build_provider_client key) -> pool_ok (get_or_insert key client p).2.
Proof.
  intros [Hs Hc] Hk. unfold get_or_insert. destruct (ph_clients p !! key) eqn:E; [done|].
  split; [done|]. cbn. intros k c Hp [[-> ->]|[_ Hl]]%lookup_insert_Some; eauto.
Qed.

Lemma pool_run_ok cs : pool_ok (pool_run cs).
Proof.
  unfold pool_run. assert (pool_ok http_client_new) as H by (split; [done|intros k c _; cbn; by rewrite lookup_empty]).
  revert H. generalize http_client_new. induction cs as [|c cs IH]; intros p Hp; [done|]. cbn [foldl]. apply IH.
  destruct c as [provider|provider config]; apply get_or_insert_ok; try done. intros Hk. by destruct (Hk provider).
Qed.

(** The pool is transparent. Whatever was asked of it before, a provider's client is the one
    its settings describe, a stream's has no deadline of its own but a limit on the gap
    between reads, and asking again gives the same client. *)
Theorem pool_transparent cs provider : plain_name provider ->
  let p := pool_run cs in
  (for_provider provider p).1 = build_provider_client provider /\
  (for_provider provider (for_provider provider p).2).1 = (for_provider provider p).1 /\
  hc_timeout (shared_streaming p) = None /\ is_Some (hc_read_timeout (shared_streaming p)).
Proof.
  intros Hp. destruct (pool_run_ok cs) as [Hs Hc]. cbn zeta. unfold for_provider, get_or_insert, shared_streaming.
  rewrite Hs. destruct (ph_clients (pool_run cs) !! provider) as [c|] eqn:E; cbn.
  - rewrite E. split_and!; [by apply Hc|done|done|by eexists].
  - rewrite lookup_insert_eq. split_and!; [done..|by eexists].
Qed.

(** A custom client ignores every configuration but the first: the key is the provider alone. *)
Theorem custom_config_sticks provider c c' p :
  (for_provider_with_config provider c' (for_provider_with_config provider c p).2).1 =
  (for_provider_with_config provider c p).1.
Proof.
  unfold for_provider_with_config, get_or_insert.
  destruct (ph_clients p !! (provider +:+ ":custom")) as [x|] eqn:E; cbn; [by rewrite E|].
  by rewrite lookup_insert_eq.
Qed.

Example streaming_pool : hc_read_timeout (shared_streaming (pool_run [ForProvider "openai"])) = hc_read_timeout build_streaming_client.
Proof. reflexivity. Qed.
