(* ===== verification/Sink.v ===== *)
(** * The load-test sink
    (src/crates/load-test-sink/src/main.rs)

    The stand-in for a provider that load tests and failover tests run against: its
    settings from the environment, its two endpoints, and that the gateway's client for
    OpenAI-compatible providers reads from it what it was set to say. A handler gets the
    request's document and returns its answer; the delay before it, the listener and the
    logs are left out. *)

From Stdlib Require Import Ascii.
From S2P Require Import Prelude Str Float Types Json Errors Sse Provider Clients.

(** ** Settings *)

Record SinkState := {
  si_latency_ms : Z;
  si_stream_default : bool;
  si_response_text : string;
  si_error_status : option Z;
}.

(** [str::parse::<u16>] and [str::parse::<bool>] *)
Definition parse_u16 (s : string) : option Z := n ← parse_u64 s; if n <=? 65535 then Some n else None.

Definition parse_bool (s : string) : option bool :=
  if bool_decide (s = "true") then Some true else if bool_decide (s = "false") then Some false else None.

Definition default_sink_response : string :=
  "Hello from the mock LLM server. Simulated response for load testing.".

(** The state and the port. *)
Definition sink_from_env (env : string -> option string) : SinkState * Z :=
  ({| si_latency_ms := default 100 (parse_u64 (default "100" (env "SINK_LATENCY_MS")));
      si_stream_default := default true (parse_bool (default "true" (env "SINK_STREAM")));
      si_response_text := default default_sink_response (env "SINK_RESPONSE");
      si_error_status := c ← env "SINK_STATUS" ≫= parse_u16; if c =? 200 then None else Some c |},
   default 8081 (parse_u16 (default "8081" (env "SINK_PORT")))).

(** ** The endpoints *)

Inductive SinkAnswer :=
  | SinkJson (status : Z) (body : Value)
  | SinkEvents (data : list Value).

(** [StatusCode::from_u16] *)
Definition status_from_u16 (code : Z) : option Z :=
  if (100 <=? code) && (code <=? 999) then Some code else None.

Definition error_response (st : SinkState) : option SinkAnswer :=
  (fun code => SinkJson (default 503 (status_from_u16 code))
     (json_object [("error", json_object
        [("message", VString ("sink configured to return " +:+ show_Z code))])])) <$> si_error_status st.

Definition value_as_bool (v : Value) : option bool := match v with VBool b => Some b | _ => None end.

Definition requested_model (request : Value) : string :=
  default "unknown" (value_as_str (value_index "model" request)).

Definition sink_has_tools (request : Value) : bool :=
  match value_get "tools" request ≫= value_as_array with Some (_ :: _) => true | _ => false end.

Definition sink_event (id : string) (created : Z) (model : string) (delta finish_reason : Value) : Value :=
  json_object
    [("id", VString id); ("object", VString "chat.completion.chunk"); ("created", VNumber (PosInt created));
     ("model", VString model);
     ("choices", VArray [json_object [("index", u32_value 0); ("delta", delta);
                                      ("finish_reason", finish_reason)]])].

(** The role, a chunk for each word, the end. *)
Definition sink_events (id : string) (created : Z) (model text : string) : list Value :=
  (sink_event id created model (json_object [("role", VString "assistant"); ("content", VNull)]) VNull ::
   ((fun word => sink_event id created model (json_object [("content", VString (word +:+ " "))]) VNull) <$>
      split_whitespace text) ++
   [sink_event id created model (json_object []) (VString "stop")])%list.

Definition sink_tool_message : Value :=
  json_object
    [("role", VString "assistant"); ("content", VNull);
     ("tool_calls", VArray [json_object
        [("id", VString "call_mock_1"); ("type", VString "function");
         ("function", json_object
            [("name", VString "get_weather");
             ("arguments", VString ("{" +:+ String (ascii_of_nat 34) "city" +:+ String (ascii_of_nat 34) ":" +:+
                String (ascii_of_nat 34) "Paris" +:+ String (ascii_of_nat 34) "}"))])]])].

(** [uuid] and [created] are drawn when the answer is made. *)
Definition chat_completion (st : SinkState) (uuid : string) (created : Z) (request : Value) : SinkAnswer :=
  match error_response st with
  | Some resp => resp
  | None =>
      let model := requested_model request in
      let stream := default (si_stream_default st) (value_as_bool (value_index "stream" request)) in
      let has_tools := sink_has_tools request in
      let id := "mock-" +:+ uuid in
      if stream then SinkEvents (sink_events id created model (si_response_text st))
      else
        let message :=
          if has_tools then sink_tool_message
          else json_object [("role", VString "assistant"); ("content", VString (si_response_text st))] in
        let finish := if has_tools then "tool_calls" else "stop" in
        SinkJson 200 (json_object
          [("id", VString id); ("object", VString "chat.completion");
           ("created", VNumber (PosInt created)); ("model", VString model);
           ("choices", VArray [json_object [("index", u32_value 0); ("message", message);
                                            ("finish_reason", VString finish)]]);
           ("usage", json_object [("prompt_tokens", u32_value 10); ("completion_tokens", u32_value 20);
                                  ("total_tokens", u32_value 30)])])
  end.

Definition sink_embedding (i : nat) : Value :=
  json_object
    [("object", VString "embedding"); ("index", VNumber (PosInt (Z.of_nat i)));
     ("embedding", VArray (f32_value <$> [f32_lit 1 100; f32_lit 2 100; f32_lit 3 100; f32_lit 4 100]))].

Definition sink_embeddings (st : SinkState) (request : Value) : SinkAnswer :=
  match error_response st with
  | Some resp => resp
  | None =>
      let count :=
        match value_index "input" request with VArray arr => Nat.max (length arr) 1 | _ => 1%nat end in
      SinkJson 200 (json_object
        [("object", VString "list"); ("data", VArray (sink_embedding <$> seq 0 count));
         ("model", VString (requested_model request));
         ("usage", json_object [("prompt_tokens", u32_value 5); ("total_tokens", u32_value 5)])])
  end.

(** ** What a client reads

    The derived [Deserialize] of a stream chunk (himadri-core's types.rs), on objects:
    a field may be missing only where it is an [Option] or has a default, and only an
    [Option] may be [null]. *)

Definition read_default {A} (k : string) (read : Value -> option A) (d : A) (ms : list (string * Value))
    : option A := match object_get k ms with None => Some d | Some v => read v end.

Definition read_option {A} (k : string) (read : Value -> option A) (ms : list (string * Value))
    : option (option A) :=
  match object_get k ms with None | Some VNull => Some None | Some v => Some <$> read v end.

Definition read_field {A} (k : string) (read : Value -> option A) (ms : list (string * Value)) : option A :=
  object_get k ms ≫= read.

Definition read_u32 (v : Value) : option Z := n ← value_as_u64 v; if n <=? U32_MAX then Some n else None.

Definition read_list {A} (read : Value -> option A) (v : Value) : option (list A) :=
  l ← value_as_array v; mapM read l.

Definition read_role (v : Value) : option Role :=
  s ← value_as_str v; List.find (fun r => value_is s (role_value r)) [System; User; Assistant; RoleTool].

Definition read_function_delta (v : Value) : option FunctionCallDelta :=
  ms ← value_as_object v;
  name ← read_option "name" value_as_str ms;
  arguments ← read_option "arguments" value_as_str ms;
  Some {| fcd_name := name; fcd_arguments := arguments |}.

Definition read_tool_delta (v : Value) : option ToolCallDelta :=
  ms ← value_as_object v;
  index ← read_field "index" read_u32 ms;
  id ← read_option "id" value_as_str ms;
  type ← read_option "type" value_as_str ms;
  function ← read_option "function" read_function_delta ms;
  Some {| tcd_index := index; tcd_id := id; tcd_tool_type := type; tcd_function := function |}.

Definition read_delta (v : Value) : option Delta :=
  ms ← value_as_object v;
  role ← read_option "role" read_role ms;
  content ← read_option "content" value_as_str ms;
  tool_calls ← read_option "tool_calls" (read_list read_tool_delta) ms;
  Some {| delta_role := role; delta_content := content; delta_tool_calls := tool_calls |}.

Definition read_stream_choice (v : Value) : option StreamChoice :=
  ms ← value_as_object v;
  index ← read_default "index" read_u32 0 ms;
  delta ← read_field "delta" read_delta ms;
  finish_reason ← read_option "finish_reason" value_as_str ms;
  Some {| sc_index := index; sc_delta := delta; sc_finish_reason := finish_reason |}.

Definition read_usage (v : Value) : option Usage :=
  ms ← value_as_object v;
  prompt ← read_field "prompt_tokens" read_u32 ms;
  completion ← read_field "completion_tokens" read_u32 ms;
  total ← read_field "total_tokens" read_u32 ms;
  Some {| usage_prompt_tokens := prompt; usage_completion_tokens := completion; usage_total_tokens := total |}.

Definition read_stream_chunk (v : Value) : option StreamChunk :=
  ms ← value_as_object v;
  id ← read_default "id" value_as_str "" ms;
  object ← read_default "object" value_as_str "" ms;
  created ← read_default "created" value_as_u64 0 ms;
  model ← read_default "model" value_as_str "" ms;
  choices ← read_default "choices" (read_list read_stream_choice) [] ms;
  usage ← read_option "usage" read_usage ms;
  fingerprint ← read_option "system_fingerprint" value_as_str ms;
  Some {| chunk_id := id; chunk_object := object; chunk_created := created; chunk_model := model;
          chunk_choices := choices; chunk_usage := usage; chunk_system_fingerprint := fingerprint |}.

(** The chunks a client should see. *)
Definition sink_chunk (id : string) (created : Z) (model : string) (role : option Role)
    (content finish_reason : option string) : StreamChunk :=
  {| chunk_id := id; chunk_object := "chat.completion.chunk"; chunk_created := created; chunk_model := model;
     chunk_choices :=
       [{| sc_index := 0;
           sc_delta := {| delta_role := role; delta_content := content; delta_tool_calls := None |};
           sc_finish_reason := finish_reason |}];
     chunk_usage := None; chunk_system_fingerprint := None |}.

Definition sink_chunks (id : string) (created : Z) (model text : string) : list StreamChunk :=
  (sink_chunk id created model (Some Assistant) None None ::
   ((fun word => sink_chunk id created model None (Some (word +:+ " ")) None) <$> split_whitespace text) ++
   [sink_chunk id created model None None (Some "stop")])%list.

(** The text of a streamed answer, as its reader puts it together. *)
Definition streamed_text (chunks : list StreamChunk) : string :=
  foldr String.append ""
    ((fun c => default "" (delta_content (sc_delta c))) <$> flat_map chunk_choices chunks).

(** ** Lemmas *)

Lemma sink_events_read id created model text :
  Forall2 (fun v c => read_stream_chunk v = Some c)
    (sink_events id created model text) (sink_chunks id created model text).
Proof.
  unfold sink_events, sink_chunks. constructor; [reflexivity|].
  apply Forall2_app; [|by repeat constructor].
  induction (split_whitespace text); constructor; [reflexivity|done].
Qed.

Lemma sink_events_objects id created model text :
  Forall (fun v => exists ms, v = VObject ms) (sink_events id created model text).
Proof.
  assert (forall d f, exists ms, sink_event id created model d f = VObject ms) as H
    by (intros; unfold sink_event, json_object; eauto).
  constructor; [done|]. apply Forall_app. split; [|by repeat constructor].
  apply Forall_fmap, Forall_true. intros. apply H.
Qed.

Lemma sink_chunks_text id created model text :
  streamed_text (sink_chunks id created model text) =
    foldr (fun word acc => word +:+ " " +:+ acc) "" (split_whitespace text).
Proof.
  unfold streamed_text, sink_chunks. cbn. induction (split_whitespace text) as [|w l IH]; cbn; [done|].
  by rewrite IH, <- str_app_assoc.
Qed.

(** An object's text. *)
Definition object_text (s : string) : Prop :=
  exists inner, s = "{" +:+ inner +:+ "}" /\ contains_char (ascii_of_nat 10) s = false.

Lemma contains_char_app c a b : contains_char c (a +:+ b) = contains_char c a || contains_char c b.
Proof. induction a as [|x a IH]; cbn; [done|]. by case_decide. Qed.

Lemma strip_white_suffix s r : strip_white s = Some r -> exists w, w ∈ white_space /\ s = w +:+ r.
Proof.
  unfold strip_white. intros H. cut (exists w, In w white_space /\ s = w +:+ r).
  { intros (w & Hw & ->). exists w. by rewrite list_elem_of_In. }
  induction white_space as [|w l IH]; cbn in *; [done|].
  destruct (strip_prefix w s) eqn:E; [|naive_solver].
  simplify_eq. exists w. split; [by left|by apply strip_prefix_Some].
Qed.

(** Trimming keeps a character that is no part of a white-space character. *)
Lemma trim_start_keeps c s : Forall (fun w => contains_char c w = false) white_space ->
  contains_char c s = true -> contains_char c (trim_start s) = true.
Proof.
  intros Hc. unfold trim_start. generalize (String.length s) as fuel. intros fuel. revert s.
  induction fuel as [|fuel IH]; intros s Hs; [done|]. cbn [trim_start_fuel].
  destruct (strip_white s) as [r|] eqn:E; [|done]. apply IH.
  apply strip_white_suffix in E as (w & Hw & ->). rewrite Forall_forall in Hc.
  by rewrite contains_char_app, (Hc w Hw) in Hs.
Qed.

Lemma brace_not_white : Forall (fun w => contains_char "}"%char w = false) white_space.
Proof. repeat constructor. Qed.

Lemma trim_end_brace s : trim_end (s +:+ "}") = s +:+ "}".
Proof.
  induction s as [|c s IH]; [reflexivity|]. cbn [String.append].
  rewrite trim_end_cons; [by rewrite IH|]. intros H.
  assert (contains_char "}"%char (String c (s +:+ "}")) = true) as Hs.
  { cbn. by rewrite contains_char_app, orb_true_r; case_decide. }
  apply (trim_start_keeps _ _ brace_not_white) in Hs. by rewrite H in Hs.
Qed.

Lemma object_text_ok s : object_text s -> Z.of_nat (String.length s) + 7 <= MAX_SSE_LINE_BYTES ->
  event_ok {| sse_event := None; sse_data := s |}.
Proof.
  intros (inner & -> & Hnl) Hlen. split_and!; cbn [sse_data sse_event]; [|done..].
  split_and!; [done| | |done].
  - unfold trim_start. cbn [String.append String.length trim_start_fuel].
    by change (strip_white (String "{"%char (inner +:+ "}"))) with (@None string).
  - apply (trim_end_brace ("{" +:+ inner)).
Qed.

Lemma compatible_body_stream request :
  value_index "stream" (compatible_request_body request true) = VBool true.
Proof.
  unfold compatible_request_body. rewrite request_value_members. cbn [value_set].
  unfold value_index. cbn [value_get]. by rewrite !object_get_insert.
Qed.

Lemma compatible_body_model request : (forall d, d ∈ declared_fields -> req_extra request !! d = None) ->
  requested_model (compatible_request_body request true) = req_model request.
Proof.
  intros Hd. unfold requested_model, compatible_request_body, value_index.
  assert (value_get "model" (request_value request) = Some (VString (req_model request))) as Hm
    by by rewrite request_value_get.
  rewrite request_value_members in Hm |- *. cbn [value_set value_get] in Hm |- *.
  by rewrite !object_get_insert, Hm.
Qed.

Section Reading.
Context {W : Type} (http_send : HttpRequest -> W -> result HttpResponse string * W).
Context (json_from_str : string -> result Value string) (to_string : Value -> string).
Context (chunk_from_str : string -> result StreamChunk string).

Definition sink_data (v : Value) : SseEvent := {| sse_event := None; sse_data := to_string v |}.

(** The answer as HTTP delivers it: a stream may be cut anywhere between characters. *)
Definition delivers (answer : SinkAnswer) (response : HttpResponse) : Prop :=
  match answer with
  | SinkJson status body => http_status response = status /\ http_json response = Ok body
  | SinkEvents data =>
      http_status response = 200 /\
      exists chunks, http_chunks response = Ok <$> chunks /\ Forall valid_utf8 chunks /\
        join "" chunks = foldr (fun e acc => sse_encode e +:+ acc) "" (sink_data <$> data)
  end.

(** What serde_json does with the documents of [data]: an object is printed on one
    line between braces, and a printed document is read as its value is. *)
Definition serde_laws (data : list Value) : Prop :=
  Forall (fun v => forall ms, v = VObject ms -> object_text (to_string v)) data /\
  Forall (fun v => forall c, read_stream_chunk v = Some c -> chunk_from_str (to_string v) = Ok c) data.

Definition lines_fit (data : list Value) : Prop :=
  Forall (fun v => Z.of_nat (String.length (to_string v)) + 7 <= MAX_SSE_LINE_BYTES) data.

Lemma sink_events_ok id created model text :
  let data := sink_events id created model text in
  serde_laws data -> lines_fit data -> Forall event_ok (sink_data <$> data).
Proof.
  intros data [Ht _] Hl. unfold lines_fit in Hl. apply Forall_fmap.
  pose proof (sink_events_objects id created model text) as Ho. fold data in Ho.
  rewrite !Forall_forall in *. intros v Hv. destruct (Ho v Hv) as [ms ->].
  apply object_text_ok; [by apply (Ht _ Hv ms)|by apply Hl].
Qed.

Lemma sink_chunks_parse id created model text :
  serde_laws (sink_events id created model text) ->
  (fun v => compatible_parse_stream_chunk chunk_from_str (to_string v)) <$> sink_events id created model text =
    Ok <$> sink_chunks id created model text.
Proof.
  intros [_ Hr]. pose proof (sink_events_read id created model text) as H2.
  assert (Forall (fun c => exists role content finish, c = sink_chunk id created model role content finish)
            (sink_chunks id created model text)) as Hc.
  { unfold sink_chunks. constructor; [by do 3 eexists|]. apply Forall_app.
    split; [apply Forall_fmap, Forall_true; intros; by do 3 eexists|]. constructor; [by do 3 eexists|done]. }
  induction H2 as [|v c data cs Hvc _ IH]; [done|].
  apply Forall_cons in Hr as [Hv Hr], Hc as [(role & content & finish & ->) Hc].
  rewrite !fmap_cons, IH by done. f_equal.
  unfold compatible_parse_stream_chunk. by rewrite (Hv _ Hvc).
Qed.

(** C36: The gateway's client reads from the sink what it was set to say: a streamed
    answer arrives as the role, one chunk for each word of the response and the end,
    wherever between two characters the connection cuts it (a character cut in two is
    lost, [Sse.sse_split_character_lost]), under the model the request names; its text is
    the words of the response, each followed by a space. Each event fits on a line. *)
Theorem client_reads_sink config st uuid created request api_key w w' response :
  si_error_status st = None ->
  (forall d, d ∈ declared_fields -> req_extra request !! d = None) ->
  let body := compatible_request_body request true in
  let data := sink_events ("mock-" +:+ uuid) created (req_model request) (si_response_text st) in
  let chunks := sink_chunks ("mock-" +:+ uuid) created (req_model request) (si_response_text st) in
  http_send (compatible_http config transport_streaming (get_url config) api_key body true) w =
    (Ok response, w') ->
  delivers (chat_completion st uuid created body) response ->
  serde_laws data -> lines_fit data ->
  compatible_complete_stream http_send json_from_str chunk_from_str config request api_key w =
    (Ok (Ok <$> chunks), w') /\
  streamed_text chunks =
    foldr (fun word acc => word +:+ " " +:+ acc) "" (split_whitespace (si_response_text st)).
Proof.
  intros Hst Hd body data chunks Hsend Hdel Hs Hl. split; [|apply sink_chunks_text].
  unfold chat_completion, error_response in Hdel. rewrite Hst in Hdel. cbn [fmap option_fmap option_map] in Hdel.
  unfold body in Hdel. rewrite compatible_body_stream, compatible_body_model in Hdel by done.
  destruct Hdel as (Hstatus & cs & Hcs & Hutf & Hj).
  unfold compatible_complete_stream, compatible_send, send_checked. fold body.
  rewrite Hsend, Hstatus. change (is_success 200) with true. cbv beta iota.
  rewrite Hcs, (sse_read_encoded _ cs Hutf (sink_events_ok _ _ _ _ Hs Hl) Hj).
  rewrite <- list_fmap_compose, <- list_fmap_compose.
  unfold chunks. rewrite <- (sink_chunks_parse _ _ _ _ Hs). reflexivity.
Qed.
End Reading.

(** ** Witnesses *)

Definition demo_sink : SinkState :=
  {| si_latency_ms := 0; si_stream_default := false; si_response_text := "Hi there"; si_error_status := None |}.

(** A printer of the events below and a reader of its texts. *)
Definition demo_print (v : Value) : string :=
  let choice :=
    match value_index "choices" v with VArray [c] => c | _ => VNull end in
  let delta := value_index "delta" choice in
  "{" +:+ default "" (value_as_str (value_index "role" delta)) +:+
    default "" (value_as_str (value_index "content" delta)) +:+
    default "" (value_as_str (value_index "finish_reason" choice)) +:+ "}".

Definition demo_read (s : string) : result StreamChunk string :=
  if decide (s = "{assistant}") then Ok (sink_chunk "mock-1" 7 "m" (Some Assistant) None None)
  else if decide (s = "{stop}") then Ok (sink_chunk "mock-1" 7 "m" None None (Some "stop"))
  else if decide (s = "{Hi }") then Ok (sink_chunk "mock-1" 7 "m" None (Some "Hi ") None)
  else if decide (s = "{there }") then Ok (sink_chunk "mock-1" 7 "m" None (Some "there ") None)
  else Err "unknown".

Definition demo_sink_config : OpenAiCompatibleConfig := compatible_bearer "sink" "http://sink".

(** The stream, cut in the middle of its first event. *)
Definition demo_sent : HttpResponse :=
  {| http_status := 200; http_retry_after := None; http_text := Ok ""; http_json := Ok VNull;
     http_chunks := Ok <$>
       ["data: {assis"; "tant}" +:+ NEWLINE +:+ NEWLINE +:+ "data: {Hi }" +:+ NEWLINE +:+ NEWLINE;
        "data: {there }" +:+ NEWLINE +:+ NEWLINE +:+ "data: {stop}" +:+ NEWLINE +:+ NEWLINE] |}.

Lemma demo_serde : serde_laws demo_print demo_read (sink_events ("mock-" +:+ "1") 7 (req_model demo_request) (si_response_text demo_sink)).
Proof.
  assert (forall s inner, s = "{" +:+ inner +:+ "}" -> contains_char (ascii_of_nat 10) s = false ->
    object_text s) as H by (intros s inner; exists inner; done).
  split.
  - repeat constructor; intros ms _.
    + by apply (H _ "assistant").
    + by apply (H _ "Hi ").
    + by apply (H _ "there ").
    + by apply (H _ "stop").
  - repeat constructor; vm_compute; congruence.
Qed.

Lemma demo_completion :
  chat_completion demo_sink "1" 7 (compatible_request_body demo_request true) =
    SinkEvents (sink_events ("mock-" +:+ "1") 7 (req_model demo_request) (si_response_text demo_sink)).
Proof. vm_compute. reflexivity. Qed.

Lemma client_reads_sink_witness :
  streamed_text (sink_chunks ("mock-" +:+ "1") 7 (req_model demo_request) (si_response_text demo_sink)) = "Hi there " /\
  (compatible_complete_stream (fun _ w => (Ok demo_sent, w)) (fun _ => Err "") demo_read demo_sink_config
     demo_request "key" tt).1 = Ok (Ok <$> sink_chunks ("mock-" +:+ "1") 7 (req_model demo_request) (si_response_text demo_sink)).
Proof.
  destruct (client_reads_sink (fun _ w => (Ok demo_sent, w)) (fun _ => Err "") demo_print demo_read
    demo_sink_config demo_sink "1" 7 demo_request "key" tt tt demo_sent) as [-> Ht].
  - done.
  - intros d Hd. apply lookup_singleton_ne. intros <-.
    by vm_compute in Hd; repeat (apply elem_of_cons in Hd as [?|Hd]; [done|]); apply not_elem_of_nil in Hd.
  - done.
  - rewrite demo_completion. split; [reflexivity|]. eexists. split; [reflexivity|]. split; [repeat constructor|vm_compute; reflexivity].
  - exact demo_serde.
  - repeat constructor; by vm_compute.
  - split; [rewrite Ht; vm_compute; reflexivity|reflexivity].
Defined.
