(* ===== verification/Failover.v ===== *)
(** * Failover and the circuit breakers
    (src/crates/himadri/src/gateway/route.rs, [with_failover];
    src/crates/himadri/src/gateway/mod.rs, routing keys and API keys)

    The loop that tries targets in order, generic in the circuit breaker, the
    latency store and the operation it runs. The outside world [W] is threaded
    through; [now_ms] and [instant_ns] are the clocks it shows. One request
    runs at a time. *)

From S2P Require Import Prelude CircuitBreaker Str Float Types Errors Strategy Provider.

(** ** Targets *)

Definition target_serves_model (t : Target) (model : string) : bool :=
  match target_models t with
  | None => true
  | Some models => existsb (fun m => bool_decide (m = model)) models
  end.

Definition routing_key (t : Target) : string := default (target_provider t) (target_id t).

Definition get_api_key (env : string -> option string) (provider_keys : gmap string string)
    (t : Target) : result string GatewayError :=
  match target_api_key_env t with
  | Some v =>
      ok_or (env v) (ServiceUnavailable ("Missing API key environment variable: " +:+ v))
  | None =>
      match provider_keys !! routing_key t with
      | Some key => Ok key
      | None => Ok ""
      end
  end.

Inductive AttemptError :=
  | NoTargets
  | AttemptCircuitOpen (provider : string)
  | AttemptProviderNotFound (provider : string)
  | AttemptApiKey (e : GatewayError)
  | AttemptProvider (e : ProviderError).

(** ** The loop *)

(** The mutable state the loop touches: the breakers, the latency store when
    it is recorded, the world. *)
Record FailoverState (B L W : Type) := {
  fs_breakers : gmap string B;
  fs_latency : option L;
  fs_world : W;
}.
Arguments fs_breakers {B L W}.
Arguments fs_latency {B L W}.
Arguments fs_world {B L W}.

Section Loop.
Context {B L W S T : Type} `{CircuitBreakerTrait B} `{LatencyStore L}.
Context (cb_default : B) (now_ms instant_ns : W -> Z).
Context (env : string -> option string).
Context (providers : gmap string (Provider W S)) (provider_keys : gmap string string).
Context (op : Provider W S -> string -> W -> result T ProviderError * W).

(** What an attempt does to the breaker once the operation answered. *)
Definition record_outcome (now : Z) (r : result T ProviderError) (cb : B) : B :=
  match r with
  | Ok _ => cb_record_success cb
  | Err (PRateLimited _) => cb
  | Err e => if provider_retryable e then cb_record_failure now cb else cb
  end.

Definition with_breaker (key : string) (cb : B) (st : FailoverState B L W) : FailoverState B L W :=
  {| fs_breakers := <[key := cb]> (fs_breakers st); fs_latency := fs_latency st;
     fs_world := fs_world st |}.

(** One iteration: its result, the latency it leaves, the state. *)
Definition attempt (candidate : Target) (last_latency : Z) (st : FailoverState B L W)
    : (result T AttemptError * Z) * FailoverState B L W :=
  let key := routing_key candidate in
  let '(ok, cb) := cb_allow (now_ms (fs_world st)) (default cb_default (fs_breakers st !! key)) in
  let st := with_breaker key cb st in
  if negb ok then ((Err (AttemptCircuitOpen (target_provider candidate)), last_latency), st)
  else
    match providers !! key with
    | None => ((Err (AttemptProviderNotFound (target_provider candidate)), last_latency), st)
    | Some provider =>
        match get_api_key env provider_keys candidate with
        | Err e => ((Err (AttemptApiKey e), last_latency), st)
        | Ok api_key =>
            let start := instant_ns (fs_world st) in
            let '(r, w) := op provider api_key (fs_world st) in
            let latency := Z.max 0 (instant_ns w - start) in
            let cb := record_outcome (now_ms w) r cb in
            let store :=
              (fun s => ls_record (target_provider candidate) (as_millis_u64 latency) s)
                <$> fs_latency st in
            ((map_err AttemptProvider r, latency),
             {| fs_breakers := <[key := cb]> (fs_breakers st); fs_latency := store; fs_world := w |})
        end
    end.

(** Whether the loop goes on to the next target after a result. *)
Definition falls_through (r : result T AttemptError) : bool :=
  match r with
  | Ok _ => false
  | Err (AttemptProvider e) => provider_retryable e
  | Err _ => true
  end.

Fixpoint failover_loop (candidate : Target) (rest : list Target) (last_latency : Z)
    (st : FailoverState B L W) : (Target * result T AttemptError * Z) * FailoverState B L W :=
  let '((r, latency), st) := attempt candidate last_latency st in
  match rest with
  | [] => ((candidate, r, latency), st)
  | next :: rest =>
      if falls_through r then failover_loop next rest latency st else ((candidate, r, latency), st)
  end.

(** [None] on an empty list. *)
Definition with_failover (ordered : list Target) (st : FailoverState B L W)
    : option (Target * result T AttemptError * Z) * FailoverState B L W :=
  match ordered with
  | [] => (None, st)
  | candidate :: rest => let '(r, st) := failover_loop candidate rest 0 st in (Some r, st)
  end.

(** ** Proofs *)

(** Candidates that were attempted in turn and all fell through. *)
Inductive tried : list Target -> Z -> FailoverState B L W -> Z -> FailoverState B L W -> Prop :=
  | tried_nil l st : tried [] l st l st
  | tried_cons c cs l st r l1 st1 l2 st2 :
      attempt c l st = ((r, l1), st1) -> falls_through r = true ->
      tried cs l1 st1 l2 st2 -> tried (c :: cs) l st l2 st2.

Lemma failover_loop_spec candidate rest l st :
  let '((t, r, latency), st') := failover_loop candidate rest l st in
  exists pre post l1 st1, candidate :: rest = (pre ++ t :: post)%list /\
    tried pre l st l1 st1 /\ attempt t l1 st1 = ((r, latency), st') /\
    (post = [] \/ falls_through r = false).
Proof.
  revert candidate l st. induction rest as [|next rest IH]; intros candidate l st; cbn [failover_loop];
    destruct (attempt candidate l st) as [[r l1] st1] eqn:Ea.
  - exists [], [], l, st. split_and!; [done|constructor|done|by left].
  - destruct (falls_through r) eqn:Ef.
    + specialize (IH next l1 st1).
      destruct (failover_loop next rest l1 st1) as [[[t r'] latency] st'].
      destruct IH as (pre & post & l2 & st2 & Heq & Htried & Hatt & Hend).
      exists (candidate :: pre), post, l2, st2. rewrite Heq.
      split_and!; [done|by econstructor|done|done].
    + exists [], (next :: rest), l, st. split_and!; [done|constructor|done|by right].
Qed.

(** An attempt touches the breaker of its own routing key only. *)
Lemma attempt_other_breakers c l st k : k <> routing_key c ->
  fs_breakers (attempt c l st).2 !! k = fs_breakers st !! k.
Proof.
  intros Hk. unfold attempt.
  destruct (cb_allow _ _) as [[] cb]; cbn [negb snd];
    [|cbn; by rewrite lookup_insert_ne].
  destruct (providers !! _) as [p|]; [|cbn; by rewrite lookup_insert_ne].
  destruct (get_api_key _ _ _) as [key|e]; [|cbn; by rewrite lookup_insert_ne].
  destruct (op p key _) as [r w]. cbn. by rewrite !lookup_insert_ne.
Qed.

(** What an attempt leaves of its own breaker. *)
Lemma attempt_own_breaker c l st :
  let cb := default cb_default (fs_breakers st !! routing_key c) in
  let '(ok, cb1) := cb_allow (now_ms (fs_world st)) cb in
  fs_breakers (attempt c l st).2 !! routing_key c = Some cb1 \/
  (ok = true /\ exists p key w r w', providers !! routing_key c = Some p /\ op p key w = (r, w') /\
   fs_breakers (attempt c l st).2 !! routing_key c = Some (record_outcome (now_ms w') r cb1)).
Proof.
  cbn zeta. unfold attempt. destruct (cb_allow _ _) as [[] cb1]; cbn [negb snd];
    [|left; cbn; by rewrite lookup_insert_eq].
  destruct (providers !! _) as [p|] eqn:Ep; [|left; cbn; by rewrite lookup_insert_eq].
  destruct (get_api_key _ _ _) as [key|e]; [|left; cbn; by rewrite lookup_insert_eq].
  destruct (op p key _) as [r w] eqn:Eo. right. split; [done|].
  exists p, key, (fs_world st), r, w. split_and!; [done|exact Eo|]. cbn. by rewrite lookup_insert_eq.
Qed.

Lemma attempt_denied c l st :
  (cb_allow (now_ms (fs_world st)) (default cb_default (fs_breakers st !! routing_key c))).1 = false ->
  (attempt c l st).1 = (Err (AttemptCircuitOpen (target_provider c)), l) /\
  fs_world (attempt c l st).2 = fs_world st.
Proof. unfold attempt. destruct (cb_allow _ _) as [[] cb]; by cbn. Qed.
End Loop.

(** A property of the state every attempt keeps is kept by the whole loop. *)
Section Preserve.
Context {B L W S T : Type} `{CircuitBreakerTrait B} `{LatencyStore L}.
Context (cb_default : B) (now_ms instant_ns : W -> Z).
Context (env : string -> option string).
Context (providers : gmap string (Provider W S)) (provider_keys : gmap string string).
Context (op : Provider W S -> string -> W -> result T ProviderError * W).

Abbreviation att := (attempt cb_default now_ms instant_ns env providers provider_keys op).
Abbreviation failover := (with_failover cb_default now_ms instant_ns env providers provider_keys op).

Lemma failover_preserves (I : FailoverState B L W -> Prop) ordered st :
  (forall c l st, c ∈ ordered -> I st -> I (att c l st).2) -> I st -> I (failover ordered st).2.
Proof.
  intros Hatt Hst. destruct ordered as [|c rest]; [done|]. unfold with_failover.
  generalize 0 as l. intros l. revert c l st Hatt Hst.
  induction rest as [|next rest IH]; intros c l st Hatt Hst; cbn [failover_loop].
  - specialize (Hatt c l st ltac:(by left) Hst). by destruct (att c l st) as [[r l1] st1].
  - pose proof (Hatt c l st ltac:(by left) Hst) as Hone.
    destruct (att c l st) as [[r l1] st1]. destruct (falls_through r); [|done].
    apply IH; [|done]. intros c' l' st' Hin. apply Hatt. by right.
Qed.
End Preserve.

(** ** Properties *)

Section Properties.
Context {B L W S T : Type} `{CircuitBreakerLaws B} `{LatencyStore L}.
Context (cb_default : B) (now_ms instant_ns : W -> Z).
Context (env : string -> option string).
Context (providers : gmap string (Provider W S)) (provider_keys : gmap string string).
Context (op : Provider W S -> string -> W -> result T ProviderError * W).

Abbreviation att := (attempt cb_default now_ms instant_ns env providers provider_keys op).
Abbreviation failover := (with_failover cb_default now_ms instant_ns env providers provider_keys op).

(** C1: The failover loop. Over a non-empty list it always returns, and what it
    returns is the attempt of one candidate: those before it were attempted in
    order and each fell through (an open circuit, a missing client or key, or a
    retryable provider error), and it is the last of the list or its result
    ends the search (a success, or an error that must not be retried). A
    target whose circuit denies the call is never contacted. *)
Theorem failover_spec ordered (st : FailoverState B L W) :
  match failover ordered st with
  | (None, st') => ordered = [] /\ st' = st
  | (Some (t, r, latency), st') =>
      exists pre post l1 st1, ordered = (pre ++ t :: post)%list /\
        tried cb_default now_ms instant_ns env providers provider_keys op pre 0 st l1 st1 /\
        att t l1 st1 = ((r, latency), st') /\
        (post = [] \/ falls_through r = false) /\
        ((cb_allow (now_ms (fs_world st1))
            (default cb_default (fs_breakers st1 !! routing_key t))).1 = false ->
          r = Err (AttemptCircuitOpen (target_provider t)) /\ fs_world st' = fs_world st1)
  end.
Proof.
  destruct ordered as [|c rest]; [done|]. cbn [with_failover].
  pose proof (failover_loop_spec cb_default now_ms instant_ns env providers provider_keys op
    c rest 0 st) as Hl.
  destruct (failover_loop _ _ _ _ _ _ _ c rest 0 st) as [[[t r] latency] st'].
  destruct Hl as (pre & post & l1 & st1 & Heq & Htried & Hatt & Hend).
  exists pre, post, l1, st1. split_and!; [done|done|done|done|].
  intros Hden. destruct (attempt_denied cb_default now_ms instant_ns env providers provider_keys op
    t l1 st1 Hden) as [Hr Hw]. rewrite Hatt in Hr, Hw. cbn in Hr, Hw. by simplify_eq.
Qed.

(** Breakers are isolated and stay well-formed. A request changes only the
    breakers of the targets it may try, whatever its providers answer, and
    every breaker it leaves behind is one its trait's operations can reach. *)
Theorem failover_breakers_isolated ordered (st : FailoverState B L W) :
  cb_wf cb_default -> (forall k b, fs_breakers st !! k = Some b -> cb_wf b) ->
  let st' := (failover ordered st).2 in
  (forall k, k ∉ routing_key <$> ordered -> fs_breakers st' !! k = fs_breakers st !! k) /\
  (forall k b, fs_breakers st' !! k = Some b -> cb_wf b).
Proof.
  intros Hdef Hwf st'. split.
  - intros k Hk. apply (failover_preserves cb_default now_ms instant_ns env providers provider_keys
      op (fun s => fs_breakers s !! k = fs_breakers st !! k)); [|done].
    intros c l s Hc Hs. rewrite attempt_other_breakers; [done|].
    intros ->. apply Hk, list_elem_of_fmap. eauto.
  - apply (failover_preserves cb_default now_ms instant_ns env providers provider_keys op
      (fun s => forall k b, fs_breakers s !! k = Some b -> cb_wf b)); [|done].
    intros c l s _ Hs k b. destruct (decide (k = routing_key c)) as [->|Hk];
      [|rewrite attempt_other_breakers by done; apply Hs].
    pose proof (attempt_own_breaker cb_default now_ms instant_ns env providers provider_keys op c l s)
      as Hown. cbn zeta in Hown.
    set (cb := default cb_default (fs_breakers s !! routing_key c)) in *.
    assert (cb_wf cb) as Hcb.
    { unfold cb. destruct (fs_breakers s !! routing_key c) eqn:E; [by eapply Hs|done]. }
    pose proof (wf_allow (now_ms (fs_world s)) cb Hcb) as Hallow.
    destruct (cb_allow (now_ms (fs_world s)) cb) as [ok cb1]. cbn [snd] in Hallow.
    destruct Hown as [->|(_ & p & key & w & r & w' & _ & _ & ->)]; intros [= <-]; [done|].
    unfold record_outcome. destruct r as [v|e]; [by apply wf_success|].
    assert (cb_wf (if provider_retryable e then cb_record_failure (now_ms w') cb1 else cb1))
      by (destruct (provider_retryable e); [by apply wf_failure|done]).
    by destruct e.
Qed.

(** Soft errors never open a circuit. Whatever a request meets, as long as
    no provider answers with a retryable error other than a rate limit, every
    breaker that is open after it was open before it: 429s and errors of the
    caller's own do not count against a provider. *)
Theorem failover_soft_errors_never_open ordered (st : FailoverState B L W) :
  cb_wf cb_default -> cb_state cb_default = Closed ->
  (forall k b, fs_breakers st !! k = Some b -> cb_wf b) ->
  (forall p key w e, (op p key w).1 = Err e ->
     (exists s, e = PRateLimited s) \/ provider_retryable e = false) ->
  forall k b, fs_breakers (failover ordered st).2 !! k = Some b -> cb_state b = Open ->
  exists b0, fs_breakers st !! k = Some b0 /\ cb_state b0 = Open.
Proof.
  intros Hdef Hclosed Hwf Hsoft.
  set (I := fun s : FailoverState B L W => forall k b, fs_breakers s !! k = Some b ->
    cb_wf b /\ (cb_state b = Open -> exists b0, fs_breakers st !! k = Some b0 /\ cb_state b0 = Open)).
  assert (I (failover ordered st).2) as HI; [|intros k b Hb; by apply HI].
  apply (failover_preserves cb_default now_ms instant_ns env providers provider_keys op I);
    [|intros k b Hb; split; [by eapply Hwf|eauto]].
  intros c l s _ Hs k b. destruct (decide (k = routing_key c)) as [->|Hk];
    [|rewrite attempt_other_breakers by done; apply Hs].
  pose proof (attempt_own_breaker cb_default now_ms instant_ns env providers provider_keys op c l s)
    as Hown. cbn zeta in Hown.
  set (cb := default cb_default (fs_breakers s !! routing_key c)) in *.
  assert (cb_wf cb /\ (cb_state cb = Open ->
    exists b0, fs_breakers st !! routing_key c = Some b0 /\ cb_state b0 = Open)) as [Hcb Hopen].
  { unfold cb. destruct (fs_breakers s !! routing_key c) eqn:E; [by apply Hs|].
    cbn. split; [done|]. by rewrite Hclosed. }
  pose proof (wf_allow (now_ms (fs_world s)) cb Hcb) as Hallow.
  destruct (cb_allow (now_ms (fs_world s)) cb) as [ok cb1] eqn:Ea. cbn [snd] in Hallow.
  assert (cb_state cb1 = Open -> exists b0,
    fs_breakers st !! routing_key c = Some b0 /\ cb_state b0 = Open) as Hopen1.
  { intros Ho. destruct ok.
    - by apply (law_admitted_not_open _ _ _ Hcb) in Ea.
    - apply law_denied_unchanged in Ea. subst cb1. by apply Hopen. }
  destruct Hown as [->|(-> & p & key & w & r & w' & _ & Hop & ->)]; intros [= <-]; [done|].
  assert (cb_state cb1 <> Open) as Hno by exact (law_admitted_not_open _ _ _ Hcb Ea).
  destruct r as [v|e]; cbn [record_outcome].
  - split; [by apply wf_success|]. intros Ho. by apply law_success_not_open in Ho.
  - assert (record_outcome (now_ms w') (Err e : result T ProviderError) cb1 = cb1) as Hsame.
    { destruct (Hsoft p key w e) as [[s' ->]|Hnr]; [by rewrite Hop|done|].
      cbn [record_outcome]. rewrite Hnr. by destruct e. }
    cbn [record_outcome] in Hsame. rewrite Hsame. done.
Qed.
End Properties.

(** ** Probes without an outcome *)

Section Wedge.
Context {L W S T : Type} `{LatencyStore L}.
Context (cb_default : CircuitBreaker) (now_ms instant_ns : W -> Z).
Context (env : string -> option string).
Context (providers : gmap string (Provider W S)) (provider_keys : gmap string string).

(** An operation whose every answer the breaker ignores: a rate limit, or an
    error that is not retryable. *)
Definition ignored (op : Provider W S -> string -> W -> result T ProviderError * W) : Prop :=
  forall p key w, exists e, (op p key w).1 = Err e /\
    ((exists s, e = PRateLimited s) \/ provider_retryable e = false).

Context (op : Provider W S -> string -> W -> result T ProviderError * W).

Abbreviation failover := (with_failover cb_default now_ms instant_ns env providers provider_keys op).

(** Requests for one target, one after the other. *)
Definition repeat_requests (t : Target) (n : nat) (st : FailoverState CircuitBreaker L W)
    : FailoverState CircuitBreaker L W :=
  Nat.iter n (fun st => (failover [t] st).2) st.

Lemma failover_single t st :
  (failover [t] st).2 = (attempt cb_default now_ms instant_ns env providers provider_keys op t 0 st).2.
Proof.
  unfold with_failover. cbn [failover_loop].
  by destruct (attempt cb_default now_ms instant_ns env providers provider_keys op t 0 st) as [[r l] st1].
Qed.

Lemma ignored_attempt t l st cb : ignored op -> fs_breakers st !! routing_key t = Some cb ->
  fs_breakers (attempt cb_default now_ms instant_ns env providers provider_keys op t l st).2
    !! routing_key t = Some (breaker_allow (now_ms (fs_world st)) cb).2.
Proof.
  intros Hig Hcb.
  pose proof (attempt_own_breaker cb_default now_ms instant_ns env providers provider_keys op t l st)
    as Hown. cbn zeta in Hown. rewrite Hcb in Hown. cbn [default from_option id] in Hown.
  change (cb_allow (now_ms (fs_world st)) cb) with (breaker_allow (now_ms (fs_world st)) cb) in Hown.
  destruct (breaker_allow (now_ms (fs_world st)) cb) as [ok cb1]. cbn [snd].
  destruct Hown as [?|(_ & p & key & w & r & w' & _ & Hop & Hown)]; [done|].
  rewrite Hown. destruct (Hig p key w) as (e & He & Hsoft). rewrite Hop in He. cbn in He. subst r.
  unfold record_outcome. destruct Hsoft as [[s ->]|Hnr]; [done|]. rewrite Hnr. by destruct e.
Qed.

Lemma repeat_half_open t st cb n : ignored op -> fs_breakers st !! routing_key t = Some cb ->
  breaker_wf cb -> breaker_get_state cb = HalfOpen ->
  exists cb', fs_breakers (repeat_requests t n st) !! routing_key t = Some cb' /\
    breaker_wf cb' /\ breaker_get_state cb' = HalfOpen /\ bk_config cb' = bk_config cb /\
    Z.min (half_open_max_calls (bk_config cb)) (bk_half_open_admitted (bk_inner cb) + Z.of_nat n)
      <= bk_half_open_admitted (bk_inner cb').
Proof.
  intros Hig Hcb Hwf Hs. induction n as [|n (cb' & Hcb' & Hwf' & Hs' & Hcfg & Hadm)].
  - exists cb. split_and!; try done. lia.
  - change (repeat_requests t (Datatypes.S n) st) with ((failover [t] (repeat_requests t n st)).2).
    rewrite failover_single. rewrite (ignored_attempt _ _ _ cb') by done.
    set (now := now_ms _).
    pose proof (half_open_allow now cb' Hwf' Hs') as Ha.
    pose proof (breaker_wf_apply (EvAllow now) cb' Hwf') as Hwf''. cbn [breaker_apply] in Hwf''.
    destruct (breaker_allow now cb') as [ok cb'']. cbn [snd] in *.
    destruct Ha as (H1 & H2 & H3 & _). exists cb''.
    split_and!; try done; [congruence|]. rewrite Hcfg in H3. lia.
Qed.

(** A provider that answers its half-open probes with rate limits is lost
    for good. While a breaker is half-open, a probe that ends in a 429, in an
    error that must not be retried, or before the provider is reached reports
    no outcome; after as many requests as the quota, every later request is
    refused as "circuit open" without contacting anyone, at any time, even when
    the provider would answer. *)
Theorem half_open_probes_wedge t st cb n : ignored op ->
  fs_breakers st !! routing_key t = Some cb -> breaker_wf cb -> breaker_get_state cb = HalfOpen ->
  half_open_max_calls (bk_config cb) <= Z.of_nat n -> 0 <= bk_half_open_admitted (bk_inner cb) ->
  forall (op' : Provider W S -> string -> W -> result T ProviderError * W) st',
  fs_breakers st' = fs_breakers (repeat_requests t n st) ->
  let '(r, st'') :=
    with_failover cb_default now_ms instant_ns env providers provider_keys op' [t] st' in
  r = Some (t, Err (AttemptCircuitOpen (target_provider t)), 0) /\
  fs_breakers st'' = fs_breakers st' /\ fs_world st'' = fs_world st'.
Proof.
  intros Hig Hcb Hwf Hs Hn Hpos op' st' Hst'.
  destruct (repeat_half_open t st cb n Hig Hcb Hwf Hs) as (cb' & Hcb' & Hwf' & Hs' & Hcfg & Hadm).
  pose proof (half_open_allow (now_ms (fs_world st')) cb' Hwf' Hs') as Ha.
  unfold with_failover. cbn [failover_loop]. unfold attempt.
  rewrite Hst', Hcb'. cbn [default from_option id].
  change (cb_allow (now_ms (fs_world st')) cb') with (breaker_allow (now_ms (fs_world st')) cb').
  destruct (breaker_allow (now_ms (fs_world st')) cb') as [ok cb''].
  destruct Ha as (_ & _ & _ & Hden). rewrite Hcfg in Hden.
  destruct Hden as [-> ->]; [lia|]. cbn.
  split_and!; [done| |done]. rewrite Hst'. by apply insert_id.
Qed.
End Wedge.

(** ** Witnesses *)

Definition demo_endpoint : Target :=
  {| target_id := Some "ep1"; target_provider := "openai"; target_weight := f64_of_Z 1;
     target_models := None; target_api_key_env := None; target_base_url := None |}.

(** The world is the clock, in milliseconds. *)
Definition demo_provider : Provider Z unit :=
  {| prov_name := "openai"; prov_display_name := "OpenAI"; prov_supported_models := [];
     prov_complete := fun _ _ w => (Err (PRateLimited 60), w + 10);
     prov_complete_stream := fun _ _ w => (Ok tt, w + 10);
     prov_embed := default_embed "openai" |}.

Definition demo_op (_ : Provider Z unit) (_ : string) (w : Z) : result unit ProviderError * Z :=
  (Err (PRateLimited 60), w + 10).

Definition demo_half_open : CircuitBreaker :=
  (breaker_allow 100 demo_open).2.

Definition demo_state (cb : CircuitBreaker) : FailoverState CircuitBreaker InMemoryLatencyStore Z :=
  {| fs_breakers := {[ "ep1" := cb ]}; fs_latency := None; fs_world := 100 |}.

(** The breakers after one request of [demo_op], at once and much later. *)
Definition demo_after (cb : CircuitBreaker) : FailoverState CircuitBreaker InMemoryLatencyStore Z :=
  (with_failover (breaker_new default_breaker_config) (fun w => w) (fun w => w)
    (fun _ => None) {[ "ep1" := demo_provider ]} ∅ demo_op [demo_endpoint] (demo_state cb)).2.

Definition demo_later (cb : CircuitBreaker) : FailoverState CircuitBreaker InMemoryLatencyStore Z :=
  {| fs_breakers := fs_breakers (repeat_requests (breaker_new default_breaker_config)
       (fun w => w) (fun w => w) (fun _ => None) {[ "ep1" := demo_provider ]} ∅ demo_op
       demo_endpoint 1 (demo_state cb));
     fs_latency := None; fs_world := 10 ^ 12 |}.

Lemma demo_open_wf' : cb_wf demo_open.
Proof. exact demo_open_wf. Qed.

Lemma demo_wf cb : cb_wf cb ->
  forall k b, fs_breakers (demo_state cb) !! k = Some b -> cb_wf b.
Proof.
  intros Hwf k b. unfold demo_state. cbn [fs_breakers].
  intros Hk. apply lookup_singleton_Some in Hk as Hk2.
  by destruct Hk2 as [_ <-].
Qed.

Lemma default_breaker_wf : cb_wf (breaker_new default_breaker_config).
Proof.
  assert (config_ok default_breaker_config) by (split; by vm_compute).
  change (breaker_wf (breaker_new default_breaker_config)).
  split; [done|by apply breaker_inv_new].
Qed.

Lemma failover_breakers_isolated_witness : fs_breakers (demo_after demo_open) !! "ep2" = None.
Proof.
  destruct (failover_breakers_isolated (breaker_new default_breaker_config) (fun w => w)
    (fun w => w) (fun _ => None) {[ "ep1" := demo_provider ]} ∅ demo_op [demo_endpoint]
    (demo_state demo_open) default_breaker_wf (demo_wf _ demo_open_wf')) as [Hiso _].
  transitivity (fs_breakers (demo_state demo_open) !! "ep2").
  - apply Hiso. cbn. intros Hin%list_elem_of_singleton. done.
  - by apply lookup_singleton_ne.
Defined.

Lemma failover_soft_errors_never_open_witness :
  exists b, fs_breakers (demo_after (breaker_new default_breaker_config)) !! "ep1" = Some b /\
    cb_state b <> Open.
Proof.
  eexists. split; [vm_compute; reflexivity|]. intros Ho.
  destruct (failover_soft_errors_never_open (breaker_new default_breaker_config) (fun w => w)
    (fun w => w) (fun _ => None) {[ "ep1" := demo_provider ]} ∅ demo_op [demo_endpoint]
    (demo_state (breaker_new default_breaker_config)) default_breaker_wf eq_refl
    (demo_wf _ default_breaker_wf)
    ltac:(intros p key w e [= <-]; left; by exists 60) "ep1" _ ltac:(vm_compute; reflexivity) Ho)
    as (b0 & Hb0 & Ho').
  vm_compute in Hb0. injection Hb0 as <-. done.
Defined.

Lemma demo_half_open_wf : cb_wf demo_half_open.
Proof. exact (breaker_wf_apply (EvAllow 100) demo_open demo_open_wf). Qed.

(** With a quota of one, a single rate-limited probe is enough. *)
Lemma half_open_probes_wedge_witness :
  (with_failover (breaker_new default_breaker_config) (fun w => w) (fun w => w)
    (fun _ => None) {[ "ep1" := demo_provider ]} ∅ (fun _ _ w => (Ok tt, w)) [demo_endpoint]
    (demo_later demo_half_open)).1
  = Some (demo_endpoint, Err (AttemptCircuitOpen "openai"), 0).
Proof.
  pose proof (half_open_probes_wedge (breaker_new default_breaker_config) (fun w => w) (fun w => w)
    (fun _ => None) {[ "ep1" := demo_provider ]} ∅ demo_op demo_endpoint (demo_state demo_half_open)
    demo_half_open 1
    ltac:(intros p key w; exists (PRateLimited 60); split; [done|left; by exists 60])
    ltac:(by vm_compute) demo_half_open_wf ltac:(by vm_compute) ltac:(by vm_compute)
    ltac:(by vm_compute)
    (fun _ _ w => (Ok tt, w))
    (demo_later demo_half_open) eq_refl) as Hw.
  destruct (with_failover _ _ _ _ _ _ _ _ _) as [r st'']. by destruct Hw as [-> _].
Defined.
