(* ===== verification/Usage.v ===== *)
(** * Usage records and the request log
    (src/crates/himadri-admin/src/usage_store.rs, request_log.rs)

    Two bounded rings, oldest first, and the queries over them. Timestamps are
    integers, costs are [f64], sums of tokens and latencies are [u64]s of a
    release build. The iteration order of a [HashMap] or a [HashSet] is an
    argument, and so are the environment and the JSON parser. *)

From S2P Require Import Prelude Str Float.
From Stdlib Require Import Sorted.

(** ** Bounded rings *)

(** [while len > max { pop_front() }] *)
Fixpoint ring_evict {A} (max : Z) (l : list A) : list A :=
  match l with
  | [] => []
  | x :: l' => if max <? Z.of_nat (length l) then ring_evict max l' else l
  end.

Definition ring_push {A} (max : Z) (x : A) (l : list A) : list A :=
  ring_evict max (l ++ [x])%list.

(** ** Usage records *)

Record UsageRecord := {
  ur_request_id : string;
  ur_api_key_id : option string;
  ur_model : string;
  ur_provider : string;
  ur_prompt_tokens : Z;
  ur_completion_tokens : Z;
  ur_total_tokens : Z;
  ur_cost_usd : f64;
  ur_latency_ms : Z;
  ur_created_at : Z;
  ur_success : bool;
  ur_error_message : option string;
}.

Record UsageStats := {
  us_api_key_id : string;
  us_total_requests : Z;
  us_successful_requests : Z;
  us_failed_requests : Z;
  us_total_prompt_tokens : Z;
  us_total_completion_tokens : Z;
  us_total_tokens : Z;
  us_total_cost_usd : f64;
  us_avg_latency_ms : f64;
  us_last_request_at : option Z;
  us_models_used : list string;
}.

Record ModelUsage := {
  mu_model : string; mu_requests : Z; mu_tokens : Z; mu_cost_usd : f64;
}.

Record ProviderUsage := {
  pu_provider : string; pu_requests : Z; pu_tokens : Z; pu_cost_usd : f64;
}.

Record DashboardSummary := {
  ds_total_keys : Z;
  ds_total_requests : Z;
  ds_total_tokens : Z;
  ds_total_cost_usd : f64;
  ds_avg_latency_ms : f64;
  ds_error_rate : f64;
  ds_top_models : list ModelUsage;
  ds_top_providers : list ProviderUsage;
  ds_recent_errors : list UsageRecord;
}.

Record ModelPricing := {
  mp_model : string;
  mp_input_per_m_tokens : f64;
  mp_output_per_m_tokens : f64;
}.

Definition DEFAULT_MAX_RECORDS : Z := 100000.

Record UsageStore := {
  ust_records : list UsageRecord;
  ust_max_records : Z;
  ust_pricing : list ModelPricing;
}.

(** ** Pricing *)

Definition default_pricing : list ModelPricing :=
  [ {| mp_model := "gpt-4"; mp_input_per_m_tokens := f64_of_Z 30;
       mp_output_per_m_tokens := f64_of_Z 60 |};
    {| mp_model := "gpt-4o"; mp_input_per_m_tokens := f64_lit 25 10;
       mp_output_per_m_tokens := f64_of_Z 10 |};
    {| mp_model := "gpt-4o-mini"; mp_input_per_m_tokens := f64_lit 15 100;
       mp_output_per_m_tokens := f64_lit 6 10 |};
    {| mp_model := "gpt-3.5-turbo"; mp_input_per_m_tokens := f64_lit 5 10;
       mp_output_per_m_tokens := f64_lit 15 10 |};
    {| mp_model := "claude-3-5-sonnet-20241022"; mp_input_per_m_tokens := f64_of_Z 3;
       mp_output_per_m_tokens := f64_of_Z 15 |};
    {| mp_model := "claude-3-opus-20240229"; mp_input_per_m_tokens := f64_of_Z 15;
       mp_output_per_m_tokens := f64_of_Z 75 |};
    {| mp_model := "claude-3-haiku-20240307"; mp_input_per_m_tokens := f64_lit 25 100;
       mp_output_per_m_tokens := f64_lit 125 100 |};
    {| mp_model := "gemini-2.0-flash"; mp_input_per_m_tokens := f64_lit 75 1000;
       mp_output_per_m_tokens := f64_lit 3 10 |};
    {| mp_model := "gemini-1.5-pro"; mp_input_per_m_tokens := f64_lit 125 100;
       mp_output_per_m_tokens := f64_of_Z 5 |} ].

(** Replace the first entry of the same model, or push. *)
Fixpoint override_price (entry : ModelPricing) (l : list ModelPricing) : list ModelPricing :=
  match l with
  | [] => [entry]
  | p :: l =>
      if bool_decide (mp_model p = mp_model entry) then entry :: l
      else p :: override_price entry l
  end.

Definition load_pricing (env : string -> option string)
    (json_from_str : string -> option (list ModelPricing)) : list ModelPricing :=
  match env "PRICING_TABLE" with
  | None => default_pricing
  | Some raw =>
      match json_from_str raw with
      | Some overrides => foldl (fun l e => override_price e l) default_pricing overrides
      | None => default_pricing
      end
  end.

Definition usage_store_new (pricing : list ModelPricing) : UsageStore :=
  {| ust_records := []; ust_max_records := DEFAULT_MAX_RECORDS; ust_pricing := pricing |}.

Definition record_usage_record (r : UsageRecord) (s : UsageStore) : UsageStore :=
  {| ust_records := ring_push (ust_max_records s) r (ust_records s);
     ust_max_records := ust_max_records s; ust_pricing := ust_pricing s |}.

Definition price_of (model : string) (l : list ModelPricing) : option ModelPricing :=
  find (fun p => bool_decide (mp_model p = model)) l.

Definition usage_cost (model : string) (prompt_tokens completion_tokens : Z) (s : UsageStore)
    : f64 :=
  match price_of model (ust_pricing s) with
  | Some p =>
      f64_add
        (f64_mul (f64_div (f64_of_Z prompt_tokens) (f64_of_Z 1000000)) (mp_input_per_m_tokens p))
        (f64_mul (f64_div (f64_of_Z completion_tokens) (f64_of_Z 1000000))
           (mp_output_per_m_tokens p))
  | None => f64_zero
  end.

Definition usage_count (s : UsageStore) : Z := Z.of_nat (length (ust_records s)).

(** ** Statistics of a key *)

(** The accumulators of [get_key_stats]. *)
Record StatsAcc := {
  sa_requests : Z; sa_successful : Z; sa_failed : Z;
  sa_prompt : Z; sa_completion : Z; sa_cost : f64; sa_latency : Z;
  sa_last : option Z; sa_models : gset string;
}.

Definition stats_acc_new : StatsAcc :=
  {| sa_requests := 0; sa_successful := 0; sa_failed := 0; sa_prompt := 0; sa_completion := 0;
     sa_cost := f64_zero; sa_latency := 0; sa_last := None; sa_models := ∅ |}.

Definition stats_step (api_key_id : string) (a : StatsAcc) (r : UsageRecord) : StatsAcc :=
  if bool_decide (ur_api_key_id r = Some api_key_id) then
    {| sa_requests := wrap_u64 (sa_requests a + 1);
       sa_successful := if ur_success r then wrap_u64 (sa_successful a + 1) else sa_successful a;
       sa_failed := if ur_success r then sa_failed a else wrap_u64 (sa_failed a + 1);
       sa_prompt := wrap_u64 (sa_prompt a + ur_prompt_tokens r);
       sa_completion := wrap_u64 (sa_completion a + ur_completion_tokens r);
       sa_cost := f64_add (sa_cost a) (ur_cost_usd r);
       sa_latency := wrap_u64 (sa_latency a + ur_latency_ms r);
       sa_last :=
         match sa_last a with
         | Some t => if t <? ur_created_at r then Some (ur_created_at r) else Some t
         | None => Some (ur_created_at r)
         end;
       sa_models := {[ ur_model r ]} ∪ sa_models a |}
  else a.

Definition average (total count : Z) : f64 :=
  if 0 <? count then f64_div (f64_of_Z total) (f64_of_Z count) else f64_zero.

Definition get_key_stats (iter_set : gset string -> list string) (api_key_id : string)
    (s : UsageStore) : UsageStats :=
  let a := foldl (stats_step api_key_id) stats_acc_new (ust_records s) in
  {| us_api_key_id := api_key_id; us_total_requests := sa_requests a;
     us_successful_requests := sa_successful a; us_failed_requests := sa_failed a;
     us_total_prompt_tokens := sa_prompt a; us_total_completion_tokens := sa_completion a;
     us_total_tokens := wrap_u64 (sa_prompt a + sa_completion a);
     us_total_cost_usd := sa_cost a; us_avg_latency_ms := average (sa_latency a) (sa_requests a);
     us_last_request_at := sa_last a; us_models_used := iter_set (sa_models a) |}.

(** ** The dashboard *)

(** One row of an aggregation: requests, tokens, cost. *)
Definition agg : Type := Z * Z * f64.

Definition agg_requests (a : agg) : Z := a.1.1.

Section TopN.
Context (iter : gmap string agg -> list (string * agg)).

Definition more_requests (a b : string * agg) : bool := agg_requests b.2 <? agg_requests a.2.

Definition top_n {T} (stats : gmap string agg) (n : nat) (make : string -> Z -> Z -> f64 -> T)
    : list T :=
  (fun '(key, (requests, tokens, cost)) => make key requests tokens cost) <$>
    take n (stable_sort more_requests (iter stats)).
End TopN.

(** [entry(key).or_insert((0, 0, 0.0))] and its three updates. *)
Definition agg_add (key : string) (tokens : Z) (cost : f64) (m : gmap string agg) : gmap string agg :=
  let '(r, t, c) := default (0, 0, f64_zero) (m !! key) in
  <[key := (wrap_u64 (r + 1), wrap_u64 (t + tokens), f64_add c cost)]> m.

Definition agg_by (key : UsageRecord -> string) (l : list UsageRecord) : gmap string agg :=
  foldl (fun m r => agg_add (key r) (ur_total_tokens r) (ur_cost_usd r) m) ∅ l.

Definition count_u64 {A} (p : A -> bool) (l : list A) : Z :=
  foldl (fun n x => if p x then wrap_u64 (n + 1) else n) 0 l.

Definition sum_u64 {A} (f : A -> Z) (l : list A) : Z :=
  foldl (fun n x => wrap_u64 (n + f x)) 0 l.

Definition get_dashboard (iter : gmap string agg -> list (string * agg)) (key_count : Z)
    (s : UsageStore) : DashboardSummary :=
  let l := ust_records s in
  let total_requests := count_u64 (fun _ => true) l in
  {| ds_total_keys := key_count;
     ds_total_requests := total_requests;
     ds_total_tokens := sum_u64 ur_total_tokens l;
     ds_total_cost_usd := f64_sum (ur_cost_usd <$> l);
     ds_avg_latency_ms := average (sum_u64 ur_latency_ms l) total_requests;
     ds_error_rate := average (count_u64 (fun r => negb (ur_success r)) l) total_requests;
     ds_top_models := top_n iter (agg_by ur_model l) 10
       (fun k r t c => {| mu_model := k; mu_requests := r; mu_tokens := t; mu_cost_usd := c |});
     ds_top_providers := top_n iter (agg_by ur_provider l) 10
       (fun k r t c => {| pu_provider := k; pu_requests := r; pu_tokens := t; pu_cost_usd := c |});
     ds_recent_errors := take 10 (List.filter (fun r => negb (ur_success r)) (rev l)) |}.

(** ** The request log *)

Record RequestLogEntry := {
  le_trace_id : string;
  le_stage : string;
  le_model : string;
  le_provider : string;
  le_prompt_tokens : Z;
  le_completion_tokens : Z;
  le_total_tokens : Z;
  le_error_message : option string;
  le_created_at : Z;
}.

Record RequestLogQuery := {
  rq_limit : option nat;
  rq_offset : option nat;
  rq_stage : option string;
  rq_model : option string;
  rq_provider : option string;
  rq_since : option Z;
}.

Record MaintenanceQuery := {
  mq_before : option Z;
  mq_stage : option string;
  mq_model : option string;
  mq_provider : option string;
}.

Record RequestLogListResult := { rl_data : list RequestLogEntry; rl_total : nat }.

(** What the gateway asks of a request log. *)
Class RequestLogStore (L : Type) := {
  log_write : RequestLogEntry -> L -> result unit string * L;
  log_list : RequestLogQuery -> L -> result RequestLogListResult string;
  log_delete : MaintenanceQuery -> L -> result nat string * L;
  log_count : L -> nat;
}.

Definition DEFAULT_MAX_ENTRIES : Z := 100000.

Record InMemoryRequestLogStore := {
  rls_entries : list RequestLogEntry;
  rls_max_entries : Z;
}.

Definition request_log_new : InMemoryRequestLogStore :=
  {| rls_entries := []; rls_max_entries := DEFAULT_MAX_ENTRIES |}.

Definition with_entries (s : InMemoryRequestLogStore) (l : list RequestLogEntry)
    : InMemoryRequestLogStore :=
  {| rls_entries := l; rls_max_entries := rls_max_entries s |}.

Definition request_log_write (e : RequestLogEntry) (s : InMemoryRequestLogStore)
    : result unit string * InMemoryRequestLogStore :=
  (Ok tt, with_entries s (ring_push (rls_max_entries s) e (rls_entries s))).

(** [if let Some(x) = field { if e != x { return false } }] *)
Definition field_is (field : option string) (value : string) : bool :=
  match field with Some x => bool_decide (value = x) | None => true end.

Definition query_matches (q : RequestLogQuery) (e : RequestLogEntry) : bool :=
  field_is (rq_stage q) (le_stage e) && field_is (rq_model q) (le_model e) &&
  field_is (rq_provider q) (le_provider e) &&
  match rq_since q with Some since => negb (le_created_at e <? since) | None => true end.

Definition request_log_list (q : RequestLogQuery) (s : InMemoryRequestLogStore)
    : result RequestLogListResult string :=
  let filtered := List.filter (query_matches q) (rls_entries s) in
  let offset := default 0%nat (rq_offset q) in
  let limit := default 100%nat (rq_limit q) in
  Ok {| rl_data := take limit (drop offset filtered); rl_total := length filtered |}.

(** [if let Some(x) = field { if e == x { return false } }] *)
Definition field_hits (field : option string) (value : string) : bool :=
  match field with Some x => bool_decide (value = x) | None => false end.

Definition delete_retains (q : MaintenanceQuery) (e : RequestLogEntry) : bool :=
  if match mq_before q with Some before => before <=? le_created_at e | None => false end then true
  else if field_hits (mq_stage q) (le_stage e) then false
  else if field_hits (mq_model q) (le_model e) then false
  else if field_hits (mq_provider q) (le_provider e) then false
  else true.

Definition request_log_delete (q : MaintenanceQuery) (s : InMemoryRequestLogStore)
    : result nat string * InMemoryRequestLogStore :=
  let kept := List.filter (delete_retains q) (rls_entries s) in
  (Ok (length (rls_entries s) - length kept)%nat, with_entries s kept).

#[export] Instance in_memory_request_log : RequestLogStore InMemoryRequestLogStore :=
  {| log_write := request_log_write; log_list := request_log_list;
     log_delete := request_log_delete; log_count s := length (rls_entries s) |}.

(** ** Rings *)

Lemma ring_evict_drop {A} (max : Z) (l : list A) :
  ring_evict max l = drop (length l - Z.to_nat max) l.
Proof.
  induction l as [|x l IH]; [by rewrite drop_nil|]. cbn [ring_evict].
  destruct (Z.ltb_spec max (Z.of_nat (length (x :: l)))) as [Hlt|Hle]; cbn [length] in *.
  - destruct (decide (0 <= max)).
    + replace (S (length l) - Z.to_nat max)%nat with (S (length l - Z.to_nat max)) by lia.
      exact IH.
    + rewrite IH. replace (Z.to_nat max) with 0%nat by lia.
      rewrite !Nat.sub_0_r. by rewrite (drop_ge l), drop_ge by (cbn; lia).
  - by replace (S (length l) - Z.to_nat max)%nat with 0%nat by lia.
Qed.

(** A ring that received [xs] holds the last [max] of them. *)
Lemma ring_run {A} (max : Z) (xs : list A) : 0 <= max ->
  foldl (fun l x => ring_push max x l) [] xs = drop (length xs - Z.to_nat max) xs.
Proof.
  intros Hmax. induction xs as [|x xs IH] using rev_ind; [done|].
  rewrite foldl_app, IH. cbn [foldl]. unfold ring_push. rewrite ring_evict_drop.
  rewrite !length_app, length_drop. cbn [length].
  destruct (decide (length xs < Z.to_nat max)%nat).
  - replace (length xs - Z.to_nat max)%nat with 0%nat by lia. rewrite drop_0.
    f_equal. lia.
  - destruct (decide (Z.to_nat max = 0%nat)) as [->|].
    { rewrite !drop_ge; [done|..]; rewrite ?length_app, ?length_drop; cbn; lia. }
    rewrite (drop_app_le xs [x]) by lia.
    replace (length xs - (length xs - Z.to_nat max) + 1 - Z.to_nat max)%nat with 1%nat by lia.
    rewrite (drop_app_le (drop _ xs) [x]); [|rewrite length_drop; lia].
    rewrite drop_drop. f_equal. f_equal. lia.
Qed.

(** ** Properties *)

(** The usage ring keeps the newest records. After any sequence of
    requests the store holds the last [max_records] of them in order, so it
    never holds more, and its prices never change. *)
Theorem usage_store_keeps_newest max pricing rs : 0 <= max ->
  let s := foldl (fun s r => record_usage_record r s)
    {| ust_records := []; ust_max_records := max; ust_pricing := pricing |} rs in
  ust_records s = drop (length rs - Z.to_nat max) rs /\
  usage_count s = Z.min max (Z.of_nat (length rs)) /\
  ust_pricing s = pricing.
Proof.
  intros Hmax s.
  assert (s = {| ust_records := foldl (fun l x => ring_push max x l) [] rs;
                 ust_max_records := max; ust_pricing := pricing |}) as ->.
  { subst s. generalize (@nil UsageRecord) as l.
    induction rs as [|r rs IH]; intros l; [done|]. cbn [foldl]. apply IH. }
  unfold usage_count. cbn [ust_records ust_pricing]. rewrite ring_run by done.
  rewrite length_drop. split_and!; [done|lia|done].
Qed.

(** Pages of a list. *)
Lemma pages_of {A} (n k : nat) (l : list A) :
  concat ((fun i => take n (drop (i * n) l)) <$> seq 0 k) = take (k * n) l.
Proof.
  induction k as [|k IH]; [done|]. rewrite seq_S, fmap_app, concat_app, IH. cbn [fmap list_fmap concat].
  rewrite app_nil_r. replace (S k * n)%nat with (k * n + n)%nat by lia.
  rewrite <- (take_drop (k * n) l) at 3. rewrite take_app.
  rewrite take_take, length_take. f_equal; [f_equal; lia|].
  destruct (decide (k * n <= length l)%nat).
  - f_equal. lia.
  - rewrite !(drop_ge l) by lia. by rewrite !take_nil.
Qed.

(** Listing the request log. [total] counts the matching entries, a page
    never exceeds its limit, every entry on it matches the query, and the
    pages of a listing, in order, are the matching entries, each once. *)
Theorem request_log_pages q n k s :
  let page i := request_log_list
    {| rq_limit := Some n; rq_offset := Some (i * n)%nat; rq_stage := rq_stage q;
       rq_model := rq_model q; rq_provider := rq_provider q; rq_since := rq_since q |} s in
  let data i := match page i with Ok r => rl_data r | Err _ => [] end in
  (forall i, exists r, page i = Ok r /\ (length (rl_data r) <= n)%nat /\
     (forall e, e ∈ rl_data r -> query_matches q e = true) /\
     rl_total r = length (List.filter (query_matches q) (rls_entries s))) /\
  concat (data <$> seq 0 k) = take (k * n) (List.filter (query_matches q) (rls_entries s)).
Proof.
  split.
  - intros i. eexists. split; [reflexivity|]. cbn [rl_data rl_total].
    split_and!; [rewrite length_take; cbn; lia| |done].
    intros e He. apply list_elem_of_In in He.
    assert (In e (List.filter (query_matches q) (rls_entries s))) as Hin.
    { apply list_elem_of_In. apply list_elem_of_In in He. cbn in He.
      eapply list_elem_of_lookup in He as [j Hj]. rewrite lookup_take in Hj.
      case_decide; [|done]. rewrite lookup_drop in Hj. by eapply list_elem_of_lookup_2. }
    by apply filter_In in Hin as [_ ?].
  - rewrite <- pages_of. done.
Qed.

Lemma field_hits_true f v : field_hits f v = true <-> f = Some v.
Proof.
  destruct f as [x|]; cbn; [|done]. rewrite bool_decide_eq_true.
  split; [by intros ->|by intros [= ->]].
Qed.

Lemma delete_retains_false q e : delete_retains q e = false <->
  (forall b, mq_before q = Some b -> le_created_at e < b) /\
  (mq_stage q = Some (le_stage e) \/ mq_model q = Some (le_model e) \/
   mq_provider q = Some (le_provider e)).
Proof.
  rewrite <- !field_hits_true. unfold delete_retains.
  assert (match mq_before q with Some before => before <=? le_created_at e | None => false end = false
    <-> forall b, mq_before q = Some b -> le_created_at e < b) as <-.
  { destruct (mq_before q) as [b|]; [|done]. rewrite Z.leb_gt.
    split; [by intros ? ? [= <-]|intros H; by apply H]. }
  destruct (match mq_before q with Some _ => _ | None => _ end);
    destruct (field_hits _ _), (field_hits _ _), (field_hits _ _); naive_solver.
Qed.

(** What a maintenance query deletes. An entry is deleted when it is older
    than [before], if that is given, and hits at least one of the named
    fields: naming two fields deletes their union, and a query that names none
    of them, whatever its [before], deletes nothing. *)
Theorem request_log_delete_spec q s :
  let '(r, s') := request_log_delete q s in
  (forall e, e ∈ rls_entries s' <-> e ∈ rls_entries s /\
     ~ ((forall b, mq_before q = Some b -> le_created_at e < b) /\
        (mq_stage q = Some (le_stage e) \/ mq_model q = Some (le_model e) \/
         mq_provider q = Some (le_provider e)))) /\
  r = Ok (length (rls_entries s) - length (rls_entries s'))%nat /\
  (mq_stage q = None -> mq_model q = None -> mq_provider q = None -> (r, s') = (Ok 0%nat, s)).
Proof.
  unfold request_log_delete. split_and!; [|done|].
  - intros e. cbn. rewrite list_elem_of_In, filter_In, <- list_elem_of_In.
    apply and_iff_compat_l. rewrite <- delete_retains_false.
    by destruct (delete_retains q e).
  - intros Hs Hm Hp. assert (forall l, List.filter (delete_retains q) l = l) as Hid.
    { intros l. induction l as [|e l IH]; [done|]. cbn.
      destruct (delete_retains q e) eqn:E; [by rewrite IH|].
      apply delete_retains_false in E as [_ E]. rewrite Hs, Hm, Hp in E. naive_solver. }
    rewrite Hid, Nat.sub_diag. by destruct s.
Qed.

(** Statistics. *)

(** Token counts at the width of the source, and not more than [2 ^ 31]
    records: the default ring holds [100000]. *)
Definition sums_fit (l : list UsageRecord) : Prop :=
  Z.of_nat (length l) <= 2 ^ 31 /\
  forall r, r ∈ l -> u32 (ur_prompt_tokens r) /\ u32 (ur_completion_tokens r).

Definition total {A} (f : A -> Z) (l : list A) : Z := foldr (fun x n => f x + n) 0 l.

Definition by_key (k : string) (l : list UsageRecord) : list UsageRecord :=
  List.filter (fun r => bool_decide (ur_api_key_id r = Some k)) l.

Lemma total_app {A} (f : A -> Z) l l' : total f (l ++ l') = total f l + total f l'.
Proof. unfold total. induction l as [|x l IH]; cbn; [done|]. lia. Qed.

Lemma total_bound {A} (f : A -> Z) c l : (forall x, x ∈ l -> 0 <= f x <= c) ->
  0 <= total f l <= Z.of_nat (length l) * c.
Proof.
  unfold total. induction l as [|x l IH]; intros H; [cbn; lia|].
  pose proof (H x ltac:(by left)). specialize (IH ltac:(intros; apply H; by right)). cbn. lia.
Qed.

Lemma by_key_elem k l r : r ∈ by_key k l <-> r ∈ l /\ ur_api_key_id r = Some k.
Proof.
  unfold by_key. rewrite list_elem_of_In, filter_In, <- list_elem_of_In.
  by rewrite bool_decide_eq_true.
Qed.

Lemma by_key_app k l l' : by_key k (l ++ l') = (by_key k l ++ by_key k l')%list.
Proof. apply List.filter_app. Qed.

Lemma length_filter_le {A} (p : A -> bool) l : (length (List.filter p l) <= length l)%nat.
Proof. induction l as [|x l IH]; cbn; [done|]. destruct (p x); cbn; lia. Qed.

Definition successes (l : list UsageRecord) : list UsageRecord := List.filter ur_success l.
Definition failures (l : list UsageRecord) : list UsageRecord :=
  List.filter (fun r => negb (ur_success r)) l.

Lemma success_or_failure l : (length (successes l) + length (failures l))%nat = length l.
Proof.
  unfold successes, failures. induction l as [|r l IH]; cbn; [done|].
  destruct (ur_success r); cbn; lia.
Qed.

(** The accumulators after a list of records. *)
Definition stats_of (k : string) (l : list UsageRecord) (a : StatsAcc) : Prop :=
  let m := by_key k l in
  sa_requests a = Z.of_nat (length m) /\
  sa_successful a = Z.of_nat (length (successes m)) /\
  sa_failed a = Z.of_nat (length (failures m)) /\
  sa_prompt a = total ur_prompt_tokens m /\
  sa_completion a = total ur_completion_tokens m /\
  match sa_last a with
  | None => m = []
  | Some t => (exists r, r ∈ m /\ ur_created_at r = t) /\ forall r, r ∈ m -> ur_created_at r <= t
  end /\
  (forall x, x ∈ sa_models a <-> exists r, r ∈ m /\ ur_model r = x).

Lemma stats_fold k l : sums_fit l -> stats_of k l (foldl (stats_step k) stats_acc_new l).
Proof.
  induction l as [|r l IH] using rev_ind; intros [Hlen Hu].
  { split_and!; try done. intros x. cbn. rewrite elem_of_empty. split; [done|].
    intros (r & Hr & _). by apply not_elem_of_nil in Hr. }
  rewrite length_app in Hlen. cbn in Hlen.
  assert (sums_fit l) as Hfit by (split; [lia|intros; apply Hu, elem_of_app; by left]).
  specialize (IH Hfit) as (H1 & H2 & H3 & H4 & H5 & H6 & H7).
  destruct (Hu r ltac:(apply elem_of_app; right; by left)) as [Hp Hc].
  rewrite foldl_app. cbn [foldl]. set (a := foldl _ _ l) in *. unfold stats_of, stats_step.
  rewrite by_key_app. assert (by_key k [r] = if bool_decide (ur_api_key_id r = Some k)
    then [r] else []) as -> by (unfold by_key; cbn; by case_bool_decide).
  case_bool_decide as Hk; [|rewrite !app_nil_r; by split_and!].
  pose proof (length_filter_le (fun r => bool_decide (ur_api_key_id r = Some k)) l) as Hml.
  fold (by_key k l) in Hml. pose proof (success_or_failure (by_key k l)).
  assert (forall f, (forall r, r ∈ l -> u32 (f r)) -> u32 (f r) ->
    wrap_u64 (total f (by_key k l) + f r) = total f (by_key k l ++ [r])) as Hsum.
  { intros f Hf Hr. rewrite total_app. cbn. rewrite Z.add_0_r. apply wrap_u64_small.
    pose proof (total_bound f U32_MAX (by_key k l)
      ltac:(intros x [Hx _]%by_key_elem; by apply Hf)).
    unfold u64, u32, U64_MAX, U32_MAX in *. nia. }
  cbn. unfold successes, failures. rewrite !List.filter_app, !length_app. cbn.
  split_and!.
  - rewrite wrap_u64_small; [|unfold u64, U64_MAX]; lia.
  - destruct (ur_success r); cbn; [rewrite wrap_u64_small; [|unfold u64, U64_MAX]|];
      unfold successes in *; lia.
  - destruct (ur_success r); cbn; [|rewrite wrap_u64_small; [|unfold u64, U64_MAX]];
      unfold failures in *; lia.
  - rewrite H4. apply Hsum; [|done]. intros; apply Hu, elem_of_app; by left.
  - rewrite H5. apply Hsum; [|done]. intros; apply Hu, elem_of_app; by left.
  - destruct (sa_last a) as [t|].
    + destruct H6 as [(r0 & Hr0 & Ht) Hmax].
      destruct (Z.ltb_spec t (ur_created_at r)); split.
      * exists r. split; [apply elem_of_app; right; by left|done].
      * intros r' [Hr'|Hr']%elem_of_app; [apply Hmax in Hr'; lia|].
        apply list_elem_of_singleton in Hr' as ->. lia.
      * exists r0. split; [apply elem_of_app; by left|done].
      * intros r' [Hr'|Hr']%elem_of_app; [by apply Hmax|].
        apply list_elem_of_singleton in Hr' as ->. lia.
    + rewrite H6. cbn. split.
      * exists r. split; [by left|done].
      * intros r' ->%list_elem_of_singleton. lia.
  - intros x. rewrite elem_of_union, elem_of_singleton, H7. setoid_rewrite elem_of_app.
    setoid_rewrite list_elem_of_singleton. naive_solver.
Qed.

(** The statistics of a key. Over the records kept for a key, and only
    those: the requests are the successful and the failed ones, the token
    totals are the exact sums, the last request is the latest, and the models
    used are the models of those records. *)
Theorem key_stats_exact iter_set k s : sums_fit (ust_records s) ->
  (forall m, iter_set m ≡ₚ elements m) ->
  let st := get_key_stats iter_set k s in
  let m := by_key k (ust_records s) in
  us_total_requests st = Z.of_nat (length m) /\
  us_successful_requests st = Z.of_nat (length (successes m)) /\
  us_total_requests st = us_successful_requests st + us_failed_requests st /\
  us_total_tokens st = total (fun r => ur_prompt_tokens r + ur_completion_tokens r) m /\
  (forall r, r ∈ m -> exists t, us_last_request_at st = Some t /\ ur_created_at r <= t) /\
  (forall x, x ∈ us_models_used st <-> exists r, r ∈ m /\ ur_model r = x) /\
  NoDup (us_models_used st).
Proof.
  intros Hfit Hiter st m. pose proof (stats_fold k _ Hfit) as (H1 & H2 & H3 & H4 & H5 & H6 & H7).
  fold m in H1, H2, H3, H4, H5, H6, H7. subst st. unfold get_key_stats. cbn [us_total_requests
    us_successful_requests us_failed_requests us_total_tokens us_last_request_at us_models_used].
  set (a := foldl _ _ _) in *. pose proof (success_or_failure m).
  split_and!; [done|done|lia| | | |].
  - assert (total (fun r => ur_prompt_tokens r + ur_completion_tokens r) m =
      total ur_prompt_tokens m + total ur_completion_tokens m) as ->.
    { clear. unfold total. induction m as [|r m IH]; cbn; [done|]. lia. }
    rewrite H4, H5. apply wrap_u64_small. destruct Hfit as [Hlen Hu].
    pose proof (length_filter_le (fun r => bool_decide (ur_api_key_id r = Some k)) (ust_records s)).
    fold (by_key k (ust_records s)) in H0. fold m in H0.
    pose proof (total_bound ur_prompt_tokens U32_MAX m
      ltac:(intros x [Hx _]%by_key_elem; by apply Hu)).
    pose proof (total_bound ur_completion_tokens U32_MAX m
      ltac:(intros x [Hx _]%by_key_elem; by apply Hu)).
    unfold u64, U64_MAX, U32_MAX in *. nia.
  - intros r Hr. destruct (sa_last a) as [t|]; [|rewrite H6 in Hr; by apply not_elem_of_nil in Hr].
    exists t. split; [done|]. by apply H6.
  - intros x. rewrite Hiter, elem_of_elements. apply H7.
  - rewrite Hiter. apply NoDup_elements.
Qed.

(** ** Witnesses *)

Definition demo_record (id : string) (key : string) (ok : bool) : UsageRecord :=
  {| ur_request_id := id; ur_api_key_id := Some key; ur_model := "gpt-4o"; ur_provider := "openai";
     ur_prompt_tokens := 10; ur_completion_tokens := 20; ur_total_tokens := 30;
     ur_cost_usd := f64_zero; ur_latency_ms := 5; ur_created_at := 1; ur_success := ok;
     ur_error_message := None |}.

Definition demo_records : list UsageRecord :=
  [demo_record "r1" "k1" true; demo_record "r2" "k2" true; demo_record "r3" "k1" false].

Lemma usage_store_keeps_newest_witness :
  ur_request_id <$> ust_records (foldl (fun s r => record_usage_record r s)
    {| ust_records := []; ust_max_records := 2; ust_pricing := default_pricing |} demo_records)
  = ["r2"; "r3"].
Proof.
  destruct (usage_store_keeps_newest 2 default_pricing demo_records) as [-> _]; [lia|reflexivity].
Defined.

Definition demo_stats : UsageStats :=
  get_key_stats elements "k1"
    {| ust_records := demo_records; ust_max_records := 10; ust_pricing := [] |}.

Lemma key_stats_exact_witness :
  us_total_requests demo_stats = 2 /\ us_successful_requests demo_stats = 1 /\
  us_total_tokens demo_stats = 60.
Proof.
  destruct (key_stats_exact elements "k1"
    {| ust_records := demo_records; ust_max_records := 10; ust_pricing := [] |})
    as (H1 & H2 & _ & H4 & _).
  - split; [cbn; lia|]. intros r Hr. cbn in Hr.
    repeat (apply elem_of_cons in Hr as [->|Hr]; [by vm_compute|]). by apply not_elem_of_nil in Hr.
  - done.
  - split_and!; [exact H1|exact H2|exact H4].
Defined.
