(* ===== verification/Auditing.v ===== *)
(** * Audit events and request accounting
    (src/crates/himadri/src/gateway/audit.rs,
    src/crates/himadri-observability/src/audit.rs, redact.rs, metrics.rs)

    The audit log is what its bounded queue accepted; AuditSink.v has the sink that
    drains the queue. The engine of the redactor's regular expressions is an argument.
    Counters are the [u64]s of the Prometheus client, which wrap. The clock
    and the identifiers of a record come with the call. *)

From S2P Require Import Prelude Str Float Types Usage.

(** ** Events *)

Record AuditMessage := { am_role : string; am_content : string }.

Inductive AuditStatus :=
  | AuditSuccess | AuditError | AuditRateLimited | AuditGuardrailBlocked
  | AuditUnauthorized | AuditForbidden.

Record AuditEvent := {
  ae_request_id : string;
  ae_timestamp : Z;
  ae_org_id : option string;
  ae_team_id : option string;
  ae_user_id : option string;
  ae_key_id : option string;
  ae_model : string;
  ae_provider : option string;
  ae_messages : list AuditMessage;
  ae_response : option string;
  ae_latency_ms : Z;
  ae_tokens_prompt : option Z;
  ae_tokens_completion : option Z;
  ae_tokens_total : option Z;
  ae_status : AuditStatus;
  ae_error : option string;
  ae_guardrail_actions : list string;
  ae_stream : bool;
}.

Definition with_content (messages : list AuditMessage) (response : option string) (e : AuditEvent)
    : AuditEvent :=
  {| ae_request_id := ae_request_id e; ae_timestamp := ae_timestamp e;
     ae_org_id := ae_org_id e; ae_team_id := ae_team_id e; ae_user_id := ae_user_id e;
     ae_key_id := ae_key_id e; ae_model := ae_model e; ae_provider := ae_provider e;
     ae_messages := messages; ae_response := response; ae_latency_ms := ae_latency_ms e;
     ae_tokens_prompt := ae_tokens_prompt e; ae_tokens_completion := ae_tokens_completion e;
     ae_tokens_total := ae_tokens_total e; ae_status := ae_status e; ae_error := ae_error e;
     ae_guardrail_actions := ae_guardrail_actions e; ae_stream := ae_stream e |}.

(** ** The redactor *)

(** The five patterns, in the order [redact] applies them. *)
Inductive Pattern := JwtRegex | BearerRegex | ApiKeyRegex | EmailRegex | AwsKeyRegex.

(** [Redactor::new] *)
Definition pattern_source (p : Pattern) : string :=
  match p with
  | EmailRegex => "[a-zA-Z0-9._%+-]+@[a-zA-Z0-9.-]+\.[a-zA-Z]{2,}"
  | JwtRegex => "eyJ[a-zA-Z0-9_-]+\.eyJ[a-zA-Z0-9_-]+\.[a-zA-Z0-9_-]+"
  | AwsKeyRegex => "AKIA[0-9A-Z]{16}"
  | ApiKeyRegex => "sk-[a-zA-Z0-9_-]{16,}"
  | BearerRegex => "(?i)bearer\s+[a-zA-Z0-9._~+/=-]{16,}"
  end.

Definition redact_steps : list (Pattern * string) :=
  [(JwtRegex, "[REDACTED_JWT]"); (BearerRegex, "[REDACTED_BEARER_TOKEN]");
   (ApiKeyRegex, "[REDACTED_API_KEY]"); (EmailRegex, "[REDACTED_EMAIL]");
   (AwsKeyRegex, "[REDACTED_AWS_KEY]")].

Section Redact.
(** [regex.replace_all(text, replacement)] *)
Context (replace_all : Pattern -> string -> string -> string).

Definition redact (input : string) : string :=
  foldl (fun result '(regex, replacement) => replace_all regex result replacement)
    input redact_steps.

(** ** The audit log *)

Definition AUDIT_CHANNEL_CAPACITY : Z := 8192.

Record AuditLog := {
  al_queue : list AuditEvent;
  al_redactor : bool;
  al_capture_content : bool;
  al_dropped : Z;
}.

Definition audit_with_options (redact_pii capture_content : bool) : AuditLog :=
  {| al_queue := []; al_redactor := redact_pii; al_capture_content := capture_content;
     al_dropped := 0 |}.

Definition audit_new (redact_pii : bool) : AuditLog := audit_with_options redact_pii false.

(** What leaves the process of an event. *)
Definition audit_strip (l : AuditLog) (e : AuditEvent) : AuditEvent :=
  if negb (al_capture_content l) then with_content [] None e
  else if al_redactor l then
    with_content
      ((fun m => {| am_role := am_role m; am_content := redact (am_content m) |}) <$> ae_messages e)
      (redact <$> ae_response e) e
  else e.

(** [try_send] fails on a full queue. *)
Definition audit_log (e : AuditEvent) (l : AuditLog) : AuditLog :=
  let e := audit_strip l e in
  if Z.of_nat (length (al_queue l)) <? AUDIT_CHANNEL_CAPACITY then
    {| al_queue := (al_queue l ++ [e])%list; al_redactor := al_redactor l;
       al_capture_content := al_capture_content l; al_dropped := al_dropped l |}
  else
    {| al_queue := al_queue l; al_redactor := al_redactor l;
       al_capture_content := al_capture_content l; al_dropped := wrap_u64 (al_dropped l + 1) |}.

(** The sink takes the oldest event. *)
Definition audit_recv (l : AuditLog) : option AuditEvent * AuditLog :=
  match al_queue l with
  | [] => (None, l)
  | e :: q =>
      (Some e, {| al_queue := q; al_redactor := al_redactor l;
                  al_capture_content := al_capture_content l; al_dropped := al_dropped l |})
  end.

Definition log_auth_failure (timestamp_nanos : option Z) (now : Z) (status : AuditStatus) (reason : string)
    (remote_ip user_id key_id : option string) (l : AuditLog) : AuditLog :=
  let error := match remote_ip with
               | Some ip => reason +:+ " (ip: " +:+ ip +:+ ")"
               | None => reason
               end in
  audit_log
    {| ae_request_id := "auth-" +:+ show_Z (default 0 timestamp_nanos); ae_timestamp := now; ae_org_id := None;
       ae_team_id := None; ae_user_id := user_id; ae_key_id := key_id; ae_model := "";
       ae_provider := None; ae_messages := []; ae_response := None; ae_latency_ms := 0;
       ae_tokens_prompt := None; ae_tokens_completion := None; ae_tokens_total := None;
       ae_status := status; ae_error := Some error; ae_guardrail_actions := [];
       ae_stream := false |} l.

End Redact.

(** ** Metrics *)

(** The counters the request path touches, by [provider, model] labels. *)
Record Metrics := {
  mt_requests_total : gmap (string * string) Z;
  mt_request_duration : list f64;
  mt_tokens_input_total : gmap (string * string) Z;
  mt_tokens_output_total : gmap (string * string) Z;
  mt_provider_errors : gmap (string * string) Z;
  mt_cost_usd_total : gmap (string * string) Z;
  mt_cache_hits_total : Z;
  mt_cache_misses_total : Z;
}.

Definition metrics_new : Metrics :=
  {| mt_requests_total := ∅; mt_request_duration := []; mt_tokens_input_total := ∅;
     mt_tokens_output_total := ∅; mt_provider_errors := ∅; mt_cost_usd_total := ∅;
     mt_cache_hits_total := 0; mt_cache_misses_total := 0 |}.

Definition counter (labels : string * string) (m : gmap (string * string) Z) : Z :=
  default 0 (m !! labels).

Definition inc_by (labels : string * string) (n : Z) (m : gmap (string * string) Z)
    : gmap (string * string) Z :=
  <[labels := wrap_u64 (counter labels m + n)]> m.

Definition inc_cache_hits (m : Metrics) : Metrics :=
  {| mt_requests_total := mt_requests_total m; mt_request_duration := mt_request_duration m;
     mt_tokens_input_total := mt_tokens_input_total m;
     mt_tokens_output_total := mt_tokens_output_total m;
     mt_provider_errors := mt_provider_errors m; mt_cost_usd_total := mt_cost_usd_total m;
     mt_cache_hits_total := wrap_u64 (mt_cache_hits_total m + 1);
     mt_cache_misses_total := mt_cache_misses_total m |}.

Definition inc_cache_misses (m : Metrics) : Metrics :=
  {| mt_requests_total := mt_requests_total m; mt_request_duration := mt_request_duration m;
     mt_tokens_input_total := mt_tokens_input_total m;
     mt_tokens_output_total := mt_tokens_output_total m;
     mt_provider_errors := mt_provider_errors m; mt_cost_usd_total := mt_cost_usd_total m;
     mt_cache_hits_total := mt_cache_hits_total m;
     mt_cache_misses_total := wrap_u64 (mt_cache_misses_total m + 1) |}.

(** ** Outcomes of a request *)

Record RequestEvent := {
  ev_auth : option AuthContext;
  ev_request_id : string;
  ev_provider : string;
  ev_model : string;
  ev_messages : list AuditMessage;
  ev_response_text : option string;
  ev_latency_ms : Z;
  ev_tokens_prompt : Z;
  ev_tokens_completion : Z;
  ev_tokens_total : Z;
  ev_status : AuditStatus;
  ev_error : option string;
  ev_guardrail_actions : list string;
  ev_stream : bool;
  ev_api_key_id : option string;
}.

Record AccountOutcome := {
  ao_provider : string;
  ao_model : string;
  ao_api_key_id : option string;
  ao_usage : option Usage;
  ao_error : option string;
  ao_latency_ms : Z;
}.

(** What a recording draws from outside: three readings of the clock and two
    fresh UUIDs. *)
Record Stamp := {
  stamp_audit_now : Z;
  stamp_usage_now : Z;
  stamp_log_now : Z;
  stamp_usage_id : string;
  stamp_trace_id : string;
}.

(** The auditor's trait object, acting on the stores [St]. *)
Record RequestAuditor (St : Type) := {
  record_full : Stamp -> RequestEvent -> St -> St;
  record_accounting : Stamp -> AccountOutcome -> St -> St;
}.
Arguments record_full {St}.
Arguments record_accounting {St}.

(** The four stores. A request log is shared by address: the gateway keeps an
    [Arc] to one and its auditor keeps its own. *)
Record AuditStores (L : Type) := {
  as_audit_log : AuditLog;
  as_metrics : Metrics;
  as_usage : UsageStore;
  as_request_logs : gmap nat L;
}.
Arguments as_audit_log {L}.
Arguments as_metrics {L}.
Arguments as_usage {L}.
Arguments as_request_logs {L}.

Definition usage_or_zero (u : option Usage) : Z * Z * Z :=
  match u with
  | Some u => (usage_prompt_tokens u, usage_completion_tokens u, usage_total_tokens u)
  | None => (0, 0, 0)
  end.

Section Live.
Context (replace_all : Pattern -> string -> string -> string).
Context {L : Type} `{RequestLogStore L}.

Definition record_metrics (labels : string * string) (prompt completion latency_ms : Z)
    (error : option string) (cost : f64) (m : Metrics) : Metrics :=
  let failed := match error with Some _ => true | None => false end in
  {| mt_requests_total := inc_by labels 1 (mt_requests_total m);
     mt_request_duration :=
       (mt_request_duration m ++ [f64_div (f64_of_Z latency_ms) (f64_of_Z 1000)])%list;
     mt_tokens_input_total :=
       if failed then mt_tokens_input_total m
       else inc_by labels prompt (mt_tokens_input_total m);
     mt_tokens_output_total :=
       if failed then mt_tokens_output_total m
       else inc_by labels completion (mt_tokens_output_total m);
     mt_provider_errors :=
       if failed then inc_by labels 1 (mt_provider_errors m) else mt_provider_errors m;
     mt_cost_usd_total :=
       if negb failed && f64_ltb f64_zero cost
       then inc_by labels (f64_as_u64 (f64_mul cost (f64_of_Z 1000000))) (mt_cost_usd_total m)
       else mt_cost_usd_total m;
     mt_cache_hits_total := mt_cache_hits_total m;
     mt_cache_misses_total := mt_cache_misses_total m |}.

Definition record_usage (request_log : nat) (stamp : Stamp) (provider model : string)
    (api_key_id : option string) (prompt completion total latency_ms : Z) (error : option string)
    (st : AuditStores L) : AuditStores L :=
  let cost := match error with
              | None => usage_cost model prompt completion (as_usage st)
              | Some _ => f64_zero
              end in
  {| as_audit_log := as_audit_log st;
     as_metrics :=
       record_metrics (provider, model) prompt completion latency_ms error cost (as_metrics st);
     as_usage :=
       record_usage_record
         {| ur_request_id := stamp_usage_id stamp; ur_api_key_id := api_key_id; ur_model := model;
            ur_provider := provider; ur_prompt_tokens := prompt;
            ur_completion_tokens := completion; ur_total_tokens := total; ur_cost_usd := cost;
            ur_latency_ms := latency_ms; ur_created_at := stamp_usage_now stamp;
            ur_success := match error with None => true | Some _ => false end;
            ur_error_message := error |} (as_usage st);
     as_request_logs :=
       alter (fun l => (log_write
         {| le_trace_id := stamp_trace_id stamp; le_stage := "completed"; le_model := model;
            le_provider := provider; le_prompt_tokens := prompt;
            le_completion_tokens := completion; le_total_tokens := total;
            le_error_message := error; le_created_at := stamp_log_now stamp |} l).2)
         request_log (as_request_logs st) |}.

Definition audit_event_of (now : Z) (ev : RequestEvent) : AuditEvent :=
  {| ae_request_id := ev_request_id ev; ae_timestamp := now;
     ae_org_id := ev_auth ev ≫= auth_org_id; ae_team_id := ev_auth ev ≫= auth_team_id;
     ae_user_id := ev_auth ev ≫= auth_user_id; ae_key_id := ev_api_key_id ev;
     ae_model := ev_model ev; ae_provider := Some (ev_provider ev);
     ae_messages := ev_messages ev; ae_response := ev_response_text ev;
     ae_latency_ms := ev_latency_ms ev; ae_tokens_prompt := Some (ev_tokens_prompt ev);
     ae_tokens_completion := Some (ev_tokens_completion ev);
     ae_tokens_total := Some (ev_tokens_total ev); ae_status := ev_status ev;
     ae_error := ev_error ev; ae_guardrail_actions := ev_guardrail_actions ev;
     ae_stream := ev_stream ev |}.

Definition with_audit_log (l : AuditLog) (st : AuditStores L) : AuditStores L :=
  {| as_audit_log := l; as_metrics := as_metrics st; as_usage := as_usage st;
     as_request_logs := as_request_logs st |}.

Definition live_record_full (request_log : nat) (stamp : Stamp) (ev : RequestEvent)
    (st : AuditStores L) : AuditStores L :=
  let st := with_audit_log (audit_log replace_all (audit_event_of (stamp_audit_now stamp) ev) (as_audit_log st)) st in
  record_usage request_log stamp (ev_provider ev) (ev_model ev) (ev_api_key_id ev)
    (ev_tokens_prompt ev) (ev_tokens_completion ev) (ev_tokens_total ev) (ev_latency_ms ev)
    (ev_error ev) st.

Definition live_record_accounting (request_log : nat) (stamp : Stamp) (o : AccountOutcome)
    (st : AuditStores L) : AuditStores L :=
  let '(prompt, completion, total) := usage_or_zero (ao_usage o) in
  record_usage request_log stamp (ao_provider o) (ao_model o) (ao_api_key_id o)
    prompt completion total (ao_latency_ms o) (ao_error o) st.

Definition LiveRequestAuditor (request_log : nat) : RequestAuditor (AuditStores L) :=
  {| record_full := live_record_full request_log;
     record_accounting := live_record_accounting request_log |}.
End Live.

(** ** Texts *)

Definition role_debug (r : Role) : string :=
  match r with
  | System => "System" | User => "User" | Assistant => "Assistant" | RoleTool => "Tool"
  end.

Definition audit_messages (request : ChatCompletionRequest) : list AuditMessage :=
  (fun m => {| am_role := to_ascii_lowercase (role_debug (msg_role m));
               am_content := match msg_content m with Some c => flat_text c | None => "" end |})
    <$> req_messages request.

Definition extract_response_text (response : ChatCompletionResponse) : option string :=
  match omap (fun c => rm_content (choice_message c)) (resp_choices response) with
  | [] => None
  | parts => Some (join "" parts)
  end.

Definition redact_choice (redacted : string) (c : Choice) : Choice :=
  {| choice_index := choice_index c;
     choice_message :=
       {| rm_role := rm_role (choice_message c); rm_content := Some redacted;
          rm_tool_calls := rm_tool_calls (choice_message c) |};
     choice_finish_reason := choice_finish_reason c |}.

Definition redact_response_text (redacted : string) (response : ChatCompletionResponse)
    : ChatCompletionResponse :=
  {| resp_id := resp_id response; resp_object := resp_object response;
     resp_created := resp_created response; resp_model := resp_model response;
     resp_choices := redact_choice redacted <$> resp_choices response;
     resp_usage := resp_usage response;
     resp_system_fingerprint := resp_system_fingerprint response |}.

(** ** Properties *)

Section Properties.
Context (replace_all : Pattern -> string -> string -> string).

(** What the log lets out of an event. *)
Definition content_ok (capture redactor : bool) (e out : AuditEvent) : Prop :=
  if negb capture then ae_messages out = [] /\ ae_response out = None
  else if redactor then
    ae_messages out =
      (fun m => {| am_role := am_role m; am_content := redact replace_all (am_content m) |})
        <$> ae_messages e /\
    ae_response out = redact replace_all <$> ae_response e
  else out = e.

Lemma audit_strip_content l e :
  content_ok (al_capture_content l) (al_redactor l) e (audit_strip replace_all l e).
Proof. unfold content_ok, audit_strip. by destruct (al_capture_content l), (al_redactor l). Qed.

(** The queue after a run of events without the sink: its prefix of
    accepted events, and the rest counted as dropped. *)
Lemma audit_log_run_spec es l : Z.of_nat (length (al_queue l)) <= AUDIT_CHANNEL_CAPACITY ->
  let l' := foldl (fun l e => audit_log replace_all e l) l es in
  let room := Z.to_nat (AUDIT_CHANNEL_CAPACITY - Z.of_nat (length (al_queue l))) in
  al_queue l' = (al_queue l ++ (audit_strip replace_all l <$> take room es))%list /\
  (u64 (al_dropped l) -> al_dropped l' = wrap_u64 (al_dropped l + Z.of_nat (length es - room))) /\
  al_capture_content l' = al_capture_content l /\ al_redactor l' = al_redactor l.
Proof.
  revert l. induction es as [|e es IH]; intros l Hl; cbn [foldl].
  { cbn. rewrite take_nil, app_nil_r. split_and!; [done| |done|done].
    intros. rewrite Z.add_0_r. by rewrite wrap_u64_small. }
  cbn zeta. destruct (IH (audit_log replace_all e l)) as (Hq & Hd & Hc & Hr).
  { unfold audit_log. destruct (Z.ltb_spec (Z.of_nat (length (al_queue l))) AUDIT_CHANNEL_CAPACITY);
      cbn [al_queue]; rewrite ?length_app; cbn [length]; lia. }
  rewrite Hq, Hc, Hr. clear Hq Hc Hr. revert Hd.
  unfold audit_log.
  destruct (Z.ltb_spec (Z.of_nat (length (al_queue l))) AUDIT_CHANNEL_CAPACITY) as [Hlt|Hge];
    cbn [al_queue al_dropped al_capture_content al_redactor].
  - rewrite length_app. cbn [length]. intros Hd.
    replace (Z.to_nat (AUDIT_CHANNEL_CAPACITY - Z.of_nat (length (al_queue l))))
      with (S (Z.to_nat (AUDIT_CHANNEL_CAPACITY - Z.of_nat (length (al_queue l) + 1)))) by lia.
    cbn [take fmap list_fmap length]. rewrite <- app_assoc. split_and!; [done| |done|done].
    intros Hu. by rewrite (Hd Hu).
  - intros Hd. replace (Z.to_nat (AUDIT_CHANNEL_CAPACITY - Z.of_nat (length (al_queue l)))) with 0%nat
      in * by lia.
    cbn [take fmap list_fmap length] in *. split_and!; [done| |done|done].
    intros Hu. rewrite Hd by apply wrap_u64_range. unfold wrap_u64.
    rewrite Zplus_mod_idemp_l. f_equal. lia.
Qed.

(** User content stays inside and the queue is bounded. However many
    events are logged without the sink catching up, the queue holds at most
    its capacity of them, the oldest, in order; every further event is dropped
    and counted; and an event leaves without its messages and its response
    unless capture is on, and redacted when it is on with the redactor. *)
Theorem audit_queue_bounded_and_stripped redactor capture es :
  let l := foldl (fun l e => audit_log replace_all e l)
             (audit_with_options redactor capture) es in
  Z.of_nat (length (al_queue l)) = Z.min AUDIT_CHANNEL_CAPACITY (Z.of_nat (length es)) /\
  (Z.of_nat (length es) <= U64_MAX ->
   Z.of_nat (length (al_queue l)) + al_dropped l = Z.of_nat (length es)) /\
  (forall i out, al_queue l !! i = Some out ->
   exists e, es !! i = Some e /\ content_ok capture redactor e out).
Proof.
  intros l. destruct (audit_log_run_spec es (audit_with_options redactor capture)) as (Hq & Hd & _).
  { cbn. unfold AUDIT_CHANNEL_CAPACITY. lia. }
  fold l in Hq, Hd. cbn [audit_with_options al_queue al_dropped length app] in Hq, Hd.
  rewrite Z.sub_0_r in Hq, Hd. specialize (Hd ltac:(unfold u64, U64_MAX; lia)).
  rewrite Hq, length_fmap, length_take.
  assert (0 <= AUDIT_CHANNEL_CAPACITY) by (unfold AUDIT_CHANNEL_CAPACITY; lia).
  split_and!.
  - lia.
  - intros Hlen. rewrite Hd, Z.add_0_l, wrap_u64_small; [lia|]. unfold u64. lia.
  - intros i out Hi. rewrite list_lookup_fmap in Hi.
    destruct (take _ es !! i) as [e|] eqn:E; [|done]. injection Hi as <-.
    apply lookup_take_Some in E as [E _]. exists e. split; [done|].
    exact (audit_strip_content (audit_with_options redactor capture) e).
Qed.
End Properties.

(** *** Accounting *)

(** One call of the auditor. *)
Inductive Recording :=
  | RecFull (stamp : Stamp) (ev : RequestEvent)
  | RecAccounting (stamp : Stamp) (o : AccountOutcome).

Definition rec_labels (r : Recording) : string * string :=
  match r with
  | RecFull _ ev => (ev_provider ev, ev_model ev)
  | RecAccounting _ o => (ao_provider o, ao_model o)
  end.

Definition rec_error (r : Recording) : option string :=
  match r with RecFull _ ev => ev_error ev | RecAccounting _ o => ao_error o end.

Definition rec_prompt (r : Recording) : Z :=
  match r with
  | RecFull _ ev => ev_tokens_prompt ev
  | RecAccounting _ o => (usage_or_zero (ao_usage o)).1.1
  end.

Definition rec_failed (r : Recording) : bool :=
  match rec_error r with Some _ => true | None => false end.

Definition run_recording {L} `{RequestLogStore L} (auditor : RequestAuditor (AuditStores L))
    (st : AuditStores L) (r : Recording) : AuditStores L :=
  match r with
  | RecFull stamp ev => record_full auditor stamp ev st
  | RecAccounting stamp o => record_accounting auditor stamp o st
  end.

(** The sum of [f] over the recordings with the given labels. *)
Definition labelled (labels : string * string) (f : Recording -> Z) (rs : list Recording) : Z :=
  total (fun r => if bool_decide (rec_labels r = labels) then f r else 0) rs.

Definition when (b : bool) (n : Z) : Z := if b then n else 0.

Lemma counter_inc_by labels n m labels' :
  counter labels' (inc_by labels n m) =
    if bool_decide (labels = labels') then wrap_u64 (counter labels' m + n) else counter labels' m.
Proof.
  unfold counter, inc_by. case_bool_decide as Hl.
  - subst. by rewrite lookup_insert_eq.
  - by rewrite lookup_insert_ne.
Qed.

Lemma wrap_u64_add a b : wrap_u64 (wrap_u64 a + b) = wrap_u64 (a + b).
Proof. unfold wrap_u64. apply Zplus_mod_idemp_l. Qed.

Lemma wrap_u64_idemp a : wrap_u64 (wrap_u64 a) = wrap_u64 a.
Proof. unfold wrap_u64. by apply Z.mod_mod. Qed.

Section Accounting.
Context {L : Type} `{RequestLogStore L}.
Context (replace_all : Pattern -> string -> string -> string) (addr : nat).

Abbreviation auditor := (LiveRequestAuditor (L := L) replace_all addr).

(** What one recording does to the counters and to the request logs. *)
Lemma run_recording_effect r st :
  let st' := run_recording auditor st r in
  mt_requests_total (as_metrics st') = inc_by (rec_labels r) 1 (mt_requests_total (as_metrics st)) /\
  mt_provider_errors (as_metrics st') =
    (if rec_failed r then inc_by (rec_labels r) 1 (mt_provider_errors (as_metrics st))
     else mt_provider_errors (as_metrics st)) /\
  mt_tokens_input_total (as_metrics st') =
    (if rec_failed r then mt_tokens_input_total (as_metrics st)
     else inc_by (rec_labels r) (rec_prompt r) (mt_tokens_input_total (as_metrics st))) /\
  (exists u, ur_success u = negb (rec_failed r) /\ as_usage st' = record_usage_record u (as_usage st)) /\
  (forall a, a <> addr -> as_request_logs st' !! a = as_request_logs st !! a).
Proof.
  destruct r as [stamp ev|stamp o]; cbn zeta; unfold run_recording, rec_failed; cbn [record_full
    record_accounting LiveRequestAuditor rec_error rec_labels rec_prompt];
    [unfold live_record_full|unfold live_record_accounting;
     destruct (usage_or_zero (ao_usage o)) as [[p c] t]];
    unfold record_usage, record_metrics; cbn;
    (split_and!; [done|by destruct (_ : option string)|by destruct (_ : option string)| |
      intros a Ha; by apply lookup_alter_ne]);
    eexists; (split; [|reflexivity]); cbn; by destruct (_ : option string).
Qed.

Definition run_recordings (st : AuditStores L) (rs : list Recording) : AuditStores L :=
  foldl (run_recording auditor) st rs.

(** A counter incremented by [f] of each recording that passes [p]. *)
Lemma counter_run (field : Metrics -> gmap (string * string) Z) (p : Recording -> bool)
    (f : Recording -> Z) rs st labels :
  (forall r st, field (as_metrics (run_recording auditor st r)) =
     if p r then inc_by (rec_labels r) (f r) (field (as_metrics st)) else field (as_metrics st)) ->
  u64 (counter labels (field (as_metrics st))) ->
  counter labels (field (as_metrics (run_recordings st rs))) =
    wrap_u64 (counter labels (field (as_metrics st)) + labelled labels (fun r => when (p r) (f r)) rs).
Proof.
  intros Hstep. revert st. unfold run_recordings, labelled, total.
  induction rs as [|r rs IH]; intros st Hu; cbn [foldl foldr].
  { by rewrite Z.add_0_r, wrap_u64_small. }
  assert (counter labels (field (as_metrics (run_recording auditor st r))) =
    wrap_u64 (counter labels (field (as_metrics st)) +
      if bool_decide (rec_labels r = labels) then when (p r) (f r) else 0)) as Hc.
  { rewrite Hstep. unfold when. destruct (p r).
    - rewrite counter_inc_by. case_bool_decide; [done|]. by rewrite Z.add_0_r, wrap_u64_small.
    - replace (if bool_decide (rec_labels r = labels) then 0 else 0) with 0 by by case_bool_decide.
      by rewrite Z.add_0_r, wrap_u64_small. }
  rewrite IH by (rewrite Hc; apply wrap_u64_range). rewrite Hc, wrap_u64_add. f_equal. lia.
Qed.
End Accounting.

Section AccountingProperties.
Context {L : Type} `{RequestLogStore L}.
Context (replace_all : Pattern -> string -> string -> string) (addr : nat).

(** The four stores agree. From fresh metrics, after any recordings, by
    either path, of any outcomes: the requests counted under a provider and a
    model are the recordings with those labels, the errors those that failed,
    the input tokens the sum over those that succeeded (each modulo the width
    of a counter); the usage store holds a success for each recording without
    an error, in order; and no request log is written but the auditor's own. *)
Theorem accounting_agrees audit usage logs rs :
  let st := run_recordings replace_all addr
    {| as_audit_log := audit; as_metrics := metrics_new; as_usage := usage;
       as_request_logs := logs |} rs in
  let count p labels := wrap_u64 (labelled labels p rs) in
  (forall labels,
     counter labels (mt_requests_total (as_metrics st)) = count (fun _ => 1) labels /\
     counter labels (mt_provider_errors (as_metrics st)) =
       count (fun r => when (rec_failed r) 1) labels /\
     counter labels (mt_tokens_input_total (as_metrics st)) =
       count (fun r => when (negb (rec_failed r)) (rec_prompt r)) labels) /\
  (exists us, ur_success <$> us = (fun r => negb (rec_failed r)) <$> rs /\
     as_usage st = foldl (fun s u => record_usage_record u s) usage us) /\
  (forall a, a <> addr -> as_request_logs st !! a = logs !! a).
Proof.
  intros st count.
  set (st0 := {| as_audit_log := audit; as_metrics := metrics_new; as_usage := usage;
                 as_request_logs := logs |}) in st.
  assert (forall labels, u64 (counter labels ∅)) as H0.
  { intros labels. unfold counter. rewrite lookup_empty. cbn. unfold u64, U64_MAX. lia. }
  pose proof (fun r st => run_recording_effect (L := L) replace_all addr r st) as Heff.
  split_and!.
  - intros labels. split_and!.
    + apply (counter_run replace_all addr mt_requests_total (fun _ => true) (fun _ => 1));
        [|apply H0]. intros r s. apply Heff.
    + apply (counter_run replace_all addr mt_provider_errors rec_failed (fun _ => 1));
        [|apply H0]. intros r s. apply Heff.
    + apply (counter_run replace_all addr mt_tokens_input_total (fun r => negb (rec_failed r))
        rec_prompt); [|apply H0]. intros r s.
      destruct (Heff r s) as (_ & _ & -> & _). by destruct (rec_failed r).
  - subst st. clear. change usage with (as_usage st0). generalize st0. clear.
    induction rs as [|r rs IH]; intros s; [by exists []|].
    destruct (run_recording_effect replace_all addr r s) as (_ & _ & _ & (u & Hu & Hs) & _).
    destruct (IH (run_recording (LiveRequestAuditor replace_all addr) s r)) as (us & Hus & Heq).
    exists (u :: us). split; [cbn; by rewrite Hu, Hus|]. cbn. rewrite <- Hs. exact Heq.
  - intros a Ha. subst st. change logs with (as_request_logs st0). generalize st0. clear -Ha.
    induction rs as [|r rs IH]; intros s; [done|]. cbn. unfold run_recordings in IH. rewrite IH.
    by apply (run_recording_effect replace_all addr r s).
Qed.
End AccountingProperties.

(** *** Response texts *)

Lemma omap_redacted redacted (l : list Choice) :
  omap (fun c => rm_content (choice_message c)) (redact_choice redacted <$> l) =
    replicate (length l) redacted.
Proof. induction l as [|c l IH]; cbn; [done|]. by rewrite <- IH. Qed.

(** Redacting a response writes the whole redacted text into each choice.
    The text a guardrail sees is the concatenation of the choices' texts, so
    with [n] choices the redacted response carries the redacted concatenation
    [n] times; nothing else of the response changes, and with one choice the
    text is exactly the redacted one. *)
Theorem redact_response_text_spec redacted r :
  let r' := redact_response_text redacted r in
  extract_response_text r' =
    match resp_choices r with
    | [] => None
    | cs => Some (join "" (replicate (length cs) redacted))
    end /\
  (length (resp_choices r) = 1%nat -> extract_response_text r' = Some redacted) /\
  resp_usage r' = resp_usage r /\ resp_id r' = resp_id r /\ resp_model r' = resp_model r /\
  ((fun c => (choice_index c, rm_role (choice_message c), rm_tool_calls (choice_message c),
              choice_finish_reason c)) <$> resp_choices r') =
  ((fun c => (choice_index c, rm_role (choice_message c), rm_tool_calls (choice_message c),
              choice_finish_reason c)) <$> resp_choices r).
Proof.
  cbn zeta. unfold extract_response_text. cbn [resp_choices redact_response_text].
  rewrite omap_redacted. split_and!; try done.
  - by destruct (resp_choices r).
  - destruct (resp_choices r) as [|c [|]]; done.
  - rewrite <- list_fmap_compose. by apply list_fmap_ext.
Qed.
