(* ===== verification/AuditSink.v ===== *)
(** * The sink of the audit log
    (src/crates/himadri-observability/src/audit.rs; the settings of Gateway::new in
    src/crates/himadri/src/gateway/mod.rs)

    What happens to an event after the bounded queue of Auditing.v has taken it: the task of
    [write_loop] takes the oldest, serializes it, opens the file of its day and hands it the
    line. The file is tokio's, and is never flushed: a write is over for the task once the
    bytes are in the file's buffer, and lands later, on another thread, in no order with the
    writes of other events; only the rest of a line that exceeds the buffer waits for what
    came before it on the same file. The steps of callers, of the task and of the writes in
    flight interleave freely. The directory, the calendar, the size of the buffer and
    serde_json's printer are arguments; opening a file can fail, and a write can stop in the
    middle. *)

From S2P Require Import Prelude Str Types Json Auditing.

(** ** Settings *)

(** [AUDIT_LOG_DIR], and whether [AUDIT_CAPTURE_CONTENT] asks for content: the directory of
    the file sink, if there is one, and the log. *)
Definition audit_from_env (env : string -> option string) : option string * AuditLog :=
  let capture_content :=
    match env "AUDIT_CAPTURE_CONTENT" with
    | Some v => bool_decide (to_ascii_lowercase v = "true") || bool_decide (v = "1")
    | None => false
    end in
  (env "AUDIT_LOG_DIR", audit_with_options true capture_content).

(** ** Serialization *)

Definition audit_status_name (s : AuditStatus) : string :=
  match s with
  | AuditSuccess => "success"
  | AuditError => "error"
  | AuditRateLimited => "rate_limited"
  | AuditGuardrailBlocked => "guardrail_blocked"
  | AuditUnauthorized => "unauthorized"
  | AuditForbidden => "forbidden"
  end.

Definition value_of_option {A} (f : A -> Value) (o : option A) : Value :=
  match o with Some a => f a | None => VNull end.

Definition uint_value (n : Z) : Value := VNumber (PosInt n).

(** The derived form, its fields in the order of the struct. *)
Definition audit_event_value (timestamp_text : Z -> string) (e : AuditEvent) : Value :=
  VObject
    [("request_id", VString (ae_request_id e));
     ("timestamp", VString (timestamp_text (ae_timestamp e)));
     ("org_id", value_of_option VString (ae_org_id e));
     ("team_id", value_of_option VString (ae_team_id e));
     ("user_id", value_of_option VString (ae_user_id e));
     ("key_id", value_of_option VString (ae_key_id e));
     ("model", VString (ae_model e));
     ("provider", value_of_option VString (ae_provider e));
     ("messages", VArray ((fun m => VObject [("role", VString (am_role m)); ("content", VString (am_content m))])
                            <$> ae_messages e));
     ("response", value_of_option VString (ae_response e));
     ("latency_ms", uint_value (ae_latency_ms e));
     ("tokens_prompt", value_of_option uint_value (ae_tokens_prompt e));
     ("tokens_completion", value_of_option uint_value (ae_tokens_completion e));
     ("tokens_total", value_of_option uint_value (ae_tokens_total e));
     ("status", VString (audit_status_name (ae_status e)));
     ("error", value_of_option VString (ae_error e));
     ("guardrail_actions", VArray (VString <$> ae_guardrail_actions e));
     ("stream", VBool (ae_stream e))].

(** ** Files *)

(** How an operation on a file goes: an opening may fail, a write may stop at some byte. *)
Inductive FileFault := NoFault | OpenFails | WriteStops (written : nat).

Record Files := { fl_text : gmap string string; fl_faults : list FileFault }.

Definition text_of (path : string) (fs : Files) : string := default "" (fl_text fs !! path).

Definition append_text (path text : string) (fs : Files) : Files :=
  {| fl_text := <[path := text_of path fs +:+ text]> (fl_text fs); fl_faults := tail (fl_faults fs) |}.

(** [OpenOptions] with create and append: whether there is a file now. *)
Definition open_file (path : string) (fs : Files) : bool * Files :=
  match head (fl_faults fs) with
  | Some OpenFails => (false, {| fl_text := fl_text fs; fl_faults := tail (fl_faults fs) |})
  | _ => (true, append_text path "" fs)
  end.

(** A write lands: whether it is whole. *)
Definition land (path text : string) (fs : Files) : bool * Files :=
  match head (fl_faults fs) with
  | Some (WriteStops n) => (false, append_text path (str_take n text) fs)
  | _ => (true, append_text path text fs)
  end.

Definition newline : string := String (Ascii.ascii_of_nat 10) "".

Section Sink.
Context (replace_all : Pattern -> string -> string -> string).
Context (timestamp_text date_text : Z -> string) (to_string : Value -> result string string).
(** [dir.join], of the directory of the sink, and the size of a file's buffer. *)
Context (join_dir : string -> string) (max_buf_size : nat).

Definition day_file (e : AuditEvent) : string := join_dir (date_text (ae_timestamp e) +:+ ".jsonl").

(** The line of an event; one that does not serialize has none. *)
Definition audit_line (e : AuditEvent) : option string :=
  match to_string (audit_event_value timestamp_text e) with
  | Ok line => Some (line +:+ newline)
  | Err _ => None
  end.

(** The task of [write_loop]: between events; with one it took; in [write_all], with what
    it has not yet handed to the file it opened; waiting there for a piece of the line in
    flight before it hands over the rest. *)
Inductive SinkTask :=
  | TaskIdle
  | TaskHolds (e : AuditEvent)
  | TaskFeeds (e : AuditEvent) (rest : string)
  | TaskWaits (e : AuditEvent) (piece rest : string).

(** The queue, the task, the writes in flight of files the task has dropped, the files. *)
Record AuditTrail := {
  at_log : AuditLog; at_task : SinkTask; at_flying : list (string * string); at_files : Files;
}.

Definition with_task (task : SinkTask) (t : AuditTrail) : AuditTrail :=
  {| at_log := at_log t; at_task := task; at_flying := at_flying t; at_files := at_files t |}.

Definition trail_log (e : AuditEvent) (t : AuditTrail) : AuditTrail :=
  {| at_log := audit_log replace_all e (at_log t); at_task := at_task t; at_flying := at_flying t;
     at_files := at_files t |}.

(** [receiver.recv()] *)
Definition trail_recv (t : AuditTrail) : option AuditTrail :=
  match at_task t, audit_recv (at_log t) with
  | TaskIdle, (Some e, l) =>
      Some {| at_log := l; at_task := TaskHolds e; at_flying := at_flying t; at_files := at_files t |}
  | _, _ => None
  end.

(** The line, and the file of the day. *)
Definition trail_open (t : AuditTrail) : option AuditTrail :=
  match at_task t with
  | TaskHolds e =>
      match audit_line e with
      | None => Some (with_task TaskIdle t)
      | Some line =>
          let '(ok, fs) := open_file (day_file e) (at_files t) in
          Some {| at_log := at_log t; at_task := if ok then TaskFeeds e line else TaskIdle;
                  at_flying := at_flying t; at_files := fs |}
      end
  | _ => None
  end.

(** [write_all]: what the buffer holds is handed over; with the last of it the task is
    done, and drops the file. *)
Definition trail_write (t : AuditTrail) : option AuditTrail :=
  match at_task t with
  | TaskFeeds e rest =>
      if (String.length rest <=? max_buf_size)%nat then
        Some {| at_log := at_log t; at_task := TaskIdle;
                at_flying := (at_flying t ++ [(day_file e, rest)])%list; at_files := at_files t |}
      else Some (with_task (TaskWaits e (str_take max_buf_size rest) (str_drop max_buf_size rest)) t)
  | _ => None
  end.

(** The piece the task waits for lands; if it does not, [write_all] fails. *)
Definition trail_piece (t : AuditTrail) : option AuditTrail :=
  match at_task t with
  | TaskWaits e piece rest =>
      let '(ok, fs) := land (day_file e) piece (at_files t) in
      Some {| at_log := at_log t; at_task := if ok then TaskFeeds e rest else TaskIdle;
              at_flying := at_flying t; at_files := fs |}
  | _ => None
  end.

(** A write in flight lands, wholly or not: nobody is told. *)
Definition trail_land (i : nat) (t : AuditTrail) : option AuditTrail :=
  match at_flying t !! i with
  | Some (path, text) =>
      Some {| at_log := at_log t; at_task := at_task t;
              at_flying := (take i (at_flying t) ++ drop (S i) (at_flying t))%list;
              at_files := (land path text (at_files t)).2 |}
  | None => None
  end.

(** [trail_step t o t']: [o] is the event a caller logs, if it is a caller's step. *)
Inductive trail_step : AuditTrail -> option AuditEvent -> AuditTrail -> Prop :=
  | trail_logs e t : trail_step t (Some e) (trail_log e t)
  | trail_takes t t' : trail_recv t = Some t' -> trail_step t None t'
  | trail_opens t t' : trail_open t = Some t' -> trail_step t None t'
  | trail_writes t t' : trail_write t = Some t' -> trail_step t None t'
  | trail_goes_on t t' : trail_piece t = Some t' -> trail_step t None t'
  | trail_lands i t t' : trail_land i t = Some t' -> trail_step t None t'.

Inductive trail_run : AuditTrail -> list AuditEvent -> AuditTrail -> Prop :=
  | trail_start t : trail_run t [] t
  | trail_more t es t1 o t2 : trail_run t es t1 -> trail_step t1 o t2 ->
      trail_run t (es ++ option_list o)%list t2.
End Sink.

(** What a gateway starts with. *)
Definition trail_boot (env : string -> option string) (fs : Files) : AuditTrail :=
  {| at_log := (audit_from_env env).2; at_task := TaskIdle; at_flying := []; at_files := fs |}.

(** ** What reaches the files *)

(** Content is asked for. *)
Definition content_asked (env : string -> option string) : Prop :=
  exists v, env "AUDIT_CAPTURE_CONTENT" = Some v /\ (to_ascii_lowercase v = "true" \/ v = "1").

#[export] Instance content_asked_dec env : Decision (content_asked env).
Proof.
  destruct (env "AUDIT_CAPTURE_CONTENT") as [v|] eqn:E.
  - destruct (decide (to_ascii_lowercase v = "true" \/ v = "1")) as [H|H]; [left; by exists v|right].
    intros (v' & Hv & Hor). rewrite E in Hv. injection Hv as <-. by apply H.
  - right. intros (v & Hv & _). by rewrite E in Hv.
Defined.

Section Trail.
Context (replace_all : Pattern -> string -> string -> string).
Context (timestamp_text date_text : Z -> string) (to_string : Value -> result string string).
Context (join_dir : string -> string) (max_buf_size : nat).

Local Abbreviation day_file := (day_file date_text join_dir).
Local Abbreviation audit_line := (audit_line timestamp_text to_string).
Local Abbreviation trail_run := (trail_run replace_all timestamp_text date_text to_string join_dir max_buf_size).
Local Abbreviation trail_step := (trail_step replace_all timestamp_text date_text to_string join_dir max_buf_size).

(** What may leave the process of an event: its content redacted, and only if asked for. *)
Definition recorded (env : string -> option string) (e : AuditEvent) : AuditEvent :=
  if decide (content_asked env) then
    with_content
      ((fun m => {| am_role := am_role m; am_content := redact replace_all (am_content m) |}) <$> ae_messages e)
      (redact replace_all <$> ae_response e) e
  else with_content [] None e.

Lemma recorded_strip env e : audit_strip replace_all (audit_from_env env).2 e = recorded env e.
Proof.
  unfold recorded, audit_from_env. cbn [snd]. unfold audit_strip. cbn [al_capture_content al_redactor].
  destruct (decide (content_asked env)) as [(v & Hv & Hor)|Hno].
  - rewrite Hv. destruct Hor; [rewrite (bool_decide_true (_ = "true")) by done|
      rewrite (bool_decide_true (v = "1")), orb_true_r by done]; done.
  - destruct (env "AUDIT_CAPTURE_CONTENT") as [v|] eqn:Hv; [|done].
    rewrite !bool_decide_false; [done|..]; intros Ht; apply Hno; exists v; auto.
Qed.

Definition the_line (e : AuditEvent) : string := default "" (audit_line e).

Definition line_fits (e : AuditEvent) : Prop := (String.length (the_line e) <= max_buf_size)%nat.

(** The lines of the events of one file, in order. *)
Fixpoint day_lines (path : string) (es : list AuditEvent) : string :=
  match es with
  | [] => ""
  | e :: es => (if decide (day_file e = path) then the_line e else "") +:+ day_lines path es
  end.

Lemma day_lines_snoc path es e :
  day_lines path (es ++ [e])%list =
    day_lines path es +:+ (if decide (day_file e = path) then the_line e else "").
Proof.
  induction es as [|x es IH]; cbn [day_lines app]; [by rewrite str_app_nil_r|].
  by rewrite IH, str_app_assoc.
Qed.

Lemma append_text_of p text fs path :
  text_of path (append_text p text fs) = text_of path fs +:+ (if decide (p = path) then text else "").
Proof.
  unfold append_text, text_of. cbn. destruct (decide (p = path)) as [->|Hne]; [by rewrite lookup_insert_eq|].
  by rewrite lookup_insert_ne, str_app_nil_r.
Qed.

Definition in_hand (t : AuditTrail) : list AuditEvent :=
  match at_task t with
  | TaskIdle => []
  | TaskHolds e | TaskFeeds e _ | TaskWaits e _ _ => [e]
  end.

(** Where the events [es] are: [delivered] left the task's hand, of which [landed] are in
    the files and [flown] in flight. *)
Record trail_ok (l0 : AuditLog) (fs0 : Files) (es : list AuditEvent) (t : AuditTrail)
    (delivered landed flown : list AuditEvent) : Prop := {
  to_settings : al_capture_content (at_log t) = al_capture_content l0 /\ al_redactor (at_log t) = al_redactor l0;
  to_order : sublist (delivered ++ in_hand t ++ al_queue (at_log t))%list (audit_strip replace_all l0 <$> es);
  to_dropped : al_dropped (at_log t) =
    wrap_u64 (Z.of_nat (length es) - Z.of_nat (length (delivered ++ in_hand t ++ al_queue (at_log t))%list));
  to_whole : Z.of_nat (length es) <= AUDIT_CHANNEL_CAPACITY ->
    (delivered ++ in_hand t ++ al_queue (at_log t))%list = audit_strip replace_all l0 <$> es;
  to_split : delivered ≡ₚ (landed ++ flown)%list;
  to_flying : at_flying t = (fun e => (day_file e, the_line e)) <$> flown;
  to_task : match at_task t with
            | TaskFeeds e rest => audit_line e = Some rest
            | TaskWaits _ _ _ => False
            | _ => True
            end;
  to_faults : fl_faults (at_files t) = [];
  to_files : forall path, text_of path (at_files t) = text_of path fs0 +:+ day_lines path landed;
}.

Lemma strip_settings l l0 e :
  al_capture_content l = al_capture_content l0 /\ al_redactor l = al_redactor l0 ->
  audit_strip replace_all l e = audit_strip replace_all l0 e.
Proof. unfold audit_strip. by intros [-> ->]. Qed.

(** A caller's step. *)
Lemma trail_log_ok l0 fs0 es t delivered landed flown e : trail_ok l0 fs0 es t delivered landed flown ->
  trail_ok l0 fs0 (es ++ [e])%list (trail_log replace_all e t) delivered landed flown.
Proof.
  intros [Hset Hord Hdrop Hwhole Hsplit Hfly Htask Hf Hfiles]. destruct t as [l task fly f].
  unfold trail_log, audit_log, in_hand in *. cbn [at_log at_task at_flying at_files] in *.
  rewrite (strip_settings _ l0) by done. set (hand := match task with TaskIdle => [] | _ => _ end) in *.
  set (acc := (delivered ++ hand ++ al_queue l)%list) in *.
  destruct (Z.ltb_spec (Z.of_nat (length (al_queue l))) AUDIT_CHANNEL_CAPACITY) as [Hlt|Hge].
  - assert ((delivered ++ hand ++ (al_queue l ++ [audit_strip replace_all l0 e]))%list =
      (acc ++ [audit_strip replace_all l0 e])%list) as Hacc by (unfold acc; by rewrite <- !(assoc_L (++)%list)).
    split; unfold in_hand; cbn [at_log at_task at_flying at_files al_capture_content al_redactor al_queue al_dropped];
      fold hand; rewrite ?Hacc, ?fmap_app, ?length_app; cbn; try done.
    + by apply sublist_app.
    + rewrite Hdrop. f_equal. lia.
    + intros Hn. rewrite Hwhole; [done|lia].
  - split; unfold in_hand; cbn [at_log at_task at_flying at_files al_capture_content al_redactor al_queue al_dropped];
      fold hand; fold acc; rewrite ?fmap_app, ?length_app; cbn; try done.
    + by apply sublist_inserts_r.
    + rewrite Hdrop. unfold wrap_u64. rewrite Zplus_mod_idemp_l. f_equal. lia.
    + intros Hn. exfalso. specialize (Hwhole ltac:(lia)). apply (f_equal length) in Hwhole.
      unfold acc in Hwhole. rewrite length_fmap, !length_app in Hwhole. lia.
Qed.

(** An event leaves the task's hand. *)
Lemma trail_leaves_ok l0 fs0 es t delivered landed flown e t' landed' flown' :
  trail_ok l0 fs0 es t delivered landed flown -> in_hand t = [e] -> at_log t' = at_log t -> at_task t' = TaskIdle ->
  (landed' ++ flown')%list ≡ₚ (e :: landed ++ flown)%list ->
  at_flying t' = (fun e => (day_file e, the_line e)) <$> flown' -> fl_faults (at_files t') = [] ->
  (forall path, text_of path (at_files t') = text_of path fs0 +:+ day_lines path landed') ->
  trail_ok l0 fs0 es t' (delivered ++ [e])%list landed' flown'.
Proof.
  intros [Hset Hord Hdrop Hwhole Hsplit _ _ _ _] He Hl Ht Hp Hfly Hf Hfiles.
  assert (((delivered ++ [e]) ++ in_hand t' ++ al_queue (at_log t'))%list =
    (delivered ++ in_hand t ++ al_queue (at_log t))%list) as Hacc.
  { unfold in_hand at 1. rewrite Ht, Hl, He. by rewrite <- (assoc_L (++)%list). }
  split; rewrite ?Hacc, ?Hl; try done.
  - rewrite Hp, Hsplit. by rewrite Permutation_app_comm.
  - by rewrite Ht.
Qed.

Lemma trail_step_ok l0 fs0 es t delivered landed flown o t' : trail_ok l0 fs0 es t delivered landed flown ->
  Forall line_fits (audit_strip replace_all l0 <$> es) -> trail_step t o t' ->
  exists delivered' landed' flown', trail_ok l0 fs0 (es ++ option_list o)%list t' delivered' landed' flown'.
Proof.
  intros Hok Hfit Hstep. destruct Hstep as [e t|t t' Ht|t t' Ht|t t' Ht|t t' Ht|i t t' Ht]; cbn [option_list];
    rewrite ?app_nil_r; [by do 3 eexists; apply trail_log_ok|..];
    pose proof Hok as [Hset Hord Hdrop Hwhole Hsplit Hfly Htask Hf Hfiles].
  - exists delivered, landed, flown. unfold trail_recv, audit_recv in Ht.
    destruct (at_task t) eqn:Eh; try done. destruct (al_queue (at_log t)) as [|e q] eqn:Eq; [done|].
    injection Ht as <-. unfold in_hand in *. rewrite Eh in *. by split.
  - unfold trail_open in Ht. destruct (at_task t) as [|e| |] eqn:Eh; try done.
    destruct (audit_line e) as [line|] eqn:El.
    + exists delivered, landed, flown. unfold open_file in Ht. rewrite Hf in Ht. cbn in Ht. injection Ht as <-.
      unfold in_hand in *. rewrite Eh in *. split; cbn [at_log at_task at_flying at_files]; try done.
      * cbn. by rewrite Hf.
      * intros path. rewrite append_text_of, Hfiles. by case_decide; rewrite str_app_nil_r.
    + exists (delivered ++ [e])%list, (landed ++ [e])%list, flown. injection Ht as <-.
      eapply (trail_leaves_ok _ _ _ t); try done.
      * unfold in_hand. by rewrite Eh.
      * rewrite <- (assoc_L (++)%list). symmetry. apply Permutation_middle.
      * intros path. cbn. rewrite Hfiles, day_lines_snoc.
        assert (the_line e = "") as -> by (unfold the_line; by rewrite El). by case_decide; rewrite str_app_nil_r.
  - unfold trail_write in Ht. destruct (at_task t) as [| |e rest|] eqn:Eh; try done.
    assert (line_fits e) as Hle.
    { eapply Forall_forall; [exact Hfit|]. eapply elem_of_sublist; [|exact Hord]. unfold in_hand. rewrite Eh.
      apply elem_of_app. right. by left. }
    assert (the_line e = rest) as Hrest by (unfold the_line; by rewrite Htask).
    unfold line_fits in Hle. rewrite Hrest in Hle. apply Nat.leb_le in Hle. rewrite Hle in Ht. injection Ht as <-.
    exists (delivered ++ [e])%list, landed, (flown ++ [e])%list. eapply (trail_leaves_ok _ _ _ t); try done.
    + unfold in_hand. by rewrite Eh.
    + rewrite (assoc_L (++)%list). by rewrite Permutation_app_comm.
    + cbn [at_flying]. by rewrite Hfly, fmap_app, <- Hrest.
  - unfold trail_piece in Ht. by destruct (at_task t).
  - unfold trail_land in Ht. rewrite Hfly, list_lookup_fmap in Ht.
    destruct (flown !! i) as [e|] eqn:Ei; [|done]. cbn [fmap option_fmap option_map] in Ht. injection Ht as <-.
    exists delivered, (landed ++ [e])%list, (take i flown ++ drop (S i) flown)%list.
    unfold land. rewrite Hf. cbn [head snd].
    split; unfold in_hand; cbn [at_log at_task at_flying at_files]; try done.
    + rewrite Hsplit. rewrite <- (take_drop_middle flown i e Ei) at 1.
      by rewrite <- Permutation_middle, <- (assoc_L (++)%list).
    + by rewrite fmap_app, fmap_take, fmap_drop.
    + cbn. by rewrite Hf.
    + intros path. by rewrite append_text_of, Hfiles, day_lines_snoc, str_app_assoc.
Qed.

(** C40: The audit trail. Whatever the interleaving of callers, the sink's task and the writes
    in flight, while opening and writing files succeed and each line fits the buffer of a
    file: every accepted event has been delivered, in the order logged, or is in the task's
    hand or in the queue; events are refused only beyond the capacity, and each is counted.
    The delivered events are those that have landed and those in flight: every file has,
    after what it had, exactly the lines of the landed events of its day, in the order in
    which they landed, and each write in flight is the line of a delivered event. An event is
    recorded without its content unless [AUDIT_CAPTURE_CONTENT] is [true], in any case of
    letters, or [1]; then with its content redacted. *)
Theorem audit_trail_complete env fs es t : fl_faults fs = [] -> Forall (fun e => line_fits (recorded env e)) es ->
  trail_run (trail_boot env fs) es t ->
  exists delivered landed flown,
    let accepted := (delivered ++ in_hand t ++ al_queue (at_log t))%list in
    sublist accepted (recorded env <$> es) /\
    (Z.of_nat (length es) <= AUDIT_CHANNEL_CAPACITY -> accepted = recorded env <$> es) /\
    al_dropped (at_log t) = wrap_u64 (Z.of_nat (length es) - Z.of_nat (length accepted)) /\
    delivered ≡ₚ (landed ++ flown)%list /\
    (forall path, text_of path (at_files t) = text_of path fs +:+ day_lines path landed) /\
    at_flying t = (fun e => (day_file e, the_line e)) <$> flown.
Proof.
  intros Hf Hfit Hrun. set (l0 := (audit_from_env env).2).
  assert (forall es : list AuditEvent, audit_strip replace_all l0 <$> es = recorded env <$> es) as Hstrip.
  { intros es'. apply list_fmap_ext. intros _ e _. apply recorded_strip. }
  assert (exists delivered landed flown, trail_ok l0 fs es t delivered landed flown)
    as (delivered & landed & flown & [Hset Hord Hdrop Hwhole Hsplit Hfly _ _ Hfiles]).
  { remember (trail_boot env fs) as t0 eqn:E0.
    induction Hrun as [t0|t0 es t1 o t2 _ IH Hstep]; subst t0.
    - exists [], [], []. split; cbn; try done. intros path. by rewrite str_app_nil_r.
    - apply Forall_app in Hfit as [Hfit _].
      destruct (IH Hfit eq_refl) as (delivered & landed & flown & Hok). eapply trail_step_ok; [exact Hok| |done].
      rewrite Hstrip. by apply Forall_fmap. }
  rewrite Hstrip in Hord, Hwhole. by exists delivered, landed, flown.
Qed.
End Trail.

Module AuditSinkDemo.
Definition event (timestamp : Z) (text : string) : AuditEvent :=
  {| ae_request_id := "r"; ae_timestamp := timestamp; ae_org_id := None; ae_team_id := None; ae_user_id := None;
     ae_key_id := None; ae_model := "gpt-4o"; ae_provider := None;
     ae_messages := [{| am_role := "user"; am_content := text |}]; ae_response := Some text; ae_latency_ms := 1;
     ae_tokens_prompt := None; ae_tokens_completion := None; ae_tokens_total := None; ae_status := AuditSuccess;
     ae_error := None; ae_guardrail_actions := []; ae_stream := false |}.

Definition day (t : Z) : string := if t <? 10 then "2026-01-01" else "2026-01-02".

(** A printer that shows the content, if any. *)
Definition show (v : Value) : result string string :=
  match v with
  | VObject l => match object_get "response" l with Some (VString s) => Ok s | _ => Ok "-" end
  | _ => Err "not an object"
  end.

(** Buffers of eight bytes. *)
Definition max_buf_size : nat := 8.

Definition start (env : string -> option string) : AuditTrail :=
  trail_boot env {| fl_text := ∅; fl_faults := [] |}.

Inductive Move := Log (e : AuditEvent) | Take | Open | Hand | GoOn | Land (i : nat).

Definition move (m : Move) (t : AuditTrail) : option AuditTrail :=
  match m with
  | Log e => Some (trail_log (fun _ s _ => s) e t)
  | Take => trail_recv t
  | Open => trail_open (fun _ => "") day show (fun f => "log/" +:+ f) t
  | Hand => trail_write day (fun f => "log/" +:+ f) max_buf_size t
  | GoOn => trail_piece day (fun f => "log/" +:+ f) t
  | Land i => trail_land i t
  end.

Definition moves (ms : list Move) (t : AuditTrail) : option AuditTrail := foldl (fun t m => t ≫= move m) (Some t) ms.

Definition logged (ms : list Move) : list AuditEvent := omap (fun m => match m with Log e => Some e | _ => None end) ms.

Local Abbreviation run := (trail_run (fun _ s _ => s) (fun _ => "") day show (fun f => "log/" +:+ f) max_buf_size).

Lemma move_step m t t' : move m t = Some t' ->
  trail_step (fun _ s _ => s) (fun _ => "") day show (fun f => "log/" +:+ f) max_buf_size t
    (match m with Log e => Some e | _ => None end) t'.
Proof.
  destruct m; cbn [move]; [intros [= <-]; constructor|by constructor|by constructor|by constructor|by constructor|].
  intros Hl. by eapply trail_lands.
Qed.

Lemma moves_run ms t t' : moves ms t = Some t' -> run t (logged ms) t'.
Proof.
  unfold moves. revert t'. induction ms as [|m ms IH] using rev_ind; intros t'.
  - intros [= <-]. constructor.
  - rewrite foldl_app. cbn. destruct (foldl _ _ ms) as [t1|]; [|done]. cbn. intros Hm%move_step.
    unfold logged. rewrite omap_app. specialize (IH t1 eq_refl). destruct m; by apply (trail_more _ _ _ _ _ _ _ _ _ _ _ IH Hm).
Qed.

Definition quiet (_ : string) : option string := None.
Definition capturing (v : string) : option string :=
  if decide (v = "AUDIT_CAPTURE_CONTENT") then Some "TRUE" else None.
Definition declining (v : string) : option string :=
  if decide (v = "AUDIT_CAPTURE_CONTENT") then Some "false" else None.

(** Two events on two days, the second logged while the first is in hand. *)
Definition two_days : list Move :=
  [Log (event 1 "a"); Take; Log (event 20 "b"); Open; Hand; Take; Open; Land 0; Hand; Land 0].

Definition files_after (env : string -> option string) (ms : list Move) : list (string * string) :=
  match moves ms (start env) with Some t => map_to_list (fl_text (at_files t)) | None => [] end.

Example files_without_content :
  files_after quiet two_days =
    [("log/2026-01-01.jsonl", "-" +:+ newline); ("log/2026-01-02.jsonl", "-" +:+ newline)] /\
  files_after declining two_days = files_after quiet two_days.
Proof. by vm_compute. Qed.

Example files_with_content :
  files_after capturing two_days =
    [("log/2026-01-01.jsonl", "a" +:+ newline); ("log/2026-01-02.jsonl", "b" +:+ newline)].
Proof. by vm_compute. Qed.

(** The lines of a day can be in another order than their events: the second write lands
    before the first. *)
Theorem audit_lines_reordered : exists t,
  run (start capturing) [event 1 "a"; event 2 "b"] t /\ at_task t = TaskIdle /\ at_flying t = [] /\
  al_queue (at_log t) = [] /\
  text_of "log/2026-01-01.jsonl" (at_files t) = "b" +:+ newline +:+ "a" +:+ newline.
Proof.
  destruct (moves [Log (event 1 "a"); Log (event 2 "b"); Take; Open; Hand; Take; Open; Hand; Land 1; Land 0]
    (start capturing)) as [t|] eqn:E; [|by vm_compute in E].
  exists t. split; [exact (moves_run _ _ _ E)|]. vm_compute in E. injection E as <-. by vm_compute.
Qed.

(** A line longer than the buffer is written in pieces, between which another event's line
    can land: neither can be read back. *)
Theorem audit_line_torn : exists t,
  run (start capturing) [event 1 "a"; event 2 "0123456789"] t /\ at_task t = TaskIdle /\ at_flying t = [] /\
  al_queue (at_log t) = [] /\
  text_of "log/2026-01-01.jsonl" (at_files t) = "01234567a" +:+ newline +:+ "89" +:+ newline.
Proof.
  destruct (moves [Log (event 1 "a"); Log (event 2 "0123456789"); Take; Open; Hand; Take; Open; Hand; GoOn; Land 0;
    Hand; Land 0] (start capturing)) as [t|] eqn:E; [|by vm_compute in E].
  exists t. split; [exact (moves_run _ _ _ E)|]. vm_compute in E. injection E as <-. by vm_compute.
Qed.

(** A write that stops in the middle is nobody's error: the task has gone on. *)
Example failed_write_unnoticed :
  match moves [Log (event 1 "a"); Take; Open; Hand; Land 0]
          {| at_log := (audit_from_env capturing).2; at_task := TaskIdle; at_flying := [];
             at_files := {| fl_text := ∅; fl_faults := [NoFault; WriteStops 0] |} |} with
  | Some t => at_task t = TaskIdle /\ at_flying t = [] /\ text_of "log/2026-01-01.jsonl" (at_files t) = ""
  | None => False
  end.
Proof. by vm_compute. Qed.
End AuditSinkDemo.

Lemma audit_trail_complete_witness :
  exists t landed,
    AuditSinkDemo.moves AuditSinkDemo.two_days (AuditSinkDemo.start AuditSinkDemo.declining) = Some t /\
    text_of "log/2026-01-02.jsonl" (at_files t) =
      day_lines (fun _ => "") AuditSinkDemo.day AuditSinkDemo.show (fun f => "log/" +:+ f)
        "log/2026-01-02.jsonl" landed.
Proof.
  destruct (AuditSinkDemo.moves AuditSinkDemo.two_days (AuditSinkDemo.start AuditSinkDemo.declining)) as [t|] eqn:E;
    [|by vm_compute in E].
  destruct (audit_trail_complete (fun _ s _ => s) (fun _ => "") AuditSinkDemo.day AuditSinkDemo.show
    (fun f => "log/" +:+ f) AuditSinkDemo.max_buf_size AuditSinkDemo.declining {| fl_text := ∅; fl_faults := [] |}
    (AuditSinkDemo.logged AuditSinkDemo.two_days) t) as (delivered & landed & flown & _ & _ & _ & _ & Hfiles & _).
  - reflexivity.
  - apply Forall_forall. intros e He. unfold line_fits. vm_compute in He.
    repeat (apply elem_of_cons in He as [->|He]; [vm_compute; lia|]). by apply not_elem_of_nil in He.
  - by apply AuditSinkDemo.moves_run.
  - exists t, landed. split; [done|]. by rewrite Hfiles.
Defined.
