(* ===== verification/MetricsRegistry.v ===== *)
(** * The metrics registry
    (src/crates/himadri-observability/src/metrics.rs)

    The families of the process and their registration, in the order of the source. Auditing.v
    and Pii.v have the counters themselves; the Prometheus library, which checks a
    definition, keeps the registry and prints it, is an argument. *)

From S2P Require Import Prelude Str Float Types.

(** ** Families *)

Inductive MetricKind :=
  | KCounter
  | KCounterVec (labels : list string)
  | KGauge
  | KHistogram (buckets : list string)
  | KHistogramVec (buckets labels : list string).

Record MetricFamily := { mf_name : string; mf_help : string; mf_kind : MetricKind }.

Definition family (name help : string) (kind : MetricKind) : MetricFamily :=
  {| mf_name := name; mf_help := help; mf_kind := kind |}.

Definition by_model : MetricKind := KCounterVec ["provider"; "model"].

(** The bounds as the source writes them. *)
Definition request_buckets : list string :=
  ["0.001"; "0.005"; "0.01"; "0.025"; "0.05"; "0.1"; "0.25"; "0.5"; "1.0"; "2.5"; "5.0"; "10.0"].

Definition scan_buckets : list string := ["0.0001"; "0.0005"; "0.001"; "0.005"; "0.01"; "0.05"; "0.1"; "0.5"].

(** [collectors] *)
Definition collectors : list MetricFamily :=
  [family "himadri_requests_total" "Total number of requests" by_model;
   family "himadri_request_duration_seconds" "Request duration in seconds" (KHistogram request_buckets);
   family "himadri_tokens_input_total" "Total input tokens" by_model;
   family "himadri_tokens_output_total" "Total output tokens" by_model;
   family "himadri_provider_errors_total" "Total provider errors" by_model;
   family "himadri_cost_usd_total" "Total cost in USD (stored as micro-USD)" by_model;
   family "himadri_rate_limit_rejections_total" "Total rate limit rejections" KCounter;
   family "himadri_circuit_breaker_state" "Circuit breaker state (0=closed, 1=open, 2=half_open)" KGauge;
   family "himadri_active_connections" "Number of active connections" KGauge;
   family "himadri_cache_hits_total" "Total response cache hits" KCounter;
   family "himadri_cache_misses_total" "Total response cache misses" KCounter;
   family "himadri_guardrails_pii_detections_total"
     "PII entities detected by guardrails (types/counts only, never values)"
     (KCounterVec ["entity_type"; "direction"; "action"]);
   family "himadri_guardrails_requests_blocked_total" "Requests/responses blocked by PII guardrails"
     (KCounterVec ["direction"]);
   family "himadri_guardrails_scan_duration_seconds" "PII guardrail scan duration in seconds"
     (KHistogramVec scan_buckets ["direction"]);
   family "himadri_guardrails_engine_errors_total" "PII guardrail engine failures" KCounter].

(** ** Registration *)

Section Registry.
Context {Reg : Type} (fresh : Reg) (register : MetricFamily -> Reg -> result Reg string).
(** What the library makes of a definition. *)
Context (define : MetricFamily -> result unit string).

(** [Metrics::new]: [None] is the panic of an [expect]. *)
Definition register_collectors (fs : list MetricFamily) (r : Reg) : option Reg :=
  foldl (fun o f => r ← o; match register f r with Ok r => Some r | Err _ => None end) (Some r) fs.

Definition metrics_registry_new : option Reg :=
  if forallb (fun f => match define f with Ok _ => true | Err _ => false end) collectors
  then register_collectors collectors fresh
  else None.

(** The registry refuses a family only for its name: when one of that name is there. *)
Context (names : Reg -> list string) (fresh_empty : names fresh = []).
Context (register_name : forall f r, mf_name f ∉ names r ->
  exists r', register f r = Ok r' /\ names r' = mf_name f :: names r).

Lemma register_collectors_ok fs r : NoDup (mf_name <$> fs) -> (forall f, f ∈ fs -> mf_name f ∉ names r) ->
  exists r', register_collectors fs r = Some r' /\ names r' = (reverse (mf_name <$> fs) ++ names r)%list.
Proof.
  unfold register_collectors. revert r. induction fs as [|f fs IH]; intros r Hnd Hnew; [by exists r|].
  rewrite fmap_cons in Hnd. apply NoDup_cons in Hnd as [Hf Hnd]. cbn [foldl mbind option_bind].
  destruct (register_name f r) as (r1 & -> & Hr1); [by apply Hnew; left|].
  destruct (IH r1 Hnd) as (r' & -> & Hn).
  - intros g Hg. rewrite Hr1, not_elem_of_cons. split; [|by apply Hnew; right].
    intros Heq. apply Hf. rewrite <- Heq. by apply list_elem_of_fmap_2.
  - exists r'. split; [done|]. rewrite Hn, Hr1, fmap_cons, reverse_cons, <- (assoc_L (++)%list). done.
Qed.

Lemma collector_names_distinct : NoDup (mf_name <$> collectors).
Proof. by apply (bool_decide_unpack _); vm_compute. Qed.

(** The process never panics over its metrics: the fifteen names are distinct, so every
    family is registered. *)
Theorem metrics_registered : (forall f, f ∈ collectors -> define f = Ok tt) ->
  exists r, metrics_registry_new = Some r /\ names r = reverse (mf_name <$> collectors).
Proof.
  intros Hd. unfold metrics_registry_new.
  replace (forallb _ collectors) with true.
  - destruct (register_collectors_ok collectors fresh collector_names_distinct) as (r & Hr & Hn).
    { intros f _. rewrite fresh_empty. apply not_elem_of_nil. }
    exists r. split; [done|]. by rewrite Hn, fresh_empty, app_nil_r.
  - symmetry. apply forallb_forall. intros f Hf%list_elem_of_In. by rewrite Hd.
Qed.
End Registry.

(** A registry that is a list of names. *)
Example metrics_of_list :
  metrics_registry_new [] (fun f r => if decide (mf_name f ∈ r) then Err "AlreadyReg" else Ok (mf_name f :: r))
    (fun _ => Ok tt) = Some (reverse (mf_name <$> collectors)).
Proof. by vm_compute. Qed.
