(* ===== verification/Cache.v ===== *)
(** * The response cache
    (src/crates/himadri-plugins/src/cache.rs)

    The cache itself is the moka crate's, an argument: a pair of operations on
    the world. [digest] is the hex SHA-256 of the serialized document. *)

From S2P Require Import Prelude Str Float Types Json Plugin.

(** ** The key *)

Definition cache_canonical (request : ChatCompletionRequest) (org_id team_id : option string)
    : Value :=
  VObject
    [("extra", map_value (req_extra request));
     ("frequency_penalty", opt_value f32_value (req_frequency_penalty request));
     ("max_tokens", opt_value u32_value (req_max_tokens request));
     ("messages", VArray (message_value <$> req_messages request));
     ("model", VString (req_model request));
     ("org_id", opt_value VString org_id);
     ("presence_penalty", opt_value f32_value (req_presence_penalty request));
     ("stop", opt_value (fun l => VArray (VString <$> l)) (req_stop request));
     ("team_id", opt_value VString team_id);
     ("temperature", opt_value f32_value (req_temperature request));
     ("tool_choice", opt_value id (req_tool_choice request));
     ("tools", opt_value (fun l => VArray (tool_value <$> l)) (req_tools request));
     ("top_p", opt_value f32_value (req_top_p request));
     ("user", opt_value VString (req_user request))].

Record CachedResponse := { cached_response : ChatCompletionResponse; cached_at : Z }.

(** The operations of moka's cache: a lookup may expire entries. *)
Class CacheStore (C : Type) := {
  cs_get : string -> C -> option CachedResponse * C;
  cs_insert : string -> CachedResponse -> C -> C;
}.

Section Cache.
Context {C : Type} `{CacheStore C} (digest : Value -> string).
Context (response_value : ChatCompletionResponse -> Value).

Definition cache_key (request : ChatCompletionRequest) (org_id team_id : option string) : string :=
  digest (cache_canonical request org_id team_id).

Definition cache_get (key : string) (c : C) : option ChatCompletionResponse * C :=
  let '(r, c) := cs_get key c in (cached_response <$> r, c).

Definition cache_insert (now : Z) (key : string) (response : ChatCompletionResponse) (c : C) : C :=
  cs_insert key {| cached_response := response; cached_at := now |} c.

Definition cache_execute (ctx : PluginContext) (c : C)
    : result unit PluginError * (PluginContext * C) :=
  if req_stream (ctx_request ctx) then (Ok tt, (ctx, c))
  else
    let key := cache_key (ctx_request ctx) (ctx_org_id ctx) (ctx_team_id ctx) in
    let '(hit, c) := cs_get key c in
    match hit with
    | Some cached =>
        (Ok tt, (set_metadata "cached_response" (response_value (cached_response cached))
                   (set_metadata "cached" (VBool true) ctx), c))
    | None => (Ok tt, (ctx, c))
    end.

Definition ResponseCachePlugin : Plugin C :=
  {| plugin_name := "response-cache"; plugin_type := CachePlugin; plugin_stage := BeforeRequest;
     also_after_request := false; plugin_execute := cache_execute |}.
End Cache.

(** ** Injectivity *)

#[export] Instance VString_inj : Inj (=) (=) VString.
Proof. by intros ?? [= ->]. Qed.

#[export] Instance VArray_inj : Inj (=) (=) VArray.
Proof. by intros ?? [= ->]. Qed.

#[export] Instance u32_value_inj : Inj (=) (=) u32_value.
Proof. by intros ?? [= ->]. Qed.

#[export] Instance role_value_inj : Inj (=) (=) role_value.
Proof. by intros [] []. Qed.

Lemma opt_value_inj {A} (f : A -> Value) (o o' : option A) :
  Inj (=) (=) f -> (forall x, f x <> VNull) -> opt_value f o = opt_value f o' -> o = o'.
Proof.
  intros Hf Hn. destruct o, o'; cbn; intros H; [by f_equal; apply Hf| | |done];
    by apply Hn in H || (symmetry in H; by apply Hn in H).
Qed.

Lemma opt_member_app {A} (f : A -> Value) key o o' rest rest' :
  Inj (=) (=) f -> key ∉ rest.*1 -> key ∉ rest'.*1 ->
  (opt_member key f o ++ rest)%list = (opt_member key f o' ++ rest')%list -> o = o' /\ rest = rest'.
Proof.
  intros Hf H1 H2. destruct o as [x|], o' as [y|]; cbn; intros H.
  - injection H as ->%Hf ->. done.
  - subst rest'. exfalso. apply H2. cbn. by left.
  - subst rest. exfalso. apply H1. cbn. by left.
  - done.
Qed.

Lemma opt_member_key {A} (f : A -> Value) key k o : key <> k -> key ∉ (opt_member k f o).*1.
Proof. intros Hk. destruct o; cbn; [by rewrite list_elem_of_singleton|apply not_elem_of_nil]. Qed.

(** A key not among the members of a document. *)
Ltac solve_key :=
  repeat first
    [ by apply opt_member_key
    | rewrite fmap_app, not_elem_of_app; split
    | rewrite fmap_cons, not_elem_of_cons; split; [done|]
    | apply not_elem_of_nil ].

#[export] Instance fmap_list_inj {A B} (f : A -> B) `{!Inj (=) (=) f} : Inj (=) (=) (fmap (M:=list) f).
Proof. apply _. Qed.

#[export] Instance image_value_inj : Inj (=) (=) image_value.
Proof.
  intros [u d] [u' d'] [= Hd Hu]. cbn in *. subst.
  by apply opt_value_inj in Hd as ->; [|apply _|].
Qed.

#[export] Instance part_value_inj : Inj (=) (=) part_value.
Proof.
  intros [t|i] [t'|i'] H; cbn in H; [by injection H as ->|done|done|].
  injection H as H. f_equal. apply image_value_inj. unfold image_value. congruence.
Qed.

#[export] Instance content_value_inj : Inj (=) (=) content_value.
Proof.
  intros [s|l] [s'|l'] H; cbn in H; [by injection H as ->|done|done|].
  injection H as H. f_equal. by apply (inj (fmap part_value)).
Qed.

#[export] Instance tool_call_value_inj : Inj (=) (=) tool_call_value.
Proof. intros [i t [n a]] [i' t' [n' a']] H. cbn in H. by injection H as -> -> -> ->. Qed.

Lemma opt_member_last {A} (f : A -> Value) key o o' : Inj (=) (=) f ->
  opt_member key f o = opt_member key f o' -> o = o'.
Proof.
  intros Hf H. apply (opt_member_app f key o o' [] []); [done|apply not_elem_of_nil..|].
  by rewrite !app_nil_r.
Qed.

#[export] Instance message_value_inj : Inj (=) (=) message_value.
Proof.
  intros [r c n ts ti] [r' c' n' ts' ti'] H. unfold message_value in H.
  cbn [msg_role msg_content msg_name msg_tool_calls msg_tool_call_id] in H. injection H as H.
  apply opt_member_app in H as [-> H]; [|apply _|solve_key|solve_key].
  apply opt_member_app in H as [-> H]; [|apply _|solve_key|solve_key].
  injection H as H1 H. assert (r = r') as -> by by destruct r, r'.
  apply opt_member_app in H as [-> H]; [|apply _|solve_key|solve_key].
  apply opt_member_last in H as ->; [done|].
  intros l l' [= Hl]. by apply (inj (fmap tool_call_value)).
Qed.

#[export] Instance tool_function_value_inj : Inj (=) (=) tool_function_value.
Proof.
  intros [n d p] [n' d' p'] H. unfold tool_function_value in H.
  cbn [tf_name tf_description tf_parameters] in H. injection H as H.
  apply opt_member_app in H as [-> H]; [|apply _|solve_key|solve_key].
  injection H as -> H. by apply opt_member_last in H as ->; [|apply _].
Qed.

#[export] Instance tool_value_inj : Inj (=) (=) tool_value.
Proof.
  intros [t f] [t' f'] [= H ->]. f_equal. apply (inj tool_function_value).
  unfold tool_function_value. by f_equal.
Qed.

#[export] Instance map_value_inj : Inj (=) (=) map_value.
Proof.
  intros m m' H. unfold map_value in H. injection H as H. apply map_to_list_inj.
  etransitivity; [symmetry; apply stable_sort_perm|]. rewrite H. apply stable_sort_perm.
Qed.

(** A float of the source: [None], or a valid finite [f32]. *)
Definition f32_ok (o : option f32) : Prop :=
  match o with Some x => valid_binary 24 128 x = true /\ f32_finite x = true | None => True end.

(** The widening of [f32] to [f64] loses nothing. *)
Lemma f32_value_inj x y :
  valid_binary 24 128 x = true -> valid_binary 24 128 y = true ->
  f32_finite x = true -> f32_finite y = true -> f32_value x = f32_value y -> x = y.
Proof.
  assert (forall m e, bounded 24 128 m e = true ->
    e = Z.max (Zpos (digits2_pos m) + e - 24) (3 - 128 - 24)) as Hcanon.
  { intros m e [Hc _]%andb_prop. by apply Z.eqb_eq in Hc. }
  intros Hx Hy Fx Fy H. unfold f32_value in H. rewrite Fx, Fy in H. injection H as H.
  destruct x as [s| | |s m e], y as [s'| | |s' m' e']; try done.
  cbn [f64_of_f32] in H. injection H as -> Hm He.
  cbn [valid_binary] in Hx, Hy. apply Hcanon in Hx, Hy.
  set (d := Zpos (digits2_pos m)) in *. set (d' := Zpos (digits2_pos m')) in *.
  assert (e = e') as -> by lia. assert (d = d') as Hd by lia. rewrite Hd in Hm.
  apply Z2Pos.inj in Hm; [|apply Z.mul_pos_pos; [lia|apply Z.pow_pos_nonneg; lia]..].
  apply Z.mul_cancel_r in Hm; [by injection Hm as ->|]. apply Z.pow_nonzero; lia.
Qed.

Lemma opt_f32_inj o o' : f32_ok o -> f32_ok o' ->
  opt_value f32_value o = opt_value f32_value o' -> o = o'.
Proof.
  assert (forall x, f32_finite x = true -> f32_value x <> VNull) as Hn.
  { intros x Hx. unfold f32_value. by rewrite Hx. }
  destruct o as [x|], o' as [y|]; cbn; [|intros [_ F] _ H; by apply Hn in H
    |intros _ [_ F] H; symmetry in H; by apply Hn in H|done].
  intros [Vx Fx] [Vy Fy] H. f_equal. by apply f32_value_inj.
Qed.

Definition floats_ok (r : ChatCompletionRequest) : Prop :=
  f32_ok (req_temperature r) /\ f32_ok (req_top_p r) /\
  f32_ok (req_presence_penalty r) /\ f32_ok (req_frequency_penalty r).

(** ** Properties *)

(** Cached responses never cross a scope or a request. Two requests whose
    floats are finite are keyed by the same document only when they come from
    the same organisation and team and agree on every field but [stream]: the
    model, each message with its role and tool calls, every sampling
    parameter, the tools, the user, and the pass-through parameters. (A
    [tool_choice] of [null] counts as no choice.) *)
Theorem cache_key_isolates r r' o o' t t' : floats_ok r -> floats_ok r' ->
  cache_canonical r o t = cache_canonical r' o' t' ->
  o = o' /\ t = t' /\ req_model r = req_model r' /\ req_messages r = req_messages r' /\
  req_temperature r = req_temperature r' /\ req_top_p r = req_top_p r' /\
  req_max_tokens r = req_max_tokens r' /\ req_stop r = req_stop r' /\
  req_presence_penalty r = req_presence_penalty r' /\
  req_frequency_penalty r = req_frequency_penalty r' /\
  req_tools r = req_tools r' /\
  default VNull (req_tool_choice r) = default VNull (req_tool_choice r') /\
  req_user r = req_user r' /\ req_extra r = req_extra r'.
Proof.
  intros (F1 & F2 & F3 & F4) (F1' & F2' & F3' & F4') H. unfold cache_canonical in H.
  injection H as Hextra Hfp Hmax Hmsgs Hmodel Horg Hpp Hstop Hteam Htemp Hchoice Htools Htop Huser.
  assert (forall l l' : list string, VArray (VString <$> l) = VArray (VString <$> l') -> l = l') as Hss.
  { intros l l' [= Hl]. by apply (inj (fmap VString)). }
  assert (forall l l' : list Tool, VArray (tool_value <$> l) = VArray (tool_value <$> l') -> l = l') as Hts.
  { intros l l' [= Hl]. by apply (inj (fmap tool_value)). }
  split_and!; try done.
  - by apply opt_value_inj in Horg; [|apply _|].
  - by apply opt_value_inj in Hteam; [|apply _|].
  - by apply (inj (fmap message_value)).
  - by apply opt_f32_inj.
  - by apply opt_f32_inj.
  - by apply opt_value_inj in Hmax; [|apply _|].
  - by apply opt_value_inj in Hstop.
  - by apply opt_f32_inj.
  - by apply opt_f32_inj.
  - by apply opt_value_inj in Htools.
  - by apply opt_value_inj in Huser; [|apply _|].
  - apply (inj map_value). unfold map_value. by rewrite Hextra.
Qed.

(** ** Witness *)

Definition demo_cache_request (temperature : option f32) : ChatCompletionRequest :=
  {| req_model := "gpt-4o"; req_messages := [message_user "hello"]; req_stream := false;
     req_temperature := temperature; req_top_p := None; req_max_tokens := Some 5;
     req_stop := None; req_presence_penalty := None; req_frequency_penalty := None;
     req_user := None; req_tools := None; req_tool_choice := None; req_extra := ∅ |}.

Lemma cache_key_isolates_witness :
  cache_canonical (demo_cache_request (Some (f32_lit 7 10))) (Some "acme") None <>
  cache_canonical (demo_cache_request (Some (f32_lit 7 10))) (Some "other") None.
Proof.
  intros H.
  destruct (cache_key_isolates (demo_cache_request (Some (f32_lit 7 10)))
    (demo_cache_request (Some (f32_lit 7 10))) (Some "acme") (Some "other") None None) as [Ho _].
  - split_and!; try done; split; by vm_compute.
  - split_and!; try done; split; by vm_compute.
  - exact H.
  - discriminate Ho.
Defined.
