(* ===== verification/Gateway.v ===== *)
(** * The gateway's state and its administration
    (src/crates/himadri/src/gateway/mod.rs, config.rs, rebuild.rs)

    The orchestrator as one record: the live configuration, the provider
    clients, the strategy, the breakers, the targets, the API keys, the rate
    limiter, the configuration history. Each administrative operation runs
    alone, under the locks the code takes; the steps of a rebuild that the code
    does without a lock are a list of their own. [W] is the outside world, [S]
    the type of an open stream. *)

From S2P Require Import Prelude CircuitBreaker Str Float Types Errors Config RateLimiter Strategy Plugin Usage Auditing Provider Failover ModelStore.

(** ** Configuration history *)

Record ConfigHistoryEntry := {
  che_version : Z;
  che_updated_at : Z;
  che_config : Config;
  che_rolled_back_from : option Z;
}.

Record ConfigHistory := { ch_entries : list ConfigHistoryEntry; ch_next_version : Z }.

Definition history_default : ConfigHistory := {| ch_entries := []; ch_next_version := 0 |}.

Definition history_record (now : Z) (config : Config) (rolled_back_from : option Z)
    (h : ConfigHistory) : ConfigHistory :=
  let version := Z.max (ch_next_version h) 1 in
  {| ch_next_version := wrap_u32 (version + 1);
     ch_entries := (ch_entries h ++
       [{| che_version := version; che_updated_at := now; che_config := config;
           che_rolled_back_from := rolled_back_from |}])%list |}.

Inductive OnEmpty := OnEmptyApply | KeepPrevious.

#[export] Instance OnEmpty_eq_dec : EqDecision OnEmpty.
Proof. solve_decision. Defined.

Record SkippedEndpoint := {
  sk_endpoint_id : string; sk_provider_type : string; sk_reason : string;
}.

Record RebuildOutcome := {
  ro_targets_built : nat; ro_skipped : list SkippedEndpoint; ro_applied : bool;
}.

(** ** The gateway *)

(** The response cache as the gateway calls it. *)
Record ResponseCache (W : Type) := {
  rc_key : ChatCompletionRequest -> option string -> option string -> string;
  rc_get : string -> W -> option ChatCompletionResponse * W;
  rc_insert : string -> ChatCompletionResponse -> W -> W;
}.
Arguments rc_key {W}.
Arguments rc_get {W}.
Arguments rc_insert {W}.

Record Gateway (W S B RL R Regex : Type) := {
  gw_config : Config;
  gw_providers : gmap string (Provider W S);
  gw_provider_registry : R;
  gw_plugin_manager : PluginManager W;
  gw_strategy : Strategy InMemoryLatencyStore Regex;
  gw_circuit_breakers : gmap string B;
  gw_targets : list Target;
  gw_provider_keys : gmap string string;
  gw_rate_limiter : RL;
  gw_request_log : nat;
  gw_response_cache : option (ResponseCache W);
  gw_config_history : ConfigHistory;
  gw_request_auditor : RequestAuditor W;
}.
Arguments gw_config {W S B RL R Regex}.
Arguments gw_providers {W S B RL R Regex}.
Arguments gw_provider_registry {W S B RL R Regex}.
Arguments gw_plugin_manager {W S B RL R Regex}.
Arguments gw_strategy {W S B RL R Regex}.
Arguments gw_circuit_breakers {W S B RL R Regex}.
Arguments gw_targets {W S B RL R Regex}.
Arguments gw_provider_keys {W S B RL R Regex}.
Arguments gw_rate_limiter {W S B RL R Regex}.
Arguments gw_request_log {W S B RL R Regex}.
Arguments gw_response_cache {W S B RL R Regex}.
Arguments gw_config_history {W S B RL R Regex}.
Arguments gw_request_auditor {W S B RL R Regex}.

Section Gateway.
Context {W S B RL R Regex : Type}.
Context `{CircuitBreakerTrait B} `{RateLimiting RL} `{ProviderRegistry R (Provider W S)}.
Context (regex_new : string -> option Regex).

Abbreviation gateway := (Gateway W S B RL R Regex).

(** A gateway with its lock-protected routing state replaced. *)
Definition with_routing (config : Config) (providers : gmap string (Provider W S))
    (strategy : Strategy InMemoryLatencyStore Regex) (breakers : gmap string B)
    (targets : list Target) (keys : gmap string string) (limiter : RL) (history : ConfigHistory)
    (g : gateway) : gateway :=
  {| gw_config := config; gw_providers := providers;
     gw_provider_registry := gw_provider_registry g; gw_plugin_manager := gw_plugin_manager g;
     gw_strategy := strategy; gw_circuit_breakers := breakers; gw_targets := targets;
     gw_provider_keys := keys; gw_rate_limiter := limiter; gw_request_log := gw_request_log g;
     gw_response_cache := gw_response_cache g; gw_config_history := history;
     gw_request_auditor := gw_request_auditor g |}.

(** [Gateway::new]. The registry, the limiter built from the configuration's
    two numbers, and the auditor over the fresh request log are its parts. *)
Definition gateway_new (now : Z) (registry : R) (limiter_new : Z -> Z -> RL)
    (auditor : nat -> RequestAuditor W) (request_log : nat) (config : Config) : gateway :=
  {| gw_config := config; gw_providers := ∅; gw_provider_registry := registry;
     gw_plugin_manager := manager_new;
     gw_strategy := from_strategy_config regex_new (cfg_strategy config);
     gw_circuit_breakers := ∅; gw_targets := cfg_targets config; gw_provider_keys := ∅;
     gw_rate_limiter := limiter_new (rlc_requests_per_second (cfg_rate_limit config))
                          (rlc_burst_size (cfg_rate_limit config));
     gw_request_log := request_log; gw_response_cache := None;
     gw_config_history := history_record now config None history_default;
     gw_request_auditor := auditor request_log |}.

Definition set_response_cache (c : ResponseCache W) (g : gateway) : gateway :=
  {| gw_config := gw_config g; gw_providers := gw_providers g;
     gw_provider_registry := gw_provider_registry g; gw_plugin_manager := gw_plugin_manager g;
     gw_strategy := gw_strategy g; gw_circuit_breakers := gw_circuit_breakers g;
     gw_targets := gw_targets g; gw_provider_keys := gw_provider_keys g;
     gw_rate_limiter := gw_rate_limiter g; gw_request_log := gw_request_log g;
     gw_response_cache := Some c; gw_config_history := gw_config_history g;
     gw_request_auditor := gw_request_auditor g |}.

Definition set_provider_registry (r : R) (g : gateway) : gateway :=
  {| gw_config := gw_config g; gw_providers := gw_providers g; gw_provider_registry := r;
     gw_plugin_manager := gw_plugin_manager g; gw_strategy := gw_strategy g;
     gw_circuit_breakers := gw_circuit_breakers g; gw_targets := gw_targets g;
     gw_provider_keys := gw_provider_keys g; gw_rate_limiter := gw_rate_limiter g;
     gw_request_log := gw_request_log g; gw_response_cache := gw_response_cache g;
     gw_config_history := gw_config_history g; gw_request_auditor := gw_request_auditor g |}.

(** Only the gateway's own handle is replaced. *)
Definition set_request_log_store (request_log : nat) (g : gateway) : gateway :=
  {| gw_config := gw_config g; gw_providers := gw_providers g;
     gw_provider_registry := gw_provider_registry g; gw_plugin_manager := gw_plugin_manager g;
     gw_strategy := gw_strategy g; gw_circuit_breakers := gw_circuit_breakers g;
     gw_targets := gw_targets g; gw_provider_keys := gw_provider_keys g;
     gw_rate_limiter := gw_rate_limiter g; gw_request_log := request_log;
     gw_response_cache := gw_response_cache g; gw_config_history := gw_config_history g;
     gw_request_auditor := gw_request_auditor g |}.

Definition set_plugin_manager (m : PluginManager W) (g : gateway) : gateway :=
  {| gw_config := gw_config g; gw_providers := gw_providers g;
     gw_provider_registry := gw_provider_registry g; gw_plugin_manager := m;
     gw_strategy := gw_strategy g; gw_circuit_breakers := gw_circuit_breakers g;
     gw_targets := gw_targets g; gw_provider_keys := gw_provider_keys g;
     gw_rate_limiter := gw_rate_limiter g; gw_request_log := gw_request_log g;
     gw_response_cache := gw_response_cache g; gw_config_history := gw_config_history g;
     gw_request_auditor := gw_request_auditor g |}.

Definition db_owns_routing (g : gateway) : bool :=
  existsb (fun t => bool_decide (is_Some (target_id t))) (gw_targets g).

Definition with_providers (providers : gmap string (Provider W S)) (g : gateway) : gateway :=
  with_routing (gw_config g) providers (gw_strategy g) (gw_circuit_breakers g) (gw_targets g)
    (gw_provider_keys g) (gw_rate_limiter g) (gw_config_history g) g.

Definition register_provider (p : Provider W S) (g : gateway) : gateway :=
  with_providers (<[prov_name p := p]> (gw_providers g)) g.

Definition register_provider_as (key : string) (p : Provider W S) (g : gateway) : gateway :=
  with_providers (<[key := p]> (gw_providers g)) g.

Definition get_provider (name : string) (g : gateway) : option (Provider W S) :=
  gw_providers g !! name.

Definition gateway_api_key (env : string -> option string) (g : gateway) (t : Target)
    : result string GatewayError :=
  get_api_key env (gw_provider_keys g) t.

(** ** Rebuilding the targets from the database *)

(** What the loop over models and endpoints has built so far. *)
Record RebuildAcc := {
  rb_targets : list Target;
  rb_keys : list (string * string);
  rb_skipped : list SkippedEndpoint;
  rb_gateway : gateway;
}.

Definition target_of (m : Model) (e : ModelEndpoint) : Target :=
  {| target_id := Some (ep_id e); target_provider := ep_provider_type e;
     target_weight := ep_weight e; target_models := Some [model_name m];
     target_api_key_env := None; target_base_url := ep_base_url e |}.

Definition keys_of (e : ModelEndpoint) : list (string * string) :=
  match ep_api_key e with
  | Some key => if str_is_empty key then [] else [(ep_id e, key)]
  | None => []
  end.

Definition rebuild_endpoint (m : Model) (acc : RebuildAcc) (e : ModelEndpoint) : RebuildAcc :=
  match reg_build (gw_provider_registry (rb_gateway acc)) (ep_provider_type e) (ep_base_url e) with
  | Err err =>
      {| rb_targets := rb_targets acc; rb_keys := rb_keys acc;
         rb_skipped := (rb_skipped acc ++
           [{| sk_endpoint_id := ep_id e; sk_provider_type := ep_provider_type e;
               sk_reason := provider_error_to_string err |}])%list;
         rb_gateway := rb_gateway acc |}
  | Ok client =>
      {| rb_targets := (rb_targets acc ++ [target_of m e])%list;
         rb_keys := (rb_keys acc ++ keys_of e)%list;
         rb_skipped := rb_skipped acc;
         rb_gateway := register_provider_as (ep_id e) client (rb_gateway acc) |}
  end.

Definition endpoints_of (m : Model) (endpoints : list ModelEndpoint) : list ModelEndpoint :=
  List.filter (fun e => bool_decide (ep_model_id e = model_id m) && ep_enabled e) endpoints.

Definition rebuild_model (endpoints : list ModelEndpoint) (acc : RebuildAcc) (m : Model)
    : RebuildAcc :=
  if negb (model_enabled m) then acc
  else foldl (rebuild_endpoint m) acc (endpoints_of m endpoints).

Definition rebuild_build (models : list Model) (endpoints : list ModelEndpoint) (g : gateway)
    : RebuildAcc :=
  foldl (rebuild_model endpoints)
    {| rb_targets := []; rb_keys := []; rb_skipped := []; rb_gateway := g |} models.

(** The steps that swap the key table, in order: each is visible to requests
    in flight. *)
Definition key_steps (new_keys : list (string * string))
    : list (gmap string string -> gmap string string) :=
  (((fun '(id, key) m => <[id := key]> m) <$> new_keys) ++
   [fun m => filter (fun kv => kv.1 ∈ new_keys.*1) m])%list.

Definition run_steps {A} (steps : list (A -> A)) (a : A) : A := foldl (fun a f => f a) a steps.

(** [retain(|id, _| active_ids.contains(id))] *)
Definition retain_ids {A} (ids : list string) (m : gmap string A) : gmap string A :=
  filter (fun kv => kv.1 ∈ ids) m.

(** [for stale in previous_ids.filter(|id| !active_ids.contains(id))] *)
Definition prune_clients {A} (previous active : list string) (m : gmap string A) : gmap string A :=
  foldl (fun m id => if decide (id ∈ active) then m else delete id m) m previous.

Definition with_targets (targets : list Target) (c : Config) : Config :=
  {| cfg_strategy := cfg_strategy c; cfg_targets := targets; cfg_observability := cfg_observability c;
     cfg_rate_limit := cfg_rate_limit c; cfg_admin := cfg_admin c; cfg_orgs := cfg_orgs c;
     cfg_cors := cfg_cors c; cfg_rbac := cfg_rbac c; cfg_guardrails := cfg_guardrails c |}.

Definition rebuild_targets_from_db (models : list Model) (endpoints : list ModelEndpoint)
    (on_empty : OnEmpty) (g : gateway) : RebuildOutcome * gateway :=
  let acc := rebuild_build models endpoints g in
  let new_targets := rb_targets acc in
  let g := rb_gateway acc in
  if bool_decide (new_targets = []) && bool_decide (on_empty = KeepPrevious) then
    ({| ro_targets_built := 0; ro_skipped := rb_skipped acc; ro_applied := false |}, g)
  else
    let active_ids := omap target_id new_targets in
    let previous_ids := omap target_id (gw_targets g) in
    ({| ro_targets_built := length new_targets; ro_skipped := rb_skipped acc; ro_applied := true |},
     with_routing (with_targets new_targets (gw_config g))
       (prune_clients previous_ids active_ids (gw_providers g))
       (gw_strategy g) (retain_ids active_ids (gw_circuit_breakers g)) new_targets
       (run_steps (key_steps (rb_keys acc)) (gw_provider_keys g))
       (gw_rate_limiter g) (gw_config_history g) g).

(** ** Applying configurations *)

Definition apply_config (config : Config) (g : gateway) : result gateway GatewayError :=
  let config := apply_guardrail_deprecations config in
  let? _ := map_err ConfigFailure (validate config) in
  let rl := cfg_rate_limit config in
  Ok (with_routing config (gw_providers g) (from_strategy_config regex_new (cfg_strategy config)) ∅
        (cfg_targets config) (gw_provider_keys g)
        (rl_clear (rl_set_defaults (rlc_requests_per_second rl) (rlc_burst_size rl)
           (gw_rate_limiter g)))
        (gw_config_history g) g).

Definition with_history (h : ConfigHistory) (g : gateway) : gateway :=
  with_routing (gw_config g) (gw_providers g) (gw_strategy g) (gw_circuit_breakers g)
    (gw_targets g) (gw_provider_keys g) (gw_rate_limiter g) h g.

(** On an error the gateway is as it was. *)
Definition reload_config (now : Z) (config : Config) (g : gateway)
    : result unit GatewayError * gateway :=
  match apply_config config g with
  | Ok g => (Ok tt, with_history (history_record now config None (gw_config_history g)) g)
  | Err e => (Err e, g)
  end.

Definition config_history (g : gateway) : list ConfigHistoryEntry :=
  rev (ch_entries (gw_config_history g)).

Definition find_version (version : Z) (h : ConfigHistory) : option Config :=
  che_config <$> find (fun e => che_version e =? version) (ch_entries h).

Definition rollback_config (now : Z) (version : Z) (g : gateway)
    : result unit GatewayError * gateway :=
  match find_version version (gw_config_history g) with
  | None => (Err (BadRequest ("Config version " +:+ show_Z version +:+ " not found")), g)
  | Some target =>
      match apply_config target g with
      | Ok g => (Ok tt, with_history (history_record now target (Some version)
                                        (gw_config_history g)) g)
      | Err e => (Err e, g)
      end
  end.
End Gateway.

(** ** Rebuilds *)

Section RebuildProofs.
Context {W S B RL R Regex : Type} `{ProviderRegistry R (Provider W S)}.

Abbreviation gateway := (Gateway W S B RL R Regex).

(** The enabled endpoints of the enabled models, in the order of the loops. *)
Definition candidates (models : list Model) (endpoints : list ModelEndpoint)
    : list (Model * ModelEndpoint) :=
  flat_map (fun m => (fun e => (m, e)) <$> endpoints_of m endpoints)
    (List.filter model_enabled models).

Definition client_of (r : R) (c : Model * ModelEndpoint) : result (Provider W S) ProviderError :=
  reg_build r (ep_provider_type c.2) (ep_base_url c.2).

Definition built_of (r : R) (cs : list (Model * ModelEndpoint)) : list (Model * ModelEndpoint) :=
  List.filter (fun c => is_ok (client_of r c)) cs.

Definition skip_of (r : R) (c : Model * ModelEndpoint) : option SkippedEndpoint :=
  match client_of r c with
  | Ok _ => None
  | Err err =>
      Some {| sk_endpoint_id := ep_id c.2; sk_provider_type := ep_provider_type c.2;
              sk_reason := provider_error_to_string err |}
  end.

Definition rebuild_candidate (acc : RebuildAcc) (c : Model * ModelEndpoint)
    : RebuildAcc (W := W) (S := S) (B := B) (RL := RL) (R := R) (Regex := Regex) :=
  rebuild_endpoint c.1 acc c.2.

Lemma rebuild_build_candidates models endpoints (g : gateway) :
  rebuild_build models endpoints g =
    foldl rebuild_candidate
      {| rb_targets := []; rb_keys := []; rb_skipped := []; rb_gateway := g |}
      (candidates models endpoints).
Proof.
  unfold rebuild_build, candidates.
  generalize {| rb_targets := []; rb_keys := []; rb_skipped := []; rb_gateway := g |} as acc.
  induction models as [|m ms IH]; intros acc; [done|]. cbn [foldl List.filter].
  rewrite IH. unfold rebuild_model. destruct (model_enabled m); cbn [negb]; [|done].
  cbn [flat_map]. rewrite foldl_app. f_equal. generalize (endpoints_of m endpoints) as es.
  intros es. revert acc. induction es as [|e es IHe]; intros acc; [done|]. cbn. apply IHe.
Qed.

(** What the loop leaves of the candidates it met. *)
Lemma rebuild_candidates_spec cs acc :
  let acc' := foldl rebuild_candidate acc cs in
  let r := gw_provider_registry (rb_gateway acc) in
  rb_targets acc' = (rb_targets acc ++ ((fun c => target_of c.1 c.2) <$> built_of r cs))%list /\
  rb_keys acc' = (rb_keys acc ++ flat_map (fun c => keys_of c.2) (built_of r cs))%list /\
  rb_skipped acc' = (rb_skipped acc ++ omap (skip_of r) cs)%list /\
  rb_gateway acc' = with_providers (gw_providers (rb_gateway acc')) (rb_gateway acc) /\
  (forall id, id ∈ (fun c => ep_id c.2) <$> built_of r cs ->
     is_Some (gw_providers (rb_gateway acc') !! id)) /\
  (forall id, id ∉ (fun c => ep_id c.2) <$> built_of r cs ->
     gw_providers (rb_gateway acc') !! id = gw_providers (rb_gateway acc) !! id).
Proof.
  revert acc. induction cs as [|c cs IH]; intros acc; cbn zeta; cbn [foldl].
  { rewrite !app_nil_r. split_and!; try done; [by destruct acc as [? ? ? []]|].
    intros id Hid. by apply not_elem_of_nil in Hid. }
  specialize (IH (rebuild_candidate acc c)). cbn zeta in IH.
  set (r := gw_provider_registry (rb_gateway acc)).
  assert (gw_provider_registry (rb_gateway (rebuild_candidate acc c)) = r) as Hr.
  { unfold rebuild_candidate, rebuild_endpoint. by destruct (reg_build _ _ _). }
  rewrite Hr in IH. destruct IH as (H1 & H2 & H3 & H4 & H5 & H6).
  set (acc' := foldl rebuild_candidate (rebuild_candidate acc c) cs) in *.
  rewrite H1, H2, H3. clear H1 H2 H3.
  assert (built_of r (c :: cs) = if is_ok (client_of r c) then c :: built_of r cs
    else built_of r cs) as -> by done.
  change (omap (skip_of r) (c :: cs)) with
    (match skip_of r c with Some y => y :: omap (skip_of r) cs | None => omap (skip_of r) cs end).
  assert (rebuild_candidate acc c = match client_of r c with
    | Ok client => {| rb_targets := (rb_targets acc ++ [target_of c.1 c.2])%list;
        rb_keys := (rb_keys acc ++ keys_of c.2)%list; rb_skipped := rb_skipped acc;
        rb_gateway := register_provider_as (ep_id c.2) client (rb_gateway acc) |}
    | Err err => {| rb_targets := rb_targets acc; rb_keys := rb_keys acc;
        rb_skipped := (rb_skipped acc ++ match skip_of r c with Some s => [s] | None => [] end)%list;
        rb_gateway := rb_gateway acc |}
    end) as Heq.
  { unfold rebuild_candidate, rebuild_endpoint, skip_of, client_of. fold r.
    by destruct (reg_build r _ _). }
  revert H4 H5 H6. rewrite Heq. clear Heq Hr. unfold skip_of.
  destruct (client_of r c) as [client|err];
    cbn [is_ok rb_targets rb_keys rb_skipped rb_gateway]; intros H4 H5 H6;
    rewrite <- !app_assoc; [|by split_and!].
  split_and!; [done|done|done|by rewrite H4| |].
  - intros id [->|Hid]%elem_of_cons; [|by apply H5].
    destruct (decide (ep_id c.2 ∈ (fun c => ep_id c.2) <$> built_of r cs)); [by apply H5|].
    rewrite H6 by done. cbn. rewrite lookup_insert_eq. by eexists.
  - intros id [Hne Hid]%not_elem_of_cons. rewrite H6 by done. cbn. by rewrite lookup_insert_ne.
Qed.
End RebuildProofs.

Lemma retain_ids_lookup {A} ids (m : gmap string A) id :
  retain_ids ids m !! id = if decide (id ∈ ids) then m !! id else None.
Proof.
  unfold retain_ids. rewrite map_lookup_filter. destruct (m !! id) as [x|]; cbn.
  - destruct (decide (id ∈ ids)); [by rewrite option_guard_True|by rewrite option_guard_False].
  - by destruct (decide _).
Qed.

Lemma prune_clients_lookup {A} previous active (m : gmap string A) id :
  prune_clients previous active m !! id =
    if decide (id ∈ previous /\ id ∉ active) then None else m !! id.
Proof.
  unfold prune_clients. revert m. induction previous as [|p ps IH]; intros m; cbn [foldl].
  { rewrite decide_False; [done|]. intros [Hin _]. by apply not_elem_of_nil in Hin. }
  rewrite IH. destruct (decide (id ∈ ps /\ id ∉ active)) as [[Hin Hact]|Hn].
  - rewrite decide_True; [done|]. split; [by right|done].
  - destruct (decide (p ∈ active)) as [Hp|Hp].
    + rewrite decide_False; [done|]. intros [[->|Hin]%elem_of_cons Hact]; [done|naive_solver].
    + destruct (decide (id = p)) as [->|Hne].
      * rewrite decide_True; [by rewrite lookup_delete_eq|]. split; [by left|done].
      * rewrite lookup_delete_ne by done. rewrite decide_False; [done|].
        intros [[->|Hin]%elem_of_cons Hact]; [done|naive_solver].
Qed.

(** The insertions of the key table, a prefix at a time. *)
Lemma key_inserts_lookup ks (m : gmap string string) id :
  let m' := run_steps ((fun '(id, key) m => <[id := key]> m) <$> ks) m in
  ((id ∉ ks.*1) /\ m' !! id = m !! id) \/ (exists k, (id, k) ∈ ks /\ m' !! id = Some k).
Proof.
  unfold run_steps. revert m. induction ks as [|[i k] ks IH]; intros m; cbn [fmap list_fmap foldl].
  { left. split; [apply not_elem_of_nil|done]. }
  destruct (IH (<[i := k]> m)) as [[Hn Heq]|(k' & Hin & Heq)].
  - destruct (decide (id = i)) as [->|Hne].
    + right. exists k. split; [by left|]. rewrite Heq. apply lookup_insert_eq.
    + left. split; [by apply not_elem_of_cons|]. rewrite Heq. by apply lookup_insert_ne.
  - right. exists k'. split; [by right|done].
Qed.

Lemma key_steps_lookup ks (m : gmap string string) id :
  run_steps (key_steps ks) m !! id =
    if decide (id ∈ ks.*1)
    then run_steps ((fun '(id, key) m => <[id := key]> m) <$> ks) m !! id else None.
Proof.
  unfold key_steps, run_steps. rewrite foldl_app. cbn [foldl].
  exact (retain_ids_lookup ks.*1 _ id).
Qed.

(** *** Properties *)

(** A rebuild never leaves a key missing. Interrupted after any of its
    steps, the key table still holds, for every endpoint that keeps a key, its
    old key or its new one, and when
    all steps are done exactly the endpoints with a new key have one. *)
Theorem rebuild_key_window ks (m : gmap string string) n id :
  id ∈ ks.*1 ->
  let now := run_steps (take n (key_steps ks)) m in
  (is_Some (m !! id) -> is_Some (now !! id)) /\
  (forall k, now !! id = Some k -> m !! id = Some k \/ (id, k) ∈ ks) /\
  (forall i, is_Some (run_steps (key_steps ks) m !! i) <-> i ∈ ks.*1).
Proof.
  intros Hid. cbn zeta.
  assert (forall i, i ∈ ks.*1 ->
    exists k, (i, k) ∈ ks /\ run_steps (key_steps ks) m !! i = Some k) as Hall.
  { intros i Hi. rewrite key_steps_lookup, decide_True by done.
    by destruct (key_inserts_lookup ks m i) as [[? _]|?]. }
  split_and!.
  - intros Hs. unfold key_steps. rewrite take_app, <- fmap_take, length_fmap.
    destruct (decide (n <= length ks)%nat) as [Hn|Hn].
    + replace (n - length ks)%nat with 0%nat by lia. cbn [take]. rewrite app_nil_r.
      destruct (key_inserts_lookup (take n ks) m id) as [[_ ->]|(k & _ & ->)]; [done|by eexists].
    + rewrite (take_ge ks) by lia. replace (n - length ks)%nat with (S (n - length ks - 1)) by lia.
      cbn [take]. rewrite take_nil. destruct (Hall id Hid) as (k & _ & Hk).
      unfold key_steps in Hk. rewrite Hk. by eexists.
  - intros k Hk. unfold key_steps in Hk. rewrite take_app, <- fmap_take, length_fmap in Hk.
    destruct (decide (n <= length ks)%nat) as [Hn|Hn].
    + replace (n - length ks)%nat with 0%nat in Hk by lia. cbn [take] in Hk. rewrite app_nil_r in Hk.
      destruct (key_inserts_lookup (take n ks) m id) as [[_ Heq]|(k' & Hin & Heq)];
        rewrite Heq in Hk; [by left|]. injection Hk as ->. right.
      apply elem_of_take in Hin as (i & Hi & _). by eapply list_elem_of_lookup_2.
    + rewrite (take_ge ks) in Hk by lia.
      replace (n - length ks)%nat with (S (n - length ks - 1)) in Hk by lia.
      cbn [take] in Hk. rewrite take_nil in Hk. destruct (Hall id Hid) as (k' & Hin & Hk').
      unfold key_steps in Hk'. rewrite Hk' in Hk. injection Hk as ->. by right.
  - intros i. split.
    + rewrite key_steps_lookup. case_decide; [done|]. by intros [].
    + intros Hi. destruct (Hall i Hi) as (k & _ & ->). by eexists.
Qed.

Section RebuildProperties.
Context {W S B RL R Regex : Type} `{ProviderRegistry R (Provider W S)}.

Lemma with_providers_same (g : Gateway W S B RL R Regex) : with_providers (gw_providers g) g = g.
Proof. by destruct g. Qed.

Lemma omap_target_ids (cs : list (Model * ModelEndpoint)) :
  omap target_id ((fun c => target_of c.1 c.2) <$> cs) = (fun c => ep_id c.2) <$> cs.
Proof. induction cs as [|c cs IH]; [done|]. cbn. by f_equal. Qed.

(** The endpoints that bring a key. *)
Lemma keys_of_elem cs id k :
  (id, k) ∈ flat_map (fun c : Model * ModelEndpoint => keys_of c.2) cs <->
  exists c, c ∈ cs /\ ep_id c.2 = id /\ ep_api_key c.2 = Some k /\ k <> "".
Proof.
  rewrite list_elem_of_In, in_flat_map. setoid_rewrite <- list_elem_of_In.
  apply exist_proper. intros c. apply and_iff_compat_l. unfold keys_of, str_is_empty.
  destruct (ep_api_key c.2) as [key|]; [|split; [intros Hn; by apply not_elem_of_nil in Hn|naive_solver]].
  case_bool_decide; [split; [intros Hn; by apply not_elem_of_nil in Hn|naive_solver]|].
  rewrite list_elem_of_singleton. naive_solver.
Qed.

Lemma built_keys cs (m : gmap string string) :
  let m' := run_steps (key_steps (flat_map (fun c : Model * ModelEndpoint => keys_of c.2) cs)) m in
  (forall id, is_Some (m' !! id) <->
     exists c k, c ∈ cs /\ ep_id c.2 = id /\ ep_api_key c.2 = Some k /\ k <> "") /\
  (forall id k, m' !! id = Some k -> exists c, c ∈ cs /\ ep_id c.2 = id /\ ep_api_key c.2 = Some k).
Proof.
  cbn zeta. set (ks := flat_map _ cs).
  assert (forall id, (id ∈ ks.*1) <->
    exists c k, c ∈ cs /\ ep_id c.2 = id /\ ep_api_key c.2 = Some k /\ k <> "") as Hkeys.
  { intros id. rewrite list_elem_of_fmap. split.
    - intros ([i k] & -> & (c & Hc)%keys_of_elem). by exists c, k.
    - intros (c & k & Hc). exists (id, k). split; [done|]. apply keys_of_elem. by exists c. }
  split; intros id.
  - rewrite <- Hkeys, key_steps_lookup. case_decide as Hd; [|split; [by intros []|done]].
    split; [done|]. intros _.
    destruct (key_inserts_lookup ks m id) as [[? _]|(k & _ & ->)]; [done|by eexists].
  - intros k. rewrite key_steps_lookup. case_decide as Hd; [|done].
    destruct (key_inserts_lookup ks m id) as [[? _]|(k' & Hk' & ->)]; [done|]. intros [= <-].
    apply keys_of_elem in Hk' as (c & Hc & He & Ha & _). by exists c.
Qed.

End RebuildProperties.

(** ** Configuration history *)

Section HistoryProofs.
Context {W S B RL R Regex : Type}.
Context `{CircuitBreakerTrait B} `{RateLimiting RL} `{ProviderRegistry R (Provider W S)}.
Context (regex_new : string -> option Regex).

Abbreviation gateway := (Gateway W S B RL R Regex).

(** An administrative call. *)
Inductive AdminOp :=
  | OpReload (now : Z) (config : Config)
  | OpRollback (now : Z) (version : Z)
  | OpRebuild (models : list Model) (endpoints : list ModelEndpoint) (on_empty : OnEmpty).

Definition admin_step (g : gateway) (op : AdminOp) : gateway :=
  match op with
  | OpReload now config => (reload_config regex_new now config g).2
  | OpRollback now version => (rollback_config regex_new now version g).2
  | OpRebuild models endpoints on_empty => (rebuild_targets_from_db models endpoints on_empty g).2
  end.

Definition admin_run (ops : list AdminOp) (g : gateway) : gateway := foldl admin_step g ops.

Definition config_valid (c : Config) : Prop := validate (apply_guardrail_deprecations c) = Ok tt.

(** Versions are consecutive from 1 and every recorded configuration can be
    applied. *)
Record history_ok (h : ConfigHistory) : Prop := {
  ho_versions : che_version <$> ch_entries h = Z.of_nat <$> seq 1 (length (ch_entries h));
  ho_next : ch_next_version h = Z.of_nat (length (ch_entries h)) + 1;
  ho_valid : forall e, e ∈ ch_entries h -> config_valid (che_config e);
}.

Lemma history_record_ok now c rb h : history_ok h -> config_valid c ->
  Z.of_nat (length (ch_entries h)) < U32_MAX - 1 -> history_ok (history_record now c rb h).
Proof.
  intros [Hv Hn Hval] Hc Hlen. unfold history_record. rewrite Hn, Z.max_l by lia. split; cbn.
  - rewrite fmap_app, Hv, length_app. cbn. rewrite seq_app, fmap_app. cbn. f_equal. f_equal. lia.
  - rewrite length_app. cbn. unfold wrap_u32. rewrite Z.mod_small; [lia|].
    unfold U32_MAX in Hlen. lia.
  - intros e [He|He]%elem_of_app; [by apply Hval|]. by apply list_elem_of_singleton in He as ->.
Qed.

(** A version of the history is the entry recorded under it. *)
Lemma find_version_lookup h v : history_ok h ->
  find_version v h = if decide (1 <= v) then che_config <$> ch_entries h !! (Z.to_nat v - 1)%nat else None.
Proof.
  intros [Hv _ _]. unfold find_version. revert Hv. generalize (ch_entries h) as l. clear.
  assert (forall l k, che_version <$> l = Z.of_nat <$> seq k (length l) ->
    che_config <$> find (fun e => che_version e =? v) l =
      if decide (Z.of_nat k <= v) then che_config <$> l !! (Z.to_nat v - k)%nat else None) as Hgen.
  { induction l as [|e l IH]; intros k Hk; cbn [find]; [by case_decide|].
    cbn in Hk. injection Hk as Hek Hk. rewrite Hek. specialize (IH (Datatypes.S k) Hk).
    destruct (Z.eqb_spec (Z.of_nat k) v) as [Heq|Hne].
    - rewrite decide_True by lia. by replace (Z.to_nat v - k)%nat with 0%nat by lia.
    - rewrite IH. destruct (decide (Z.of_nat (Datatypes.S k) <= v)) as [Hle|Hgt].
      + rewrite decide_True by lia.
        by replace (Z.to_nat v - k)%nat with (Datatypes.S (Z.to_nat v - Datatypes.S k))%nat by lia.
      + by rewrite decide_False by lia. }
  intros l Hl. apply (Hgen l 1%nat) in Hl. exact Hl.
Qed.

Lemma find_version_valid h v c : history_ok h -> find_version v h = Some c -> config_valid c.
Proof.
  intros Hok. rewrite find_version_lookup by done. case_decide; [|done].
  destruct (ch_entries h !! _) as [e|] eqn:E; [|done]. cbn. intros [= <-].
  apply Hok. by eapply list_elem_of_lookup_2.
Qed.

Lemma apply_config_ok c (g : gateway) : config_valid c ->
  exists g', apply_config regex_new c g = Ok g' /\ gw_config_history g' = gw_config_history g.
Proof. unfold apply_config, config_valid. intros ->. cbn. by eexists. Qed.

Lemma apply_config_valid c (g g' : gateway) :
  apply_config regex_new c g = Ok g' -> config_valid c /\ gw_config_history g' = gw_config_history g.
Proof.
  unfold apply_config, config_valid. destruct (validate _) as [[]|e]; cbn; [|done].
  by intros [= <-].
Qed.

Lemma rebuild_history ms es m (g : gateway) :
  gw_config_history (rebuild_targets_from_db ms es m g).2 = gw_config_history g.
Proof.
  unfold rebuild_targets_from_db. rewrite rebuild_build_candidates.
  destruct (rebuild_candidates_spec (candidates ms es)
    {| rb_targets := []; rb_keys := []; rb_skipped := []; rb_gateway := g |})
    as (_ & _ & _ & Hg & _). cbn zeta in Hg. rewrite Hg.
  by destruct (bool_decide _ && bool_decide _).
Qed.

(** An operation keeps the history or records one valid configuration. *)
Lemma admin_step_history op (g : gateway) : history_ok (gw_config_history g) ->
  gw_config_history (admin_step g op) = gw_config_history g \/
  exists now c rb, config_valid c /\
    gw_config_history (admin_step g op) = history_record now c rb (gw_config_history g).
Proof.
  intros Hok. destruct op as [now c|now v|ms es m]; cbn.
  - unfold reload_config. destruct (apply_config regex_new c g) as [g'|e] eqn:E; [|by left].
    apply apply_config_valid in E as [Hc Hh]. right. exists now, c, None. cbn. by rewrite Hh.
  - unfold rollback_config. destruct (find_version v _) as [c|]; [|by left].
    destruct (apply_config regex_new c g) as [g'|e] eqn:E; [|by left].
    apply apply_config_valid in E as [Hc Hh]. right. exists now, c, (Some v). cbn. by rewrite Hh.
  - left. apply rebuild_history.
Qed.

Lemma admin_run_history ops (g : gateway) : history_ok (gw_config_history g) ->
  Z.of_nat (length (ch_entries (gw_config_history g)) + length ops) < U32_MAX ->
  history_ok (gw_config_history (admin_run ops g)) /\
  ch_entries (gw_config_history g) `prefix_of` ch_entries (gw_config_history (admin_run ops g)).
Proof.
  revert g. induction ops as [|op ops IH]; intros g Hok Hlen; cbn; [done|]. cbn in Hlen.
  destruct (admin_step_history op g Hok) as [Heq|(now & c & rb & Hc & Heq)].
  - destruct (IH (admin_step g op)) as [Hok' Hpre]; rewrite ?Heq in *; [done|lia|done].
  - destruct (IH (admin_step g op)) as [Hok' Hpre]; rewrite ?Heq in *.
    + apply history_record_ok; [done|done|lia].
    + unfold history_record. cbn. rewrite length_app. cbn. lia.
    + split; [done|]. etransitivity; [|exact Hpre]. cbn. by apply prefix_app_r.
Qed.
End HistoryProofs.

Section HistoryProperties.
Context {W S B RL R Regex : Type}.
Context `{CircuitBreakerTrait B} `{RateLimiting RL} `{ProviderRegistry R (Provider W S)}.
Context (regex_new : string -> option Regex).

Lemma gateway_new_history now (r : R) ln au addr c : config_valid c ->
  history_ok (gw_config_history (gateway_new (W := W) (S := S) (B := B) (RL := RL)
    regex_new now r ln au addr c)).
Proof.
  intros Hc. split; [done|done|]. cbn. intros e He. by apply list_elem_of_singleton in He as ->.
Qed.


(** Clients leak across a configuration change. Once a configuration whose
    targets carry no endpoint id has been applied, no rebuild removes the client
    of any endpoint that routed before: a deleted endpoint stays registered. *)
Theorem stale_clients_survive_reload config models endpoints on_empty
    (g g1 : Gateway W S B RL R Regex) :
  apply_config regex_new config g = Ok g1 ->
  (forall t, t ∈ cfg_targets config -> target_id t = None) ->
  forall id, id ∉ (fun c => ep_id c.2) <$>
      built_of (gw_provider_registry g) (candidates models endpoints) ->
  gw_providers (rebuild_targets_from_db models endpoints on_empty g1).2 !! id = gw_providers g !! id.
Proof.
  unfold apply_config. destruct (validate _) as [[]|]; cbn; [|done]. intros [= <-] Hids id Hid.
  unfold rebuild_targets_from_db. rewrite rebuild_build_candidates.
  set (g1 := with_routing _ _ _ _ _ _ _ _ _).
  destruct (rebuild_candidates_spec (candidates models endpoints)
    {| rb_targets := []; rb_keys := []; rb_skipped := []; rb_gateway := g1 |})
    as (_ & _ & _ & Hg & _ & Hout). cbn zeta in Hg, Hout. rewrite Hg.
  assert (omap target_id (cfg_targets config) = []) as Hnil.
  { clear -Hids. induction (cfg_targets config) as [|t ts IH]; [done|]. cbn.
    rewrite (Hids t) by by left. apply IH. intros t' Ht'. apply Hids. by right. }
  destruct (bool_decide _ && bool_decide _); cbn; [by apply Hout|].
  rewrite Hnil. by apply Hout.
Qed.
End HistoryProperties.

Section RequestLog.
Context {L S B RL R Regex : Type} `{RequestLogStore L}.
Context (regex_new : string -> option Regex).
Context (replace_all : Pattern -> string -> string -> string).

(** A request log set after construction is never written. The gateway
    lists and deletes through the store it was given, but its auditor keeps
    the one it was built with: whatever is recorded, the new store stays as it
    was. *)
Theorem replaced_request_log_unwritten now (r : R) (limiter_new : Z -> Z -> RL) addr addr' config
    rs (st : AuditStores L) :
  addr' <> addr ->
  let g := set_request_log_store addr' (gateway_new (W := AuditStores L) (S := S) (B := B)
             regex_new now r limiter_new (LiveRequestAuditor replace_all) addr config) in
  let st' := foldl (run_recording (gw_request_auditor g)) st rs in
  as_request_logs st' !! gw_request_log g = as_request_logs st !! gw_request_log g.
Proof.
  intros Hne. cbn zeta. cbn [gw_request_auditor gw_request_log set_request_log_store gateway_new].
  revert st. induction rs as [|rec rs IH]; intros st; [done|]. cbn [foldl]. rewrite IH.
  by apply (run_recording_effect replace_all addr rec st).
Qed.
End RequestLog.

(** ** Witnesses *)

Definition demo_config (provider : string) : Config :=
  with_targets [{| target_id := None; target_provider := provider; target_weight := f64_of_Z 1;
                   target_models := None; target_api_key_env := None; target_base_url := None |}]
    default_config.

Definition demo_registry : MapProviderRegistry (P := Provider unit unit) :=
  {| builders := {[ "openai" := fun _ => Ok
       {| prov_name := "openai"; prov_display_name := "OpenAI"; prov_supported_models := [];
          prov_complete := fun _ _ w => (Err (PRateLimited 60), w);
          prov_complete_stream := fun _ _ w => (Ok tt, w);
          prov_embed := default_embed "openai" |} ]} |}.

Instance demo_registry_instance : ProviderRegistry (MapProviderRegistry (P := Provider unit unit))
    (Provider unit unit) :=
  {| reg_build r t u := match builders r !! t with Some b => b u | None => Err (PUnknownType t) end |}.

Instance demo_limiting : RateLimiting unit :=
  {| rl_check_global _ l := (true, l); rl_check_key _ _ _ _ l := (true, l);
     rl_check_org _ _ _ _ l := (true, l); rl_set_defaults _ _ l := l; rl_clear l := l |}.

Definition no_regex (_ : string) : option unit := None.

Definition no_auditor : RequestAuditor unit :=
  {| record_full := fun _ _ s => s; record_accounting := fun _ _ s => s |}.

Abbreviation demo_gateway := (Gateway unit unit CircuitBreaker unit
  (MapProviderRegistry (P := Provider unit unit)) unit).

Definition demo_gateway_new : demo_gateway :=
  gateway_new no_regex 0 demo_registry (fun _ _ => tt) (fun _ => no_auditor) 0
    (demo_config "openai").

Lemma rebuild_key_window_witness :
  run_steps (take 1 (key_steps [("e1", "new"); ("e2", "k2")])) {[ "e1" := "old"; "e3" := "k3" ]}
    !! "e1" = Some "new" /\
  is_Some (run_steps (take 0 (key_steps [("e1", "new"); ("e2", "k2")]))
    {[ "e1" := "old"; "e3" := "k3" ]} !! "e1").
Proof.
  split; [reflexivity|].
  apply (rebuild_key_window [("e1", "new"); ("e2", "k2")] {[ "e1" := "old"; "e3" := "k3" ]} 0 "e1").
  - by left.
  - by eexists.
Defined.


Definition demo_routed : demo_gateway :=
  register_provider_as "gone" {| prov_name := "openai"; prov_display_name := "OpenAI";
    prov_supported_models := []; prov_complete := fun _ _ w => (Err (PRateLimited 60), w);
    prov_complete_stream := fun _ _ w => (Ok tt, w); prov_embed := default_embed "openai" |}
    demo_gateway_new.

Lemma stale_clients_survive_reload_witness :
  exists g1, apply_config no_regex (demo_config "groq") demo_routed = Ok g1 /\
  is_Some (gw_providers (rebuild_targets_from_db [] [] OnEmptyApply g1).2 !! "gone").
Proof.
  eexists. split; [reflexivity|].
  erewrite (stale_clients_survive_reload no_regex (demo_config "groq") [] [] OnEmptyApply
    demo_routed _ eq_refl).
  - by eexists.
  - intros t Ht. by apply list_elem_of_singleton in Ht as ->.
  - apply not_elem_of_nil.
Defined.

Lemma replaced_request_log_unwritten_witness :
  let g := set_request_log_store 1 (gateway_new (W := AuditStores InMemoryRequestLogStore) (S := unit)
    (B := unit) no_regex 0 tt (fun _ _ => tt)
    (LiveRequestAuditor (fun _ s _ => s)) 0 (demo_config "openai")) in
  let st := {| as_audit_log := audit_new true; as_metrics := metrics_new;
               as_usage := usage_store_new default_pricing;
               as_request_logs := {[ 0%nat := request_log_new; 1%nat := request_log_new ]} |} in
  as_request_logs (foldl (run_recording (gw_request_auditor g)) st
    [RecAccounting {| stamp_audit_now := 0; stamp_usage_now := 0; stamp_log_now := 0;
        stamp_usage_id := "u"; stamp_trace_id := "t" |}
      {| ao_provider := "openai"; ao_model := "gpt-4o"; ao_api_key_id := None; ao_usage := None;
         ao_error := None; ao_latency_ms := 5 |}]) !! 1%nat = Some request_log_new.
Proof.
  intros g st.
  etransitivity; [apply (replaced_request_log_unwritten no_regex
    (fun _ s _ => s) 0 tt (fun _ _ => tt) 0 1 (demo_config "openai")); discriminate|reflexivity].
Defined.
