(* ===== verification/AdminHandlers.v ===== *)
(** * The administrative surface: models and endpoints
    (src/crates/himadri-admin/src/handlers.rs, model_store.rs)

    [ModelStoreTrait] and [ModelEndpointStoreTrait] are the traits of
    model_store.rs: what the handlers ask of a model store, whatever its
    backend; they act on a state [T] of their own. [AdminHandlers] holds the
    key store and, when a database is connected, the two model stores; the
    handlers of keys only forward to the key store. *)

From S2P Require Import Prelude Str Float Types Config NetGuard Errors Provider Sql KeyStore KeySql ModelStore Failover Gateway.

(** ** The traits (model_store.rs)

    Random identifiers, nonces and the clock are inside the methods, which act
    on the state. *)

Record ModelStoreTrait (T : Type) := {
  ms_create : CreateModelRequest -> T -> result Model AdminError * T;
  ms_get : string -> T -> result (option Model) AdminError * T;
  ms_list : T -> result (list Model) AdminError * T;
  ms_list_enabled : T -> result (list Model) AdminError * T;
  ms_update : string -> UpdateModelRequest -> T -> result (option Model) AdminError * T;
  ms_delete : string -> T -> result bool AdminError * T;
  ms_toggle : string -> bool -> T -> result (option Model) AdminError * T;
}.
Arguments ms_create {T} m.
Arguments ms_get {T} m.
Arguments ms_list {T} m.
Arguments ms_list_enabled {T} m.
Arguments ms_update {T} m.
Arguments ms_delete {T} m.
Arguments ms_toggle {T} m.

Record ModelEndpointStoreTrait (T : Type) := {
  es_create : string -> CreateModelEndpointRequest -> T -> result ModelEndpoint AdminError * T;
  es_get : string -> T -> result (option ModelEndpoint) AdminError * T;
  es_list : T -> result (list ModelEndpoint) AdminError * T;
  es_list_by_model : string -> T -> result (list ModelEndpoint) AdminError * T;
  es_update : string -> UpdateModelEndpointRequest -> T -> result (option ModelEndpoint) AdminError * T;
  es_delete : string -> T -> result bool AdminError * T;
  es_toggle : string -> bool -> T -> result (option ModelEndpoint) AdminError * T;
}.
Arguments es_create {T} m.
Arguments es_get {T} m.
Arguments es_list {T} m.
Arguments es_list_by_model {T} m.
Arguments es_update {T} m.
Arguments es_delete {T} m.
Arguments es_toggle {T} m.

(** ** The handlers *)
Section Handlers.
Context {T : Type} (env : string -> option string).
(** [DateTime::timestamp]: whole seconds *)
Context (timestamp : Z -> Z).

Record AdminHandlers := {
  ah_model_store : option (ModelStoreTrait T);
  ah_model_endpoint_store : option (ModelEndpointStoreTrait T);
}.

Definition admin_handlers_new : AdminHandlers :=
  {| ah_model_store := None; ah_model_endpoint_store := None |}.

Definition with_model_stores (m : ModelStoreTrait T) (e : ModelEndpointStoreTrait T)
    (h : AdminHandlers) : AdminHandlers :=
  {| ah_model_store := Some m; ah_model_endpoint_store := Some e |}.

Definition has_model_stores (h : AdminHandlers) : bool :=
  match ah_model_store h, ah_model_endpoint_store h with Some _, Some _ => true | _, _ => false end.

Definition store_not_configured : AdminError :=
  Store "model store not configured (set DATABASE_URL)".

Definition list_models (h : AdminHandlers) (t : T) : result (list Model) AdminError * T :=
  match ah_model_store h with Some s => ms_list s t | None => (Ok [], t) end.

Definition list_enabled_models (h : AdminHandlers) (t : T) : result (list Model) AdminError * T :=
  match ah_model_store h with Some s => ms_list_enabled s t | None => (Ok [], t) end.

Definition create_model (h : AdminHandlers) (r : CreateModelRequest) (t : T)
    : result Model AdminError * T :=
  match ah_model_store h with Some s => ms_create s r t | None => (Err store_not_configured, t) end.

Definition get_model (h : AdminHandlers) (id : string) (t : T)
    : result (option Model) AdminError * T :=
  match ah_model_store h with Some s => ms_get s id t | None => (Ok None, t) end.

Definition update_model (h : AdminHandlers) (id : string) (r : UpdateModelRequest) (t : T)
    : result (option Model) AdminError * T :=
  match ah_model_store h with Some s => ms_update s id r t | None => (Err store_not_configured, t) end.

Definition delete_model (h : AdminHandlers) (id : string) (t : T) : result bool AdminError * T :=
  match ah_model_store h with Some s => ms_delete s id t | None => (Ok false, t) end.

Definition toggle_model (h : AdminHandlers) (id : string) (enabled : bool) (t : T)
    : result (option Model) AdminError * T :=
  match ah_model_store h with
  | Some s => ms_toggle s id enabled t
  | None => (Err store_not_configured, t)
  end.

Definition list_endpoints (h : AdminHandlers) (t : T) : result (list ModelEndpoint) AdminError * T :=
  match ah_model_endpoint_store h with Some s => es_list s t | None => (Ok [], t) end.

Definition list_endpoints_by_model (h : AdminHandlers) (mid : string) (t : T)
    : result (list ModelEndpoint) AdminError * T :=
  match ah_model_endpoint_store h with Some s => es_list_by_model s mid t | None => (Ok [], t) end.

(** The check on a URL before it is stored. *)
Definition guard_url (base_url : option string) : result unit AdminError :=
  match base_url with
  | Some url => map_err Validation (provider_url_is_allowed url (allow_private_provider_urls env))
  | None => Ok tt
  end.

Definition create_endpoint (h : AdminHandlers) (mid : string) (r : CreateModelEndpointRequest) (t : T)
    : result ModelEndpoint AdminError * T :=
  match guard_url (ce_base_url r) with
  | Err e => (Err e, t)
  | Ok _ =>
      match ah_model_endpoint_store h with
      | Some s => es_create s mid r t
      | None => (Err store_not_configured, t)
      end
  end.

Definition get_endpoint (h : AdminHandlers) (id : string) (t : T)
    : result (option ModelEndpoint) AdminError * T :=
  match ah_model_endpoint_store h with Some s => es_get s id t | None => (Ok None, t) end.

Definition update_endpoint (h : AdminHandlers) (id : string) (r : UpdateModelEndpointRequest) (t : T)
    : result (option ModelEndpoint) AdminError * T :=
  match guard_url (match ue_base_url r with Some (Some url) => Some url | _ => None end) with
  | Err e => (Err e, t)
  | Ok _ =>
      match ah_model_endpoint_store h with
      | Some s => es_update s id r t
      | None => (Err store_not_configured, t)
      end
  end.

Definition delete_endpoint (h : AdminHandlers) (id : string) (t : T) : result bool AdminError * T :=
  match ah_model_endpoint_store h with Some s => es_delete s id t | None => (Ok false, t) end.

Definition toggle_endpoint (h : AdminHandlers) (id : string) (enabled : bool) (t : T)
    : result (option ModelEndpoint) AdminError * T :=
  match ah_model_endpoint_store h with
  | Some s => es_toggle s id enabled t
  | None => (Err store_not_configured, t)
  end.

(** *** The catalogue of [GET /v1/models] *)

(** [entry(model_id).or_insert(provider_type)] of each enabled routable
    endpoint *)
Definition owners (endpoints : list ModelEndpoint) : gmap string string :=
  foldl (fun owned_by e =>
    if ep_enabled e && endpoint_is_routable (ep_provider_type e) (ep_base_url e) then
      match owned_by !! ep_model_id e with
      | Some _ => owned_by
      | None => <[ep_model_id e := ep_provider_type e]> owned_by
      end
    else owned_by) ∅ endpoints.

Definition api_model (owned_by : gmap string string) (m : Model) : option ModelObject :=
  owner ← owned_by !! model_id m;
  Some {| mo_id := model_name m; mo_object := "model";
          mo_created := wrap_u64 (timestamp (model_created_at m)); mo_owned_by := owner |}.

Definition list_enabled_models_for_api (h : AdminHandlers) (t : T)
    : result (list ModelObject) AdminError * T :=
  match list_enabled_models h t with
  | (Err e, t) => (Err e, t)
  | (Ok models, t) =>
      match list_endpoints h t with
      | (Err e, t) => (Err e, t)
      | (Ok endpoints, t) => (Ok (omap (api_model (owners endpoints)) models), t)
      end
  end.

End Handlers.

(** ** Properties *)

(** The owner of a model is its first enabled routable endpoint's type. *)
Definition serves (id : string) (e : ModelEndpoint) : bool :=
  bool_decide (ep_model_id e = id) && ep_enabled e &&
  endpoint_is_routable (ep_provider_type e) (ep_base_url e).

Lemma owners_from es (m : gmap string string) id :
  foldl (fun owned_by e =>
    if ep_enabled e && endpoint_is_routable (ep_provider_type e) (ep_base_url e) then
      match owned_by !! ep_model_id e with
      | Some _ => owned_by
      | None => <[ep_model_id e := ep_provider_type e]> owned_by
      end
    else owned_by) m es !! id =
  match m !! id with
  | Some o => Some o
  | None => ep_provider_type <$> head (List.filter (serves id) es)
  end.
Proof.
  revert m. induction es as [|e es IH]; intros m; cbn [foldl List.filter].
  { by destruct (m !! id). }
  rewrite IH. unfold serves at 2. rewrite <- andb_assoc.
  destruct (ep_enabled e && endpoint_is_routable (ep_provider_type e) (ep_base_url e)).
  - destruct (m !! ep_model_id e) as [o|] eqn:E.
    + destruct (bool_decide_reflect (ep_model_id e = id)) as [<-|]; cbn; [by rewrite E|done].
    + destruct (bool_decide_reflect (ep_model_id e = id)) as [<-|Hne]; cbn.
      * by rewrite lookup_insert_eq, E.
      * by rewrite lookup_insert_ne.
  - rewrite andb_false_r. done.
Qed.

Lemma owners_spec es id :
  owners es !! id = ep_provider_type <$> head (List.filter (serves id) es).
Proof. unfold owners. rewrite owners_from. by rewrite lookup_empty. Qed.

Section Catalogue.
Context {W S T : Type} (compatible : OpenAiCompatibleConfig -> Provider W S).
Context (anthropic gemini : option string -> Provider W S).
Context (timestamp : Z -> Z).

(** The gateway's registry. *)
Local Instance registry : ProviderRegistry (MapProviderRegistry (P := Provider W S)) (Provider W S) :=
  {| reg_build := registry_build compatible |}.

Local Abbreviation default_registry := (build_provider_registry compatible anthropic gemini).

(** A model is served when a rebuild makes a target of one of its endpoints. *)
Definition has_target (models : list Model) (endpoints : list ModelEndpoint) (m : Model) : bool :=
  existsb (fun c => bool_decide (model_id c.1 = model_id m))
    (built_of default_registry (candidates models endpoints)).

Lemma client_routable m e :
  is_ok (client_of default_registry (m, e)) =
  endpoint_is_routable (ep_provider_type e) (ep_base_url e).
Proof. exact (routable_build compatible anthropic gemini _ _). Qed.

Lemma has_target_spec models endpoints m : m ∈ models -> model_enabled m = true ->
  has_target models endpoints m = existsb (serves (model_id m)) endpoints.
Proof.
  intros Hm Hen. apply eq_true_iff_eq. unfold has_target, built_of. rewrite !existsb_exists. split.
  - intros (c & Hc & Hid%bool_decide_eq_true). apply filter_In in Hc as [Hc Hb].
    unfold candidates in Hc. apply in_flat_map in Hc as (m' & Hm' & Hc).
    apply in_map_iff in Hc as (e & <- & He). apply filter_In in He as [He Hf].
    cbn [fst snd] in Hid. exists e. split; [done|]. unfold serves. apply andb_true_iff in Hf as [Hf Hee].
    rewrite <- Hid, Hf, Hee. rewrite client_routable in Hb. exact Hb.
  - intros (e & He & Hs). unfold serves in Hs. rewrite !andb_true_iff in Hs.
    destruct Hs as [[Hid Hee] Hr]. exists (m, e). split; [|by apply bool_decide_eq_true].
    apply filter_In. split.
    + apply in_flat_map. exists m. split; [apply filter_In; split; [by apply list_elem_of_In|done]|].
      apply in_map_iff. exists e. split; [done|]. apply filter_In. by rewrite Hid, Hee.
    + by rewrite client_routable.
Qed.

(** The catalogue lists exactly the models that the gateway's rebuild of the
    same rows gives a target, in the order of the store. *)
Theorem listed_models_are_routed (h : AdminHandlers (T := T)) t models endpoints
    (m : ModelStoreTrait T) (e : ModelEndpointStoreTrait T) :
  ah_model_store h = Some m -> ah_model_endpoint_store h = Some e ->
  ms_list_enabled m t = (Ok (List.filter model_enabled models), t) ->
  es_list e t = (Ok endpoints, t) ->
  exists l, list_enabled_models_for_api timestamp h t = (Ok l, t) /\
    mo_id <$> l =
      model_name <$> List.filter (has_target models endpoints) (List.filter model_enabled models).
Proof.
  intros Hm He Hl Hes. unfold list_enabled_models_for_api, list_enabled_models, list_endpoints.
  rewrite Hm, Hl, He, Hes. eexists. split; [done|].
  assert (forall x, In x (List.filter model_enabled models) -> x ∈ models /\ model_enabled x = true) as Hin.
  { intros x [Hx Hen]%filter_In. split; [by apply list_elem_of_In|done]. }
  revert Hin. generalize (List.filter model_enabled models) as ms. induction ms as [|x ms IH]; intros Hin; [done|].
  cbn [List.filter omap list_omap]. destruct (Hin x (or_introl eq_refl)) as [Hx Hen].
  rewrite (has_target_spec models endpoints x Hx Hen). unfold api_model at 1. rewrite owners_spec.
  assert (existsb (serves (model_id x)) endpoints =
          match head (List.filter (serves (model_id x)) endpoints) with Some _ => true | None => false end) as ->.
  { clear. induction endpoints as [|e l IH]; [done|]. cbn. by destruct (serves (model_id x) e). }
  destruct (head (List.filter (serves (model_id x)) endpoints)); cbn; [f_equal|];
    apply IH; intros y Hy; apply Hin; by right.
Qed.

End Catalogue.

(** ** The theorem at a concrete input *)
Module CatalogueDemo.

Definition client (name : string) : Provider unit unit :=
  {| prov_name := name; prov_display_name := name; prov_supported_models := [];
     prov_complete := fun _ _ w => (Err (PUnsupported name), w);
     prov_complete_stream := fun _ _ w => (Err (PUnsupported name), w);
     prov_embed := fun _ _ w => (Err (PUnsupported name), w) |}.

Definition model (id name : string) (enabled : bool) : Model :=
  {| model_id := id; model_name := name; model_display_name := None; model_enabled := enabled;
     model_created_at := 0; model_updated_at := 0 |}.

Definition endpoint (mid provider : string) : ModelEndpoint :=
  {| ep_id := "e-" +:+ mid; ep_model_id := mid; ep_provider_type := provider; ep_base_url := None;
     ep_api_key := None; ep_weight := f64_of_Z 1; ep_enabled := true; ep_created_at := 0;
     ep_updated_at := 0 |}.

Definition models : list Model := [model "1" "gpt-4o" true; model "2" "local" true; model "3" "off" false].
Definition endpoints : list ModelEndpoint := [endpoint "1" "openai"; endpoint "2" "my-vllm"; endpoint "3" "groq"].

(** Stores that hold these rows. *)
Definition model_store : ModelStoreTrait unit :=
  {| ms_create := fun _ t => (Err NotFound, t); ms_get := fun _ t => (Ok None, t);
     ms_list := fun t => (Ok models, t);
     ms_list_enabled := fun t => (Ok (List.filter model_enabled models), t);
     ms_update := fun _ _ t => (Ok None, t); ms_delete := fun _ t => (Ok false, t);
     ms_toggle := fun _ _ t => (Ok None, t) |}.

Definition endpoint_store : ModelEndpointStoreTrait unit :=
  {| es_create := fun _ _ t => (Err NotFound, t); es_get := fun _ t => (Ok None, t);
     es_list := fun t => (Ok endpoints, t); es_list_by_model := fun _ t => (Ok [], t);
     es_update := fun _ _ t => (Ok None, t); es_delete := fun _ t => (Ok false, t);
     es_toggle := fun _ _ t => (Ok None, t) |}.

Definition handlers : AdminHandlers (T := unit) :=
  with_model_stores model_store endpoint_store admin_handlers_new.

End CatalogueDemo.

Lemma listed_models_are_routed_witness :
  exists l, list_enabled_models_for_api (fun t => t) CatalogueDemo.handlers tt = (Ok l, tt) /\
    mo_id <$> l =
      model_name <$> List.filter
        (has_target (S := unit) (fun c => CatalogueDemo.client (oc_name c))
           (fun _ => CatalogueDemo.client "anthropic") (fun _ => CatalogueDemo.client "gemini")
           CatalogueDemo.models CatalogueDemo.endpoints)
        (List.filter model_enabled CatalogueDemo.models).
Proof.
  exact (listed_models_are_routed (fun c => CatalogueDemo.client (oc_name c))
           (fun _ => CatalogueDemo.client "anthropic") (fun _ => CatalogueDemo.client "gemini")
           (fun t => t) CatalogueDemo.handlers tt CatalogueDemo.models CatalogueDemo.endpoints
           CatalogueDemo.model_store CatalogueDemo.endpoint_store eq_refl eq_refl eq_refl eq_refl).
Defined.
