(* ===== verification/Access.v ===== *)
(** * Who a bearer token is
    (src/crates/himadri-admin/src/middleware.rs, src/crates/himadri/src/combined_auth.rs)

    A request to the API carries a bearer token. The combined middleware tries it
    as a token of the local admin login, then as an OIDC token, then as the master
    key or a gateway key, and either lets the request through with a principal or
    refuses it and audits the refusal. Its outcome is a value of [Decision]; what
    runs next is the rest of the gateway. *)

From S2P Require Import Prelude Str Float Types Config NetGuard Auditing Sql Jwt KeyStore KeySql KeyRefine.
From Stdlib Require Import Ascii.

(** ** middleware.rs *)

(** [a.iter().zip(b.iter())] *)
Fixpoint xor_accumulate (result : Z) (a b : string) : Z :=
  match a, b with
  | String x a, String y b => xor_accumulate (Z.lor result (Z.lxor (Str.byte x) (Str.byte y))) a b
  | _, _ => result
  end.

Definition constant_time_eq (a b : string) : bool :=
  if negb (Nat.eqb (String.length a) (String.length b)) then false
  else xor_accumulate 0 a b =? 0.

(** A request goes on with a principal, or is answered. *)
Inductive Decision :=
  | Proceed (ctx : AuthContext)
  | Refuse (status : Z) (message : string).

Definition UNAUTHORIZED : Z := 401.
Definition FORBIDDEN : Z := 403.
Definition INTERNAL_SERVER_ERROR : Z := 500.

Definition master_context : AuthContext :=
  {| auth_api_key := "master"; auth_key_id := None; auth_scope := Admin; auth_org_id := None;
     auth_team_id := None; auth_user_id := None; auth_rate_limit_override := None;
     auth_roles := ["admin"]; auth_budget_limit_usd := None |}.

Definition key_context (key : KeyStore.ApiKey) : AuthContext :=
  {| auth_api_key := "key:" +:+ ak_id key;
     auth_key_id := Some (ak_id key);
     auth_scope :=
       if bool_decide ("admin" ∈ ak_scopes key) then Admin
       else if bool_decide ("read-only" ∈ ak_scopes key) then ReadOnly
       else Types.ApiKey;
     auth_org_id := ak_org_id key;
     auth_team_id := ak_team_id key;
     auth_user_id := ak_user_id key;
     auth_rate_limit_override := ak_rate_limit_override key;
     auth_roles := ak_scopes key;
     auth_budget_limit_usd := ak_token_budget key ≫= tbud_cost_limit_per_month |}.

(** [headers.get("Authorization")...strip_prefix("Bearer ")]; the header is
    absent when it is not text. *)
Definition bearer_token (authorization : option string) : option string :=
  authorization ≫= strip_prefix "Bearer ".

Section Middleware.
Context `{TimeText, JsonText}.
Context (sha256_hex : string -> string) (uuid_text : Z -> string).

Record AuthMiddleware := { am_store : StoreBackend; am_master_key : option string }.

Definition is_bypass (m : AuthMiddleware) : bool :=
  match am_master_key m with None => true | Some _ => false end.

Definition with_store (s : StoreBackend) (m : AuthMiddleware) : AuthMiddleware :=
  {| am_store := s; am_master_key := am_master_key m |}.

(** [Err] is a failure of the store. *)
Definition authenticate (api_key : string) (now : Z) (m : AuthMiddleware)
    : result (option AuthContext) unit * AuthMiddleware :=
  let stored :=
    match backend_validate sha256_hex uuid_text api_key now (am_store m) with
    | (Ok (Some key), s) => (Ok (Some (key_context key)), with_store s m)
    | (Ok None, s) => (Ok None, with_store s m)
    | (Err _, s) => (Err tt, with_store s m)
    end in
  match am_master_key m with
  | Some master_key => if constant_time_eq api_key master_key then (Ok (Some master_context), m) else stored
  | None => stored
  end.

Definition admin_middleware (authorization : option string) (now : Z) (m : AuthMiddleware)
    : Decision * AuthMiddleware :=
  if is_bypass m then (Proceed auth_anonymous, m)
  else
    match bearer_token authorization with
    | None => (Refuse UNAUTHORIZED "invalid or missing bearer token", m)
    | Some api_key =>
        match authenticate api_key now m with
        | (Ok (Some ctx), m) => (Proceed ctx, m)
        | (Ok None, m) => (Refuse UNAUTHORIZED "invalid or missing bearer token", m)
        | (Err _, m) => (Refuse INTERNAL_SERVER_ERROR "internal server error", m)
        end
    end.

End Middleware.

(** ** combined_auth.rs *)

(** Three non-empty segments between dots. *)
Definition looks_like_jwt (token : string) : bool :=
  match split_on (is_char "."%char) token with
  | [a; b; c] => negb (str_is_empty a) && negb (str_is_empty b) && negb (str_is_empty c)
  | _ => false
  end.

Definition required_roles (env : string -> option string) : list string :=
  match env "JWT_REQUIRED_ROLES" with Some v => split_csv v | None => [] end.

Definition enforce_required_roles (required : list string) (ctx : AuthContext) : bool :=
  match required with [] => true | _ => has_any_role required ctx end.

Section Combined.
Context `{TimeText, JsonText, JwtLibrary}.
Context (sha256_hex : string -> string) (uuid_text : Z -> string).
Context (replace_all : Pattern -> string -> string -> string).
Context {Key : Type}.
Context (decode_header : string -> result (option string) string).
Context (key_from_jwk : Jwk -> result Key string).
Context (jwt_decode : string -> Key -> Validation -> Z -> result JwtClaims JwtErrorKind).
Context (kind_message : JwtErrorKind -> string).
Context (required : list string).

(** The JWKS of [ca_jwt] and the login's secret are fixed while a request runs. *)
Record CombinedAuth := {
  ca_api_key : AuthMiddleware;
  ca_jwt : option OidcDiscovery;
  ca_admin_login : option AdminLogin;
  ca_audit : option AuditLog;
}.

Definition with_api_key (m : AuthMiddleware) (a : CombinedAuth) : CombinedAuth :=
  {| ca_api_key := m; ca_jwt := ca_jwt a; ca_admin_login := ca_admin_login a; ca_audit := ca_audit a |}.

(** The request's clocks: wall clock in nanoseconds (for the audit record and the
    key store), the time of the log, and seconds for tokens. *)
Record Clock := { ck_nanos : option Z; ck_log : Z; ck_instant : Z; ck_seconds : Z }.

Definition audit_failure (k : Clock) (status : AuditStatus) (reason : string) (remote_ip : option string)
    (ctx : option AuthContext) (a : CombinedAuth) : CombinedAuth :=
  {| ca_api_key := ca_api_key a; ca_jwt := ca_jwt a; ca_admin_login := ca_admin_login a;
     ca_audit := (fun l => log_auth_failure replace_all (ck_nanos k) (ck_log k) status reason remote_ip
                             (ctx ≫= auth_user_id) (ctx ≫= auth_key_id) l) <$> ca_audit a |}.

(** A principal that must hold one of the required roles. *)
Definition require_roles (k : Clock) (remote_ip : option string) (ctx : AuthContext) (a : CombinedAuth)
    : Decision * CombinedAuth :=
  if enforce_required_roles required ctx then (Proceed ctx, a)
  else (Refuse FORBIDDEN "principal lacks a required role",
        audit_failure k AuditForbidden "principal lacks a required role" remote_ip (Some ctx) a).

(** The token as one of the login's, and as one of the provider's. *)
Definition login_context (k : Clock) (token : string) (a : CombinedAuth) : option AuthContext :=
  match ca_admin_login a with
  | Some l =>
      if looks_like_jwt token then
        match login_validate kind_message token (ck_seconds k) l with
        | Ok claims => Some (into_auth_context claims)
        | Err _ => None
        end
      else None
  | None => None
  end.

Definition oidc_context (k : Clock) (token : string) (a : CombinedAuth) : option AuthContext :=
  match ca_jwt a with
  | Some d =>
      if looks_like_jwt token then
        match validate_token decode_header key_from_jwk jwt_decode kind_message token (ck_seconds k) d with
        | Ok claims => Some (into_auth_context claims)
        | Err _ => None
        end
      else None
  | None => None
  end.

Definition combined_middleware (authorization : option string) (remote_ip : option string) (k : Clock)
    (a : CombinedAuth) : Decision * CombinedAuth :=
  if (match ca_jwt a with None => true | _ => false end) &&
     (match ca_admin_login a with None => true | _ => false end) && is_bypass (ca_api_key a)
  then (Proceed auth_anonymous, a)
  else
    match bearer_token authorization with
    | None =>
        (Refuse UNAUTHORIZED "invalid or missing bearer token",
         audit_failure k AuditUnauthorized "missing bearer token" remote_ip None a)
    | Some token =>
        match login_context k token a with
        | Some ctx => (Proceed ctx, a)
        | None =>
            match oidc_context k token a with
            | Some ctx => require_roles k remote_ip ctx a
            | None =>
                match authenticate sha256_hex uuid_text token (ck_instant k) (ca_api_key a) with
                | (Ok (Some ctx), m) => require_roles k remote_ip ctx (with_api_key m a)
                | (Ok None, m) =>
                    (Refuse UNAUTHORIZED "invalid or missing bearer token",
                     audit_failure k AuditUnauthorized "invalid or unknown token" remote_ip None
                       (with_api_key m a))
                | (Err _, m) => (Refuse INTERNAL_SERVER_ERROR "internal server error", with_api_key m a)
                end
            end
        end
    end.

End Combined.

(** ** Proofs *)

Lemma xor_accumulate_zero a b r : String.length a = String.length b -> 0 <= r ->
  xor_accumulate r a b = 0 <-> r = 0 /\ a = b.
Proof.
  revert b r. induction a as [|x a IH]; intros [|y b] r Hl Hr; cbn in Hl |- *; try done; [naive_solver|].
  rewrite IH; [|lia|].
  - rewrite Z.lor_eq_0_iff, Z.lxor_eq_0_iff. split.
    + intros [[-> Hb] ->]. by rewrite (byte_inj _ _ Hb).
    + by intros [-> [= -> ->]].
  - apply Z.lor_nonneg. split; [done|]. apply Z.lxor_nonneg. unfold Str.byte. lia.
Qed.

(** The constant-time comparison is equality. *)
Theorem constant_time_eq_spec a b : constant_time_eq a b = String.eqb a b.
Proof.
  apply eq_true_iff_eq. rewrite String.eqb_eq. unfold constant_time_eq.
  destruct (Nat.eqb_spec (String.length a) (String.length b)) as [Hl|Hl]; cbn [negb].
  - rewrite Z.eqb_eq, xor_accumulate_zero by done. naive_solver.
  - split; [done|]. by intros ->.
Qed.

Section Proofs.
Context `{TimeText, JsonText, JwtLibrary}.
Context (sha256_hex : string -> string) (uuid_text : Z -> string).
Context (replace_all : Pattern -> string -> string -> string).
Context {Key : Type}.
Context (decode_header : string -> result (option string) string).
Context (key_from_jwk : Jwk -> result Key string).
Context (jwt_decode : string -> Key -> Validation -> Z -> result JwtClaims JwtErrorKind).
Context (kind_message : JwtErrorKind -> string).
Context (required : list string).

Local Abbreviation middleware := (combined_middleware sha256_hex uuid_text replace_all decode_header
  key_from_jwk jwt_decode kind_message required).
Local Abbreviation oidc_validate := (validate_token decode_header key_from_jwk jwt_decode kind_message).

(** How a token came to be accepted, and as whom. *)
Inductive grants (token : string) (k : Clock) (a : CombinedAuth) : AuthContext -> Prop :=
  | GrantMaster :
      am_master_key (ca_api_key a) = Some token -> grants token k a master_context
  | GrantLogin l c :
      ca_admin_login a = Some l -> login_validate kind_message token (ck_seconds k) l = Ok c ->
      grants token k a (into_auth_context c)
  | GrantOidc d c :
      ca_jwt a = Some d -> oidc_validate token (ck_seconds k) d = Ok c ->
      grants token k a (into_auth_context c)
  | GrantKey key :
      backend_grants sha256_hex uuid_text token (ck_instant k) (am_store (ca_api_key a)) key ->
      grants token k a (key_context key).

Lemma key_context_unused k k' : unused k = unused k' -> key_context k = key_context k'.
Proof.
  unfold unused, key_context. intros [= -> _ -> _ _ _ _ -> -> -> _ -> ->]. done.
Qed.

Lemma authenticate_grants token now m ctx m' : backend_ok (am_store m) ->
  authenticate sha256_hex uuid_text token now m = (Ok (Some ctx), m') ->
  (am_master_key m = Some token /\ ctx = master_context) \/
  exists key, backend_grants sha256_hex uuid_text token now (am_store m) key /\ ctx = key_context key.
Proof.
  intros Hok. unfold authenticate.
  destruct (backend_validate sha256_hex uuid_text token now (am_store m)) as [r b] eqn:Ev.
  assert (forall o, match r with
    | Ok (Some key) => (Ok (Some (key_context key)), with_store b m)
    | Ok None => (Ok None, with_store b m)
    | Err _ => (Err (), with_store b m)
    end = (Ok (Some ctx), o) -> exists key,
      backend_grants sha256_hex uuid_text token now (am_store m) key /\ ctx = key_context key) as Hstored.
  { intros o. destruct r as [[key|]|]; try done. intros [= <- _].
    apply validate_sound in Ev as (stored & Hg & Hu); [|done]. exists stored.
    split; [done|]. by apply key_context_unused. }
  destruct (am_master_key m) as [mk|]; [|by eauto]. destruct (constant_time_eq token mk) eqn:E; [|by eauto].
  intros [= <- _]. left. rewrite constant_time_eq_spec, String.eqb_eq in E. by rewrite E.
Qed.

(** What lets a request through. *)
Lemma middleware_grants authorization remote_ip k a ctx a' :
  backend_ok (am_store (ca_api_key a)) ->
  ~ (ca_jwt a = None /\ ca_admin_login a = None /\ am_master_key (ca_api_key a) = None) ->
  middleware authorization remote_ip k a = (Proceed ctx, a') ->
  exists token, authorization = Some ("Bearer " +:+ token) /\ grants token k a ctx.
Proof.
  intros Hok Hconf. unfold combined_middleware.
  destruct (_ && _ && _) eqn:Eb.
  { exfalso. apply Hconf. unfold is_bypass in Eb.
    by destruct (ca_jwt a), (ca_admin_login a), (am_master_key (ca_api_key a)). }
  clear Eb Hconf. destruct (bearer_token authorization) as [token|] eqn:Et; [|done].
  assert (authorization = Some ("Bearer " +:+ token)) as ->.
  { unfold bearer_token in Et. destruct authorization as [h|]; [|done].
    apply strip_prefix_Some in Et. by rewrite Et. }
  intros Hm. exists token. split; [done|]. revert Hm.
  destruct (login_context _ _ _ _) as [c|] eqn:El.
  { intros [= <- <-]. unfold login_context in El. destruct (ca_admin_login a) as [l|] eqn:Ea; [|done].
    destruct (looks_like_jwt token); [|done].
    destruct (login_validate _ _ _ _) as [claims|] eqn:Ev; [|done]. injection El as <-.
    by eapply GrantLogin. }
  destruct (oidc_context _ _ _ _ _ _ _) as [c|] eqn:Eo.
  { unfold require_roles. destruct (enforce_required_roles required c); [|done]. intros [= <- <-].
    unfold oidc_context in Eo. destruct (ca_jwt a) as [d|] eqn:Ea; [|done].
    destruct (looks_like_jwt token); [|done].
    destruct (validate_token _ _ _ _ _ _ _) as [claims|] eqn:Ev; [|done]. injection Eo as <-.
    by eapply GrantOidc. }
  destruct (authenticate _ _ _ _ _) as [[[c|]|] m] eqn:Ea; try done.
  unfold require_roles. destruct (enforce_required_roles required c); [|done]. intros [= <- <-].
  apply authenticate_grants in Ea as [[Hm ->]|(key & Hk & ->)]; [|by apply GrantKey|done].
  by apply GrantMaster.
Qed.

(** C11: When any way to authenticate is configured, a request goes through only with a
    bearer token that is the master key, or opens as a token of the local login or of
    the provider, or is the secret of an enabled key of the key store that has not
    expired, whichever of the three stores it is and whatever fails on its connection;
    and its principal is the one that token grants. Of the in-memory store it is asked
    that its index is right, which its operations keep. *)
Theorem middleware_sound authorization remote_ip k a ctx a' :
  backend_ok (am_store (ca_api_key a)) ->
  ~ (ca_jwt a = None /\ ca_admin_login a = None /\ am_master_key (ca_api_key a) = None) ->
  middleware authorization remote_ip k a = (Proceed ctx, a') ->
  exists token, authorization = Some ("Bearer " +:+ token) /\ grants token k a ctx.
Proof. apply middleware_grants. Qed.

(** A refused request leaves one audit record, and only that: unauthorised and
    forbidden requests do, a failure of the store and a request that goes through
    do not. The principal of a request never holds the presented secret. *)
Theorem refusals_audited authorization remote_ip k a log :
  ca_audit a = Some log ->
  match middleware authorization remote_ip k a with
  | (Refuse status _, a') =>
      (status = 401 \/ status = 403) /\
        (exists audit_status reason user key,
           ca_audit a' = Some (log_auth_failure replace_all (ck_nanos k) (ck_log k) audit_status reason
                                 remote_ip user key log) /\
           (status = 401 <-> audit_status = AuditUnauthorized)) \/
      status = 500 /\ ca_audit a' = Some log
  | (Proceed ctx, a') =>
      ca_audit a' = Some log /\
      (auth_api_key ctx = "anonymous" \/ auth_api_key ctx = "master" \/
       exists id, auth_api_key ctx = "key:" +:+ id \/ auth_api_key ctx = "jwt:" +:+ id)
  end.
Proof.
  intros Hl. unfold combined_middleware. destruct (_ && _ && _); [auto|].
  assert (forall c (b : CombinedAuth), ca_audit b = Some log ->
    auth_api_key c = "master" \/ (exists id, auth_api_key c = "key:" +:+ id \/ auth_api_key c = "jwt:" +:+ id) ->
    match require_roles replace_all required k remote_ip c b with
    | (Refuse status _, a') =>
        (status = 401 \/ status = 403) /\
          (exists audit_status reason user key,
             ca_audit a' = Some (log_auth_failure replace_all (ck_nanos k) (ck_log k) audit_status reason
                                   remote_ip user key log) /\
             (status = 401 <-> audit_status = AuditUnauthorized)) \/
        status = 500 /\ ca_audit a' = Some log
    | (Proceed ctx, a') =>
        ca_audit a' = Some log /\
        (auth_api_key ctx = "anonymous" \/ auth_api_key ctx = "master" \/
         exists id, auth_api_key ctx = "key:" +:+ id \/ auth_api_key ctx = "jwt:" +:+ id)
    end) as Hadmit.
  { intros c b Hb Hc. unfold require_roles. destruct (enforce_required_roles required c); [tauto|].
    left. split; [by right|]. unfold audit_failure. cbn. rewrite Hb. cbn.
    do 4 eexists. split; [done|]. done. }
  destruct (bearer_token authorization) as [token|].
  2: { left. split; [by left|]. unfold audit_failure. cbn. rewrite Hl. cbn.
       do 4 eexists. split; [done|]. done. }
  destruct (login_context _ _ _ _) as [c|] eqn:El.
  { split; [done|]. right; right. unfold login_context in El.
    destruct (ca_admin_login a); [|done]. destruct (looks_like_jwt token); [|done].
    destruct (login_validate _ _ _ _) as [claims|]; [|done]. injection El as <-. exists (jc_sub claims). by right. }
  destruct (oidc_context _ _ _ _ _ _ _) as [c|] eqn:Eo.
  { apply Hadmit; [done|]. unfold oidc_context in Eo. destruct (ca_jwt a); [|done].
    destruct (looks_like_jwt token); [|done].
    destruct (validate_token _ _ _ _ _ _ _) as [claims|]; [|done]. injection Eo as <-.
    right. exists (jc_sub claims). by right. }
  destruct (authenticate _ _ _ _ _) as [[[c|]|] m] eqn:Ea.
  - apply Hadmit; [done|]. unfold authenticate in Ea.
    assert (c = master_context \/ exists key, c = key_context key) as [-> | [key ->]].
    { destruct (am_master_key _) as [mk|]; [destruct (constant_time_eq token mk); [by injection Ea; auto|]|];
        destruct (backend_validate _ _ _ _ _) as [[[key|]|] st]; try done; injection Ea as <- <-; eauto. }
    + by left.
    + right. exists (ak_id key). by left.
  - left. split; [by left|]. unfold audit_failure. cbn. rewrite Hl. cbn.
    do 4 eexists. split; [done|]. done.
  - right. done.
Qed.

End Proofs.

(** ** The theorems at concrete inputs *)
Module AccessDemo.
#[local] Existing Instances SqlDemo.time_text RefineDemo.json_text JwtDemo.demo_jwt.

Definition auth : CombinedAuth :=
  {| ca_api_key := {| am_store := Memory key_store_new; am_master_key := Some "mk" |};
     ca_jwt := None; ca_admin_login := None; ca_audit := Some (audit_new true) |}.

Definition clock : Clock := {| ck_nanos := Some 1; ck_log := 0; ck_instant := 0; ck_seconds := 0 |}.

(** The middleware with no token library behind it. *)
Definition run (authorization : option string) (a : CombinedAuth) : Decision * CombinedAuth :=
  combined_middleware (Key := unit) (fun s => s) SqlDemo.uuid (fun _ s _ => s)
    (fun _ => Err "") (fun _ => Err "") (fun _ _ _ _ => Err (KOther "")) (fun _ => "") []
    authorization None clock a.

Definition granted (token : string) (a : CombinedAuth) : AuthContext -> Prop :=
  grants (Key := unit) (fun s => s) SqlDemo.uuid (fun _ => Err "") (fun _ => Err "")
    (fun _ _ _ _ => Err (KOther "")) (fun _ => "") token clock a.

(** A key store on SQLite, with one key. *)
Definition sqlite_auth : CombinedAuth :=
  {| ca_api_key :=
       {| am_store := Sqlite (sqlite_create (fun s => s) SqlDemo.uuid 1 2 10 RefineDemo.lasting (steady [])).2;
          am_master_key := Some "mk" |};
     ca_jwt := None; ca_admin_login := None; ca_audit := Some (audit_new true) |}.

Definition secret : string := generate_api_key SqlDemo.uuid 2.

End AccessDemo.

Lemma middleware_sound_witness :
  (exists token, Some "Bearer mk" = Some ("Bearer " +:+ token) /\
     AccessDemo.granted token AccessDemo.auth master_context) /\
  exists ctx a', AccessDemo.run (Some ("Bearer " +:+ AccessDemo.secret)) AccessDemo.sqlite_auth = (Proceed ctx, a') /\
  exists token, Some ("Bearer " +:+ AccessDemo.secret) = Some ("Bearer " +:+ token) /\
    AccessDemo.granted token AccessDemo.sqlite_auth ctx.
Proof.
  pose proof (fun h a => @middleware_sound SqlDemo.time_text RefineDemo.json_text JwtDemo.demo_jwt (fun s => s)
           SqlDemo.uuid (fun _ s _ => s) unit (fun _ => Err "") (fun _ => Err "")
           (fun _ _ _ _ => Err (KOther "")) (fun _ => "") [] h None AccessDemo.clock a) as Hsound.
  split.
  - apply (Hsound (Some "Bearer mk") AccessDemo.auth master_context AccessDemo.auth).
    + exact store_new_ok.
    + intros [_ [_ H]]. discriminate.
    + reflexivity.
  - destruct (AccessDemo.run (Some ("Bearer " +:+ AccessDemo.secret)) AccessDemo.sqlite_auth) as [[ctx|st m] a'] eqn:E;
      [|by vm_compute in E].
    exists ctx, a'. split; [done|].
    apply (Hsound (Some ("Bearer " +:+ AccessDemo.secret)) AccessDemo.sqlite_auth ctx a').
    + exact I.
    + intros [_ [_ H]]. discriminate.
    + exact E.
Defined.

Lemma refusals_audited_witness :
  ca_audit AccessDemo.auth = Some (audit_new true) /\
  match AccessDemo.run None AccessDemo.auth with
  | (Refuse status _, a') =>
      (status = 401 \/ status = 403) /\
        (exists audit_status reason user key,
           ca_audit a' = Some (log_auth_failure (fun _ s _ => s) (Some 1) 0 audit_status reason
                                 None user key (audit_new true)) /\
           (status = 401 <-> audit_status = AuditUnauthorized)) \/
      status = 500 /\ ca_audit a' = Some (audit_new true)
  | (Proceed ctx, a') =>
      ca_audit a' = Some (audit_new true) /\
      (auth_api_key ctx = "anonymous" \/ auth_api_key ctx = "master" \/
       exists id, auth_api_key ctx = "key:" +:+ id \/ auth_api_key ctx = "jwt:" +:+ id)
  end.
Proof.
  split; [reflexivity|].
  exact (@refusals_audited SqlDemo.time_text RefineDemo.json_text JwtDemo.demo_jwt (fun s => s)
           SqlDemo.uuid (fun _ s _ => s) unit (fun _ => Err "") (fun _ => Err "")
           (fun _ _ _ _ => Err (KOther "")) (fun _ => "") [] None None AccessDemo.clock
           AccessDemo.auth (audit_new true) eq_refl).
Defined.
