(* ===== verification/Http.v ===== *)
(** * The HTTP edge
    (src/crates/himadri/src/handlers.rs, and require_admin_scope of main.rs)

    What the handlers do without the gateway: the JSON errors of the
    administrative API, the mapping of a [GatewayError] to a response, the
    caller's address behind a proxy, the tokens of [/metrics] and of the login,
    the gate of the admin routes, the legacy completion format and the events of
    a streamed answer. Axum's routing and extractors, and the sending of bytes,
    are outside; a response is a value of [Reply]. Headers are a list in the order
    received, their names in lower case. *)

From S2P Require Import Prelude Str Float Types Json Errors Config NetGuard Auditing Sql Jwt KeyStore KeySql KeyRefine Access.
From Stdlib Require Import Ascii.

(** ** Responses *)

Inductive Body :=
  | BodyValue (v : Value)
  | BodyCompletion (r : ChatCompletionResponse)
  | BodyEmbeddings (r : EmbeddingResponse)
  | BodyText (s : string).

Record Reply := { rp_status : Z; rp_retry_after : option string; rp_body : Body }.

(** [{"error": {"message": ..., "type": "gateway_error"}}] *)
Definition error_value (message : string) : Value :=
  json_object [("error", json_object [("message", VString message); ("type", VString "gateway_error")])].

Record ApiError := { api_status : Z; api_message : string }.

Definition api_not_found : ApiError := {| api_status := 404; api_message := "not found" |}.

Definition api_error_reply (e : ApiError) : Reply :=
  {| rp_status := api_status e; rp_retry_after := None; rp_body := BodyValue (error_value (api_message e)) |}.

Definition api_error_of_admin (e : AdminError) : ApiError :=
  match e with
  | Sql.NotFound => api_not_found
  | Sql.Validation m => {| api_status := 400; api_message := m |}
  | Conflict m => {| api_status := 409; api_message := m |}
  | Store _ => {| api_status := 500; api_message := "internal storage error" |}
  end.

Definition is_server_error (status : Z) : bool := (500 <=? status) && (status <? 600).

(** The statuses are constants, all of them valid. *)
Definition error_to_response (e : GatewayError) : Reply :=
  let status := gateway_status_code e in
  let message :=
    if is_server_error status then
      match e with
      | CircuitOpen _ | ServiceUnavailable _ => "upstream provider unavailable"
      | _ => "internal server error"
      end
    else gateway_error_to_string e in
  {| rp_status := status;
     rp_retry_after :=
       match e with
       | RateLimited secs => Some (show_Z secs)
       | QuotaExceeded _ => Some (show_Z 60)
       | _ => None
       end;
     rp_body := BodyValue (error_value message) |}.

(** ** The caller's address *)

(** [Display] of the standard library's addresses: an IPv4-mapped address shows
    the IPv4 address, any other has its first longest run of zero segments, of
    two or more, left out. *)
Definition hex_digit (n : Z) : ascii := ascii_of_nat (Z.to_nat (if n <? 10 then 48 + n else 87 + n)).

(** [{:x}] of a segment, which has at most four digits. *)
Fixpoint hex_digits (fuel : nat) (n : Z) (acc : string) : string :=
  match fuel with
  | O => acc
  | S fuel =>
      let acc := String (hex_digit (n mod 16)) acc in
      if n / 16 =? 0 then acc else hex_digits fuel (n / 16) acc
  end.
Definition show_hex (n : Z) : string := hex_digits 4 n "".

Definition show_segments (l : list Z) : string := join ":" (show_hex <$> l).

(** Spans are a start and a length. *)
Fixpoint zero_span (i : nat) (current longest : nat * nat) (segments : list Z) : nat * nat :=
  match segments with
  | [] => longest
  | s :: segments =>
      if s =? 0 then
        let current := if (current.2 =? 0)%nat then (i, 1%nat) else (current.1, S current.2) in
        zero_span (S i) current (if (longest.2 <? current.2)%nat then current else longest) segments
      else zero_span (S i) (0, 0)%nat longest segments
  end.

Definition show_v6 (g : list Z) : string :=
  match g with
  | [0; 0; 0; 0; 0; 65535; ab; cd] =>
      "::ffff:" +:+ show_v4 (ab / 256) (ab mod 256) (cd / 256) (cd mod 256)
  | _ =>
      let '(start, len) := zero_span 0 (0, 0)%nat (0, 0)%nat g in
      if (1 <? len)%nat then
        show_segments (take start g) +:+ "::" +:+ show_segments (drop (start + len) g)
      else show_segments g
  end.

Definition show_ip (ip : IpAddr) : string :=
  match ip with
  | V4 o => show_v4 (octet o 0) (octet o 1) (octet o 2) (octet o 3)
  | V6 g => show_v6 g
  end.

Definition Headers := list (string * string).

(** [headers.get(name)]: the first value. *)
Definition header_get (name : string) (headers : Headers) : option string :=
  snd <$> List.find (fun h => bool_decide (h.1 = name)) headers.

Section RemoteIp.
(** [HeaderValue::to_str] *)
Context (to_str : string -> option string).

Definition public_ip (text : string) : option string :=
  match parse_ip (trim text) with
  | Some addr => if ip_is_internal addr then None else Some (show_ip addr)
  | None => None
  end.

(** The first public address of the parts, in the order given. *)
Fixpoint first_public (parts : list string) : option string :=
  match parts with
  | [] => None
  | part :: parts => match public_ip part with Some ip => Some ip | None => first_public parts end
  end.

Definition trusted_proxy_ip (headers : Headers) : option string :=
  let forwarded :=
    s ← header_get "x-forwarded-for" headers ≫= to_str;
    first_public (rev (split_on (is_char ","%char) s)) in
  match forwarded with
  | Some ip => Some ip
  | None => (header_get "x-real-ip" headers ≫= to_str) ≫= public_ip
  end.

Definition resolve_remote_ip (peer : IpAddr) (headers : Headers) : option string :=
  match (if ip_is_internal peer then trusted_proxy_ip headers else None) with
  | Some ip => Some ip
  | None => Some (show_ip peer)
  end.
End RemoteIp.

(** ** [/metrics] and the login *)

(** [a.iter().zip(b).fold(0, |acc, (x, y)| acc | (x ^ y)) == 0] *)
Definition presented_eq (a b : string) : bool :=
  if negb (Nat.eqb (String.length a) (String.length b)) then false
  else xor_accumulate 0 a b =? 0.

(** [env] and the live configuration's master key; [Ok] is the metrics, encoded. *)
Definition metrics_handler (env : string -> option string) (master_key : option string)
    (authorization : option string) (metrics : string) : Reply :=
  let expected := match env "METRICS_TOKEN" with Some t => Some t | None => master_key end in
  let served := {| rp_status := 200; rp_retry_after := None; rp_body := BodyText metrics |} in
  match expected with
  | Some expected =>
      if str_is_empty expected then served
      else
        let authorized :=
          match authorization ≫= strip_prefix "Bearer " with
          | Some presented => presented_eq presented expected
          | None => false
          end in
        if authorized then served
        else api_error_reply {| api_status := 401; api_message := "unauthorized" |}
  | None => served
  end.

Definition auth_error_to_string (e : AuthError) : string :=
  match e with
  | InvalidToken m => "invalid token: " +:+ m
  | ExpiredToken => "expired token"
  | InvalidSignature => "invalid signature"
  | InvalidAudience => "invalid audience"
  | InvalidIssuer => "invalid issuer"
  | OidcDiscoveryFailed m => "OIDC discovery failed: " +:+ m
  | JwksFetchFailed m => "JWKS fetch failed: " +:+ m
  | Network m => "network error: " +:+ m
  | AuthConfig m => "configuration error: " +:+ m
  end.

Section Login.
Context `{JwtLibrary}.
Context (to_str : string -> option string).
Context (replace_all : Pattern -> string -> string -> string).

Record DevAdminLoginRequest := { dl_username : string; dl_password : string }.

(** The audit log is the gateway's. A failed attempt sleeps before it is
    answered. *)
Definition dev_admin_login (login : option AdminLogin) (peer : IpAddr) (headers : Headers)
    (body : DevAdminLoginRequest) (k : Clock) (log : AuditLog)
    : result IssuedAdminToken ApiError * AuditLog :=
  match login with
  | None => (Err api_not_found, log)
  | Some login =>
      if negb (login_verify (dl_username body) (dl_password body) login) then
        let remote_ip := resolve_remote_ip to_str peer headers in
        (Err {| api_status := 401; api_message := "invalid username or password" |},
         log_auth_failure replace_all (ck_nanos k) (ck_log k) AuditUnauthorized
           "dev admin login: invalid credentials" remote_ip (Some (dl_username body)) None log)
      else
        (map_err (fun e => {| api_status := 500; api_message := auth_error_to_string e |})
           (login_issue (ck_seconds k) login), log)
  end.
End Login.

(** ** The gate of the admin routes (main.rs)

    [None] lets the request through to its handler. *)
Definition require_admin_scope (auth : option AuthContext) : option Reply :=
  match auth with
  | Some ctx =>
      if bool_decide (auth_scope ctx = Admin) then None
      else Some (api_error_reply {| api_status := 403; api_message := "admin scope required" |})
  | None => Some (api_error_reply {| api_status := 403; api_message := "admin scope required" |})
  end.

(** ** Legacy completions *)

Inductive LegacyPrompt :=
  | PromptNone
  | PromptText (s : string)
  | PromptMany (l : list string).

Record LegacyCompletionRequest := {
  lc_model : string;
  lc_prompt : LegacyPrompt;
  lc_max_tokens : option Z;
  lc_temperature : option f32;
  lc_top_p : option f32;
  lc_stop : option Value;
  lc_stream : bool;
  lc_user : option string;
}.

Definition prompt_into_text (p : LegacyPrompt) : string :=
  match p with
  | PromptNone => ""
  | PromptText t => t
  | PromptMany parts => join (String "010"%char "") parts
  end.

(** The [stop] of the document: a string is a list of one. *)
Definition legacy_stop (stop : option Value) : option Value :=
  match stop with
  | None | Some VNull => None
  | Some (VString s) => Some (VArray [VString s])
  | Some other => Some other
  end.

(** Reading the document back as a [ChatCompletionRequest] can fail on [stop]
    only, which has to be a list of strings; the error's text is serde_json's. A
    number that is not finite is [null] in the document. *)
Definition read_stop (serde_error : Value -> string) (v : Value) : result (list string) string :=
  match v with
  | VArray l =>
      match mapM value_as_str l with Some s => Ok s | None => Err (serde_error v) end
  | _ => Err (serde_error v)
  end.

Definition through_json (x : option f32) : option f32 :=
  x ← x; if f32_finite x then Some x else None.

Definition legacy_to_chat (serde_error : Value -> string) (request : LegacyCompletionRequest)
    : result ChatCompletionRequest ApiError :=
  let prompt := prompt_into_text (lc_prompt request) in
  if str_is_empty prompt then
    Err {| api_status := 400;
           api_message := "prompt is required (for chat-style messages use /v1/chat/completions)" |}
  else
    let chat stop :=
      {| req_model := lc_model request; req_messages := [message_user prompt];
         req_stream := lc_stream request; req_temperature := through_json (lc_temperature request);
         req_top_p := through_json (lc_top_p request); req_max_tokens := lc_max_tokens request;
         req_stop := stop; req_presence_penalty := None; req_frequency_penalty := None;
         req_user := lc_user request; req_tools := None; req_tool_choice := None; req_extra := ∅ |} in
    match legacy_stop (lc_stop request) with
    | None => Ok (chat None)
    | Some v =>
        match read_stop serde_error v with
        | Ok stop => Ok (chat (Some stop))
        | Err e => Err {| api_status := 400; api_message := "invalid completion request: " +:+ e |}
        end
    end.

Definition usage_value (u : Usage) : Value :=
  json_object [("prompt_tokens", u32_value (usage_prompt_tokens u));
               ("completion_tokens", u32_value (usage_completion_tokens u));
               ("total_tokens", u32_value (usage_total_tokens u))].

Definition text_choice (text : option string) (index : Z) (finish_reason : option string) : Value :=
  json_object [("text", VString (default "" text)); ("index", u32_value index); ("logprobs", VNull);
               ("finish_reason", opt_value VString finish_reason)].

Definition chat_to_text_completion (response : ChatCompletionResponse) : Value :=
  json_object
    [("id", VString (resp_id response)); ("object", VString "text_completion");
     ("created", VNumber (PosInt (resp_created response))); ("model", VString (resp_model response));
     ("choices", VArray ((fun c => text_choice (rm_content (choice_message c)) (choice_index c)
                                     (choice_finish_reason c)) <$> resp_choices response));
     ("usage", opt_value usage_value (resp_usage response))].

Definition chunk_to_text_completion (c : StreamChunk) : Value :=
  json_object
    [("id", VString (chunk_id c)); ("object", VString "text_completion");
     ("created", VNumber (PosInt (chunk_created c))); ("model", VString (chunk_model c));
     ("choices", VArray ((fun choice => text_choice (delta_content (sc_delta choice)) (sc_index choice)
                                          (sc_finish_reason choice)) <$> chunk_choices c))].

(** ** Streamed answers

    The data of the events, in order; the pings that keep the connection alive
    carry none. *)

Section Events.
Context (value_to_string : Value -> string).

(** [scan(false, |errored, chunk| ...)] *)
Fixpoint scan_events (errored : bool) (items : list (result string ProviderError)) : list string :=
  match items with
  | [] => []
  | chunk :: items =>
      if errored then []
      else match chunk with
           | Ok payload => payload :: scan_events false items
           | Err _ =>
               value_to_string (error_value "stream interrupted by upstream error")
                 :: scan_events true items
           end
  end.

Definition sse_response (items : list (result string ProviderError)) : list string :=
  (scan_events false items ++ ["[DONE]"])%list.
End Events.

(** The items of the two handlers' streams; [chunk_to_string] is
    [serde_json::to_string] of a chunk. *)
Definition chat_item (chunk_to_string : StreamChunk -> result string string)
    (chunk : result StreamChunk ProviderError) : result string ProviderError :=
  match chunk with
  | Ok c => map_err PParse (chunk_to_string c)
  | Err e => Err e
  end.

Definition text_item (value_to_string : Value -> string) (chunk : result StreamChunk ProviderError)
    : result string ProviderError :=
  match chunk with
  | Ok c => Ok (value_to_string (chunk_to_text_completion c))
  | Err e => Err e
  end.

(** ** Proofs: the caller's address *)

(** A printable ASCII character other than the space. *)
Definition is_graphic (c : ascii) : bool :=
  (33 <=? Z.of_nat (nat_of_ascii c)) && (Z.of_nat (nat_of_ascii c) <=? 126).

Lemma strip_white_graphic c s : is_graphic c = true -> strip_white (String c s) = None.
Proof. destruct c as [[] [] [] [] [] [] [] []]; intros H; first [discriminate H|reflexivity]. Qed.

Lemma trim_start_graphic c s : is_graphic c = true -> trim_start (String c s) = String c s.
Proof. intros H. unfold trim_start. cbn [String.length trim_start_fuel]. by rewrite strip_white_graphic. Qed.

Lemma trim_graphic s : all_chars is_graphic s = true -> trim s = s.
Proof.
  intros H. unfold trim.
  assert (trim_start s = s) as -> by (destruct s; [done|]; apply andb_true_iff in H as [Hc _];
    by apply trim_start_graphic).
  induction s as [|c s IH]; [done|]. cbn in H. apply andb_true_iff in H as [Hc Hs].
  cbn [trim_end]. rewrite trim_start_graphic by done. rewrite decide_False by done. by rewrite IH.
Qed.

Lemma v4_graphic a b c d : NetGuard.byte a -> NetGuard.byte b -> NetGuard.byte c -> NetGuard.byte d ->
  all_chars is_graphic (show_v4 a b c d) = true.
Proof.
  intros. pose proof (v4_avoids (fun x => negb (is_graphic x)) a b c d) as Hv. unfold avoids in Hv.
  refine (all_chars_impl _ _ _ _ (Hv _ _ _ _ _ _)); try done.
  - intros x. by rewrite negb_involutive.
  - intros x Hx%digit_range. unfold is_graphic. apply negb_false_iff, andb_true_iff.
    split; apply Z.leb_le; lia.
Qed.

Lemma first_public_app l l' : Forall (fun p => public_ip p = None) l ->
  first_public (l ++ l') = first_public l'.
Proof. induction 1 as [|p l Hp _ IH]; cbn; [done|]. by rewrite Hp. Qed.

(** What an entry of a proxy header says: the address it parses to once the blanks
    around it are gone, when that address is public. *)
Definition names_public (entry : string) (addr : IpAddr) : Prop :=
  parse_ip (trim entry) = Some addr /\ ip_is_internal addr = false.

Lemma public_ip_Some entry addr : names_public entry addr -> public_ip entry = Some (show_ip addr).
Proof. intros [Hp Hi]. unfold public_ip. by rewrite Hp, Hi. Qed.

Lemma public_ip_None entry : (forall addr, ~ names_public entry addr) <-> public_ip entry = None.
Proof.
  unfold public_ip, names_public. split.
  - intros Hn. destruct (parse_ip (trim entry)) as [addr|] eqn:Hp; [|done].
    destruct (ip_is_internal addr) eqn:Hi; [done|]. by destruct (Hn addr).
  - intros H addr [Hp Hi]. by rewrite Hp, Hi in H.
Qed.

Lemma names_public_v4 pad a b c d : pad = "" \/ pad = " " ->
  NetGuard.byte a -> NetGuard.byte b -> NetGuard.byte c -> NetGuard.byte d ->
  ip_is_internal (V4 [a; b; c; d]) = false ->
  names_public (pad +:+ show_v4 a b c d) (V4 [a; b; c; d]).
Proof.
  intros Hpad Ha Hb Hc Hd Hpub. split; [|done].
  assert (trim (pad +:+ show_v4 a b c d) = trim (show_v4 a b c d)) as -> by by destruct Hpad as [->| ->].
  rewrite trim_graphic by by apply v4_graphic. by apply parse_ip_v4.
Qed.

Lemma split_join entries : Forall (avoids (is_char ","%char)) entries -> entries <> [] ->
  split_on (is_char ","%char) (join "," entries) = entries.
Proof.
  intros He. induction He as [|e entries He Hes IH]; [done|]. intros _.
  destruct entries as [|e' entries]; [by apply split_on_avoids|].
  change (join "," (e :: e' :: entries)) with (e +:+ String ","%char (join "," (e' :: entries))).
  rewrite split_on_app by done. by rewrite split_on_avoids, IH.
Qed.

Lemma first_public_last front entry back addr : names_public entry addr ->
  Forall (fun e => forall a, ~ names_public e a) back ->
  first_public (rev (front ++ entry :: back)) = Some (show_ip addr).
Proof.
  intros He Hb. rewrite rev_app_distr. cbn [rev]. rewrite <- app_assoc, first_public_app.
  - cbn [app first_public]. by rewrite (public_ip_Some _ addr).
  - apply Forall_rev. refine (Forall_impl _ _ _ Hb _). intros e. apply public_ip_None.
Qed.

Lemma first_public_none entries : Forall (fun e => forall a, ~ names_public e a) entries ->
  first_public (rev entries) = None.
Proof.
  intros He. rewrite <- (app_nil_r (rev entries)), first_public_app; [done|].
  apply Forall_rev. refine (Forall_impl _ _ _ He _). intros e. apply public_ip_None.
Qed.

(** C29: The caller's address. Proxy headers count only when the peer is internal. Then,
    of the entries of the first [X-Forwarded-For] line, one or many, the address is the
    last one that is public, IPv4 or IPv6, whatever the client wrote in front of it: the
    one the outermost proxy saw, when the proxies after it are internal. When no entry
    is public it is [X-Real-IP]'s, if that is public, and else the peer's. A proxy's
    own way of writing a public IPv4 address, with or without a blank in front, is
    always read. *)
Theorem remote_ip_unspoofable to_str peer headers :
  let forwarded := header_get "x-forwarded-for" headers ≫= to_str in
  if ip_is_internal peer then
    (forall front entry back addr,
       Forall (avoids (is_char ","%char)) (front ++ entry :: back) ->
       names_public entry addr -> Forall (fun e => forall a, ~ names_public e a) back ->
       forwarded = Some (join "," (front ++ entry :: back)) ->
       resolve_remote_ip to_str peer headers = Some (show_ip addr)) /\
    (forall entries,
       Forall (avoids (is_char ","%char)) entries -> Forall (fun e => forall a, ~ names_public e a) entries ->
       forwarded = None \/ entries <> [] /\ forwarded = Some (join "," entries) ->
       match header_get "x-real-ip" headers ≫= to_str with
       | Some entry =>
           (forall addr, names_public entry addr ->
              resolve_remote_ip to_str peer headers = Some (show_ip addr)) /\
           ((forall addr, ~ names_public entry addr) ->
              resolve_remote_ip to_str peer headers = Some (show_ip peer))
       | None => resolve_remote_ip to_str peer headers = Some (show_ip peer)
       end) /\
    (forall pad a b c d, pad = "" \/ pad = " " ->
       NetGuard.byte a -> NetGuard.byte b -> NetGuard.byte c -> NetGuard.byte d ->
       ip_is_internal (V4 [a; b; c; d]) = false ->
       names_public (pad +:+ show_v4 a b c d) (V4 [a; b; c; d]))
  else resolve_remote_ip to_str peer headers = Some (show_ip peer).
Proof.
  cbn zeta. unfold resolve_remote_ip. destruct (ip_is_internal peer); [|done].
  unfold trusted_proxy_ip. split_and!; [| |by apply names_public_v4].
  - intros front entry back addr Hav He Hb ->. cbn [mbind option_bind].
    rewrite split_join by (done || by destruct front). by rewrite (first_public_last _ _ _ addr).
  - intros entries Hav Hn Hf.
    assert (((header_get "x-forwarded-for" headers ≫= to_str) ≫=
             (fun s => first_public (rev (split_on (is_char ","%char) s)))) = None) as ->.
    { destruct Hf as [->|[Hne ->]]; [done|]. cbn [mbind option_bind].
      rewrite split_join by done. by apply first_public_none. }
    destruct (header_get "x-real-ip" headers ≫= to_str) as [entry|]; [|done]. cbn [mbind option_bind].
    split; [intros addr He|intros He]; [by rewrite (public_ip_Some _ addr)|].
    apply public_ip_None in He. by rewrite He.
Qed.

(** Only the first header line counts. A proxy that adds a line of its own
    below the client's leaves the client's in charge. *)
Theorem second_header_line_ignored to_str peer v w headers :
  resolve_remote_ip to_str peer (("x-forwarded-for", v) :: ("x-forwarded-for", w) :: headers) =
  resolve_remote_ip to_str peer (("x-forwarded-for", v) :: headers).
Proof. reflexivity. Qed.

(** ** Proofs: responses *)

(** Errors at the edge. The status is the error's; the detail of a server error
    never reaches the client, any other message does; and exactly the responses
    of status 429 say when to try again. *)
Theorem error_to_response_spec e :
  let r := error_to_response e in
  rp_status r = gateway_status_code e /\
  (exists message, rp_body r = BodyValue (error_value message) /\
     if is_server_error (gateway_status_code e)
     then message ∈ ["upstream provider unavailable"; "internal server error"]
     else message = gateway_error_to_string e) /\
  (is_Some (rp_retry_after r) <-> rp_status r = 429).
Proof.
  cbn zeta. split; [done|]. split; [destruct e; eexists; (split; [reflexivity|]); cbn; solve [done|repeat constructor]|].
  unfold is_Some. destruct e; cbn; naive_solver.
Qed.

Lemma presented_eq_spec a b : presented_eq a b = true <-> a = b.
Proof.
  change (presented_eq a b) with (constant_time_eq a b). rewrite constant_time_eq_spec. apply String.eqb_eq.
Qed.

(** C52: [/metrics] is open when no token is expected; when a non-empty one is, exactly its
    bearer is served. *)
Theorem metrics_guarded env master_key authorization metrics :
  let expected := match env "METRICS_TOKEN" with Some t => Some t | None => master_key end in
  rp_status (metrics_handler env master_key authorization metrics) = 200 <->
    expected = None \/ expected = Some "" \/
    exists token, expected = Some token /\ authorization = Some ("Bearer " +:+ token).
Proof.
  cbn zeta. unfold metrics_handler.
  destruct (match env "METRICS_TOKEN" with Some t => Some t | None => master_key end) as [t|];
    [|split; [by left|done]].
  unfold str_is_empty. destruct (bool_decide_reflect (t = "")) as [->|Ht];
    [split; [by right; left|done]|].
  destruct (authorization ≫= strip_prefix "Bearer ") as [p|] eqn:Ep.
  - assert (authorization = Some ("Bearer " +:+ p)) as ->.
    { destruct authorization as [h|]; [|done]. by apply strip_prefix_Some in Ep as ->. }
    destruct (presented_eq p t) eqn:Eq.
    + apply presented_eq_spec in Eq as ->. split; [|done]. intros _. right; right. by exists t.
    + split; [done|]. intros [?|[[= ?]|(u & [= <-] & [= Hu])]]; [done|done|].
      exfalso. apply eq_true_false_abs with (presented_eq p t); [|done]. by apply presented_eq_spec.
  - split; [done|]. intros [?|[[= ?]|(u & [= <-] & ->)]]; [done|done|].
    change (strip_prefix "Bearer " ("Bearer " +:+ t) = None) in Ep. by rewrite strip_prefix_app in Ep.
Qed.

(** A [METRICS_TOKEN] that is set but empty opens the metrics to everyone, although a
    master key is configured. *)
Theorem empty_metrics_token_opens env master_key authorization metrics :
  env "METRICS_TOKEN" = Some "" ->
  metrics_handler env (Some master_key) authorization metrics =
    {| rp_status := 200; rp_retry_after := None; rp_body := BodyText metrics |}.
Proof. intros He. unfold metrics_handler. by rewrite He. Qed.

(** ** Proofs: streamed answers *)

Lemma scan_events_payloads to_string payloads tail :
  scan_events to_string false ((Ok <$> payloads) ++ tail) =
    (payloads ++ scan_events to_string false tail)%list.
Proof. induction payloads as [|p payloads IH]; cbn; [done|]. by rewrite IH. Qed.

Lemma first_failure {A E} (items : list (result A E)) :
  exists payloads, items = Ok <$> payloads \/
    exists e rest, items = ((Ok <$> payloads) ++ Err e :: rest)%list.
Proof.
  induction items as [|[a|e] items [payloads IH]].
  - exists []. by left.
  - exists (a :: payloads). destruct IH as [-> |(e & rest & ->)]; [by left|right]. by exists e, rest.
  - exists []. right. by exists e, items.
Qed.

(** The events of a streamed answer. They are the payloads of the stream up to its first
    error, one fixed event for that error if there is one, and the end sentinel; what
    the stream gives after an error is never sent. *)
Theorem sse_response_spec to_string items :
  exists payloads,
    (items = Ok <$> payloads /\ sse_response to_string items = (payloads ++ ["[DONE]"])%list) \/
    (exists e rest, items = ((Ok <$> payloads) ++ Err e :: rest)%list /\
       sse_response to_string items =
         (payloads ++ [to_string (error_value "stream interrupted by upstream error"); "[DONE]"])%list).
Proof.
  destruct (first_failure items) as [payloads [-> |(e & rest & ->)]]; exists payloads; [left|right].
  - split; [done|]. unfold sse_response.
    rewrite <- (app_nil_r (Ok <$> payloads)), scan_events_payloads. cbn. by rewrite app_nil_r.
  - exists e, rest. split; [done|]. unfold sse_response. rewrite scan_events_payloads. cbn.
    rewrite <- app_assoc. by destruct rest.
Qed.

(** ** Proofs: legacy completions *)

Lemma mapM_strings l : mapM value_as_str (VString <$> l) = Some l.
Proof. induction l as [|s l IH]; cbn; [done|]. by rewrite IH. Qed.

Lemma read_strings l vs : mapM value_as_str vs = Some l -> vs = VString <$> l.
Proof.
  revert l. induction vs as [|v vs IH]; intros l; cbn; [by intros [= <-]|].
  destruct v; try done. destruct (mapM value_as_str vs) as [l'|]; [|done]. cbn. intros [= <-].
  cbn. by rewrite (IH l').
Qed.

(** What the legacy [stop] may be, and the list it becomes. *)
Inductive stop_list : option Value -> option (list string) -> Prop :=
  | StopAbsent : stop_list None None
  | StopNull : stop_list (Some VNull) None
  | StopOne s : stop_list (Some (VString s)) (Some [s])
  | StopMany l : stop_list (Some (VArray (VString <$> l))) (Some l).

(** A legacy completion is translated exactly when its prompt is not empty and its
    [stop] is a string or a list of strings: to a conversation of one user message,
    the prompt, with the same model, limits, stop sequences, user and streaming; any
    other is the client's error. *)
Theorem legacy_to_chat_spec serde_error request :
  match legacy_to_chat serde_error request with
  | Ok chat =>
      prompt_into_text (lc_prompt request) <> "" /\
      req_messages chat = [message_user (prompt_into_text (lc_prompt request))] /\
      req_model chat = lc_model request /\ req_stream chat = lc_stream request /\
      req_max_tokens chat = lc_max_tokens request /\ req_user chat = lc_user request /\
      req_temperature chat = through_json (lc_temperature request) /\
      stop_list (lc_stop request) (req_stop chat)
  | Err e =>
      api_status e = 400 /\
      (prompt_into_text (lc_prompt request) = "" \/ forall l, ~ stop_list (lc_stop request) l)
  end.
Proof.
  unfold legacy_to_chat, str_is_empty.
  destruct (bool_decide_reflect (prompt_into_text (lc_prompt request) = "")) as [Hp|Hp]; [auto|].
  destruct (lc_stop request) as [[| | |s|vs|]|] eqn:Es; cbn [legacy_stop read_stop];
    try (by split; [done|right; intros l Hl; inversion Hl]);
    try (split_and!; try done; constructor).
  destruct (mapM value_as_str vs) as [l|] eqn:Em; cbn.
  - apply read_strings in Em as ->. split_and!; try done. constructor.
  - split; [done|]. right. intros l Hl. inversion Hl as [| | |l' Heq]; subst. by rewrite mapM_strings in Em.
Qed.

(** ** Proofs: the admin routes *)

Section Gate.
Context `{TimeText, JsonText, JwtLibrary}.
Context (sha256_hex : string -> string) (uuid_text : Z -> string).
Context (replace_all : Pattern -> string -> string -> string).
Context {Key : Type}.
Context (decode_header : string -> result (option string) string).
Context (key_from_jwk : Jwk -> result Key string).
Context (jwt_decode : string -> Key -> Validation -> Z -> result JwtClaims JwtErrorKind).
Context (kind_message : JwtErrorKind -> string).
Context (required : list string).

Local Abbreviation middleware := (combined_middleware sha256_hex uuid_text replace_all decode_header
  key_from_jwk jwt_decode kind_message required).
Local Abbreviation oidc_validate := (validate_token decode_header key_from_jwk jwt_decode kind_message).

(** The two layers in front of an admin handler (main.rs, [build_router]):
    authentication outside, the scope inside. *)
Definition admin_gate (authorization remote_ip : option string) (k : Clock) (a : CombinedAuth)
    : result AuthContext Reply * CombinedAuth :=
  match middleware authorization remote_ip k a with
  | (Refuse status message, a) =>
      (Err (api_error_reply {| api_status := status; api_message := message |}), a)
  | (Proceed ctx, a) =>
      (match require_admin_scope (Some ctx) with None => Ok ctx | Some reply => Err reply end, a)
  end.

Lemma gate_open authorization remote_ip k a ctx a' :
  admin_gate authorization remote_ip k a = (Ok ctx, a') <->
  middleware authorization remote_ip k a = (Proceed ctx, a') /\ auth_scope ctx = Admin.
Proof.
  unfold admin_gate, require_admin_scope. destruct (middleware _ _ _ _) as [[c|st m] b].
  - case_bool_decide; naive_solver.
  - naive_solver.
Qed.

(** How a token came to be an administrator's. *)
Inductive admin_token (token : string) (k : Clock) (a : CombinedAuth) : Prop :=
  | AdminMaster : am_master_key (ca_api_key a) = Some token -> admin_token token k a
  | AdminByLogin l c :
      ca_admin_login a = Some l -> login_validate kind_message token (ck_seconds k) l = Ok c ->
      admin_token token k a
  | AdminByOidc d c :
      ca_jwt a = Some d -> oidc_validate token (ck_seconds k) d = Ok c ->
      role_any ["admin"; "gateway-admin"] (jwt_roles c) = true \/ "admin" ∈ jwt_scopes c ->
      admin_token token k a
  | AdminByKey key :
      backend_grants sha256_hex uuid_text token (ck_instant k) (am_store (ca_api_key a)) key ->
      "admin" ∈ ak_scopes key -> admin_token token k a.

(** The token of a request that the gate lets through. *)
Lemma admin_gate_token authorization remote_ip k a ctx a' :
  backend_ok (am_store (ca_api_key a)) ->
  ~ (ca_jwt a = None /\ ca_admin_login a = None /\ am_master_key (ca_api_key a) = None) ->
  middleware authorization remote_ip k a = (Proceed ctx, a') -> auth_scope ctx = Admin ->
  exists token, authorization = Some ("Bearer " +:+ token) /\ admin_token token k a.
Proof.
  intros Hok Hconf Hm Hadm.
  apply (middleware_grants sha256_hex uuid_text replace_all decode_header key_from_jwk jwt_decode
           kind_message required) in Hm as (token & -> & Hg); [|done..].
  exists token. split; [done|]. destruct Hg as [|l c|d c Hd Hv|key Hk]; [by apply AdminMaster|
    by eapply AdminByLogin| |].
  - eapply AdminByOidc; [done..|]. revert Hadm. unfold into_auth_context. cbn [auth_scope].
    destruct (role_any ["admin"; "gateway-admin"] _); [by left|].
    case_bool_decide; [by right|]. cbn [orb]. by destruct (_ || _).
  - eapply AdminByKey; [done|]. revert Hadm. unfold key_context. cbn [auth_scope].
    case_bool_decide; [done|]. by case_bool_decide.
Qed.

(** C12: The admin routes. When any way to authenticate is configured, a request reaches an
    admin handler only with a bearer token that is the master key, that the local login
    accepts as its own, that opens as a provider's token with an admin role or scope, or that is the
    secret of an enabled, unexpired key with the admin scope in the key store, in memory,
    SQLite or Postgres, whatever fails on its connection; the index of the in-memory
    store is right, as its operations keep it. *)
Theorem admin_gate_sound authorization remote_ip k a ctx a' :
  backend_ok (am_store (ca_api_key a)) ->
  ~ (ca_jwt a = None /\ ca_admin_login a = None /\ am_master_key (ca_api_key a) = None) ->
  admin_gate authorization remote_ip k a = (Ok ctx, a') ->
  auth_scope ctx = Admin /\
  exists token, authorization = Some ("Bearer " +:+ token) /\ admin_token token k a.
Proof.
  intros Hok Hconf [Hm Hadm]%gate_open. split; [done|]. by eapply admin_gate_token.
Qed.

(** Logging in opens the admin routes. A login with the right credentials answers with a
    token; presented as the bearer token, until thirty seconds after its lifetime, it passes
    the gate as an administrator, whatever else is configured; and nothing is audited. *)
Theorem login_opens_admin to_str l peer headers body k log remote_ip k' a :
  login_verify (dl_username body) (dl_password body) l = true ->
  u64 (ck_seconds k + lg_ttl_secs l) -> ck_seconds k' <= ck_seconds k + lg_ttl_secs l + 30 ->
  ca_admin_login a = Some l ->
  exists issued,
    dev_admin_login to_str replace_all (Some l) peer headers body k log = (Ok issued, log) /\
    (looks_like_jwt (ia_access_token issued) = true ->
     exists ctx, auth_scope ctx = Admin /\
       admin_gate (Some ("Bearer " +:+ ia_access_token issued)) remote_ip k' a = (Ok ctx, a)).
Proof.
  intros Hv Hu Hk Ha. destruct (login_own_token kind_message (ck_seconds k) l Hu) as (issued & Hi & _ & Hown & _).
  exists issued. split; [unfold dev_admin_login; by rewrite Hv, Hi|]. intros Hj.
  exists (into_auth_context (login_claims (ck_seconds k) l)). split; [done|].
  apply gate_open. split; [|done]. unfold combined_middleware. rewrite Ha, andb_false_r, andb_false_l.
  unfold bearer_token. cbn [mbind option_bind]. rewrite (strip_prefix_app "Bearer ").
  unfold login_context. rewrite Ha, Hj. by rewrite Hown.
Qed.

(** A wrong password is refused and audited, with the caller's address and the name given. *)
Theorem failed_login_audited to_str l peer headers body k log :
  login_verify (dl_username body) (dl_password body) l = false ->
  exists ip, resolve_remote_ip to_str peer headers = Some ip /\
  dev_admin_login to_str replace_all (Some l) peer headers body k log =
    (Err {| api_status := 401; api_message := "invalid username or password" |},
     log_auth_failure replace_all (ck_nanos k) (ck_log k) AuditUnauthorized
       "dev admin login: invalid credentials" (Some ip) (Some (dl_username body)) None log).
Proof.
  intros Hv. unfold dev_admin_login. rewrite Hv. cbn [negb].
  assert (exists ip, resolve_remote_ip to_str peer headers = Some ip) as [ip Hip].
  { unfold resolve_remote_ip. destruct (if ip_is_internal peer then _ else _); by eexists. }
  exists ip. by rewrite Hip.
Qed.

End Gate.

(** ** The theorems at concrete inputs *)
Module HttpDemo.
#[local] Existing Instances SqlDemo.time_text RefineDemo.json_text JwtDemo.demo_jwt.

Definition auth : CombinedAuth :=
  {| ca_api_key := {| am_store := Memory key_store_new; am_master_key := Some "mk" |};
     ca_jwt := None; ca_admin_login := Some JwtDemo.login; ca_audit := None |}.

Definition gate (authorization : option string) (k : Clock) (auth : CombinedAuth)
    : result AuthContext Reply * CombinedAuth :=
  admin_gate (Key := unit) (fun s => s) SqlDemo.uuid (fun _ s _ => s)
    (fun _ => Err "") (fun _ => Err "") (fun _ _ _ _ => Err (KOther "")) (fun _ => "") []
    authorization None k auth.

(** A key store on SQLite that holds one key, of an administrator. *)
Definition sqlite_auth : CombinedAuth :=
  {| ca_api_key :=
       {| am_store := Sqlite (sqlite_create (fun s => s) SqlDemo.uuid 1 2 10
            {| ck_name := "ops"; ck_scopes := ["admin"]; ck_expires_at := None; ck_metadata := None;
               ck_org_id := None; ck_team_id := None; ck_user_id := None; ck_models := None;
               ck_rate_limit_override := None; ck_token_budget := None |} (steady [])).2;
          am_master_key := Some "mk" |};
     ca_jwt := None; ca_admin_login := None; ca_audit := None |}.

Definition credentials : DevAdminLoginRequest :=
  {| dl_username := lg_username JwtDemo.login; dl_password := lg_password JwtDemo.login |}.

Definition mistyped : DevAdminLoginRequest :=
  {| dl_username := lg_username JwtDemo.login; dl_password := "admin" |}.

End HttpDemo.

(** A header of one entry, and one whose client made up three addresses. *)
Lemma remote_ip_unspoofable_witness :
  resolve_remote_ip Some (V4 [10; 0; 0; 7]) [("x-forwarded-for", "2001:db8::7")] = Some "2001:db8::7" /\
  resolve_remote_ip Some (V4 [10; 0; 0; 7]) [("x-forwarded-for", "127.0.0.1, 9.9.9.9, 8.8.4.4,10.0.0.1")]
    = Some "8.8.4.4".
Proof.
  split.
  - pose proof (remote_ip_unspoofable Some (V4 [10; 0; 0; 7]) [("x-forwarded-for", "2001:db8::7")]) as Hr.
    change (ip_is_internal (V4 [10; 0; 0; 7])) with true in Hr. cbv iota zeta in Hr. destruct Hr as [Hr _].
    exact (Hr [] "2001:db8::7" [] (V6 [8193; 3512; 0; 0; 0; 0; 0; 7]) ltac:(by repeat constructor)
             ltac:(by split; vm_compute) (Forall_nil_2 _) eq_refl).
  - pose proof (remote_ip_unspoofable Some (V4 [10; 0; 0; 7])
      [("x-forwarded-for", "127.0.0.1, 9.9.9.9, 8.8.4.4,10.0.0.1")]) as Hr.
    change (ip_is_internal (V4 [10; 0; 0; 7])) with true in Hr. cbv iota zeta in Hr. destruct Hr as [Hr _].
    refine (Hr ["127.0.0.1"; " 9.9.9.9"] " 8.8.4.4" ["10.0.0.1"] (V4 [8; 8; 4; 4]) _ _ _ eq_refl).
    + by repeat constructor.
    + by split; vm_compute.
    + constructor; [|constructor]. apply public_ip_None. by vm_compute.
Defined.

(** The master key, and the secret of an admin key on SQLite. *)
Lemma admin_gate_sound_witness :
  (exists token, Some "Bearer mk" = Some ("Bearer " +:+ token)) /\
  exists ctx a', HttpDemo.gate (Some ("Bearer " +:+ AccessDemo.secret)) AccessDemo.clock HttpDemo.sqlite_auth =
    (Ok ctx, a') /\ auth_scope ctx = Admin.
Proof.
  pose proof (fun h a => @admin_gate_sound SqlDemo.time_text RefineDemo.json_text JwtDemo.demo_jwt (fun s => s)
           SqlDemo.uuid (fun _ s _ => s) unit (fun _ => Err "") (fun _ => Err "")
           (fun _ _ _ _ => Err (KOther "")) (fun _ => "") [] h None AccessDemo.clock a) as Hsound.
  split.
  - destruct (Hsound (Some "Bearer mk") HttpDemo.auth master_context HttpDemo.auth) as (_ & token & Ht & _).
    + exact store_new_ok.
    + intros [_ [_ Hn]]. discriminate.
    + reflexivity.
    + by exists token.
  - destruct (HttpDemo.gate (Some ("Bearer " +:+ AccessDemo.secret)) AccessDemo.clock HttpDemo.sqlite_auth)
      as [[ctx|reply] a'] eqn:E; [|by vm_compute in E].
    exists ctx, a'. split; [done|].
    destruct (Hsound (Some ("Bearer " +:+ AccessDemo.secret)) HttpDemo.sqlite_auth ctx a') as [Hadm _].
    + exact I.
    + intros [_ [_ Hn]]. discriminate.
    + exact E.
    + exact Hadm.
Defined.

Lemma login_opens_admin_witness :
  exists issued,
    dev_admin_login (H := JwtDemo.demo_jwt) Some (fun _ s _ => s) (Some JwtDemo.login) (V4 [9; 9; 9; 9]) []
      HttpDemo.credentials AccessDemo.clock (audit_new true) = (Ok issued, audit_new true).
Proof.
  destruct (@login_opens_admin SqlDemo.time_text RefineDemo.json_text JwtDemo.demo_jwt (fun s => s)
           SqlDemo.uuid (fun _ s _ => s) unit (fun _ => Err "") (fun _ => Err "")
           (fun _ _ _ _ => Err (KOther "")) (fun _ => "") [] Some JwtDemo.login (V4 [9; 9; 9; 9]) []
           HttpDemo.credentials AccessDemo.clock (audit_new true) None AccessDemo.clock HttpDemo.auth)
    as (issued & Hi & _); [reflexivity| | |reflexivity|by exists issued].
  - split; vm_compute; discriminate.
  - vm_compute. discriminate.
Defined.

Lemma empty_metrics_token_opens_witness :
  rp_status (metrics_handler (fun v => if decide (v = "METRICS_TOKEN") then Some "" else None)
               (Some "mk") None "tokens 1") = 200.
Proof.
  rewrite (empty_metrics_token_opens (fun v => if decide (v = "METRICS_TOKEN") then Some "" else None)
             "mk" None "tokens 1"); reflexivity.
Defined.

Lemma failed_login_audited_witness :
  exists ip, resolve_remote_ip Some (V4 [9; 9; 9; 9]) [] = Some ip /\
  dev_admin_login (H := JwtDemo.demo_jwt) Some (fun _ s _ => s) (Some JwtDemo.login) (V4 [9; 9; 9; 9]) []
      HttpDemo.mistyped AccessDemo.clock (audit_new true) =
    (Err {| api_status := 401; api_message := "invalid username or password" |},
     log_auth_failure (fun _ s _ => s) (ck_nanos AccessDemo.clock) (ck_log AccessDemo.clock)
       AuditUnauthorized "dev admin login: invalid credentials" (Some ip)
       (Some (dl_username HttpDemo.mistyped)) None (audit_new true)).
Proof.
  refine (@failed_login_audited JwtDemo.demo_jwt (fun _ s _ => s) Some JwtDemo.login (V4 [9; 9; 9; 9]) []
    HttpDemo.mistyped AccessDemo.clock (audit_new true) _).
  vm_compute. reflexivity.
Defined.
