(* ===== verification/Proxy.v ===== *)
(** * The passthrough proxy
    (src/crates/himadri/src/gateway/proxy.rs, and passthrough of handlers.rs)

    A request that no handler matches is forwarded to the first target and its
    answer streamed back. The method's grammar and the HTTP client are arguments;
    a response's body is opaque. *)

From S2P Require Import Prelude Str Float Types Json Errors Config RateLimiter Strategy Plugin Usage Auditing Provider Failover Gateway Access Http.
From Stdlib Require Import Ascii.

(** What is sent to the target. *)
Record Upstream := {
  up_method : string; up_url : string; up_headers : Headers; up_body : string;
}.

(** A response as the client library gives it, and as it is passed on. *)
Record Fetched := { ft_status : Z; ft_headers : Headers; ft_body : string }.

Inductive Passed :=
  | PassedOn (status : Z) (headers : gmap string string) (body : string)
  | PassedError (r : Reply).

Definition MAX_PROXY_BODY_BYTES : Z := 10 * 1024 * 1024.

Definition default_base_url (provider_name : string) : string :=
  if decide (provider_name = "openai") then "https://api.openai.com/v1"
  else if decide (provider_name = "anthropic") then "https://api.anthropic.com"
  else if decide (provider_name = "gemini") then "https://generativelanguage.googleapis.com"
  else "https://api.openai.com/v1".

Definition request_header_kept (h : string * string) : bool :=
  negb (bool_decide (h.1 ∈ ["authorization"; "host"; "content-length"])).

Definition response_header_kept (h : string * string) : bool :=
  negb (bool_decide (h.1 ∈ ["transfer-encoding"; "connection"])).

(** The target's own credential. *)
Definition key_header (api_key : string) : Headers :=
  if str_is_empty api_key then [] else [("authorization", "Bearer " +:+ api_key)].

(** [resp_headers.insert(name, val)]: the value replaces an earlier one. *)
Definition response_headers (headers : Headers) : gmap string string :=
  foldl (fun m h => <[h.1 := h.2]> m) ∅ (List.filter response_header_kept headers).

Section Proxy.
Context {W S B RL R Regex : Type}.
Context (env : string -> option string).
Context (parse_method : string -> option string).
Context (send : Upstream -> W -> result Fetched string * W).

Abbreviation gateway := (Gateway W S B RL R Regex).

Definition proxy_request (method path : string) (headers : Headers) (body : string) (g : gateway)
    : result Upstream GatewayError :=
  match gw_targets g with
  | [] => Err (Internal "No targets configured for proxy")
  | target :: _ =>
      match gw_providers g !! routing_key target with
      | None => Err (ProviderNotFound (target_provider target))
      | Some provider =>
          let base_url := default (default_base_url (prov_name provider)) (target_base_url target) in
          let? api_key := gateway_api_key env g target in
          let url := trim_end_slash base_url +:+ path in
          match parse_method method with
          | None => Err (BadRequest ("Invalid method: " +:+ method))
          | Some m =>
              Ok {| up_method := m; up_url := url;
                    up_headers :=
                      (List.filter request_header_kept headers ++ key_header api_key)%list;
                    up_body := body |}
          end
      end
  end.

Definition proxy (method path : string) (headers : Headers) (body : string) (g : gateway) (w : W)
    : result (Z * gmap string string * string) GatewayError * W :=
  match proxy_request method path headers body g with
  | Err e => (Err e, w)
  | Ok request =>
      match send request w with
      | (Err e, w) => (Err (ProviderFailure ("Proxy request failed: " +:+ e)), w)
      | (Ok f, w) => (Ok (ft_status f, response_headers (ft_headers f), ft_body f), w)
      end
  end.

(** The caller's body, [None] when it cannot be read to its end. The principal is
    not used. *)
Definition passthrough (method path : string) (headers : Headers) (body : option string)
    (g : gateway) (w : W) : Passed * W :=
  match body with
  | Some bytes =>
      if Z.of_nat (String.length bytes) <=? MAX_PROXY_BODY_BYTES then
        match proxy method path headers bytes g w with
        | (Ok (status, headers, body), w) => (PassedOn status headers body, w)
        | (Err e, w) => (PassedError (error_to_response e), w)
        end
      else (PassedError {| rp_status := 413; rp_retry_after := None;
                           rp_body := BodyText "request body exceeds maximum allowed size" |}, w)
  | None =>
      (PassedError {| rp_status := 413; rp_retry_after := None;
                      rp_body := BodyText "request body exceeds maximum allowed size" |}, w)
  end.

(** ** Properties *)

Definition header_values (name : string) (headers : Headers) : list string :=
  snd <$> List.filter (fun h => bool_decide (h.1 = name)) headers.

Lemma header_values_app name l l' :
  header_values name (l ++ l')%list = (header_values name l ++ header_values name l')%list.
Proof. unfold header_values. by rewrite List.filter_app, fmap_app. Qed.

Lemma header_values_kept name headers :
  header_values name (List.filter request_header_kept headers) =
  if bool_decide (name ∈ ["authorization"; "host"; "content-length"]) then []
  else header_values name headers.
Proof.
  unfold header_values. induction headers as [|[n v] headers IH]; cbn [List.filter].
  { by case_bool_decide. }
  unfold request_header_kept at 1. cbn [fst].
  destruct (bool_decide_reflect (n ∈ ["authorization"; "host"; "content-length"])) as [Hn|Hn]; cbn [negb].
  - rewrite IH. destruct (bool_decide_reflect (n = name)) as [->|Hne]; [|done].
    by rewrite bool_decide_true.
  - cbn [List.filter fst]. destruct (bool_decide_reflect (n = name)) as [->|Hne]; [|done].
    rewrite !fmap_cons, IH. by rewrite (bool_decide_false (name ∈ _)).
Qed.

Lemma header_values_key name api_key :
  header_values name (key_header api_key) =
  if bool_decide (name = "authorization")
  then if str_is_empty api_key then [] else ["Bearer " +:+ api_key] else [].
Proof.
  unfold key_header. destruct (str_is_empty api_key); [by case_bool_decide|].
  unfold header_values. cbn [List.filter fst].
  destruct (bool_decide_reflect (name = "authorization")) as [->|Hne].
  - by rewrite bool_decide_true.
  - by rewrite bool_decide_false.
Qed.

(** Whose credentials the target sees. Whatever is sent goes to the first target, with no
    [Authorization] but the bearer of its own key, and with none if that key is empty;
    [Host] and [Content-Length] are not the caller's; every other header is, with all its
    values in order; and the body is the caller's. *)
Theorem proxy_credentials method path headers body (g : gateway) u :
  proxy_request method path headers body g = Ok u ->
  exists target targets api_key, gw_targets g = target :: targets /\
    gateway_api_key env g target = Ok api_key /\ up_body u = body /\
    forall name, header_values name (up_headers u) =
      if bool_decide (name = "authorization")
      then if str_is_empty api_key then [] else ["Bearer " +:+ api_key]
      else if bool_decide (name ∈ ["host"; "content-length"]) then []
      else header_values name headers.
Proof.
  unfold proxy_request. destruct (gw_targets g) as [|target targets]; [done|].
  destruct (gw_providers g !! _) as [p|]; [|done].
  destruct (gateway_api_key env g target) as [api_key|e] eqn:Ek; [|done].
  destruct (parse_method method); [|done]. intros [= <-]. exists target, targets, api_key.
  split_and!; try done. intros name. cbn [up_headers].
  rewrite header_values_app, header_values_kept, header_values_key.
  destruct (bool_decide_reflect (name = "authorization")) as [->|Hne].
  - by rewrite bool_decide_true by (by left).
  - rewrite app_nil_r. destruct (bool_decide_reflect (name ∈ ["host"; "content-length"])) as [Hin|Hnin].
    + by rewrite bool_decide_true by (by right).
    + rewrite bool_decide_false; [done|]. by intros [?|?]%elem_of_cons.
Qed.

(** A body over the limit reaches nobody. *)
Theorem passthrough_bounded method path headers body (g : gateway) w :
  MAX_PROXY_BODY_BYTES < Z.of_nat (String.length body) ->
  exists r, passthrough method path headers (Some body) g w = (PassedError r, w) /\ rp_status r = 413.
Proof.
  intros Hl. unfold passthrough. rewrite (proj2 (Z.leb_gt _ _)) by done. by eexists.
Qed.

(** The passthrough answers from the targets, the clients and their keys alone:
    whatever the configuration's roles, limits and guardrails, the plugins and the rate
    limiter say, and it records nothing. *)
Theorem passthrough_unpoliced method path headers body (g g' : gateway) w :
  gw_targets g = gw_targets g' -> gw_providers g = gw_providers g' ->
  gw_provider_keys g = gw_provider_keys g' ->
  passthrough method path headers body g w = passthrough method path headers body g' w.
Proof.
  intros Ht Hp Hk. unfold passthrough, proxy, proxy_request, gateway_api_key. by rewrite Ht, Hp, Hk.
Qed.

(** A target of OpenAI without a URL of its own has a base that ends in [/v1], and so does
    the path of every forwarded request start: the request goes to [/v1/v1/...]. *)
Theorem proxy_doubles_version method rest headers body (g : gateway) target targets p u :
  gw_targets g = target :: targets -> target_base_url target = None ->
  gw_providers g !! routing_key target = Some p -> prov_name p = "openai" ->
  proxy_request method ("/v1/" +:+ rest) headers body g = Ok u ->
  up_url u = "https://api.openai.com/v1/v1/" +:+ rest.
Proof.
  intros Ht Hb Hp Hn. unfold proxy_request. rewrite Ht, Hp, Hb, Hn.
  destruct (gateway_api_key env g target); [|done].
  destruct (parse_method method); [|done]. by intros [= <-].
Qed.

End Proxy.

(** Of the values of a repeated header of the answer, such as [Set-Cookie], the client gets the last. *)
Theorem proxy_keeps_last_value before after name v w :
  response_header_kept (name, v) = true -> (forall h, h ∈ after -> h.1 <> name) ->
  response_headers (before ++ [(name, v); (name, w)] ++ after)%list !! name = Some w.
Proof.
  intros Hk Ha. assert (response_header_kept (name, w) = true) as Hk' by done.
  unfold response_headers. rewrite !List.filter_app. cbn [List.filter]. rewrite Hk, Hk'.
  rewrite !foldl_app. cbn [foldl]. generalize (<[name := v]> (foldl (fun m h => <[h.1:=h.2]> m) (∅ : gmap string string)
    (List.filter response_header_kept before))) as m. intros m. cbn [fst snd].
  assert (forall l (m : gmap string string), (forall h, h ∈ l -> h.1 <> name) ->
    foldl (fun m h => <[h.1 := h.2]> m) m l !! name = m !! name) as Hl.
  { clear. induction l as [|h l IH]; intros m Hm; cbn; [done|].
    rewrite IH by (intros h' Hh'; apply Hm; by right). rewrite lookup_insert_ne; [done|].
    apply Hm. by left. }
  rewrite Hl; [by rewrite lookup_insert_eq|].
  intros h Hh. apply Ha. apply list_elem_of_In in Hh. apply filter_In in Hh as [Hh _].
  by apply list_elem_of_In.
Qed.

(** ** The theorems at concrete inputs *)
Module ProxyDemo.

Definition client : Provider unit unit :=
  {| prov_name := "openai"; prov_display_name := "OpenAI"; prov_supported_models := [];
     prov_complete := fun _ _ w => (Err (PRateLimited 60), w);
     prov_complete_stream := fun _ _ w => (Ok tt, w); prov_embed := default_embed "openai" |}.

(** A gateway with one target, whose key is in the table. *)
Definition gateway : demo_gateway :=
  let g := register_provider client demo_gateway_new in
  with_routing (gw_config g) (gw_providers g) (gw_strategy g) (gw_circuit_breakers g) (gw_targets g)
    {[ "openai" := "sk-target" ]} (gw_rate_limiter g) (gw_config_history g) g.

Definition request : result Upstream GatewayError :=
  proxy_request (fun _ => None) Some "POST" "/v1/files"
    [("authorization", "Bearer caller"); ("accept", "*/*"); ("host", "gw")] "{}" gateway.

Definition sent : Upstream :=
  {| up_method := "POST"; up_url := "https://api.openai.com/v1/v1/files";
     up_headers := [("accept", "*/*"); ("authorization", "Bearer sk-target")]; up_body := "{}" |}.

End ProxyDemo.

Lemma proxy_credentials_witness :
  ProxyDemo.request = Ok ProxyDemo.sent /\
  exists api_key, header_values "authorization" (up_headers ProxyDemo.sent) =
    if str_is_empty api_key then [] else ["Bearer " +:+ api_key].
Proof.
  assert (ProxyDemo.request = Ok ProxyDemo.sent) as Hr by (vm_compute; reflexivity). split; [exact Hr|].
  destruct (proxy_credentials (fun _ => None) Some _ _ _ _ _ _ Hr) as (t & ts & key & _ & _ & _ & Hn).
  exists key. exact (Hn "authorization").
Defined.

Lemma proxy_doubles_version_witness : up_url ProxyDemo.sent = "https://api.openai.com/v1/v1/files".
Proof.
  assert (ProxyDemo.request = Ok ProxyDemo.sent) as Hr by (vm_compute; reflexivity).
  exact (proxy_doubles_version (fun _ => None) Some "POST" "files" _ _ ProxyDemo.gateway
           _ _ ProxyDemo.client _ eq_refl eq_refl eq_refl eq_refl Hr).
Defined.

Lemma proxy_keeps_last_value_witness :
  response_headers [("set-cookie", "a=1"); ("set-cookie", "b=2")] !! "set-cookie" = Some "b=2".
Proof.
  apply (proxy_keeps_last_value [] [] "set-cookie" "a=1" "b=2"); [reflexivity|].
  intros h Hh. by apply not_elem_of_nil in Hh.
Defined.
