(* ===== verification/Router.v ===== *)
(** * The routes
    (src/crates/himadri/src/main.rs, [build_router])

    Which handler answers a method on a path, and behind which layers. The table lists
    the routes in the source's order, each with its [Gate]: none for the public routes,
    authentication for the API, authentication and then the admin scope for the admin
    API. [dispatch_request] matches a path as axum does: a literal segment is itself, a parameter
    is any segment that is not empty, [GET] also answers [HEAD], a path without a route
    falls through to the passthrough, and a route without the method refuses it. The
    CORS layer is assembled from the configuration. *)

From Stdlib Require Import Ascii.
From S2P Require Import Prelude Str Config Types KeyStore KeySql Sql Jwt KeyRefine Auditing Access Http.

(** ** The table *)

Inductive Endpoint :=
  | EHealth | EMetrics | EListModels | ELogin
  | EChatCompletions | ECompletions | EEmbeddings | EPassthrough
  | EListKeys | ECreateKey | EGetKey | EUpdateKey | EDeleteKey | ERevokeKey | ERotateKey
  | EListModelsApi | ECreateModel | EGetModel | EUpdateModel | EDeleteModel | EToggleModel
  | EListAllModelEndpoints | EListModelEndpoints | ECreateModelEndpoint
  | EGetModelEndpoint | EUpdateModelEndpoint | EDeleteModelEndpoint | EToggleModelEndpoint
  | EKnownProviders | EDashboard | EUsageStats | EKeyUsageStats
  | EGetConfig | EUpdateConfig | EConfigHistory | EConfigRollback
  | EListLogs | EDeleteLogs | EReloadConfig.

#[export] Instance Endpoint_eq_dec : EqDecision Endpoint.
Proof. solve_decision. Defined.

Inductive Method := GET | HEAD | POST | PUT | DELETE | OtherMethod (name : string).

#[export] Instance Method_eq_dec : EqDecision Method.
Proof. solve_decision. Defined.

(** The layers in front of a route. *)
Inductive Gate := Public | Authenticated | AdminOnly.

#[export] Instance Gate_eq_dec : EqDecision Gate.
Proof. solve_decision. Defined.

(** A segment of a pattern: itself, or [{name}]. *)
Inductive Segment := Lit (s : string) | Capture (name : string).

Record RouteEntry := {
  rt_method : Method;
  rt_path : list Segment;
  rt_endpoint : Endpoint;
}.

Definition route_at (m : Method) (path : list Segment) (e : Endpoint) : RouteEntry :=
  {| rt_method := m; rt_path := path; rt_endpoint := e |}.

Definition public_routes : list RouteEntry :=
  [route_at GET [Lit "health"] EHealth;
   route_at GET [Lit "metrics"] EMetrics;
   route_at GET [Lit "v1"; Lit "models"] EListModels;
   route_at POST [Lit "auth"; Lit "admin"; Lit "login"] ELogin].

Definition api_routes : list RouteEntry :=
  [route_at POST [Lit "v1"; Lit "chat"; Lit "completions"] EChatCompletions;
   route_at POST [Lit "v1"; Lit "completions"] ECompletions;
   route_at POST [Lit "v1"; Lit "embeddings"] EEmbeddings].

Definition under_admin (m : Method) (path : list Segment) (e : Endpoint) : RouteEntry :=
  route_at m (Lit "admin" :: path) e.

Definition admin_routes : list RouteEntry :=
  [under_admin GET [Lit "keys"] EListKeys;
   under_admin POST [Lit "keys"] ECreateKey;
   under_admin GET [Lit "keys"; Capture "id"] EGetKey;
   under_admin PUT [Lit "keys"; Capture "id"] EUpdateKey;
   under_admin DELETE [Lit "keys"; Capture "id"] EDeleteKey;
   under_admin POST [Lit "keys"; Capture "id"; Lit "revoke"] ERevokeKey;
   under_admin POST [Lit "keys"; Capture "id"; Lit "rotate"] ERotateKey;
   under_admin GET [Lit "models"] EListModelsApi;
   under_admin POST [Lit "models"] ECreateModel;
   under_admin GET [Lit "models"; Capture "id"] EGetModel;
   under_admin PUT [Lit "models"; Capture "id"] EUpdateModel;
   under_admin DELETE [Lit "models"; Capture "id"] EDeleteModel;
   under_admin POST [Lit "models"; Capture "id"; Lit "toggle"] EToggleModel;
   under_admin GET [Lit "endpoints"] EListAllModelEndpoints;
   under_admin GET [Lit "models"; Capture "id"; Lit "endpoints"] EListModelEndpoints;
   under_admin POST [Lit "models"; Capture "id"; Lit "endpoints"] ECreateModelEndpoint;
   under_admin GET [Lit "endpoints"; Capture "id"] EGetModelEndpoint;
   under_admin PUT [Lit "endpoints"; Capture "id"] EUpdateModelEndpoint;
   under_admin DELETE [Lit "endpoints"; Capture "id"] EDeleteModelEndpoint;
   under_admin POST [Lit "endpoints"; Capture "id"; Lit "toggle"] EToggleModelEndpoint;
   under_admin GET [Lit "known-providers"] EKnownProviders;
   under_admin GET [Lit "dashboard"] EDashboard;
   under_admin GET [Lit "usage"] EUsageStats;
   under_admin GET [Lit "usage"; Capture "key_id"] EKeyUsageStats;
   under_admin GET [Lit "config"] EGetConfig;
   under_admin PUT [Lit "config"] EUpdateConfig;
   under_admin GET [Lit "config"; Lit "history"] EConfigHistory;
   under_admin POST [Lit "config"; Lit "rollback"; Capture "version"] EConfigRollback;
   under_admin GET [Lit "logs"] EListLogs;
   under_admin DELETE [Lit "logs"] EDeleteLogs;
   under_admin POST [Lit "reload"] EReloadConfig].

(** The merged router: every route with the layers of the router it came from. *)
Definition routes : list (Gate * RouteEntry) :=
  ((pair Public <$> public_routes) ++ (pair Authenticated <$> api_routes) ++
   (pair AdminOnly <$> admin_routes))%list.

(** ** Matching *)

Definition segment_matches (p : Segment) (s : string) : bool :=
  match p with
  | Lit l => bool_decide (l = s)
  | Capture _ => negb (str_is_empty s)
  end.

Fixpoint path_matches (pattern : list Segment) (segments : list string) : bool :=
  match pattern, segments with
  | [], [] => true
  | p :: pattern, s :: segments => segment_matches p s && path_matches pattern segments
  | _, _ => false
  end.

(** The segments after the leading slash. *)
Definition path_segments (path : string) : list string :=
  match split_on (is_char "/"%char) path with
  | _ :: segments => segments
  | [] => []
  end.

Definition method_matches (route request : Method) : bool :=
  bool_decide (request = route) || bool_decide (request = HEAD) && bool_decide (route = GET).

Inductive Dispatch :=
  | Matched (gate : Gate) (e : Endpoint)
  | MethodNotAllowed (gate : Gate).

Definition dispatch_request (m : Method) (path : string) : Dispatch :=
  let segments := path_segments path in
  match List.filter (fun r => path_matches (rt_path r.2) segments) routes with
  | [] => Matched Authenticated EPassthrough
  | (gate, r) :: rest =>
      match find (fun r => method_matches (rt_method r.2) m) ((gate, r) :: rest) with
      | Some (gate, r) => Matched gate (rt_endpoint r)
      | None => MethodNotAllowed gate
      end
  end.

(** ** What the table guarantees *)

(** The endpoints anyone may call. *)
Definition open_endpoints : list Endpoint := [EHealth; EMetrics; EListModels; ELogin].

(** The endpoints an API principal may call. *)
Definition api_endpoints : list Endpoint := [EChatCompletions; ECompletions; EEmbeddings; EPassthrough].

(** The gate an endpoint belongs behind. *)
Definition gate_of (e : Endpoint) : Gate :=
  if decide (e ∈ open_endpoints) then Public
  else if decide (e ∈ api_endpoints) then Authenticated
  else AdminOnly.

Lemma routes_gated gate r : (gate, r) ∈ routes -> gate = gate_of (rt_endpoint r).
Proof.
  assert (forallb (fun r => bool_decide (r.1 = gate_of (rt_endpoint r.2))) routes = true) as Hr by (by vm_compute).
  rewrite forallb_forall in Hr. intros Hin. specialize (Hr (gate, r)). rewrite bool_decide_eq_true in Hr.
  by apply Hr, list_elem_of_In.
Qed.

Lemma dispatch_route m path gate e : dispatch_request m path = Matched gate e ->
  (gate = Authenticated /\ e = EPassthrough) \/
  exists r, (gate, r) ∈ routes /\ e = rt_endpoint r /\ path_matches (rt_path r) (path_segments path) = true.
Proof.
  unfold dispatch_request. destruct (List.filter _ routes) as [|[g r] rest] eqn:Ef; [intros [= <- <-]; by left|].
  destruct (find _ _) as [[g' r']|] eqn:Efind; [|done]. intros [= <- <-]. right. exists r'.
  apply find_some in Efind as [Hin _]. rewrite <- Ef in Hin. apply filter_In in Hin as [Hin Hp].
  by apply list_elem_of_In in Hin.
Qed.

(** Who may reach what. Of everything a request can be routed to, only the health
    check, the metrics, the model list and the login answer without authentication; the
    completions, the embeddings and the passthrough need an authenticated caller; and
    every other handler, all of the admin API, is reached only through the admin gate. *)
Theorem dispatch_gated m path gate e : dispatch_request m path = Matched gate e ->
  gate = if decide (e ∈ open_endpoints) then Public
         else if decide (e ∈ api_endpoints) then Authenticated
         else AdminOnly.
Proof. intros [[-> ->]|(r & Hin & -> & _)]%dispatch_route; [done|]. by apply routes_gated. Qed.

(** Two patterns some path could match. *)
Fixpoint overlap (p q : list Segment) : bool :=
  match p, q with
  | [], [] => true
  | Lit a :: p, Lit b :: q => bool_decide (a = b) && overlap p q
  | _ :: p, _ :: q => overlap p q
  | _, _ => false
  end.

Lemma matched_overlap p q segments :
  path_matches p segments = true -> path_matches q segments = true -> overlap p q = true.
Proof.
  revert q segments. induction p as [|a p IH]; intros [|b q] [|s segments]; try done. cbn.
  intros [Ha Hp]%andb_true_iff [Hb Hq]%andb_true_iff. specialize (IH _ _ Hp Hq).
  destruct a as [a|], b as [b|]; try done. cbn in Ha, Hb.
  apply bool_decide_eq_true in Ha, Hb. subst. by rewrite bool_decide_true.
Qed.

Lemma routes_apart :
  forallb (fun x => forallb (fun y =>
      bool_decide (x.1 = y.1) || negb (overlap (rt_path x.2.2) (rt_path y.2.2)) ||
      negb (bool_decide (rt_method x.2.2 = rt_method y.2.2))) (imap pair routes)) (imap pair routes) = true.
Proof. by vm_compute. Qed.

Lemma no_head_route i a : routes !! i = Some a -> rt_method a.2 <> HEAD.
Proof.
  intros Ha%list_elem_of_lookup_2%list_elem_of_In. revert a Ha.
  assert (forallb (fun r => negb (bool_decide (rt_method r.2 = HEAD))) routes = true) as Hr by (by vm_compute).
  rewrite forallb_forall in Hr. intros a Ha. by apply Hr, negb_true_iff, bool_decide_eq_false in Ha.
Qed.

(** At most one route answers a request: no answer depends on the order of the table. *)
Theorem one_route m path i j a b :
  routes !! i = Some a -> routes !! j = Some b ->
  path_matches (rt_path a.2) (path_segments path) = true -> method_matches (rt_method a.2) m = true ->
  path_matches (rt_path b.2) (path_segments path) = true -> method_matches (rt_method b.2) m = true ->
  i = j.
Proof.
  intros Ha Hb Hpa Hma Hpb Hmb. pose proof (matched_overlap _ _ _ Hpa Hpb) as Ho.
  assert (rt_method a.2 = rt_method b.2) as Hm.
  { pose proof (no_head_route _ _ Ha). pose proof (no_head_route _ _ Hb).
    unfold method_matches in *. repeat case_bool_decide; cbn in *; congruence. }
  pose proof routes_apart as Hr. rewrite forallb_forall in Hr.
  assert (forall k x, routes !! k = Some x -> In (k, x) (imap pair routes)) as Hin.
  { intros k x Hk. apply list_elem_of_In, list_elem_of_lookup. exists k. by rewrite list_lookup_imap, Hk. }
  specialize (Hr _ (Hin i a Ha)). rewrite forallb_forall in Hr.
  specialize (Hr _ (Hin j b Hb)). cbn [fst snd] in Hr.
  rewrite Ho, Hm, (bool_decide_true (rt_method b.2 = rt_method b.2)) in Hr by done.
  rewrite !orb_false_r in Hr. by apply bool_decide_eq_true in Hr.
Qed.

(** The passthrough catches every path the table does not name, in the admin API as
    elsewhere: a mistyped admin path of an authenticated caller goes to the provider. *)
Theorem unknown_paths_pass m path :
  (forall r, r ∈ routes -> path_matches (rt_path r.2) (path_segments path) = false) ->
  dispatch_request m path = Matched Authenticated EPassthrough.
Proof.
  intros Hn. unfold dispatch_request. destruct (List.filter _ routes) as [|r rest] eqn:E; [done|].
  assert (In r (List.filter (fun r => path_matches (rt_path r.2) (path_segments path)) routes)) as H
    by (rewrite E; by left).
  apply filter_In in H as [Hin Hp]. rewrite Hn in Hp; [done|]. by apply list_elem_of_In.
Qed.

Example mistyped_admin_path : dispatch_request GET "/admin/key" = Matched Authenticated EPassthrough.
Proof. by vm_compute. Qed.
Example admin_head : dispatch_request HEAD "/admin/keys" = Matched AdminOnly EListKeys.
Proof. by vm_compute. Qed.
Example admin_method : dispatch_request PUT "/admin/keys" = MethodNotAllowed AdminOnly.
Proof. by vm_compute. Qed.

(** ** A request at the gates *)
Section Guarded.
Context `{TimeText, JsonText, JwtLibrary}.
Context (sha256_hex : string -> string) (uuid_text : Z -> string).
Context (replace_all : Pattern -> string -> string -> string).
Context {Key : Type}.
Context (decode_header : string -> result (option string) string).
Context (key_from_jwk : Jwk -> result Key string).
Context (jwt_decode : string -> Key -> Validation -> Z -> result JwtClaims JwtErrorKind).
Context (kind_message : JwtErrorKind -> string).
Context (required : list string).

(** The layers of a gate: the context the handler runs in, or the answer instead. *)
Definition enter (gate : Gate) (authorization remote_ip : option string) (k : Clock) (a : CombinedAuth)
    : result (option AuthContext) Reply * CombinedAuth :=
  match gate with
  | Public => (Ok None, a)
  | Authenticated =>
      match combined_middleware sha256_hex uuid_text replace_all decode_header key_from_jwk jwt_decode
              kind_message required authorization remote_ip k a with
      | (Proceed ctx, a) => (Ok (Some ctx), a)
      | (Refuse status message, a) =>
          (Err (api_error_reply {| api_status := status; api_message := message |}), a)
      end
  | AdminOnly =>
      let '(r, a) := admin_gate sha256_hex uuid_text replace_all decode_header key_from_jwk jwt_decode
                       kind_message required authorization remote_ip k a in
      (match r with Ok ctx => Ok (Some ctx) | Err reply => Err reply end, a)
  end.

(** The surface without credentials. When any way to authenticate is configured, a
    request without a bearer token gets past the layers of the health check, the
    metrics, the model list and the login alone: every other request, whatever its
    method and path, known or not, is answered by the layers. *)
Theorem anonymous_surface m path gate e remote_ip k a c a' :
  ~ (ca_jwt a = None /\ ca_admin_login a = None /\ am_master_key (ca_api_key a) = None) ->
  dispatch_request m path = Matched gate e -> enter gate None remote_ip k a = (Ok c, a') ->
  e ∈ open_endpoints /\ c = None.
Proof.
  intros Hconf Hd He.
  assert (forall ctx a1, combined_middleware sha256_hex uuid_text replace_all decode_header key_from_jwk
    jwt_decode kind_message required None remote_ip k a <> (Proceed ctx, a1)) as Hno.
  { intros ctx a1. unfold combined_middleware, is_bypass.
    destruct (ca_jwt a), (ca_admin_login a), (am_master_key (ca_api_key a)); cbn; try done.
    exfalso. by apply Hconf. }
  assert (gate = Public) as ->.
  { destruct gate; [done| |]; exfalso; unfold enter in He.
    - destruct (combined_middleware _ _ _ _ _ _ _ _ _ _ _ _) as [[ctx|] a1] eqn:Ec; [by eapply Hno|done].
    - destruct (admin_gate _ _ _ _ _ _ _ _ _ _ _ _) as [[ctx|] a1] eqn:Eg; [|done].
      apply gate_open in Eg as [Ec _]. by eapply Hno. }
  injection He as <- _. split; [|done].
  apply dispatch_route in Hd as [[? _]|(r & Hin & -> & _)]; [done|].
  apply routes_gated in Hin. unfold gate_of in Hin. by repeat case_decide.
Qed.
End Guarded.

(** ** CORS *)

Inductive AllowOrigin := AnyOrigin | ExactOrigin (v : string).

Record CorsLayer := {
  cors_origin : option AllowOrigin;
  cors_methods : list string;
  cors_headers : list string;
}.

Definition cors_new : CorsLayer := {| cors_origin := None; cors_methods := []; cors_headers := [] |}.

(** [CorsLayer::allow_origin]: the one origin of the layer. *)
Definition allow_origin (o : AllowOrigin) (c : CorsLayer) : CorsLayer :=
  {| cors_origin := Some o; cors_methods := cors_methods c; cors_headers := cors_headers c |}.

Section Cors.
(** The parsers of a header value, a method and a header name. *)
Context (parse_value parse_method parse_name : string -> option string).

Definition add_origin (c : CorsLayer) (origin : string) : CorsLayer :=
  match parse_value origin with Some url => allow_origin (ExactOrigin url) c | None => c end.

Definition cors_layer (config : CorsConfig) : CorsLayer :=
  if cors_enabled config then
    let c := match cors_allowed_origins config with
             | [] => allow_origin AnyOrigin cors_new
             | origins => foldl add_origin cors_new origins
             end in
    {| cors_origin := cors_origin c; cors_methods := omap parse_method (cors_allowed_methods config);
       cors_headers := omap parse_name (cors_allowed_headers config) |}
  else cors_new.

(** Of several origins configured, the layer allows the last alone: each one given to
    it replaces the one before. *)
Theorem cors_last_origin_only config origins last url :
  cors_enabled config = true -> cors_allowed_origins config = (origins ++ [last])%list ->
  parse_value last = Some url ->
  cors_origin (cors_layer config) = Some (ExactOrigin url).
Proof.
  intros He Ho Hp. unfold cors_layer. rewrite He, Ho. destruct (origins ++ [last])%list as [|o os] eqn:E.
  { by destruct origins. }
  rewrite <- E, foldl_app. cbn. unfold add_origin at 1. by rewrite Hp.
Qed.
End Cors.

(** ** The theorems at concrete requests *)

Lemma dispatch_gated_witness :
  dispatch_request GET "/admin/usage/k1" = Matched AdminOnly EKeyUsageStats /\
  AdminOnly = (if decide (EKeyUsageStats ∈ open_endpoints) then Public
               else if decide (EKeyUsageStats ∈ api_endpoints) then Authenticated else AdminOnly).
Proof. split; [by vm_compute|]. by apply (dispatch_gated GET "/admin/usage/k1"). Defined.

#[local] Existing Instances SqlDemo.time_text RefineDemo.json_text JwtDemo.demo_jwt.

Lemma anonymous_surface_witness :
  dispatch_request POST "/auth/admin/login" = Matched Public ELogin /\ ELogin ∈ open_endpoints.
Proof.
  split; [by vm_compute|].
  apply (anonymous_surface (Key := unit) (fun s => s) SqlDemo.uuid (fun _ s _ => s)
    (fun _ => Err "") (fun _ => Err "") (fun _ _ _ _ => Err (KOther "")) (fun _ => "") []
    POST "/auth/admin/login" Public ELogin None AccessDemo.clock HttpDemo.auth None HttpDemo.auth);
    [by intros [_ [? _]]|by vm_compute|reflexivity].
Defined.
