(* ===== verification/Route.v ===== *)
(** * The non-streaming request path
    (src/crates/himadri/src/gateway/route.rs)

    [prepare_request], [select_targets], [embed] and [route] over the gateway
    of Gateway.v and the outside world [W]: a request runs alone, from its
    guards to its accounting. A panic of a random draw ends a request as
    [Panicked]. Log lines are not modelled. *)

From S2P Require Import Prelude CircuitBreaker Str Float Types Errors Config RateLimiter Strategy Plugin Usage Auditing Policy Provider Failover Gateway.

(** What the path takes from outside, at a state of the world: the three
    clocks, fresh identifiers, random draws, the cache counters; and, once and
    for all, the environment, case mapping and regular expressions. *)
Record Outside (W Regex : Type) := {
  out_now_micros : W -> Z;
  out_now_ms : W -> Z;
  out_instant_ns : W -> Z;
  out_uuid : W -> string * W;
  out_stamp : W -> Stamp * W;
  out_gen_range : W -> nat -> f64 -> option f64;
  out_cache_hit : W -> W;
  out_cache_miss : W -> W;
  out_env : string -> option string;
  out_to_lowercase : string -> string;
  out_is_match : Regex -> string -> bool;
}.
Arguments out_now_micros {W Regex}.
Arguments out_now_ms {W Regex}.
Arguments out_instant_ns {W Regex}.
Arguments out_uuid {W Regex}.
Arguments out_stamp {W Regex}.
Arguments out_gen_range {W Regex}.
Arguments out_cache_hit {W Regex}.
Arguments out_cache_miss {W Regex}.
Arguments out_env {W Regex}.
Arguments out_to_lowercase {W Regex}.
Arguments out_is_match {W Regex}.

(** Why a request failed. *)
Inductive Failure := Panicked | Failed (e : GatewayError).

Definition map_plugin_error (e : PluginError) : GatewayError :=
  match e with
  | Rejected _ reason kind =>
      match kind with
      | KindRateLimited retry_after_secs => RateLimited retry_after_secs
      | KindBudgetExceeded => QuotaExceeded reason
      | KindForbidden => Forbidden reason
      | KindBadRequest => BadRequest (plugin_error_to_string e)
      end
  | PluginInternal _ => Internal (plugin_error_to_string e)
  end.

Definition with_remote_ip (ip : option string) (c : PluginContext) : PluginContext :=
  {| ctx_request_id := ctx_request_id c; ctx_request := ctx_request c; ctx_auth := ctx_auth c;
     ctx_metadata := ctx_metadata c; ctx_provider := ctx_provider c; ctx_latency := ctx_latency c;
     ctx_tokens_used := ctx_tokens_used c; ctx_error := ctx_error c; ctx_response := ctx_response c;
     ctx_response_text := ctx_response_text c; ctx_response_chunks := ctx_response_chunks c;
     ctx_remote_ip := ip |}.

(** The flattening of infrastructure failures. *)
Definition flatten_attempt_error (e : AttemptError) : ProviderError :=
  match e with
  | AttemptProvider e => e
  | AttemptCircuitOpen p => PApi 503 ("Circuit breaker open for provider " +:+ p)
  | AttemptProviderNotFound p => PApi 503 ("Provider not found: " +:+ p)
  | AttemptApiKey e => PApi 503 (gateway_error_to_string e)
  | NoTargets => PInternal "No targets attempted"
  end.

(** The target a cached response is attributed to. *)
Definition cache_target : Target :=
  {| target_id := None; target_provider := "cache"; target_weight := f64_of_Z 1;
     target_models := None; target_api_key_env := None; target_base_url := None |}.

Section Route.
Context {W S B RL R Regex : Type}.
Context `{CircuitBreakerTrait B} `{RateLimiting RL}.
Context (cb_default : B) (out : Outside W Regex).

Abbreviation gateway := (Gateway W S B RL R Regex).

Definition with_limiter (l : RL) (g : gateway) : gateway :=
  with_routing (gw_config g) (gw_providers g) (gw_strategy g) (gw_circuit_breakers g)
    (gw_targets g) (gw_provider_keys g) l (gw_config_history g) g.

Definition with_health (breakers : gmap string B) (strategy : Strategy InMemoryLatencyStore Regex)
    (g : gateway) : gateway :=
  with_routing (gw_config g) (gw_providers g) strategy breakers
    (gw_targets g) (gw_provider_keys g) (gw_rate_limiter g) (gw_config_history g) g.

(** The guards after the rate limits. *)
Definition static_guards (request : ChatCompletionRequest) (auth : option AuthContext)
    (config : Config) : result unit GatewayError :=
  let? _ := check_token_budgets auth config request in
  let? _ := check_org_guardrails (out_to_lowercase out) auth config request in
  check_rbac_model auth config (req_model request).

Definition prepare_request (request : ChatCompletionRequest) (auth : option AuthContext)
    (remote_ip : option string) (g : gateway) (w : W)
    : result PluginContext GatewayError * (gateway * W) :=
  let config := gw_config g in
  let '(limits, l) := check_rate_limits (out_now_micros out w) auth config (gw_rate_limiter g) in
  let g := with_limiter l g in
  match (let? _ := limits in static_guards request auth config) with
  | Err e => (Err e, (g, w))
  | Ok _ =>
      let '(id, w) := out_uuid out w in
      let ctx := with_remote_ip remote_ip (ctx_from_request id request auth) in
      let '(r, (ctx, w)) := run_before (gw_plugin_manager g) ctx w in
      match r with
      | Ok _ => (Ok ctx, (g, w))
      | Err e => (Err (map_plugin_error e), (g, w))
      end
  end.

Definition eligible_targets (model : string) (g : gateway) : list Target :=
  List.filter (fun t => target_serves_model t model) (gw_targets g).

Definition select_targets (request : ChatCompletionRequest) (auth : option AuthContext)
    (g : gateway) (w : W) : result (list Target) Failure :=
  match eligible_targets (req_model request) g with
  | [] => Err (Failed (NotFound ("No provider is configured to serve model '" +:+
                                 req_model request +:+ "'")))
  | eligible =>
      match select_ordered (out_is_match out) (out_to_lowercase out) (out_gen_range out w)
              (gw_strategy g) request eligible with
      | None => Err Panicked
      | Some ordered =>
          map_err Failed
            (let? ordered := ordered in filter_targets_by_rbac auth (gw_config g) ordered)
      end
  end.

(** ** Embeddings *)

Fixpoint embed_loop (request : EmbeddingRequest) (targets : list Target) (last_err : GatewayError)
    (g : gateway) (w : W) : result EmbeddingResponse GatewayError * W :=
  match targets with
  | [] => (Err last_err, w)
  | target :: targets =>
      match gw_providers g !! routing_key target with
      | None => embed_loop request targets last_err g w
      | Some provider =>
          match gateway_api_key (out_env out) g target with
          | Err e => embed_loop request targets e g w
          | Ok api_key =>
              let '(r, w) := prov_embed provider request api_key w in
              match r with
              | Ok resp => (Ok resp, w)
              | Err (PUnsupported _) => embed_loop request targets last_err g w
              | Err e =>
                  let failure := ProviderFailure (provider_error_to_string e) in
                  if provider_retryable e then embed_loop request targets failure g w
                  else (Err failure, w)
              end
          end
      end
  end.

Definition embed (request : EmbeddingRequest) (auth : option AuthContext) (g : gateway) (w : W)
    : result EmbeddingResponse GatewayError * (gateway * W) :=
  let config := gw_config g in
  let '(limits, l) := check_rate_limits (out_now_micros out w) auth config (gw_rate_limiter g) in
  let g := with_limiter l g in
  match (let? _ := limits in check_rbac_model auth config (ereq_model request)) with
  | Err e => (Err e, (g, w))
  | Ok _ =>
      match gw_targets g with
      | [] => (Err (Internal "No targets configured"), (g, w))
      | targets =>
          match filter_targets_by_rbac auth config targets with
          | Err e => (Err e, (g, w))
          | Ok targets =>
              let '(r, w) :=
                embed_loop request targets (Internal "No provider produced embeddings") g w in
              (r, (g, w))
          end
      end
  end.

(** ** Chat completions *)

(** [self.request_auditor.record_full(event)] *)
Definition record (ev : RequestEvent) (g : gateway) (w : W) : W :=
  let '(stamp, w) := out_stamp out w in record_full (gw_request_auditor g) stamp ev w.

Definition key_id_of (auth : option AuthContext) : option string := auth ≫= auth_key_id.

(** The event of a request: its identity, and its outcome. *)
Definition event_of (auth : option AuthContext) (request_id provider : string)
    (request : ChatCompletionRequest) (response_text : option string) (latency_ms : Z)
    (tokens : Z * Z * Z) (status : AuditStatus) (error : option string) (actions : list string)
    : RequestEvent :=
  {| ev_auth := auth; ev_request_id := request_id; ev_provider := provider;
     ev_model := req_model request; ev_messages := audit_messages request;
     ev_response_text := response_text; ev_latency_ms := latency_ms;
     ev_tokens_prompt := tokens.1.1; ev_tokens_completion := tokens.1.2;
     ev_tokens_total := tokens.2; ev_status := status; ev_error := error;
     ev_guardrail_actions := actions; ev_stream := req_stream request;
     ev_api_key_id := key_id_of auth |}.

(** The failover state of a chat request, and the gateway it leaves. *)
Definition failover_state (g : gateway) (w : W) : FailoverState B InMemoryLatencyStore W :=
  {| fs_breakers := gw_circuit_breakers g;
     fs_latency := match gw_strategy g with StLeastLatency store => Some store | _ => None end;
     fs_world := w |}.

Definition after_failover (st : FailoverState B InMemoryLatencyStore W) (g : gateway) : gateway :=
  with_health (fs_breakers st)
    (match gw_strategy g, fs_latency st with
     | StLeastLatency _, Some store => StLeastLatency store
     | s, _ => s
     end) g.

(** The answer of a provider, or of the cache: the target it is attributed to,
    the result, the latency. *)
Definition Answer : Type := Target * result ChatCompletionResponse ProviderError * Z.

Definition cache_lookup (request : ChatCompletionRequest) (auth : option AuthContext) (g : gateway)
    (w : W) : option ChatCompletionResponse * W :=
  if req_stream request then (None, w)
  else
    match gw_response_cache g with
    | None => (None, w)
    | Some cache =>
        let key := rc_key cache request (auth ≫= auth_org_id) (auth ≫= auth_team_id) in
        let '(hit, w) := rc_get cache key w in
        match hit with
        | Some cached => (Some cached, out_cache_hit out w)
        | None => (None, out_cache_miss out w)
        end
    end.

Definition dispatch (request : ChatCompletionRequest) (auth : option AuthContext) (g : gateway)
    (w : W) : result Answer Failure * (gateway * W) :=
  let '(cached, w) := cache_lookup request auth g w in
  match cached with
  | Some response => (Ok (cache_target, Ok response, 0), (g, w))
  | None =>
      match select_targets request auth g w with
      | Err e => (Err e, (g, w))
      | Ok ordered =>
          let '(r, st) :=
            with_failover cb_default (out_now_ms out) (out_instant_ns out) (out_env out)
              (gw_providers g) (gw_provider_keys g)
              (fun provider api_key => prov_complete provider request api_key)
              ordered (failover_state g w) in
          let g := after_failover st g in
          match r with
          | None => (Err (Failed (Internal "No targets configured")), (g, fs_world st))
          | Some (target, result, latency) =>
              (Ok (target, map_err flatten_attempt_error result, as_millis_u64 latency),
               (g, fs_world st))
          end
      end
  end.

(** The context the after-request plugins see. *)
Definition after_context (answer : Answer) (ctx : PluginContext) : PluginContext :=
  let '(target, result, latency_ms) := answer in
  let ctx := set_latency (latency_ms * 10 ^ 6) (set_provider (target_provider target) ctx) in
  match result with
  | Ok response =>
      let ctx := match resp_usage response with
                 | Some usage => set_tokens (usage_total_tokens usage) ctx
                 | None => ctx
                 end in
      set_response response ctx
  | Err _ => ctx
  end.

(** What the response guardrails made of an answer. *)
Inductive Verdict :=
  | Pass (actions : list string)
  | Blocked (reason : string)
  | Rewritten (redacted : string).

Definition guard_response (result : result ChatCompletionResponse ProviderError)
    (ctx : PluginContext) (g : gateway) (w : W) : Verdict * W :=
  match result with
  | Err _ => (Pass [], w)
  | Ok response =>
      match extract_response_text response with
      | None => (Pass [], w)
      | Some content =>
          let '(action, w) := run_response_guardrails (gw_plugin_manager g) ctx content w in
          match action with
          | Ok Allow => (Pass [], w)
          | Ok (Reject reason) => (Blocked reason, w)
          | Ok (Redact redacted) => (Rewritten redacted, w)
          | Err e => (Pass ["error: " +:+ plugin_error_to_string e], w)
          end
      end
  end.

Definition cache_store (request : ChatCompletionRequest) (auth : option AuthContext)
    (result : result ChatCompletionResponse ProviderError) (g : gateway) (w : W) : W :=
  if req_stream request then w
  else
    match gw_response_cache g, result with
    | Some cache, Ok response =>
        rc_insert cache (rc_key cache request (auth ≫= auth_org_id) (auth ≫= auth_team_id))
          response w
    | _, _ => w
    end.

(** From the answer to the end of the request. *)
Definition finish (answer : Answer) (auth : option AuthContext) (ctx : PluginContext)
    (g : gateway) (w : W) : result ChatCompletionResponse Failure * (gateway * W) :=
  let '(target, result, latency_ms) := answer in
  let request := ctx_request ctx in
  let '(ctx, w) := run_after (gw_plugin_manager g) (after_context answer ctx) w in
  let event := event_of auth (ctx_request_id ctx) (target_provider target) request in
  let '(verdict, w) := guard_response result ctx g w in
  match verdict, result with
  | Blocked reason, _ =>
      let w := record (event None latency_ms (0, 0, 0) AuditError
                 (Some ("Guardrail rejected: " +:+ reason)) ["reject: " +:+ reason]) g w in
      (Err (Failed (BadRequest ("Response blocked by guardrail: " +:+ reason))), (g, w))
  | Rewritten redacted, Ok response =>
      let redacted_response := redact_response_text redacted response in
      let w := record (event (extract_response_text redacted_response) latency_ms
                 (usage_or_zero (resp_usage response)) AuditSuccess None ["redact"]) g w in
      (Ok redacted_response, (g, w))
  | Pass actions, Ok response =>
      let w := record (event (extract_response_text response) latency_ms
                 (usage_or_zero (resp_usage response)) AuditSuccess None actions) g w in
      (Ok response, (g, cache_store request auth result g w))
  | (Pass _ | Rewritten _) as v, Err e =>
      let actions := match v with Pass actions => actions | _ => [] end in
      let w := record (event None latency_ms (0, 0, 0) AuditError
                 (Some (provider_error_to_string e)) actions) g w in
      (Err (Failed (gateway_error_from e)), (g, w))
  end.

Definition route (request : ChatCompletionRequest) (auth : option AuthContext)
    (remote_ip : option string) (g : gateway) (w : W)
    : result ChatCompletionResponse Failure * (gateway * W) :=
  match prepare_request request auth remote_ip g w with
  | (Err e, (g, w)) =>
      let '(id, w) := out_uuid out w in
      let w := record (event_of auth id "" request None 0 (0, 0, 0) AuditError
                 (Some (gateway_error_to_string e)) ["reject"]) g w in
      (Err (Failed e), (g, w))
  | (Ok ctx, (g, w)) =>
      match dispatch (ctx_request ctx) auth g w with
      | (Err e, s) => (Err e, s)
      | (Ok answer, (g, w)) => finish answer auth ctx g w
      end
  end.
End Route.

(** ** Observing the world *)

(** Something of the world ([obs]) that the path itself leaves alone: only the
    auditor, or only the cache's insertion, may change it. *)
Section Observe.
Context {W S B RL R Regex A : Type}.
Context `{CircuitBreakerTrait B} `{RateLimiting RL}.
Context (cb_default : B) (out : Outside W Regex) (obs : W -> A).

Record unobserved (g : Gateway W S B RL R Regex) : Prop := {
  uo_uuid : forall w, obs (out_uuid out w).2 = obs w;
  uo_stamp : forall w, obs (out_stamp out w).2 = obs w;
  uo_hit : forall w, obs (out_cache_hit out w) = obs w;
  uo_miss : forall w, obs (out_cache_miss out w) = obs w;
  uo_before : forall p ctx w, p ∈ pm_before_request (gw_plugin_manager g) ->
    obs (plugin_execute p ctx w).2.2 = obs w;
  uo_after : forall p ctx w, p ∈ pm_after_request (gw_plugin_manager g) ->
    obs (plugin_execute p ctx w).2.2 = obs w;
  uo_guardrail : forall gr ctx t w, gr ∈ pm_response_guardrails (gw_plugin_manager g) ->
    obs (rg_check gr ctx t w).2 = obs w;
  uo_provider : forall k p req key w, gw_providers g !! k = Some p ->
    obs (prov_complete p req key w).2 = obs w;
  uo_get : forall c key w, gw_response_cache g = Some c -> obs (rc_get c key w).2 = obs w;
}.

Lemma run_until_error_obs (ps : list (Plugin W)) ctx w :
  (forall p ctx w, p ∈ ps -> obs (plugin_execute p ctx w).2.2 = obs w) ->
  obs (run_until_error ps ctx w).2.2 = obs w.
Proof.
  revert ctx w. induction ps as [|p ps IH]; intros ctx w Hp; [done|]. cbn [run_until_error].
  pose proof (Hp p ctx w ltac:(by left)) as H1.
  destruct (plugin_execute p ctx w) as [[[]|e] [ctx' w']]; cbn in H1 |- *; [|done].
  rewrite IH; [done|]. intros p' c' x' Hin. apply Hp. by right.
Qed.

Lemma run_logged_obs (ps : list (Plugin W)) ctx w :
  (forall p ctx w, p ∈ ps -> obs (plugin_execute p ctx w).2.2 = obs w) ->
  obs (run_logged ps ctx w).2 = obs w.
Proof.
  revert ctx w. induction ps as [|p ps IH]; intros ctx w Hp; [done|]. cbn [run_logged].
  pose proof (Hp p ctx w ltac:(by left)) as H1.
  destruct (plugin_execute p ctx w) as [r [ctx' w']]; cbn in H1 |- *.
  rewrite IH; [done|]. intros p' c' x' Hin. apply Hp. by right.
Qed.

Lemma check_guardrails_obs (gs : list (ResponseGuardrail W)) ctx t w :
  (forall gr ctx t w, gr ∈ gs -> obs (rg_check gr ctx t w).2 = obs w) ->
  obs (check_guardrails gs ctx t w).2 = obs w.
Proof.
  revert w. induction gs as [|gr gs IH]; intros w Hg; [done|]. cbn [check_guardrails].
  pose proof (Hg gr ctx t w ltac:(by left)) as H1.
  destruct (rg_check gr ctx t w) as [[[]|e] w']; cbn in H1 |- *; try done.
  rewrite IH; [done|]. intros g' c' t' x' Hin. apply Hg. by right.
Qed.

Lemma prepare_request_obs request auth ip g w : unobserved g ->
  let '(_, (_, w')) := prepare_request out request auth ip g w in obs w' = obs w.
Proof.
  intros Hu. unfold prepare_request. destruct (check_rate_limits _ _ _ _) as [limits l].
  destruct (let? _ := limits in _) as [[]|e]; [|done].
  pose proof (uo_uuid g Hu w) as Hid. destruct (out_uuid out w) as [id w1]. cbn in Hid.
  pose proof (run_until_error_obs (pm_before_request (gw_plugin_manager g))
    (with_remote_ip ip (ctx_from_request id request auth)) w1 (uo_before g Hu)) as Hrun.
  unfold run_before. change (gw_plugin_manager (with_limiter l g)) with (gw_plugin_manager g).
  destruct (run_until_error _ _ _) as [[[]|e] [ctx w2]]; cbn in Hrun; by rewrite Hrun.
Qed.

Lemma failover_obs (op : Provider W S -> string -> W -> result ChatCompletionResponse ProviderError * W)
    now_ms instant_ns env providers keys ordered (st : FailoverState B InMemoryLatencyStore W) :
  (forall k p key w, providers !! k = Some p -> obs (op p key w).2 = obs w) ->
  obs (fs_world (with_failover cb_default now_ms instant_ns env providers keys op ordered st).2)
  = obs (fs_world st).
Proof.
  intros Hop. apply (failover_preserves cb_default now_ms instant_ns env providers keys op
    (fun s => obs (fs_world s) = obs (fs_world st))); [|done].
  intros c l s _ Hs. unfold attempt. destruct (cb_allow _ _) as [[] cb]; cbn [negb]; [|done].
  destruct (providers !! _) as [p|] eqn:Ep; [|done]. destruct (get_api_key _ _ _) as [key|e]; [|done].
  cbn [with_breaker fs_world]. pose proof (Hop _ p key (fs_world s) Ep) as H1.
  destruct (op p key (fs_world s)) as [r w']. cbn in H1 |- *. by rewrite H1.
Qed.

Lemma cache_lookup_obs request auth g w : unobserved g ->
  obs (cache_lookup out request auth g w).2 = obs w.
Proof.
  intros Hu. unfold cache_lookup. destruct (req_stream request); [done|].
  destruct (gw_response_cache g) as [c|] eqn:Ec; [|done].
  pose proof (uo_get g Hu c (rc_key c request (auth ≫= auth_org_id) (auth ≫= auth_team_id)) w Ec) as H1.
  destruct (rc_get c _ w) as [[r|] w']; cbn in H1 |- *;
    [by rewrite (uo_hit g Hu)|by rewrite (uo_miss g Hu)].
Qed.

Lemma dispatch_obs request auth g w : unobserved g ->
  let '(_, (_, w')) := dispatch cb_default out request auth g w in obs w' = obs w.
Proof.
  intros Hu. unfold dispatch. pose proof (cache_lookup_obs request auth g w Hu) as Hc.
  destruct (cache_lookup out request auth g w) as [[r|] w1]; cbn in Hc; [done|].
  destruct (select_targets out request auth g w1) as [ordered|e]; [|done].
  pose proof (failover_obs (fun p k => prov_complete p request k) (out_now_ms out)
    (out_instant_ns out) (out_env out) (gw_providers g) (gw_provider_keys g) ordered
    (failover_state g w1)) as Hf.
  destruct (with_failover _ _ _ _ _ _ _ _ _) as [[[[t res] lat]|] st]; cbn in Hf;
    (rewrite Hf; [done|]; intros k p key w' Hp; by eapply uo_provider).
Qed.

Lemma guard_response_obs result ctx g w : unobserved g ->
  obs (guard_response result ctx g w).2 = obs w.
Proof.
  intros Hu. unfold guard_response. destruct result as [response|e]; [|done].
  destruct (extract_response_text response) as [content|]; [|done].
  pose proof (check_guardrails_obs (pm_response_guardrails (gw_plugin_manager g)) ctx content w
    (uo_guardrail g Hu)) as Hg. unfold run_response_guardrails.
  by destruct (check_guardrails _ _ _ _) as [[[]|e] w'].
Qed.
End Observe.

(** ** What the stages leave of the gateway *)

Section Stages.
Context {W S B RL R Regex : Type}.
Context `{CircuitBreakerTrait B} `{RateLimiting RL}.
Context (cb_default : B) (out : Outside W Regex).

Lemma unobserved_same {A} (obs : W -> A) (g g' : Gateway W S B RL R Regex) :
  gw_plugin_manager g' = gw_plugin_manager g -> gw_providers g' = gw_providers g ->
  gw_response_cache g' = gw_response_cache g -> unobserved out obs g -> unobserved out obs g'.
Proof. intros H1 H2 H3 []. split; rewrite ?H1, ?H2, ?H3; done. Qed.

(** Two gateways that agree on what the path reads besides health and limits. *)
Definition same_wiring (g g' : Gateway W S B RL R Regex) : Prop :=
  gw_plugin_manager g' = gw_plugin_manager g /\ gw_providers g' = gw_providers g /\
  gw_response_cache g' = gw_response_cache g /\ gw_request_auditor g' = gw_request_auditor g.

Lemma prepare_request_wiring request auth ip g w :
  let '(_, (g', _)) := prepare_request out request auth ip g w in same_wiring g g'.
Proof.
  unfold prepare_request. destruct (check_rate_limits _ _ _ _) as [limits l].
  destruct (let? _ := limits in _) as [[]|e]; [|done]. destruct (out_uuid out w) as [id w1].
  by destruct (run_before _ _ _) as [[[]|e] [ctx w2]].
Qed.

Lemma dispatch_wiring request auth g w :
  let '(_, (g', _)) := dispatch cb_default out request auth g w in same_wiring g g'.
Proof.
  unfold dispatch. destruct (cache_lookup out request auth g w) as [[r|] w1]; [done|].
  destruct (select_targets out request auth g w1) as [ordered|e]; [|done].
  by destruct (with_failover _ _ _ _ _ _ _ _ _) as [[[[t res] lat]|] st].
Qed.

(** Selected targets are never the empty list. *)
Lemma select_targets_nonempty request auth (g : Gateway W S B RL R Regex) w l :
  select_targets out request auth g w = Ok l -> l <> [].
Proof.
  unfold select_targets. destruct (eligible_targets _ _) as [|t ts] eqn:Ee; [done|].
  cbn [select_ordered]. pose proof (strategy_order_spec (out_is_match out) (out_to_lowercase out)
    (out_gen_range out w) (gw_strategy g) request (t :: ts) ltac:(done)) as Ho.
  destruct (strategy_order _ _ _ _ request (t :: ts)) as [o|]; cbn; [|done].
  destruct Ho as [Hne _]. assert (dedup_targets o <> []) as Hd by (destruct o; [done|apply dedup_nonempty]).
  unfold filter_targets_by_rbac. destruct (negb _); [by intros [= <-]|].
  destruct (principal_roles auth) as [roles []]; [by intros [= <-]|].
  destruct (rbac_filter _ _ _ _ _) as [[|] d]; [done|]. by intros [= <-].
Qed.

(** Dispatching fails only where selecting the targets does. *)
Lemma dispatch_error request auth (g : Gateway W S B RL R Regex) w e s :
  dispatch cb_default out request auth g w = (Err e, s) ->
  exists w', select_targets out request auth g w' = Err e.
Proof.
  unfold dispatch. destruct (cache_lookup out request auth g w) as [[r|] w1]; [done|].
  destruct (select_targets out request auth g w1) as [ordered|e'] eqn:Es.
  - apply select_targets_nonempty in Es. destruct ordered as [|t ts]; [done|].
    unfold with_failover. by destruct (failover_loop _ _ _ _ _ _ _ t ts 0 _) as [[[t' r] lat] st].
  - intros [= -> _]. by exists w1.
Qed.
End Stages.

(** ** Audit and cache of a request *)

(** What the audit event of a finished request says. *)
Definition event_matches (auth : option AuthContext) (request : ChatCompletionRequest)
    (r : result ChatCompletionResponse Failure) (ev : RequestEvent) : Prop :=
  ev_auth ev = auth /\ ev_api_key_id ev = key_id_of auth /\ ev_model ev = req_model request /\
  ev_messages ev = audit_messages request /\
  match r with
  | Ok response =>
      ev_status ev = AuditSuccess /\ ev_error ev = None /\
      ev_response_text ev = extract_response_text response
  | Err _ =>
      ev_status ev = AuditError /\ is_Some (ev_error ev) /\ ev_response_text ev = None /\
      ev_tokens_total ev = 0
  end.

Section Accounting.
Context {W S B RL R Regex : Type}.
Context `{CircuitBreakerTrait B} `{RateLimiting RL}.
Context (cb_default : B) (out : Outside W Regex).
Context (events : W -> list RequestEvent) (inserts : W -> list (string * ChatCompletionResponse)).

(** The auditor appends the event, the cache's insertion appends its pair, and
    nothing else touches either. *)
Record accounted (g : Gateway W S B RL R Regex) : Prop := {
  ac_events : unobserved out events g;
  ac_inserts : unobserved out inserts g;
  ac_record : forall s ev w,
    events (record_full (gw_request_auditor g) s ev w) = (events w ++ [ev])%list /\
    inserts (record_full (gw_request_auditor g) s ev w) = inserts w;
  ac_insert : forall c key r w, gw_response_cache g = Some c ->
    events (rc_insert c key r w) = events w /\
    inserts (rc_insert c key r w) = (inserts w ++ [(key, r)])%list;
}.

Lemma accounted_same g g' : same_wiring g g' -> accounted g -> accounted g'.
Proof.
  intros (H1 & H2 & H3 & H4) [He Hi Hr Hc].
  split; [by eapply unobserved_same|by eapply unobserved_same|by rewrite H4|by rewrite H3].
Qed.

Lemma record_accounted g ev w : accounted g ->
  events (record out ev g w) = (events w ++ [ev])%list /\ inserts (record out ev g w) = inserts w.
Proof.
  intros Ha. unfold record. pose proof (uo_stamp _ _ _ (ac_events g Ha) w) as He.
  pose proof (uo_stamp _ _ _ (ac_inserts g Ha) w) as Hi.
  destruct (out_stamp out w) as [s w1]. cbn in He, Hi.
  destruct (ac_record g Ha s ev w1) as [-> ->]. by rewrite He, Hi.
Qed.

(** The cache entries one finished request may add. *)
Definition cache_effect (auth : option AuthContext) (request : ChatCompletionRequest)
    (g : Gateway W S B RL R Regex) (r : result ChatCompletionResponse Failure) (w w' : W) : Prop :=
  inserts w' = inserts w \/
  exists c response, req_stream request = false /\ gw_response_cache g = Some c /\
    r = Ok response /\
    inserts w' = (inserts w ++
      [(rc_key c request (auth ≫= auth_org_id) (auth ≫= auth_team_id), response)])%list.

Lemma cache_store_accounted request auth response g w : accounted g ->
  let w' := cache_store request auth (Ok response) g w in
  events w' = events w /\ cache_effect auth request g (Ok response) w w'.
Proof.
  intros Ha. unfold cache_store, cache_effect. destruct (req_stream request) eqn:Es; [by split; [|left]|].
  destruct (gw_response_cache g) as [c|] eqn:Ec; [|by split; [|left]].
  destruct (ac_insert g Ha c (rc_key c request (auth ≫= auth_org_id) (auth ≫= auth_team_id))
    response w Ec) as [-> ->].
  split; [done|]. right. by exists c, response.
Qed.

Lemma finish_accounted answer auth ctx g w : accounted g ->
  let '(r, (_, w')) := finish out answer auth ctx g w in
  (exists ev, events w' = (events w ++ [ev])%list /\ event_matches auth (ctx_request ctx) r ev) /\
  cache_effect auth (ctx_request ctx) g r w w'.
Proof.
  intros Ha. destruct answer as [[t res] lat]. unfold finish.
  pose proof (run_logged_obs events (pm_after_request (gw_plugin_manager g))
    (after_context (t, res, lat) ctx) w (uo_after _ _ _ (ac_events g Ha))) as He1.
  pose proof (run_logged_obs inserts (pm_after_request (gw_plugin_manager g))
    (after_context (t, res, lat) ctx) w (uo_after _ _ _ (ac_inserts g Ha))) as Hi1.
  unfold run_after. destruct (run_logged _ _ _) as [ctx1 w1]. cbn in He1, Hi1.
  pose proof (guard_response_obs out events res ctx1 g w1 (ac_events g Ha)) as He2.
  pose proof (guard_response_obs out inserts res ctx1 g w1 (ac_inserts g Ha)) as Hi2.
  destruct (guard_response res ctx1 g w1) as [v w2]. cbn in He2, Hi2.
  rewrite <- He1, <- He2. unfold cache_effect. rewrite <- Hi1, <- Hi2.
  assert (forall ev r, event_matches auth (ctx_request ctx) r ev ->
    (exists ev', events (record out ev g w2) = (events w2 ++ [ev'])%list /\
                 event_matches auth (ctx_request ctx) r ev') /\
    cache_effect auth (ctx_request ctx) g r w2 (record out ev g w2)) as Hrec.
  { intros ev r Hm. destruct (record_accounted g ev w2 Ha) as [-> Hi].
    split; [by exists ev|by left]. }
  destruct v as [acts|reason|red], res as [response|e];
    try (apply Hrec; split_and!; try done; by eexists).
  cbn beta iota. set (ev := event_of _ _ _ _ _ _ _ _ _ _).
  destruct (record_accounted g ev w2 Ha) as [Hev Hin].
  destruct (cache_store_accounted (ctx_request ctx) auth response g (record out ev g w2) Ha) as [-> Hc].
  rewrite Hev. split; [by exists ev; split_and!|].
  unfold cache_effect in Hc. by rewrite Hin in Hc.
Qed.
End Accounting.

(** ** Properties *)

Section Properties.
Context {W S B RL R Regex : Type}.
Context `{CircuitBreakerTrait B} `{RateLimiting RL}.
Context (cb_default : B) (out : Outside W Regex).
Context (events : W -> list RequestEvent) (inserts : W -> list (string * ChatCompletionResponse)).

(** A request that never reached a target: its guards passed, and selecting a
    target failed. *)
Definition selection_failed (request : ChatCompletionRequest) (auth : option AuthContext)
    (ip : option string) (g : Gateway W S B RL R Regex) (w : W) (f : Failure) : Prop :=
  exists ctx g1 w1 w2, prepare_request out request auth ip g w = (Ok ctx, (g1, w1)) /\
    select_targets out (ctx_request ctx) auth g1 w2 = Err f.

(** C2: One audit event per request, unless selection fails. Whatever the
    plugins, providers and guardrails do, a request is recorded exactly once,
    under its principal: as a success with the text the client receives when
    it returns a response, and as an error, with a message and without tokens
    or text, when it fails; but a request for which no target can be selected
    returns its error without any record. *)
Theorem route_audited request auth ip (g : Gateway W S B RL R Regex) w :
  accounted out events inserts g ->
  let '(r, (_, w')) := route cb_default out request auth ip g w in
  (exists ev request', events w' = (events w ++ [ev])%list /\ event_matches auth request' r ev) \/
  (exists f, r = Err f /\ events w' = events w /\ selection_failed request auth ip g w f).
Proof.
  intros Ha. unfold route.
  pose proof (prepare_request_wiring out request auth ip g w) as Hw1.
  pose proof (prepare_request_obs out events request auth ip g w (ac_events _ _ _ g Ha)) as He1.
  destruct (prepare_request out request auth ip g w) as [[ctx|e] [g1 w1]] eqn:Ep.
  - pose proof (accounted_same out events inserts g g1 Hw1 Ha) as Ha1.
    pose proof (dispatch_wiring cb_default out (ctx_request ctx) auth g1 w1) as Hw2.
    pose proof (dispatch_obs cb_default out events (ctx_request ctx) auth g1 w1
      (ac_events _ _ _ g1 Ha1)) as He2.
    destruct (dispatch cb_default out (ctx_request ctx) auth g1 w1) as [[answer|f] [g2 w2]] eqn:Ed.
    + pose proof (accounted_same out events inserts g1 g2 Hw2 Ha1) as Ha2.
      pose proof (finish_accounted out events inserts answer auth ctx g2 w2 Ha2) as Hf.
      destruct (finish out answer auth ctx g2 w2) as [r [g3 w3]].
      destruct Hf as [(ev & Hev & Hm) _]. left. exists ev, (ctx_request ctx).
      by rewrite Hev, He2, He1.
    + right. exists f. destruct (dispatch_error cb_default out _ _ _ _ _ _ Ed) as [w3 Hs].
      split_and!; [done|by rewrite He2, He1|]. by exists ctx, g1, w1, w3.
  - pose proof (accounted_same out events inserts g g1 Hw1 Ha) as Ha1.
    pose proof (uo_uuid _ _ _ (ac_events _ _ _ g Ha) w1) as Hu.
    destruct (out_uuid out w1) as [id w2]. cbn in Hu. left.
    eexists _, request. split.
    + destruct (record_accounted out events inserts g1 (event_of auth id "" request None 0 (0, 0, 0)
        AuditError (Some (gateway_error_to_string e)) ["reject"]) w2 Ha1) as [-> _].
      by rewrite Hu, He1.
    + by split_and!.
Qed.

(** The cache holds only what was returned. A request adds at most one
    entry to the response cache: the very response it returns, under the key
    of the request the plugins left and of the caller's own organisation and
    team, and only when it does not stream. A response that failed, or that a
    guardrail blocked, never enters the cache. *)
Theorem route_caches_returned request auth ip (g : Gateway W S B RL R Regex) w :
  accounted out events inserts g ->
  let '(r, (_, w')) := route cb_default out request auth ip g w in
  inserts w' = inserts w \/
  exists c request' response, gw_response_cache g = Some c /\ req_stream request' = false /\
    r = Ok response /\
    inserts w' = (inserts w ++
      [(rc_key c request' (auth ≫= auth_org_id) (auth ≫= auth_team_id), response)])%list.
Proof.
  intros Ha. unfold route.
  pose proof (prepare_request_wiring out request auth ip g w) as Hw1.
  pose proof (prepare_request_obs out inserts request auth ip g w (ac_inserts _ _ _ g Ha)) as Hi1.
  destruct (prepare_request out request auth ip g w) as [[ctx|e] [g1 w1]];
    pose proof (accounted_same out events inserts g g1 Hw1 Ha) as Ha1.
  - pose proof (dispatch_wiring cb_default out (ctx_request ctx) auth g1 w1) as Hw2.
    pose proof (dispatch_obs cb_default out inserts (ctx_request ctx) auth g1 w1
      (ac_inserts _ _ _ g1 Ha1)) as Hi2.
    destruct (dispatch cb_default out (ctx_request ctx) auth g1 w1) as [[answer|f] [g2 w2]];
      [|left; by rewrite Hi2, Hi1].
    pose proof (accounted_same out events inserts g1 g2 Hw2 Ha1) as Ha2.
    pose proof (finish_accounted out events inserts answer auth ctx g2 w2 Ha2) as Hf.
    destruct (finish out answer auth ctx g2 w2) as [r [g3 w3]].
    destruct Hf as [_ [Hsame|(c & response & Hs & Hc & Hr & Hins)]].
    + left. by rewrite Hsame, Hi2, Hi1.
    + right. exists c, (ctx_request ctx), response.
      destruct Hw1 as (_ & _ & Hc1 & _), Hw2 as (_ & _ & Hc2 & _).
      rewrite Hins, Hi2, Hi1. by rewrite <- Hc1, <- Hc2.
  - pose proof (uo_uuid _ _ _ (ac_inserts _ _ _ g Ha) w1) as Hu.
    destruct (out_uuid out w1) as [id w2]. cbn in Hu. left.
    destruct (record_accounted out events inserts g1 (event_of auth id "" request None 0 (0, 0, 0)
      AuditError (Some (gateway_error_to_string e)) ["reject"]) w2 Ha1) as [_ ->].
    by rewrite Hu, Hi1.
Qed.

(** A cache hit is inserted again. When the cached response passes the
    guardrails it is returned without contacting a provider and inserted once
    more under its key, so its time to live starts over at every hit. *)
Theorem cache_hit_reinserted request auth ip (g g1 : Gateway W S B RL R Regex) ctx c cached w w1 w2 :
  accounted out events inserts g ->
  prepare_request out request auth ip g w = (Ok ctx, (g1, w1)) ->
  gw_response_cache g = Some c -> req_stream (ctx_request ctx) = false ->
  let key := rc_key c (ctx_request ctx) (auth ≫= auth_org_id) (auth ≫= auth_team_id) in
  rc_get c key w1 = (Some cached, w2) ->
  pm_response_guardrails (gw_plugin_manager g) = [] ->
  let '(r, (g', w')) := route cb_default out request auth ip g w in
  r = Ok cached /\ inserts w' = (inserts w ++ [(key, cached)])%list /\
  gw_circuit_breakers g' = gw_circuit_breakers g1.
Proof.
  intros Ha Ep Hc Hs key Hget Hg. unfold route.
  pose proof (prepare_request_wiring out request auth ip g w) as Hw.
  pose proof (prepare_request_obs out inserts request auth ip g w (ac_inserts _ _ _ g Ha)) as Hi1.
  rewrite Ep in Hw, Hi1 |- *. pose proof (accounted_same out events inserts g g1 Hw Ha) as Ha1.
  destruct Hw as (Hpm & _ & Hc1 & _).
  unfold dispatch, cache_lookup. rewrite Hs, Hc1, Hc. fold key. rewrite Hget.
  pose proof (uo_get _ _ _ (ac_inserts _ _ _ g Ha) c key w1 Hc) as Hi2.
  rewrite Hget in Hi2. cbn in Hi2.
  pose proof (uo_hit _ _ _ (ac_inserts _ _ _ g Ha) w2) as Hi3.
  unfold finish. pose proof (run_logged_obs inserts (pm_after_request (gw_plugin_manager g1))
    (after_context (cache_target, Ok cached, 0) ctx) (out_cache_hit out w2)
    (uo_after _ _ _ (ac_inserts _ _ _ g1 Ha1))) as Hi4.
  unfold run_after. destruct (run_logged _ _ _) as [ctx1 w3]. cbn in Hi4.
  assert (guard_response (Ok cached) ctx1 g1 w3 = (Pass [], w3)) as ->.
  { unfold guard_response, run_response_guardrails. rewrite Hpm, Hg.
    by destruct (extract_response_text cached). }
  split; [done|]. split; [|done]. unfold cache_store. rewrite Hs, Hc1, Hc. fold key.
  set (ev := event_of _ _ _ _ _ _ _ _ _ _).
  destruct (ac_insert _ _ _ g Ha c key cached (record out ev g1 w3) Hc) as [_ ->].
  destruct (record_accounted out events inserts g1 ev w3 Ha1) as [_ ->].
  by rewrite Hi4, Hi3, Hi2, Hi1.
Qed.
End Properties.

(** ** Guards *)

Definition error_of {A E} (r : result A E) : option E := match r with Ok _ => None | Err e => Some e end.

(** The first error of a list of checks. *)
Definition first_error {A E} (rs : list (result A E)) : option E := head (omap error_of rs).

Section GuardProperties.
Context {W S B RL R Regex : Type}.
Context `{CircuitBreakerTrait B} `{RateLimiting RL}.
Context (out : Outside W Regex).

Lemma map_plugin_error_status e :
  gateway_status_code (map_plugin_error e) =
    match e with
    | Rejected _ _ (KindRateLimited _) | Rejected _ _ KindBudgetExceeded => 429
    | Rejected _ _ KindForbidden => 403
    | Rejected _ _ KindBadRequest => 400
    | PluginInternal _ => 500
    end.
Proof. by destruct e as [? ? []|]. Qed.


(** A model no target serves is refused without a trace. The request fails
    with a 404 whatever the strategy, no provider is contacted, no breaker
    moves, and neither an audit event nor a usage record is written. *)
Theorem unserved_model_unrecorded (cb_default : B)
    request auth ip (g g1 : Gateway W S B RL R Regex) ctx w w1 :
  prepare_request out request auth ip g w = (Ok ctx, (g1, w1)) ->
  (forall t, t ∈ gw_targets g1 -> target_serves_model t (req_model (ctx_request ctx)) = false) ->
  gw_response_cache g1 = None ->
  exists m, route cb_default out request auth ip g w = (Err (Failed (NotFound m)), (g1, w1)).
Proof.
  intros Ep Hno Hc. unfold route, dispatch, cache_lookup. rewrite Ep, Hc.
  assert ((if req_stream (ctx_request ctx) then (@None ChatCompletionResponse, w1)
           else (None, w1)) = (None, w1)) as -> by by destruct (req_stream _).
  unfold select_targets, eligible_targets.
  assert (List.filter (fun t => target_serves_model t (req_model (ctx_request ctx))) (gw_targets g1)
    = []) as ->.
  { clear -Hno. induction (gw_targets g1) as [|t ts IH]; [done|]. cbn.
    rewrite (Hno t) by by left. apply IH. intros t' Ht'. apply Hno. by right. }
  by eexists.
Qed.

(** *** Embeddings *)

(** Why the loop goes past a target: no client, no key, or an answer that
    tells it to try the next. [e] is the error it leaves, if any. *)
Inductive embed_skips (request : EmbeddingRequest) (g : Gateway W S B RL R Regex)
    : Target -> W -> option GatewayError -> W -> Prop :=
  | skip_no_provider t w :
      gw_providers g !! routing_key t = None -> embed_skips request g t w None w
  | skip_no_key t p w e :
      gw_providers g !! routing_key t = Some p -> gateway_api_key (out_env out) g t = Err e ->
      embed_skips request g t w (Some e) w
  | skip_unsupported t p key w m w' :
      gw_providers g !! routing_key t = Some p -> gateway_api_key (out_env out) g t = Ok key ->
      prov_embed p request key w = (Err (PUnsupported m), w') -> embed_skips request g t w None w'
  | skip_retryable t p key w e w' :
      gw_providers g !! routing_key t = Some p -> gateway_api_key (out_env out) g t = Ok key ->
      prov_embed p request key w = (Err e, w') -> provider_retryable e = true ->
      embed_skips request g t w (Some (ProviderFailure (provider_error_to_string e))) w'.

(** Targets skipped in turn, from an error to the last one left. *)
Inductive all_skipped (request : EmbeddingRequest) (g : Gateway W S B RL R Regex)
    : list Target -> GatewayError -> W -> GatewayError -> W -> Prop :=
  | skipped_nil e w : all_skipped request g [] e w e w
  | skipped_cons t ts e w oe w1 e' w' :
      embed_skips request g t w oe w1 -> all_skipped request g ts (default e oe) w1 e' w' ->
      all_skipped request g (t :: ts) e w e' w'.

(** How the loop ends at a target that answers. *)
Definition embed_answers (request : EmbeddingRequest) (g : Gateway W S B RL R Regex) (t : Target)
    (w : W) (r : result EmbeddingResponse GatewayError) (w' : W) : Prop :=
  exists p key, gw_providers g !! routing_key t = Some p /\
    gateway_api_key (out_env out) g t = Ok key /\
    match prov_embed p request key w with
    | (Ok resp, w1) => r = Ok resp /\ w' = w1
    | (Err e, w1) => provider_retryable e = false /\ (forall m, e <> PUnsupported m) /\
        r = Err (ProviderFailure (provider_error_to_string e)) /\ w' = w1
    end.

Lemma embed_loop_spec request g ts e w :
  let '(r, w') := embed_loop out request ts e g w in
  (exists e', r = Err e' /\ all_skipped request g ts e w e' w') \/
  (exists ts1 t ts2 e1 w1, ts = (ts1 ++ t :: ts2)%list /\ all_skipped request g ts1 e w e1 w1 /\
     embed_answers request g t w1 r w').
Proof.
  revert e w. induction ts as [|t ts IH]; intros e w; cbn [embed_loop].
  { left. exists e. split; [done|constructor]. }
  assert (forall oe w1, embed_skips request g t w oe w1 ->
    let '(r, w') := embed_loop out request ts (default e oe) g w1 in
    (exists e', r = Err e' /\ all_skipped request g (t :: ts) e w e' w') \/
    (exists ts1 t' ts2 e1 w1, t :: ts = (ts1 ++ t' :: ts2)%list /\
       all_skipped request g ts1 e w e1 w1 /\ embed_answers request g t' w1 r w')) as Hgo.
  { intros oe w1 Hs. specialize (IH (default e oe) w1).
    destruct (embed_loop out request ts (default e oe) g w1) as [r w'].
    destruct IH as [(e' & -> & Ha)|(ts1 & t' & ts2 & e1 & w2 & -> & Ha & Hans)].
    - left. exists e'. split; [done|by econstructor].
    - right. exists (t :: ts1), t', ts2, e1, w2. split_and!; [done|by econstructor|done]. }
  destruct (gw_providers g !! routing_key t) as [p|] eqn:Ep;
    [|exact (Hgo None w ltac:(by constructor))].
  destruct (gateway_api_key (out_env out) g t) as [key|ke] eqn:Ek;
    [|exact (Hgo (Some ke) w ltac:(by econstructor))].
  destruct (prov_embed p request key w) as [[resp|pe] w1] eqn:Er.
  - right. exists [], t, ts, e, w. split_and!; [done|constructor|]. exists p, key. by rewrite Er.
  - assert (forall (Hu : forall m, pe <> PUnsupported m),
      let '(r, w') := (if provider_retryable pe
        then embed_loop out request ts (ProviderFailure (provider_error_to_string pe)) g w1
        else (Err (ProviderFailure (provider_error_to_string pe)), w1)) in
      (exists e', r = Err e' /\ all_skipped request g (t :: ts) e w e' w') \/
      (exists ts1 t' ts2 e1 w1, t :: ts = (ts1 ++ t' :: ts2)%list /\
         all_skipped request g ts1 e w e1 w1 /\ embed_answers request g t' w1 r w')) as Hother.
    { intros Hu. destruct (provider_retryable pe) eqn:Hr.
      - exact (Hgo (Some _) w1 ltac:(by econstructor)).
      - right. exists [], t, ts, e, w. split_and!; [done|constructor|]. exists p, key. by rewrite Er. }
    destruct pe; try (apply Hother; done). exact (Hgo None w1 ltac:(by econstructor)).
Qed.

(** Embeddings. Past the guards, the permitted targets are tried in their
    configured order; a target without a client or that does not support
    embeddings is passed over silently, one without a key or with a retryable
    failure is passed over and remembered; the first other answer is the
    result, and without one the last error remembered is. The circuit breakers
    are neither consulted nor changed. *)
Theorem embed_spec request auth (g : Gateway W S B RL R Regex) w :
  let '(limits, l) := check_rate_limits (out_now_micros out w) auth (gw_config g) (gw_rate_limiter g) in
  let '(r, (g', w')) := embed out request auth g w in
  g' = with_limiter l g /\ gw_circuit_breakers g' = gw_circuit_breakers g /\
  match first_error [limits; check_rbac_model auth (gw_config g) (ereq_model request)] with
  | Some e => r = Err e /\ w' = w
  | None =>
      match gw_targets g, filter_targets_by_rbac auth (gw_config g) (gw_targets g) with
      | [], _ => r = Err (Internal "No targets configured") /\ w' = w
      | _, Err e => r = Err e /\ w' = w
      | _, Ok ts =>
          let e0 := Internal "No provider produced embeddings" in
          (exists e', r = Err e' /\ all_skipped request g' ts e0 w e' w') \/
          (exists ts1 t ts2 e1 w1, ts = (ts1 ++ t :: ts2)%list /\
             all_skipped request g' ts1 e0 w e1 w1 /\ embed_answers request g' t w1 r w')
      end
  end.
Proof.
  unfold embed, first_error. destruct (check_rate_limits _ _ _ _) as [[[]|e] l]; [|done].
  cbn [omap list_omap error_of]. destruct (check_rbac_model _ _ _) as [[]|e]; [|done].
  cbn [head]. change (gw_targets (with_limiter l g)) with (gw_targets g).
  destruct (gw_targets g) as [|t ts]; [done|].
  destruct (filter_targets_by_rbac _ _ _) as [fs|e]; [|done].
  pose proof (embed_loop_spec request (with_limiter l g) fs
    (Internal "No provider produced embeddings") w) as Hl.
  destruct (embed_loop _ _ _ _ _ _) as [r w']. by split_and!.
Qed.
End GuardProperties.

(** ** Witnesses *)

(** A world that is the recorded events and the cache's insertions. *)
Definition demo_world : Type := list RequestEvent * list (string * ChatCompletionResponse).

Definition demo_outside : Outside demo_world unit :=
  {| out_now_micros := fun _ => 0; out_now_ms := fun _ => 0; out_instant_ns := fun _ => 0;
     out_uuid := fun w => ("id", w);
     out_stamp := fun w => ({| stamp_audit_now := 0; stamp_usage_now := 0; stamp_log_now := 0;
                               stamp_usage_id := "u"; stamp_trace_id := "t" |}, w);
     out_gen_range := fun _ _ _ => None; out_cache_hit := fun w => w; out_cache_miss := fun w => w;
     out_env := fun _ => None; out_to_lowercase := fun s => s; out_is_match := fun _ _ => false |}.

Definition demo_auditor : RequestAuditor demo_world :=
  {| record_full := fun _ ev w => ((w.1 ++ [ev])%list, w.2); record_accounting := fun _ _ w => w |}.

Definition demo_answer : ChatCompletionResponse :=
  {| resp_id := "r"; resp_object := "chat.completion"; resp_created := 0; resp_model := "gpt-4o";
     resp_choices := []; resp_usage := None; resp_system_fingerprint := None |}.

(** A cache that answers everything, and one that answers nothing. *)
Definition demo_cache (hit : option ChatCompletionResponse) : ResponseCache demo_world :=
  {| rc_key := fun r _ _ => req_model r; rc_get := fun _ w => (hit, w);
     rc_insert := fun k r w => (w.1, (w.2 ++ [(k, r)])%list) |}.

Definition demo_route_gateway (cache : option (ResponseCache demo_world))
    : Gateway demo_world unit CircuitBreaker unit unit unit :=
  {| gw_config := default_config; gw_providers := ∅; gw_provider_registry := tt;
     gw_plugin_manager := manager_new; gw_strategy := StSingle; gw_circuit_breakers := ∅;
     gw_targets := cfg_targets default_config; gw_provider_keys := ∅; gw_rate_limiter := tt;
     gw_request_log := 0; gw_response_cache := cache; gw_config_history := history_default;
     gw_request_auditor := demo_auditor |}.

Lemma demo_accounted cache hit : cache = None \/ cache = Some (demo_cache hit) ->
  accounted demo_outside fst snd (demo_route_gateway cache).
Proof.
  intros Hc. split; [split; try done|split; try done|done|].
  all: try (intros ? ? ? Hn; by apply not_elem_of_nil in Hn).
  all: try (intros ? ? ? ? Hn; by apply not_elem_of_nil in Hn).
  all: try (intros ? ? ? ? ? Hn; cbn in Hn; by rewrite lookup_empty in Hn).
  all: intros; destruct Hc as [-> | ->]; cbn in *; by simplify_eq.
Qed.

Definition demo_cb : CircuitBreaker := breaker_new default_breaker_config.

(** The only target has no client: the failure is recorded once. *)
Lemma route_audited_witness :
  let '(_, (_, w')) := route demo_cb demo_outside (demo_request) None None
    (demo_route_gateway None) ([], []) in length w'.1 = 1%nat.
Proof.
  pose proof (route_audited demo_cb demo_outside fst snd demo_request None None
    (demo_route_gateway None) ([], []) (demo_accounted None None ltac:(by left))) as Hr.
  revert Hr. destruct (route _ _ _ _ _ _ _) as [r [g' w']] eqn:E.
  intros [(ev & req & Hev & _)|(f & _ & _ & ctx & g1 & w1 & w2 & Hp & Hs)].
  - cbn in Hev. by rewrite Hev.
  - vm_compute in Hp. injection Hp as <- <- <-. exfalso. revert Hs. vm_compute. discriminate.
Defined.

Lemma route_caches_returned_witness :
  let '(_, (_, w')) := route demo_cb demo_outside demo_request None None
    (demo_route_gateway (Some (demo_cache None))) ([], []) in w'.2 = [].
Proof.
  pose proof (route_caches_returned demo_cb demo_outside fst snd demo_request None None
    (demo_route_gateway (Some (demo_cache None))) ([], [])
    (demo_accounted (Some (demo_cache None)) None ltac:(by right))) as Hr.
  revert Hr. destruct (route _ _ _ _ _ _ _) as [r [g' w']] eqn:E.
  intros [Hs|(c & req & response & _ & _ & -> & _)]; [exact Hs|].
  exfalso. revert E. vm_compute. discriminate.
Defined.

Lemma cache_hit_reinserted_witness :
  let '(r, (_, w')) := route demo_cb demo_outside demo_request None None
    (demo_route_gateway (Some (demo_cache (Some demo_answer)))) ([], []) in
  r = Ok demo_answer /\ length w'.2 = 1%nat.
Proof.
  pose proof (cache_hit_reinserted demo_cb demo_outside fst snd demo_request None None
    (demo_route_gateway (Some (demo_cache (Some demo_answer))))
    (demo_route_gateway (Some (demo_cache (Some demo_answer))))
    (with_remote_ip None (ctx_from_request "id" demo_request None))
    (demo_cache (Some demo_answer)) demo_answer ([], []) ([], []) ([], [])
    (demo_accounted (Some (demo_cache (Some demo_answer))) (Some demo_answer) ltac:(by right))
    ltac:(vm_compute; reflexivity) eq_refl eq_refl eq_refl eq_refl) as Hr.
  revert Hr. destruct (route _ _ _ _ _ _ _) as [r [g' w']].
  intros (-> & Hins & _). cbn in Hins. by rewrite Hins.
Defined.

Lemma unserved_model_unrecorded_witness :
  exists m, route demo_cb demo_outside demo_request None None
    (with_routing default_config ∅ StSingle ∅ [] ∅ tt history_default (demo_route_gateway None))
    ([], []) = (Err (Failed (NotFound m)),
      (with_routing default_config ∅ StSingle ∅ [] ∅ tt history_default (demo_route_gateway None),
       ([], []))).
Proof.
  apply (unserved_model_unrecorded demo_outside demo_cb demo_request None None
    (with_routing default_config ∅ StSingle ∅ [] ∅ tt history_default (demo_route_gateway None))
    (with_routing default_config ∅ StSingle ∅ [] ∅ tt history_default (demo_route_gateway None))
    (with_remote_ip None (ctx_from_request "id" demo_request None))).
  - vm_compute. reflexivity.
  - intros t Ht. by apply not_elem_of_nil in Ht.
  - reflexivity.
Defined.
