(* ===== verification/Stream.v ===== *)
(** * The streaming request path
    (src/crates/himadri/src/gateway/stream.rs)

    A response stream is polled by the client until it ends or the client goes
    away; [poll_next] and [drop_stream] are the two things that happen to it.
    The inner stream is a provider's: what it answers to each poll is an
    argument. A guardrail task the end of the stream spawns is an output. *)

From S2P Require Import Prelude CircuitBreaker Str Float Types Errors Config RateLimiter Strategy Plugin Usage Auditing Policy Provider Failover Gateway Route.

(** ** The usage recorder *)

Record StreamUsageRecorder := {
  sr_provider : string;
  sr_model : string;
  sr_api_key_id : option string;
  sr_started : Z;
  sr_usage : option Usage;
  sr_error : option string;
  sr_recorded : bool;
}.

Definition observe_chunk (chunk : StreamChunk) (r : StreamUsageRecorder) : StreamUsageRecorder :=
  match chunk_usage chunk with
  | Some usage =>
      {| sr_provider := sr_provider r; sr_model := sr_model r; sr_api_key_id := sr_api_key_id r;
         sr_started := sr_started r; sr_usage := Some usage; sr_error := sr_error r;
         sr_recorded := sr_recorded r |}
  | None => r
  end.

Definition observe_error (e : ProviderError) (r : StreamUsageRecorder) : StreamUsageRecorder :=
  {| sr_provider := sr_provider r; sr_model := sr_model r; sr_api_key_id := sr_api_key_id r;
     sr_started := sr_started r; sr_usage := sr_usage r;
     sr_error := Some (provider_error_to_string e); sr_recorded := sr_recorded r |}.

(** [finish]: the outcome it reports, the first time. [now] is the clock in
    nanoseconds. *)
Definition recorder_finish (now : Z) (r : StreamUsageRecorder)
    : option AccountOutcome * StreamUsageRecorder :=
  if sr_recorded r then (None, r)
  else
    (Some {| ao_provider := sr_provider r; ao_model := sr_model r; ao_api_key_id := sr_api_key_id r;
             ao_usage := sr_usage r; ao_error := sr_error r;
             ao_latency_ms := as_millis_u64 (Z.max 0 (now - sr_started r)) |},
     {| sr_provider := sr_provider r; sr_model := sr_model r; sr_api_key_id := sr_api_key_id r;
        sr_started := sr_started r; sr_usage := sr_usage r; sr_error := sr_error r;
        sr_recorded := true |}).

(** ** The stream *)

Inductive Poll (A : Type) := Ready (a : A) | Pending.
Arguments Ready {A}.
Arguments Pending {A}.

Definition Item : Type := result StreamChunk ProviderError.

Definition DEFAULT_STREAM_BUFFER_LIMIT : Z := 1024 * 1024.

Record GuardrailStream := {
  gs_buffer : string;
  gs_buffer_limit : Z;
  gs_request : ChatCompletionRequest;
  gs_auth : option AuthContext;
  gs_guardrails_ran : bool;
  gs_recorder : StreamUsageRecorder;
}.

(** What a poll makes happen besides its answer: an accounting record, and a
    task that runs the guardrails on a text. *)
Inductive StreamEffect :=
  | Account (o : AccountOutcome)
  | SpawnGuardrails (request : ChatCompletionRequest) (auth : option AuthContext) (text : string).

Definition with_recorder (r : StreamUsageRecorder) (s : GuardrailStream) : GuardrailStream :=
  {| gs_buffer := gs_buffer s; gs_buffer_limit := gs_buffer_limit s; gs_request := gs_request s;
     gs_auth := gs_auth s; gs_guardrails_ran := gs_guardrails_ran s; gs_recorder := r |}.

(** The text of a chunk: [push_str] of each delta. *)
Definition chunk_text (chunk : StreamChunk) : string :=
  join "" (omap (fun c => delta_content (sc_delta c)) (chunk_choices chunk)).

Definition buffer_push (chunk : StreamChunk) (s : GuardrailStream) : GuardrailStream :=
  if Z.of_nat (String.length (gs_buffer s)) <? gs_buffer_limit s then
    {| gs_buffer := gs_buffer s +:+ chunk_text chunk; gs_buffer_limit := gs_buffer_limit s;
       gs_request := gs_request s; gs_auth := gs_auth s;
       gs_guardrails_ran := gs_guardrails_ran s; gs_recorder := gs_recorder s |}
  else s.

Definition account_of (o : option AccountOutcome) : list StreamEffect :=
  match o with Some o => [Account o] | None => [] end.

(** The answer of the inner stream, the clock, the stream: the answer to the
    client, the stream, the effects. *)
Definition poll_next (inner : Poll (option Item)) (now : Z) (s : GuardrailStream)
    : Poll (option Item) * GuardrailStream * list StreamEffect :=
  match inner with
  | Ready (Some (Ok chunk)) =>
      (inner, buffer_push chunk (with_recorder (observe_chunk chunk (gs_recorder s)) s), [])
  | Ready (Some (Err e)) =>
      (inner, with_recorder (observe_error e (gs_recorder s)) s, [])
  | Ready None =>
      let '(o, r) := recorder_finish now (gs_recorder s) in
      let s := with_recorder r s in
      if negb (str_is_empty (gs_buffer s)) && negb (gs_guardrails_ran s) then
        (inner,
         {| gs_buffer := gs_buffer s; gs_buffer_limit := gs_buffer_limit s;
            gs_request := gs_request s; gs_auth := gs_auth s; gs_guardrails_ran := true;
            gs_recorder := gs_recorder s |},
         (account_of o ++ [SpawnGuardrails (gs_request s) (gs_auth s) (gs_buffer s)])%list)
      else (inner, s, account_of o)
  | Pending => (inner, s, [])
  end.

(** [Drop]: the recorder's. *)
Definition drop_stream (now : Z) (s : GuardrailStream) : list StreamEffect :=
  account_of (recorder_finish now (gs_recorder s)).1.

Definition wrap_stream_with_guardrails (request : ChatCompletionRequest)
    (auth : option AuthContext) (recorder : StreamUsageRecorder) : GuardrailStream :=
  {| gs_buffer := ""; gs_buffer_limit := DEFAULT_STREAM_BUFFER_LIMIT; gs_request := request;
     gs_auth := auth; gs_guardrails_ran := false; gs_recorder := recorder |}.

(** ** Opening a stream *)

Section RouteStream.
Context {W S B RL R Regex : Type}.
Context `{CircuitBreakerTrait B} `{RateLimiting RL}.
Context (cb_default : B) (out : Outside W Regex).
(** [self.audit_log.log(event)], the event stamped by the wall clock. *)
Context (log_event : (Z -> AuditEvent) -> W -> W).

Definition stream_attempt_error (e : AttemptError) : GatewayError :=
  match e with
  | AttemptProvider e => gateway_error_from e
  | AttemptCircuitOpen p => CircuitOpen p
  | AttemptProviderNotFound p => ProviderNotFound p
  | AttemptApiKey e => e
  | NoTargets => Internal "No targets produced a stream"
  end.

Definition stream_start_event (auth : option AuthContext) (request_id provider : string)
    (request : ChatCompletionRequest) (now : Z) : AuditEvent :=
  {| ae_request_id := request_id; ae_timestamp := now;
     ae_org_id := auth ≫= auth_org_id; ae_team_id := auth ≫= auth_team_id;
     ae_user_id := auth ≫= auth_user_id; ae_key_id := auth ≫= auth_key_id;
     ae_model := req_model request; ae_provider := Some provider;
     ae_messages := audit_messages request; ae_response := None; ae_latency_ms := 0;
     ae_tokens_prompt := None; ae_tokens_completion := None; ae_tokens_total := None;
     ae_status := AuditSuccess; ae_error := None; ae_guardrail_actions := []; ae_stream := true |}.

Definition recorder_new (provider model : string) (api_key_id : option string) (now : Z)
    : StreamUsageRecorder :=
  {| sr_provider := provider; sr_model := model; sr_api_key_id := api_key_id; sr_started := now;
     sr_usage := None; sr_error := None; sr_recorded := false |}.

(** The open inner stream and its wrapper. *)
Definition route_stream (request : ChatCompletionRequest) (auth : option AuthContext)
    (remote_ip : option string) (g : Gateway W S B RL R Regex) (w : W)
    : result (S * GuardrailStream) Failure * (Gateway W S B RL R Regex * W) :=
  match prepare_request out request auth remote_ip g w with
  | (Err e, s) => (Err (Failed e), s)
  | (Ok ctx, (g, w)) =>
      let request := ctx_request ctx in
      match select_targets out request auth g w with
      | Err e => (Err e, (g, w))
      | Ok ordered =>
          let '(r, st) :=
            with_failover (L := InMemoryLatencyStore) cb_default (out_now_ms out)
              (out_instant_ns out) (out_env out) (gw_providers g) (gw_provider_keys g)
              (fun provider api_key => prov_complete_stream provider request api_key)
              ordered {| fs_breakers := gw_circuit_breakers g; fs_latency := None; fs_world := w |} in
          let g := with_health (fs_breakers st) (gw_strategy g) g in
          let w := fs_world st in
          match r with
          | None => (Err (Failed (Internal "No targets configured")), (g, w))
          | Some (target, Err e, _) => (Err (Failed (stream_attempt_error e)), (g, w))
          | Some (target, Ok stream, _) =>
              let w := log_event
                (stream_start_event auth (ctx_request_id ctx) (target_provider target) request) w in
              let recorder := recorder_new (target_provider target) (req_model request)
                                (auth ≫= auth_key_id) (out_instant_ns out w) in
              (Ok (stream, wrap_stream_with_guardrails request auth recorder), (g, w))
          end
      end
  end.
End RouteStream.

(** ** Runs *)

(** The polls of a client: the inner stream's answer and the clock of each. *)
Fixpoint poll_run (polls : list (Poll (option Item) * Z)) (s : GuardrailStream)
    : list (Poll (option Item)) * GuardrailStream * list StreamEffect :=
  match polls with
  | [] => ([], s, [])
  | (inner, now) :: polls =>
      let '(answer, s, effects) := poll_next inner now s in
      let '(answers, s, effects') := poll_run polls s in
      (answer :: answers, s, (effects ++ effects')%list)
  end.

Definition not_end (p : Poll (option Item) * Z) : Prop := p.1 <> Ready None.

Definition usage_of (p : Poll (option Item) * Z) : option Usage :=
  match p.1 with Ready (Some (Ok chunk)) => chunk_usage chunk | _ => None end.

Definition error_text_of (p : Poll (option Item) * Z) : option string :=
  match p.1 with Ready (Some (Err e)) => Some (provider_error_to_string e) | _ => None end.

Definition text_of (p : Poll (option Item) * Z) : string :=
  match p.1 with Ready (Some (Ok chunk)) => chunk_text chunk | _ => "" end.

Definition body_text (polls : list (Poll (option Item) * Z)) : string :=
  foldr (fun p t => text_of p +:+ t) "" polls.

(** The accounting record of a stream that delivered [polls]. *)
Definition outcome_of (r : StreamUsageRecorder) (polls : list (Poll (option Item) * Z)) (now : Z)
    : AccountOutcome :=
  {| ao_provider := sr_provider r; ao_model := sr_model r; ao_api_key_id := sr_api_key_id r;
     ao_usage := from_option Some (sr_usage r) (last (omap usage_of polls));
     ao_error := from_option Some (sr_error r) (last (omap error_text_of polls));
     ao_latency_ms := as_millis_u64 (Z.max 0 (now - sr_started r)) |}.

Definition is_account (e : StreamEffect) : bool :=
  match e with Account _ => true | SpawnGuardrails _ _ _ => false end.

(** Two recorders that report the same from now on, given what was observed. *)
Definition observed (r r' : StreamUsageRecorder) (polls : list (Poll (option Item) * Z)) : Prop :=
  sr_provider r' = sr_provider r /\ sr_model r' = sr_model r /\
  sr_api_key_id r' = sr_api_key_id r /\ sr_started r' = sr_started r /\
  sr_recorded r' = sr_recorded r /\
  sr_usage r' = from_option Some (sr_usage r) (last (omap usage_of polls)) /\
  sr_error r' = from_option Some (sr_error r) (last (omap error_text_of polls)).

Lemma last_observed {A B} (f : A -> option B) p ps (d : option B) :
  from_option Some d (last (omap f (p :: ps))) =
    from_option Some (from_option Some d (last (omap f [p]))) (last (omap f ps)).
Proof.
  cbn [omap list_omap]. destruct (f p) as [u|]; [|done]. rewrite last_cons. cbn [last].
  by destruct (last (omap f ps)).
Qed.

(** A run without an end: the answers are the inner stream's, nothing happens,
    the recorder has observed, and the buffer keeps what fits. *)
Lemma poll_run_body polls s : Forall not_end polls ->
  let '(answers, s', effects) := poll_run polls s in
  answers = polls.*1 /\ effects = [] /\ observed (gs_recorder s) (gs_recorder s') polls /\
  gs_guardrails_ran s' = gs_guardrails_ran s /\ gs_request s' = gs_request s /\
  gs_auth s' = gs_auth s /\ gs_buffer_limit s' = gs_buffer_limit s /\
  (Z.of_nat (String.length (gs_buffer s) + String.length (body_text polls)) <= gs_buffer_limit s ->
   gs_buffer s' = gs_buffer s +:+ body_text polls).
Proof.
  revert s. induction polls as [|[inner now] polls IH]; intros s Hend; cbn [poll_run].
  { split_and!; try done. intros _. cbn. by rewrite str_app_nil_r. }
  apply Forall_cons in Hend as [Hne Hend].
  assert (exists s1, poll_next inner now s = (inner, s1, []) /\
    observed (gs_recorder s) (gs_recorder s1) [(inner, now)] /\
    gs_guardrails_ran s1 = gs_guardrails_ran s /\ gs_request s1 = gs_request s /\
    gs_auth s1 = gs_auth s /\ gs_buffer_limit s1 = gs_buffer_limit s /\
    (Z.of_nat (String.length (gs_buffer s) + String.length (text_of (inner, now))) <= gs_buffer_limit s ->
     gs_buffer s1 = gs_buffer s +:+ text_of (inner, now))) as (s1 & -> & Hobs & Hg & Hr & Ha & Hl & Hb).
  { destruct inner as [[[chunk|e]|]|]; cbn [poll_next].
    - eexists. split; [reflexivity|]. unfold buffer_push, observe_chunk, text_of. cbn [fst].
      assert (String.length (chunk_text chunk) = 0%nat -> chunk_text chunk = "") as Hz
        by (destruct (chunk_text chunk); done).
      cbn [gs_buffer gs_buffer_limit with_recorder].
      destruct (Z.ltb_spec (Z.of_nat (String.length (gs_buffer s))) (gs_buffer_limit s));
        cbn [gs_buffer gs_buffer_limit gs_recorder gs_request gs_auth gs_guardrails_ran with_recorder];
        (split_and!; [|done|done|done|done|]); try (by intros _);
        try (intros Hfit; rewrite Hz by lia; by rewrite str_app_nil_r);
        unfold observed, usage_of, error_text_of; cbn; by destruct (chunk_usage chunk).
    - eexists. split; [reflexivity|]. split_and!; try done. intros _. cbn. by rewrite str_app_nil_r.
    - by destruct Hne.
    - exists s. split_and!; try done. intros _. cbn. by rewrite str_app_nil_r. }
  specialize (IH s1 Hend). destruct (poll_run polls s1) as [[answers s'] effects].
  destruct IH as (-> & -> & Hobs' & Hg' & Hr' & Ha' & Hl' & Hb').
  split_and!; [done|done| |congruence|congruence|congruence|congruence|].
  - destruct Hobs as (E1 & E2 & E3 & E4 & E5 & E6 & E7).
    destruct Hobs' as (F1 & F2 & F3 & F4 & F5 & F6 & F7).
    split_and!; try congruence.
    + rewrite F6, E6. symmetry. apply last_observed.
    + rewrite F7, E7. symmetry. apply last_observed.
  - intros Hfit. change (body_text ((inner, now) :: polls)) with
      (text_of (inner, now) +:+ body_text polls) in Hfit |- *.
    rewrite str_length_app in Hfit. rewrite Hb', Hb; [by rewrite <- str_app_assoc|lia|].
    rewrite Hb by lia. rewrite str_length_app, Hl. lia.
Qed.

(** Once recorded, nothing is recorded again. *)
Lemma poll_run_recorded polls s : sr_recorded (gs_recorder s) = true ->
  let '(_, s', effects) := poll_run polls s in
  List.filter is_account effects = [] /\ sr_recorded (gs_recorder s') = true.
Proof.
  revert s. induction polls as [|[inner now] polls IH]; intros s Hrec; cbn [poll_run]; [done|].
  assert (let '(_, s1, effects) := poll_next inner now s in
    List.filter is_account effects = [] /\ sr_recorded (gs_recorder s1) = true) as Hstep.
  { destruct inner as [[[chunk|e]|]|]; cbn [poll_next]; try done.
    - unfold buffer_push, observe_chunk. cbn [with_recorder gs_buffer gs_buffer_limit].
      destruct (_ <? _); cbn; by destruct (chunk_usage chunk).
    - unfold recorder_finish. rewrite Hrec. by destruct (negb _ && negb _). }
  destruct (poll_next inner now s) as [[answer s1] effects]. destruct Hstep as [He Hs1].
  specialize (IH s1 Hs1). destruct (poll_run polls s1) as [[answers s'] effects'].
  destruct IH as [He' Hs']. by rewrite List.filter_app, He, He'.
Qed.

Lemma poll_run_app p1 p2 s :
  poll_run (p1 ++ p2) s =
    let '(a1, s1, e1) := poll_run p1 s in
    let '(a2, s2, e2) := poll_run p2 s1 in ((a1 ++ a2)%list, s2, (e1 ++ e2)%list).
Proof.
  revert s. induction p1 as [|[i n] p1 IH]; intros s; cbn [poll_run app].
  { by destruct (poll_run p2 s) as [[a2 s2] e2]. }
  destruct (poll_next i n s) as [[a s1] e]. rewrite IH.
  destruct (poll_run p1 s1) as [[a1 s2] e1]. destruct (poll_run p2 s2) as [[a2 s3] e2].
  cbn. by rewrite app_assoc.
Qed.

(** ** Properties *)

(** The guardrail task of a stream that ended, if it said anything. *)
Definition spawns_for (request : ChatCompletionRequest) (auth : option AuthContext) (text : string)
    : list StreamEffect :=
  if str_is_empty text then [] else [SpawnGuardrails request auth text].

(** C19: A stream is accounted exactly once. The client sees the inner stream's
    answers unchanged. Dropped before its end, a stream reports one record at
    the drop; polled to its end, it reports that record there, spawns the
    guardrails on its text if it had any, and nothing it is polled for or
    dropped after reports again. The record carries the last usage and the
    last error the stream delivered, and the guardrails see the whole text
    whenever it fits the buffer. *)
Theorem stream_accounted_once request auth recorder body now later tdrop :
  sr_recorded recorder = false -> Forall not_end body ->
  let s0 := wrap_stream_with_guardrails request auth recorder in
  let o := outcome_of recorder body now in
  (let '(answers, s, effects) := poll_run body s0 in
   answers = body.*1 /\ effects = [] /\ drop_stream now s = [Account o]) /\
  (let '(answers, s, effects) := poll_run (body ++ [(Ready None, now)]) s0 in
   answers = (body.*1 ++ [Ready None])%list /\
   (exists text, effects = (Account o :: spawns_for request auth text)%list /\
      (Z.of_nat (String.length (body_text body)) <= DEFAULT_STREAM_BUFFER_LIMIT ->
       text = body_text body)) /\
   (let '(_, s', effects') := poll_run later s in
    List.filter is_account effects' = [] /\ drop_stream tdrop s' = [])).
Proof.
  intros Hrec Hbody s0 o. pose proof (poll_run_body body s0 Hbody) as Hrun.
  rewrite poll_run_app. destruct (poll_run body s0) as [[answers s] effects].
  destruct Hrun as (-> & -> & (E1 & E2 & E3 & E4 & E5 & E6 & E7) & Hran & Hreq & Hauth & _ & Hbuf).
  assert (recorder_finish now (gs_recorder s) =
    (Some o, {| sr_provider := sr_provider (gs_recorder s); sr_model := sr_model (gs_recorder s);
        sr_api_key_id := sr_api_key_id (gs_recorder s); sr_started := sr_started (gs_recorder s);
        sr_usage := sr_usage (gs_recorder s); sr_error := sr_error (gs_recorder s);
        sr_recorded := true |})) as Hfin.
  { unfold recorder_finish. rewrite E5, E1, E2, E3, E4, E6, E7. cbn. by rewrite Hrec. }
  split; [split_and!; [done|done|unfold drop_stream; by rewrite Hfin]|].
  cbn [poll_run poll_next]. rewrite Hfin. cbn [with_recorder gs_buffer gs_guardrails_ran gs_request
    gs_auth account_of app].
  rewrite Hran, Hreq, Hauth. cbn [s0 wrap_stream_with_guardrails gs_guardrails_ran gs_request gs_auth
    negb]. rewrite andb_true_r.
  assert (forall s', sr_recorded (gs_recorder s') = true ->
    let '(_, s'', effects') := poll_run later s' in
    List.filter is_account effects' = [] /\ drop_stream tdrop s'' = []) as Hlater.
  { intros s' Hs'. pose proof (poll_run_recorded later s' Hs') as Hl.
    destruct (poll_run later s') as [[a s''] e]. destruct Hl as [-> Hs'']. split; [done|].
    unfold drop_stream, recorder_finish. by rewrite Hs''. }
  destruct (str_is_empty (gs_buffer s)) eqn:Eb; cbn [negb]; (split; [done|]);
    (split; [|by apply Hlater]); exists (gs_buffer s);
    (split; [unfold spawns_for; by rewrite Eb|]); intros Hfit; by apply Hbuf.
Qed.

Section StreamProperties.
Context {W S B RL R Regex A : Type}.
Context `{CircuitBreakerTrait B} `{RateLimiting RL}.
Context (cb_default : B) (out : Outside W Regex).
Context (log_event : (Z -> AuditEvent) -> W -> W).

(** Opening a stream. A streaming request that is refused, by a guard, by
    target selection or by every provider, leaves no audit record at all; one
    that opens is logged once, as a success before any chunk, and its recorder
    starts fresh under the caller's key. Opening never changes the latency
    averages of the strategy. *)
Theorem route_stream_audit (events : W -> list AuditEvent) request auth ip
    (g : Gateway W S B RL R Regex) w :
  unobserved out events g ->
  (forall k p req key w, gw_providers g !! k = Some p ->
     events (prov_complete_stream p req key w).2 = events w) ->
  (forall ev w, exists now, events (log_event ev w) = (events w ++ [ev now])%list) ->
  let '(r, (g', w')) := route_stream cb_default out log_event request auth ip g w in
  gw_strategy g' = gw_strategy g /\
  match r with
  | Err _ => events w' = events w
  | Ok (_, s) =>
      exists ev, events w' = (events w ++ [ev])%list /\
        ae_status ev = AuditSuccess /\ ae_stream ev = true /\ ae_error ev = None /\
        ae_model ev = req_model (gs_request s) /\ ae_key_id ev = sr_api_key_id (gs_recorder s) /\
        sr_recorded (gs_recorder s) = false /\ sr_usage (gs_recorder s) = None /\
        gs_buffer s = ""
  end.
Proof.
  intros Hu Hprov Hlog. unfold route_stream.
  pose proof (prepare_request_wiring out request auth ip g w) as Hw.
  pose proof (prepare_request_obs out events request auth ip g w Hu) as He.
  assert (let '(_, (g1, _)) := prepare_request out request auth ip g w in
    gw_strategy g1 = gw_strategy g) as Hs.
  { unfold prepare_request. destruct (check_rate_limits _ _ _ _) as [limits l].
    destruct (let? _ := limits in _) as [[]|e]; [|done]. destruct (out_uuid out w) as [id w1].
    by destruct (run_before _ _ _) as [[[]|e] [ctx w2]]. }
  destruct (prepare_request out request auth ip g w) as [[ctx|e] [g1 w1]]; [|done].
  destruct Hw as (_ & Hps & _).
  destruct (select_targets out (ctx_request ctx) auth g1 w1) as [ordered|e]; [|done].
  pose proof (failover_preserves (L := InMemoryLatencyStore) cb_default (out_now_ms out)
    (out_instant_ns out) (out_env out) (gw_providers g1) (gw_provider_keys g1)
    (fun provider api_key => prov_complete_stream provider (ctx_request ctx) api_key)
    (fun s => events (fs_world s) = events w1) ordered
    {| fs_breakers := gw_circuit_breakers g1; fs_latency := None; fs_world := w1 |}) as Hf.
  destruct (with_failover _ _ _ _ _ _ _ _ _) as [r st]. cbn in Hf.
  assert (events (fs_world st) = events w) as Hst.
  { rewrite <- He. apply Hf; [|done]. intros c l s _ Hi. unfold attempt.
    destruct (cb_allow _ _) as [[] cb]; cbn [negb]; [|done].
    destruct (gw_providers g1 !! _) as [p|] eqn:Ep; [|done].
    destruct (get_api_key _ _ _) as [key|e]; [|done]. cbn [with_breaker fs_world].
    rewrite Hps in Ep. pose proof (Hprov _ p (ctx_request ctx) key (fs_world s) Ep) as H2.
    destruct (prov_complete_stream p _ key (fs_world s)) as [o w']. cbn in H2 |- *. congruence. }
  destruct r as [[[t [stream|e]] lat]|]; (split; [exact Hs|]); [|done|done].
  destruct (Hlog (stream_start_event auth (ctx_request_id ctx) (target_provider t) (ctx_request ctx))
    (fs_world st)) as [now Hl].
  eexists. rewrite Hl, Hst. split; [reflexivity|]. by split_and!.
Qed.
End StreamProperties.

(** ** Witnesses *)

Definition demo_chunk (text : string) (usage : option Usage) : StreamChunk :=
  {| chunk_id := "c"; chunk_object := "chat.completion.chunk"; chunk_created := 0;
     chunk_model := "gpt-4o";
     chunk_choices := [{| sc_index := 0;
        sc_delta := {| delta_role := None; delta_content := Some text; delta_tool_calls := None |};
        sc_finish_reason := None |}];
     chunk_usage := usage; chunk_system_fingerprint := None |}.

Definition demo_body : list (Poll (option Item) * Z) :=
  [(Pending, 1); (Ready (Some (Ok (demo_chunk "hel" None))), 2);
   (Ready (Some (Ok (demo_chunk "lo" (Some {| usage_prompt_tokens := 1;
      usage_completion_tokens := 2; usage_total_tokens := 3 |})))), 3)].

Lemma stream_accounted_once_witness :
  let '(_, _, effects) := poll_run (demo_body ++ [(Ready None, 5 * 10 ^ 6)])
    (wrap_stream_with_guardrails demo_request None (recorder_new "openai" "gpt-4o" None 0)) in
  exists o, effects = [Account o; SpawnGuardrails demo_request None "hello"] /\
    ao_usage o = Some {| usage_prompt_tokens := 1; usage_completion_tokens := 2;
                         usage_total_tokens := 3 |}.
Proof.
  pose proof (stream_accounted_once demo_request None (recorder_new "openai" "gpt-4o" None 0)
    demo_body (5 * 10 ^ 6) [] 9 eq_refl ltac:(repeat constructor; discriminate)) as [_ Hs].
  revert Hs. destruct (poll_run _ _) as [[answers s] effects].
  intros (_ & (text & -> & Ht) & _). rewrite Ht by (vm_compute; discriminate).
  eexists. split; reflexivity.
Defined.

(** A world that is the audit events. *)
Definition demo_stream_outside : Outside (list AuditEvent) unit :=
  {| out_now_micros := fun _ => 0; out_now_ms := fun _ => 0; out_instant_ns := fun _ => 0;
     out_uuid := fun w => ("id", w);
     out_stamp := fun w => ({| stamp_audit_now := 0; stamp_usage_now := 0; stamp_log_now := 0;
                               stamp_usage_id := "u"; stamp_trace_id := "t" |}, w);
     out_gen_range := fun _ _ _ => None; out_cache_hit := fun w => w; out_cache_miss := fun w => w;
     out_env := fun _ => None; out_to_lowercase := fun s => s; out_is_match := fun _ _ => false |}.

Definition demo_stream_gateway : Gateway (list AuditEvent) unit CircuitBreaker unit unit unit :=
  {| gw_config := default_config; gw_providers := ∅; gw_provider_registry := tt;
     gw_plugin_manager := manager_new; gw_strategy := StSingle; gw_circuit_breakers := ∅;
     gw_targets := cfg_targets default_config; gw_provider_keys := ∅; gw_rate_limiter := tt;
     gw_request_log := 0; gw_response_cache := None; gw_config_history := history_default;
     gw_request_auditor :=
       {| record_full := fun _ _ w => w; record_accounting := fun _ _ w => w |} |}.

(** No client is registered: the stream is refused and nothing is logged. *)
Lemma route_stream_audit_witness :
  let '(_, (_, w')) := route_stream demo_cb demo_stream_outside (fun ev w => (w ++ [ev 0])%list)
    demo_request None None demo_stream_gateway [] in w' = [].
Proof.
  pose proof (route_stream_audit demo_cb demo_stream_outside (fun ev w => (w ++ [ev 0])%list)
    (fun w => w) demo_request None None demo_stream_gateway []) as Hr.
  revert Hr. destruct (route_stream _ _ _ _ _ _ _ _) as [r [g' w']] eqn:E. intros Hr.
  destruct Hr as [_ Hr].
  - split; try done; try (intros ? ? ? Hn; by apply not_elem_of_nil in Hn);
      try (intros ? ? ? ? Hn; by apply not_elem_of_nil in Hn).
  - intros k p req key w Hn. cbn in Hn. by rewrite lookup_empty in Hn.
  - intros ev w. by exists 0.
  - destruct r as [[st s]|e]; [|done]. exfalso. revert E. vm_compute. discriminate.
Defined.
