(* ===== verification/Api.v ===== *)
(** * The API handlers over the request paths
    (src/crates/himadri/src/handlers.rs)

    Chat completions, legacy completions, embeddings, the list of models and the
    read-only statistics. A streamed answer is the open stream with the reading of its
    items; what the client receives is [sse_response] of them. A panic of a request
    closes its connection without an answer. *)

From S2P Require Import Prelude CircuitBreaker Str Float Types Json Errors Config NetGuard RateLimiter Strategy Plugin Usage Auditing Policy Sql KeyStore Provider Failover Gateway ModelStore AdminHandlers Access Http Route Stream.

Inductive ApiAnswer (S : Type) :=
  | Replied (r : Reply)
  | Streaming (stream : S) (guard : GuardrailStream)
      (item : result StreamChunk ProviderError -> result string ProviderError)
  | Dropped.
Arguments Replied {S}.
Arguments Streaming {S}.
Arguments Dropped {S}.

Definition reply_ok (b : Body) : Reply := {| rp_status := 200; rp_retry_after := None; rp_body := b |}.

Section Completions.
Context {W S B RL R Regex : Type}.
Context `{CircuitBreakerTrait B} `{RateLimiting RL}.
Context (cb_default : B) (out : Outside W Regex).
Context (log_event : (Z -> AuditEvent) -> W -> W).
Context (to_str : string -> option string).
(** [serde_json::to_string], of a chunk and of a document. *)
Context (chunk_to_string : StreamChunk -> result string string).
Context (value_to_string : Value -> string).

Local Abbreviation gateway := (Gateway W S B RL R Regex).

Definition failure_answer (e : Failure) : ApiAnswer S :=
  match e with
  | Panicked => Dropped
  | Failed e => Replied (error_to_response e)
  end.

Definition chat_completions (request : ChatCompletionRequest) (auth : option AuthContext)
    (peer : IpAddr) (headers : Headers) (g : gateway) (w : W) : ApiAnswer S * (gateway * W) :=
  let remote_ip := resolve_remote_ip to_str peer headers in
  if req_stream request then
    match route_stream cb_default out log_event request auth remote_ip g w with
    | (Ok (stream, guard), s) => (Streaming stream guard (chat_item chunk_to_string), s)
    | (Err e, s) => (failure_answer e, s)
    end
  else
    match route cb_default out request auth remote_ip g w with
    | (Ok response, s) => (Replied (reply_ok (BodyCompletion response)), s)
    | (Err e, s) => (failure_answer e, s)
    end.

(** A request that cannot be translated is answered before the gateway sees it. *)
Definition completions (serde_error : Value -> string) (request : LegacyCompletionRequest)
    (auth : option AuthContext) (peer : IpAddr) (headers : Headers) (g : gateway) (w : W)
    : ApiAnswer S * (gateway * W) :=
  let remote_ip := resolve_remote_ip to_str peer headers in
  let stream := lc_stream request in
  match legacy_to_chat serde_error request with
  | Err e => (Replied (api_error_reply e), (g, w))
  | Ok chat_request =>
      if stream then
        match route_stream cb_default out log_event chat_request auth remote_ip g w with
        | (Ok (stream, guard), s) => (Streaming stream guard (text_item value_to_string), s)
        | (Err e, s) => (failure_answer e, s)
        end
      else
        match route cb_default out chat_request auth remote_ip g w with
        | (Ok response, s) =>
            (Replied (reply_ok (BodyValue (chat_to_text_completion response))), s)
        | (Err e, s) => (failure_answer e, s)
        end
  end.

Definition embeddings (request : EmbeddingRequest) (auth : option AuthContext) (g : gateway) (w : W)
    : Reply * (gateway * W) :=
  match embed out request auth g w with
  | (Ok response, s) => (reply_ok (BodyEmbeddings response), s)
  | (Err e, s) => (error_to_response e, s)
  end.

(** ** The list of models and the statistics *)

(** [names] is [list_providers]: the keys of the client table, in its order. *)
Definition provider_models (names : list string) (g : gateway) : list ModelObject :=
  flat_map (fun name =>
    match gw_providers g !! name with
    | Some provider =>
        (fun id => {| mo_id := id; mo_object := "model"; mo_created := 0; mo_owned_by := name |})
          <$> prov_supported_models provider
    | None => []
    end) names.

Definition list_models_handler {T} (timestamp : Z -> Z) (h : AdminHandlers (T := T))
    (names : list string) (g : gateway) (t : T) : ModelListResponse * T :=
  let '(r, t) := list_enabled_models_for_api timestamp h t in
  let admin_models := match r with Ok l => l | Err _ => [] end in
  let data := match admin_models with [] => provider_models names g | _ => admin_models end in
  ({| ml_object := "list"; ml_data := data |}, t).

End Completions.

Definition health (version : string) : Value :=
  json_object [("status", VString "ok"); ("version", VString version)].

Definition known_providers : Value :=
  json_object [("data", VArray (VString <$> KNOWN_PROVIDER_TYPES))].

Section Statistics.
Context (iter : gmap string agg -> list (string * agg)).

(** [keys] is the key store's answer to a list. *)
Definition dashboard (keys : result (list KeyStore.ApiKey) AdminError) (s : UsageStore)
    : DashboardSummary :=
  get_dashboard iter (match keys with Ok l => Z.of_nat (length l) | Err _ => 0 end) s.

(** The totals of the dashboard, its keys and errors left out. *)
Definition usage_stats (s : UsageStore) : Z * Z * f64 * f64 * f64 * list ModelUsage * list ProviderUsage :=
  let d := get_dashboard iter 0 s in
  (ds_total_requests d, ds_total_tokens d, ds_total_cost_usd d, ds_avg_latency_ms d, ds_error_rate d,
   ds_top_models d, ds_top_providers d).

Definition key_usage_stats (iter_set : gset string -> list string) (key_id : string) (s : UsageStore)
    : UsageStats := get_key_stats iter_set key_id s.

Definition log_error (m : string) : ApiError := {| api_status := 500; api_message := m |}.

Definition list_logs {L} `{RequestLogStore L} (q : RequestLogQuery) (l : L)
    : result RequestLogListResult ApiError := map_err log_error (log_list q l).

Definition delete_logs {L} `{RequestLogStore L} (q : MaintenanceQuery) (l : L)
    : result Value ApiError * L :=
  let '(r, l) := log_delete q l in
  (match r with
   | Ok deleted => Ok (json_object [("deleted", VNumber (PosInt (Z.of_nat deleted)))])
   | Err e => Err (log_error e)
   end, l).
End Statistics.

(** ** Properties *)

(** The legacy form of an answer. *)
Definition legacy_reply (r : Reply) : Reply :=
  match rp_body r with
  | BodyCompletion c =>
      {| rp_status := rp_status r; rp_retry_after := rp_retry_after r;
         rp_body := BodyValue (chat_to_text_completion c) |}
  | _ => r
  end.

Definition legacy_answer {S} (value_to_string : Value -> string) (a : ApiAnswer S) : ApiAnswer S :=
  match a with
  | Replied r => Replied (legacy_reply r)
  | Streaming s guard _ => Streaming s guard (text_item value_to_string)
  | Dropped => Dropped
  end.

Section Legacy.
Context {W S B RL R Regex : Type}.
Context `{CircuitBreakerTrait B} `{RateLimiting RL}.
Context (cb_default : B) (out : Outside W Regex).
Context (log_event : (Z -> AuditEvent) -> W -> W).
Context (to_str : string -> option string).
Context (chunk_to_string : StreamChunk -> result string string).
Context (value_to_string : Value -> string).

Lemma legacy_failure e : legacy_answer value_to_string (failure_answer (S := S) e) = failure_answer e.
Proof. by destruct e as [|e]. Qed.

Lemma legacy_stream_kept serde_error request chat :
  legacy_to_chat serde_error request = Ok chat -> req_stream chat = lc_stream request.
Proof.
  unfold legacy_to_chat. destruct (str_is_empty _); [done|].
  destruct (legacy_stop (lc_stop request)) as [v|]; [|by intros [= <-]].
  destruct (read_stop serde_error v); [by intros [= <-]|done].
Qed.

(** C30: The legacy endpoint is the chat endpoint. A legacy request that can be translated is handled exactly
    as its translation posted to the chat endpoint: the same effects on the gateway and the
    world, and the same answer in the legacy format, whether it fails, streams or completes;
    one that cannot is refused with 400 and no effect at all. *)
Theorem completions_are_chat serde_error request auth peer headers (g : Gateway W S B RL R Regex) w :
  completions cb_default out log_event to_str value_to_string serde_error request auth peer headers g w =
  match legacy_to_chat serde_error request with
  | Ok chat =>
      let '(a, s) := chat_completions cb_default out log_event to_str chunk_to_string chat auth peer
                       headers g w in
      (legacy_answer value_to_string a, s)
  | Err e => (Replied (api_error_reply e), (g, w))
  end.
Proof.
  unfold completions, chat_completions.
  destruct (legacy_to_chat serde_error request) as [chat|e] eqn:E; [|done].
  rewrite (legacy_stream_kept _ _ _ E). destruct (lc_stream request).
  - destruct (route_stream _ _ _ _ _ _ _ _) as [[[stream guard]|e] s]; [done|]. by rewrite legacy_failure.
  - destruct (route _ _ _ _ _ _ _) as [[response|e] s]; [done|]. by rewrite legacy_failure.
Qed.

End Legacy.

(** The items a client is given by its polls. *)
Definition ready_items (answers : list (Poll (option Item))) : list Item :=
  omap (fun a => match a with Ready (Some i) => Some i | _ => None end) answers.

(** The guardrail wrapper is invisible: the events of the wrapped stream are the events of the
    stream inside, whatever the buffer, the recorder and the guardrails do with it. *)
Theorem wrapper_invisible to_string (item : Item -> result string ProviderError) request auth recorder body now :
  Forall not_end body ->
  let '(answers, _, _) :=
    poll_run (body ++ [(Ready None, now)])%list (wrap_stream_with_guardrails request auth recorder) in
  sse_response to_string (item <$> ready_items answers) =
    sse_response to_string (item <$> ready_items body.*1).
Proof.
  intros Hb. rewrite poll_run_app.
  pose proof (poll_run_body body (wrap_stream_with_guardrails request auth recorder) Hb) as Hr.
  destruct (poll_run body _) as [[a1 s1] e1]. destruct Hr as (-> & _).
  cbn [poll_run poll_next]. destruct (recorder_finish now (gs_recorder s1)) as [o r].
  assert (forall l, ready_items (l ++ [Ready None]) = ready_items l) as Hl.
  { intros l. unfold ready_items. by rewrite omap_app, app_nil_r. }
  destruct (negb _ && negb _); by rewrite Hl.
Qed.

(** The catalogue of a gateway without a database: each model of each client, owned by it. *)
Theorem fallback_catalogue {W S B RL R Regex} (names : list string) (g : Gateway W S B RL R Regex) :
  names ≡ₚ (map_to_list (gw_providers g)).*1 ->
  forall o, o ∈ provider_models names g <->
    exists name p id, gw_providers g !! name = Some p /\ id ∈ prov_supported_models p /\
      o = {| mo_id := id; mo_object := "model"; mo_created := 0; mo_owned_by := name |}.
Proof.
  intros Hn o. unfold provider_models. rewrite list_elem_of_In, in_flat_map. split.
  - intros (name & _ & Ho). destruct (gw_providers g !! name) as [p|] eqn:E; [|done].
    apply list_elem_of_In, list_elem_of_fmap in Ho as (id & -> & Hid). by exists name, p, id.
  - intros (name & p & id & Hp & Hid & ->). exists name. split.
    + apply list_elem_of_In. rewrite Hn. apply list_elem_of_fmap. exists (name, p). split; [done|].
      by apply elem_of_map_to_list.
    + rewrite Hp. apply list_elem_of_In, list_elem_of_fmap. by exists id.
Qed.
