(* ===== verification/Handlers.v ===== *)
(** * The handlers over the gateway and the stores
    (src/crates/himadri/src/handlers.rs)

    [AppState] is the gateway and the state of the model and endpoint stores; a
    handler takes it and gives a response or an [ApiError], and the state. After a
    change of models or endpoints the live targets are rebuilt from the stores, and
    after a change of configuration they are put back on top of it: the properties
    say that the targets therefore follow the database. A handler runs alone. The
    handlers of keys, and all but those of the completions and the statistics (Api.v),
    are here too. *)

From S2P Require Import Prelude CircuitBreaker Str Float Types Json Errors Config NetGuard RateLimiter Strategy Plugin Usage Auditing Policy Sql KeyStore KeySql ModelStore Provider Failover Gateway AdminHandlers Access Http Route Stream.
From Stdlib Require Import Permutation.

(** ** State and handlers *)

Section AppState.
Context {W S B RL R Regex T : Type}.

Record AppState := { app_gateway : Gateway W S B RL R Regex; app_store : T }.

(** A handler, and the [?] operator in one. *)
Definition Handler (A : Type) : Type := AppState -> result A ApiError * AppState.

Definition handler_ret {A} (a : A) : Handler A := fun st => (Ok a, st).
Definition handler_err {A} (e : ApiError) : Handler A := fun st => (Err e, st).
Definition handler_bind {A C} (m : Handler A) (k : A -> Handler C) : Handler C := fun st =>
  match m st with
  | (Ok a, st) => k a st
  | (Err e, st) => (Err e, st)
  end.

(** A call of the admin facade, its error mapped; and the bare call. *)
Definition call {A} (m : T -> result A AdminError * T) : AppState -> result A AdminError * AppState :=
  fun st => let '(r, t) := m (app_store st) in (r, {| app_gateway := app_gateway st; app_store := t |}).

Definition store_call {A} (m : T -> result A AdminError * T) : Handler A := fun st =>
  let '(r, st) := call m st in (map_err api_error_of_admin r, st).

(** [.ok_or_else(ApiError::not_found)] *)
Definition found {A} (o : option A) : Handler A :=
  match o with Some a => handler_ret a | None => handler_err api_not_found end.

End AppState.
Arguments AppState W S B RL R Regex T : clear implicits.
Arguments Handler W S B RL R Regex T A : clear implicits.

Declare Scope handler_scope.
Delimit Scope handler_scope with handler.
Notation "'let*' x ':=' m 'in' k" := (handler_bind m (fun x => k))
  (at level 10, x pattern, m at level 200, k at level 200) : handler_scope.

(** [redact_endpoint] *)
Definition redact_endpoint (e : ModelEndpoint) : ModelEndpoint :=
  match ep_api_key e with Some _ => with_endpoint_key None e | None => e end.

(** [default_true] of [ToggleBody]. *)
Definition toggle_enabled (body : option bool) : bool := default true body.

(** ** Models and endpoints *)

Section Admin.
Context {W S B RL R Regex T : Type} `{ProviderRegistry R (Provider W S)}.
Context (env : string -> option string) (h : AdminHandlers (T := T)).
Local Open Scope handler_scope.

Local Abbreviation State := (AppState W S B RL R Regex T).
Local Abbreviation handler := (Handler W S B RL R Regex T).

(** Both lists are read, whether or not the first can be. *)
Definition rebuild_with (on_empty : Gateway W S B RL R Regex -> OnEmpty) (st : State) : State :=
  let '(models, t) := list_models h (app_store st) in
  let '(endpoints, t) := list_endpoints h t in
  match models, endpoints with
  | Ok models, Ok endpoints =>
      {| app_gateway :=
           (rebuild_targets_from_db models endpoints (on_empty (app_gateway st)) (app_gateway st)).2;
         app_store := t |}
  | _, _ => {| app_gateway := app_gateway st; app_store := t |}
  end.

Definition rebuild_targets : State -> State :=
  rebuild_with (fun g => if db_owns_routing g then OnEmptyApply else KeepPrevious).

Definition reassert_db_targets_after_config : State -> State :=
  rebuild_with (fun _ => KeepPrevious).

Definition unroutable_hint : string :=
  ". Use a built-in provider type (see GET /admin/known-providers), or supply a base_url to route a custom vendor through a generic OpenAI-compatible client.".

Definition validate_endpoint_provider (provider_type : string) (base_url : option string)
    : handler unit := fun st =>
  (map_err (fun e => {| api_status := 400;
                        api_message := provider_error_to_string e +:+ unroutable_hint |})
     (reg_validate (gw_provider_registry (app_gateway st)) provider_type base_url), st).

Definition created {A} (m : State -> result A AdminError * State) : handler (Z * A) := fun st =>
  match m st with
  | (Ok v, st) => (Ok (201, v), rebuild_targets st)
  | (Err e, st) => (Err (api_error_of_admin e), st)
  end.

Definition updated {A} (m : State -> result (option A) AdminError * State) : handler A := fun st =>
  match m st with
  | (Ok (Some v), st) => (Ok v, rebuild_targets st)
  | (Ok None, st) => (Err api_not_found, st)
  | (Err e, st) => (Err (api_error_of_admin e), st)
  end.

Definition deleted (m : State -> result bool AdminError * State) : handler Z := fun st =>
  match m st with
  | (Ok true, st) => (Ok 204, rebuild_targets st)
  | (Ok false, st) => (Err api_not_found, st)
  | (Err e, st) => (Err (api_error_of_admin e), st)
  end.

(** [result.map(redact_endpoint)], in each of its shapes. *)
Definition redacted {A} (f : A -> A) (m : State -> result A AdminError * State)
    : State -> result A AdminError * State := fun st =>
  let '(r, st) := m st in (match r with Ok a => Ok (f a) | Err e => Err e end, st).

Definition list_models_api : handler (list Model) := store_call (list_models h).

Definition create_model_api (r : CreateModelRequest) : handler (Z * Model) :=
  created (call (create_model h r)).

Definition get_model_api (id : string) : handler Model :=
  let* m := store_call (get_model h id) in found m.

Definition update_model_api (id : string) (r : UpdateModelRequest) : handler Model :=
  updated (call (update_model h id r)).

Definition delete_model_api (id : string) : handler Z := deleted (call (delete_model h id)).

Definition toggle_model_api (id : string) (body : option bool) : handler Model :=
  updated (call (toggle_model h id (toggle_enabled body))).

Definition list_all_model_endpoints : handler (list ModelEndpoint) :=
  let* l := store_call (list_endpoints h) in handler_ret (redact_endpoint <$> l).

Definition list_model_endpoints (mid : string) : handler (list ModelEndpoint) :=
  let* l := store_call (list_endpoints_by_model h mid) in handler_ret (redact_endpoint <$> l).

Definition create_model_endpoint (mid : string) (r : CreateModelEndpointRequest)
    : handler (Z * ModelEndpoint) :=
  let* _ := validate_endpoint_provider (ce_provider_type r) (ce_base_url r) in
  created (redacted redact_endpoint (call (create_endpoint env h mid r))).

Definition get_model_endpoint (id : string) : handler ModelEndpoint :=
  let* e := store_call (get_endpoint h id) in found (redact_endpoint <$> e).

Definition update_model_endpoint (id : string) (r : UpdateModelEndpointRequest)
    : handler ModelEndpoint :=
  let* e := store_call (get_endpoint h id) in
  let* current := found e in
  let pair := effective_routing_pair r current in
  let* _ := validate_endpoint_provider pair.1 pair.2 in
  updated (redacted (fmap redact_endpoint) (call (update_endpoint env h id r))).

Definition delete_model_endpoint (id : string) : handler Z := deleted (call (delete_endpoint h id)).

Definition toggle_model_endpoint (id : string) (body : option bool) : handler ModelEndpoint :=
  let enabled := toggle_enabled body in
  let toggle := updated (redacted (fmap redact_endpoint) (call (toggle_endpoint h id enabled))) in
  if enabled then
    let* e := store_call (get_endpoint h id) in
    let* current := found e in
    let* _ := validate_endpoint_provider (ep_provider_type current) (ep_base_url current) in
    toggle
  else toggle.

End Admin.

(** ** Configuration *)

Section Configuration.
Context {W S B RL R Regex T : Type}.
Context `{CircuitBreakerTrait B} `{RateLimiting RL} `{ProviderRegistry R (Provider W S)}.
Context (env : string -> option string) (regex_new : string -> option Regex).
Context (h : AdminHandlers (T := T)).

Local Abbreviation State := (AppState W S B RL R Regex T).
Local Abbreviation handler := (Handler W S B RL R Regex T).

(** An operation of the gateway, then the targets of the database again. *)
Definition applying {A} (answer : A)
    (op : Gateway W S B RL R Regex -> result unit GatewayError * Gateway W S B RL R Regex)
    : handler A := fun st =>
  let '(r, g) := op (app_gateway st) in
  let st := {| app_gateway := g; app_store := app_store st |} in
  match r with
  | Ok _ => (Ok answer, reassert_db_targets_after_config h st)
  | Err e => (Err {| api_status := 400; api_message := gateway_error_to_string e |}, st)
  end.

Definition status_value (status : string) : Value := json_object [("status", VString status)].

(** [loaded] is [Config::load_from_env], which reads the file. *)
Definition reload_config_api (now : Z) (loaded : result Config ConfigError) : handler Value :=
  match loaded with
  | Err e => handler_err {| api_status := 400;
                            api_message := "Failed to load config: " +:+ config_error_to_string e |}
  | Ok new_config => applying (status_value "reloaded") (reload_config regex_new now new_config)
  end.

Definition update_config_api (now : Z) (new_config : Config) : handler Value :=
  applying (status_value "updated") (reload_config regex_new now new_config).

Definition config_rollback (now version : Z) : handler Value :=
  applying (json_object [("status", VString "rolled_back"); ("version", u32_value version)])
    (rollback_config regex_new now version).

Definition get_config_api : handler Config := fun st => (Ok (gw_config (app_gateway st)), st).

Definition config_history_api : handler (list ConfigHistoryEntry * Config) := fun st =>
  (Ok (config_history (app_gateway st), gw_config (app_gateway st)), st).

(** *** The routes of models, endpoints and configuration (main.rs, [build_router]) *)

Inductive AdminRequest :=
  | ListModels
  | CreateModel (r : CreateModelRequest)
  | GetModel (id : string)
  | UpdateModel (id : string) (r : UpdateModelRequest)
  | DeleteModel (id : string)
  | ToggleModel (id : string) (enabled : option bool)
  | ListAllEndpoints
  | ListModelEndpoints (model_id : string)
  | CreateEndpoint (model_id : string) (r : CreateModelEndpointRequest)
  | GetEndpoint (id : string)
  | UpdateEndpoint (id : string) (r : UpdateModelEndpointRequest)
  | DeleteEndpoint (id : string)
  | ToggleEndpoint (id : string) (enabled : option bool)
  | GetConfig
  | UpdateConfig (now : Z) (c : Config)
  | ConfigHistoryOf
  | RollbackConfig (now version : Z)
  | ReloadConfig (now : Z) (loaded : result Config ConfigError).

Inductive AdminAnswer :=
  | AnswerModels (l : list Model)
  | AnswerModel (status : Z) (m : Model)
  | AnswerEndpoints (l : list ModelEndpoint)
  | AnswerEndpoint (status : Z) (e : ModelEndpoint)
  | AnswerNothing (status : Z)
  | AnswerConfig (c : Config)
  | AnswerHistory (l : list ConfigHistoryEntry) (c : Config)
  | AnswerValue (v : Value).

Definition answering {A} (f : A -> AdminAnswer) (m : handler A) : handler AdminAnswer := fun st =>
  let '(r, st) := m st in (match r with Ok a => Ok (f a) | Err e => Err e end, st).

Definition serve (r : AdminRequest) : handler AdminAnswer :=
  match r with
  | ListModels => answering AnswerModels (list_models_api h)
  | CreateModel r => answering (fun a => AnswerModel a.1 a.2) (create_model_api h r)
  | GetModel id => answering (AnswerModel 200) (get_model_api h id)
  | UpdateModel id r => answering (AnswerModel 200) (update_model_api h id r)
  | DeleteModel id => answering AnswerNothing (delete_model_api h id)
  | ToggleModel id b => answering (AnswerModel 200) (toggle_model_api h id b)
  | ListAllEndpoints => answering AnswerEndpoints (list_all_model_endpoints h)
  | ListModelEndpoints mid => answering AnswerEndpoints (list_model_endpoints h mid)
  | CreateEndpoint mid r => answering (fun a => AnswerEndpoint a.1 a.2) (create_model_endpoint env h mid r)
  | GetEndpoint id => answering (AnswerEndpoint 200) (get_model_endpoint h id)
  | UpdateEndpoint id r => answering (AnswerEndpoint 200) (update_model_endpoint env h id r)
  | DeleteEndpoint id => answering AnswerNothing (delete_model_endpoint h id)
  | ToggleEndpoint id b => answering (AnswerEndpoint 200) (toggle_model_endpoint h id b)
  | GetConfig => answering AnswerConfig get_config_api
  | UpdateConfig now c => answering AnswerValue (update_config_api now c)
  | ConfigHistoryOf => answering (fun a => AnswerHistory a.1 a.2) config_history_api
  | RollbackConfig now v => answering AnswerValue (config_rollback now v)
  | ReloadConfig now loaded => answering AnswerValue (reload_config_api now loaded)
  end.

Definition serve_all (rs : list AdminRequest) (st : State) : State :=
  foldl (fun st r => (serve r st).2) st rs.

End Configuration.

(** ** API keys *)

Section Keys.
Context `{TimeText, JsonText}.
Context (sha256_hex : string -> string) (uuid_text : Z -> string) (parse_uuid : string -> option Z).
Context (order_by : forall Row, (Row -> Row -> bool) -> list Row -> list Row).
Context (entries : gmap string ApiKey -> list ApiKey).

Definition key_found (r : result (option ApiKey) AdminError) : result ApiKey ApiError :=
  match r with
  | Ok (Some k) => Ok k
  | Ok None => Err api_not_found
  | Err e => Err (api_error_of_admin e)
  end.

Definition key_gone (status : Z) (r : result bool AdminError) : result Z ApiError :=
  match r with
  | Ok true => Ok status
  | Ok false => Err api_not_found
  | Err e => Err (api_error_of_admin e)
  end.

Definition list_keys_api (b : StoreBackend) : result (list ApiKey) ApiError * StoreBackend :=
  let '(r, b) := backend_list uuid_text order_by entries b in (map_err api_error_of_admin r, b).

(** 201 with the key, its secret in the clear. *)
Definition create_key_api (u secret_u now : Z) (r : CreateApiKeyRequest) (b : StoreBackend)
    : result (Z * ApiKey) ApiError * StoreBackend :=
  let '(r, b) := backend_create sha256_hex uuid_text u secret_u now r b in
  (match r with Ok k => Ok (201, k) | Err e => Err (api_error_of_admin e) end, b).

Definition get_key_api (id : string) (b : StoreBackend) :=
  let '(r, b) := backend_get uuid_text parse_uuid id b in (key_found r, b).

Definition update_key_api (id : string) (r : UpdateApiKeyRequest)
    (b : StoreBackend) :=
  let '(r, b) := backend_update uuid_text parse_uuid id r b in (key_found r, b).

Definition delete_key_api (id : string) (b : StoreBackend) :=
  let '(r, b) := backend_delete parse_uuid id b in (key_gone 204 r, b).

Definition revoke_key_api (id : string) (b : StoreBackend) :=
  let '(r, b) := backend_revoke parse_uuid id b in (key_gone 200 r, b).

Definition rotate_key_api (id : string) (secret_u : Z)
    (b : StoreBackend) :=
  let '(r, b) := backend_rotate sha256_hex uuid_text parse_uuid id secret_u b in (key_found r, b).

End Keys.

(** ** Proofs: refusals and secrets *)

Section Answers.
Context {W S B RL R Regex T : Type}.
Context `{CircuitBreakerTrait B} `{RateLimiting RL} `{ProviderRegistry R (Provider W S)}.
Context (env : string -> option string) (regex_new : string -> option Regex).
Context (h : AdminHandlers (T := T)).

Local Abbreviation State := (AppState W S B RL R Regex T).
Local Abbreviation handler := (Handler W S B RL R Regex T).
Local Abbreviation serve := (serve env regex_new h).

(** What a handler that fails leaves alone. *)
Definition gentle {A} (m : handler A) : Prop :=
  forall st e st', m st = (Err e, st') -> app_gateway st' = app_gateway st.

(** And what it gives when it does not touch the gateway at all. *)
Definition pure_handler {A} (m : handler A) : Prop := forall st, app_gateway (m st).2 = app_gateway st.

Lemma gentle_pure {A} (m : handler A) : pure_handler m -> gentle m.
Proof. intros Hm st e st' E. specialize (Hm st). by rewrite E in Hm. Qed.

Lemma gentle_bind {A C} (m : handler A) (k : A -> handler C) :
  pure_handler m -> (forall a, gentle (k a)) -> gentle (handler_bind m k).
Proof.
  intros Hm Hk st e st'. unfold handler_bind. specialize (Hm st).
  destruct (m st) as [[a|e1] st1]; cbn in Hm; [|by intros [= <- <-]].
  intros E. apply Hk in E. congruence.
Qed.

Lemma call_gateway {A} (m : T -> result A AdminError * T) (st : State) :
  app_gateway (call m st).2 = app_gateway st.
Proof. unfold call. by destruct (m (app_store st)). Qed.

Lemma store_call_pure {A} (m : T -> result A AdminError * T) : pure_handler (store_call m).
Proof. intros st. unfold store_call, call. by destruct (m (app_store st)). Qed.

Lemma found_pure {A} (o : option A) : pure_handler (found o).
Proof. by destruct o. Qed.

Lemma validate_pure t u : pure_handler (validate_endpoint_provider t u).
Proof. done. Qed.

Lemma redacted_call_gateway {A} (f : A -> A) (m : T -> result A AdminError * T) (st : State) :
  app_gateway (redacted f (call m) st).2 = app_gateway st.
Proof. unfold redacted, call. by destruct (m (app_store st)). Qed.

Lemma created_gentle {A} (m : State -> result A AdminError * State) :
  (forall st, app_gateway (m st).2 = app_gateway st) -> gentle (created h m).
Proof.
  intros Hm st e st'. unfold created. specialize (Hm st).
  destruct (m st) as [[a|e1] st1]; [done|]. by intros [= <- <-].
Qed.

Lemma updated_gentle {A} (m : State -> result (option A) AdminError * State) :
  (forall st, app_gateway (m st).2 = app_gateway st) -> gentle (updated h m).
Proof.
  intros Hm st e st'. unfold updated. specialize (Hm st).
  destruct (m st) as [[[a|]|e1] st1]; [done|..]; by intros [= <- <-].
Qed.

Lemma deleted_gentle (m : State -> result bool AdminError * State) :
  (forall st, app_gateway (m st).2 = app_gateway st) -> gentle (deleted h m).
Proof.
  intros Hm st e st'. unfold deleted. specialize (Hm st).
  destruct (m st) as [[[]|e1] st1]; [done|..]; by intros [= <- <-].
Qed.

Lemma answering_gentle {A} (f : A -> AdminAnswer) (m : handler A) : gentle m -> gentle (answering f m).
Proof.
  intros Hm st e st'. unfold answering. destruct (m st) as [[a|e1] st1] eqn:E; [done|].
  intros [= <- <-]. by apply Hm in E.
Qed.

Lemma applying_gentle {A} (a : A) op :
  (forall g e g', op g = (Err e, g') -> g' = g) -> gentle (applying h a op).
Proof.
  intros Hop st e st'. unfold applying.
  destruct (op (app_gateway st)) as [[]  g'] eqn:E; [done|].
  intros [= <- <-]. cbn. by eapply Hop.
Qed.

Lemma reload_error now c (g g' : Gateway W S B RL R Regex) e :
  reload_config regex_new now c g = (Err e, g') -> g' = g.
Proof. unfold reload_config. destruct (apply_config _ c g); [done|]. by intros [= _ <-]. Qed.

Lemma rollback_error now v (g g' : Gateway W S B RL R Regex) e :
  rollback_config regex_new now v g = (Err e, g') -> g' = g.
Proof.
  unfold rollback_config. destruct (find_version _ _) as [c|]; [|by intros [= _ <-]].
  destruct (apply_config _ c g); [done|]. by intros [= _ <-].
Qed.

Ltac gentle :=
  repeat first
    [ apply store_call_pure | apply found_pure | apply validate_pure
    | apply created_gentle; intros ?; (apply call_gateway || apply redacted_call_gateway)
    | apply updated_gentle; intros ?; (apply call_gateway || apply redacted_call_gateway)
    | apply deleted_gentle; intros ?; apply call_gateway
    | apply applying_gentle; intros ? ? ?; (apply reload_error || apply rollback_error)
    | apply gentle_bind; [|intros ?]
    | apply gentle_pure; solve [apply store_call_pure | apply found_pure | done] ].

(** C27: A refused admin request. Whatever the request, the stores and the reason, a response that is
    an error leaves the gateway exactly as it was: targets, clients, keys, breakers, limits,
    configuration and history. *)
Theorem failed_request_keeps_gateway (r : AdminRequest) (st st' : State) e :
  serve r st = (Err e, st') -> app_gateway st' = app_gateway st.
Proof.
  revert st e st'. change (gentle (serve r)).
  destruct r; cbn [Handlers.serve]; apply answering_gentle;
    unfold list_models_api, create_model_api, get_model_api, update_model_api, delete_model_api,
      toggle_model_api, list_all_model_endpoints, list_model_endpoints, create_model_endpoint,
      get_model_endpoint, update_model_endpoint, delete_model_endpoint, update_config_api,
      config_rollback; try solve [gentle].
  - unfold toggle_model_endpoint. destruct (toggle_enabled enabled); gentle.
  - destruct loaded; cbn [reload_config_api]; gentle.
Qed.

(** What the answers of a handler satisfy. *)
Definition answers {A} (P : A -> Prop) (m : handler A) : Prop :=
  forall st a st', m st = (Ok a, st') -> P a.

Lemma answers_bind {A C} P (m : handler A) (k : A -> handler C) :
  (forall a, answers P (k a)) -> answers P (handler_bind m k).
Proof.
  intros Hk st c st'. unfold handler_bind. destruct (m st) as [[a|e] st1]; [|done]. apply Hk.
Qed.

Lemma answers_ret {A} (P : A -> Prop) (a : A) : P a -> answers P (handler_ret (W := W) (S := S) (B := B)
  (RL := RL) (R := R) (Regex := Regex) (T := T) a).
Proof. by intros Ha st b st' [= <- <-]. Qed.

Lemma answers_found {A} (P : A -> Prop) (f : A -> A) (o : option A) : (forall a, P (f a)) ->
  answers P (found (W := W) (S := S) (B := B) (RL := RL) (R := R) (Regex := Regex) (T := T) (f <$> o)).
Proof. intros Hf. by destruct o; [apply answers_ret|]. Qed.

Lemma answers_created {A} (P : A -> Prop) (f : A -> A) m : (forall a, P (f a)) ->
  answers (fun a : Z * A => P a.2) (created h (redacted f m)).
Proof.
  intros Hf st a st'. unfold created, redacted. destruct (m st) as [[x|e] st1]; [|done].
  intros [= <- <-]. apply Hf.
Qed.

Lemma answers_updated {A} (P : A -> Prop) (f : A -> A) m : (forall a, P (f a)) ->
  answers P (updated h (redacted (fmap f) m)).
Proof.
  intros Hf st a st'. unfold updated, redacted. destruct (m st) as [[[x|]|e] st1]; [|done..].
  intros [= <- <-]. apply Hf.
Qed.

Definition keyless (e : ModelEndpoint) : Prop := ep_api_key e = None.

Lemma redact_keyless e : keyless (redact_endpoint e).
Proof. unfold redact_endpoint, keyless. by destruct (ep_api_key e) eqn:E. Qed.

Lemma redact_keyless_all l : Forall keyless (redact_endpoint <$> l).
Proof. apply Forall_fmap, Forall_true. intros e. apply redact_keyless. Qed.

Definition answer_endpoints (a : AdminAnswer) : list ModelEndpoint :=
  match a with AnswerEndpoints l => l | AnswerEndpoint _ e => [e] | _ => [] end.

Lemma answers_answering {A} (f : A -> AdminAnswer) (m : handler A) P :
  answers P m -> (forall a, P a -> Forall keyless (answer_endpoints (f a))) ->
  answers (fun a => Forall keyless (answer_endpoints a)) (answering f m).
Proof.
  intros Hm Hf st a st'. unfold answering. destruct (m st) as [[x|e] st1] eqn:E; [|done].
  intros [= <- <-]. apply Hf. by eapply Hm.
Qed.

Lemma one_keyless {A} (f : A -> ModelEndpoint) (a : A) : keyless (f a) -> Forall keyless [f a].
Proof. by repeat constructor. Qed.

(** C28: Secrets. No answer of the admin API, to any request in any state, holds the key of an
    endpoint. *)
Theorem answers_hide_keys (r : AdminRequest) (st st' : State) a :
  serve r st = (Ok a, st') -> Forall keyless (answer_endpoints a).
Proof.
  revert st a st'. change (answers (fun a => Forall keyless (answer_endpoints a)) (serve r)).
  destruct r; cbn [Handlers.serve]; try (apply (answers_answering _ _ (fun _ => True)); [done|by intros; constructor]).
  - eapply answers_answering with (P := Forall keyless); [|done]. apply answers_bind. intros l.
    apply answers_ret, redact_keyless_all.
  - eapply answers_answering with (P := Forall keyless); [|done]. apply answers_bind. intros l.
    apply answers_ret, redact_keyless_all.
  - eapply answers_answering; [|intros a; apply (one_keyless snd)]. apply answers_bind. intros _.
    apply answers_created, redact_keyless.
  - eapply answers_answering; [|intros a; apply (one_keyless (fun e => e))]. apply answers_bind. intros e.
    apply answers_found, redact_keyless.
  - eapply answers_answering; [|intros a; apply (one_keyless (fun e => e))]. do 3 (apply answers_bind; intros ?).
    apply answers_updated, redact_keyless.
  - eapply answers_answering; [|intros a; apply (one_keyless (fun e => e))]. unfold toggle_model_endpoint.
    destruct (toggle_enabled enabled); [do 3 (apply answers_bind; intros ?)|];
      apply answers_updated, redact_keyless.
Qed.

End Answers.

(** ** Proofs: the targets follow the database *)

(** What the handlers rely on of the two stores: the lists show what is stored, reading
    changes nothing, a refused change leaves both lists as they were, and the only
    endpoints a change can bring are the one it was asked for. [pair] is what decides
    whether an endpoint can be built. *)
Definition pair_of (e : ModelEndpoint) : string * option string := (ep_provider_type e, ep_base_url e).

Definition effected {A} (r : result (option A) AdminError) : bool :=
  match r with Ok (Some _) => true | _ => false end.

Definition removed (r : result bool AdminError) : bool := match r with Ok b => b | Err _ => false end.

Class StoreLaws {T : Type} (ms : ModelStoreTrait T) (es : ModelEndpointStoreTrait T) := {
  live_models : T -> list Model;
  live_endpoints : T -> list ModelEndpoint;
  same_rows (t t' : T) : Prop := live_models t' = live_models t /\ live_endpoints t' = live_endpoints t;
  settles (ok : bool) (P : ModelEndpoint -> Prop) (t t' : T) : Prop :=
    if ok then forall x, x ∈ live_endpoints t' -> x ∈ live_endpoints t \/ P x else same_rows t t';
  law_list_models t : ms_list ms t = (Ok (live_models t), t);
  law_list_endpoints t : es_list es t = (Ok (live_endpoints t), t);
  law_list_enabled t : same_rows t (ms_list_enabled ms t).2;
  law_get_model id t : same_rows t (ms_get ms id t).2;
  law_get_endpoint id t : same_rows t (es_get es id t).2;
  law_by_model id t : same_rows t (es_list_by_model es id t).2;
  law_create_model r t : let '(a, t') := ms_create ms r t in settles (is_ok a) (fun _ => False) t t';
  law_update_model id r t :
    let '(a, t') := ms_update ms id r t in settles (effected a) (fun _ => False) t t';
  law_delete_model id t :
    let '(a, t') := ms_delete ms id t in settles (removed a) (fun _ => False) t t';
  law_toggle_model id b t :
    let '(a, t') := ms_toggle ms id b t in settles (effected a) (fun _ => False) t t';
  law_create_endpoint mid r t :
    let '(a, t') := es_create es mid r t in
    settles (is_ok a) (fun x => pair_of x = (ce_provider_type r, ce_base_url r)) t t';
  law_update_endpoint id r t cur t1 : es_get es id t = (Ok (Some cur), t1) ->
    let '(a, t') := es_update es id r t1 in
    settles (effected a) (fun x => pair_of x = effective_routing_pair r cur) t1 t';
  law_delete_endpoint id t :
    let '(a, t') := es_delete es id t in settles (removed a) (fun _ => False) t t';
  law_disable_endpoint id t :
    let '(a, t') := es_toggle es id false t in settles (effected a) (fun x => ep_enabled x = false) t t';
  law_enable_endpoint id t cur t1 : es_get es id t = (Ok (Some cur), t1) ->
    let '(a, t') := es_toggle es id true t1 in
    settles (effected a) (fun x => pair_of x = pair_of cur) t1 t';
}.

Section Sync.
Context {W S B RL R Regex T : Type}.
Context `{CircuitBreakerTrait B} `{RateLimiting RL} `{ProviderRegistry R (Provider W S)}.
Context (env : string -> option string) (regex_new : string -> option Regex).
Context (ms : ModelStoreTrait T) (es : ModelEndpointStoreTrait T) `{!StoreLaws ms es}.

Local Abbreviation State := (AppState W S B RL R Regex T).
Local Abbreviation handler := (Handler W S B RL R Regex T).
Local Abbreviation h := (with_model_stores ms es admin_handlers_new).
Local Abbreviation serve := (serve env regex_new h).

(** An endpoint that is enabled can be built. *)
Definition routable (r : R) (e : ModelEndpoint) : Prop :=
  ep_enabled e = true -> is_ok (reg_build r (ep_provider_type e) (ep_base_url e)) = true.

Definition plain_config (c : Config) : Prop := forall t, t ∈ cfg_targets c -> target_id t = None.

(** The database's targets: every enabled endpoint of every enabled model, in order. *)
Definition db_targets (t : T) : list Target :=
  (fun c => target_of c.1 c.2) <$> candidates (live_models t) (live_endpoints t).

Definition follows_db (st : State) : Prop :=
  gw_targets (app_gateway st) = db_targets (app_store st) \/
  db_targets (app_store st) = [] /\ db_owns_routing (app_gateway st) = false.

Record routing_ok (st : State) : Prop := {
  rk_routable : forall e, e ∈ live_endpoints (app_store st) ->
    routable (gw_provider_registry (app_gateway st)) e;
  rk_follows : follows_db st;
  rk_history : forall x, x ∈ ch_entries (gw_config_history (app_gateway st)) ->
    plain_config (che_config x);
}.

(** *** Rebuilding *)

Lemma rebuild_live models endpoints m (g : Gateway W S B RL R Regex) :
  let built := built_of (gw_provider_registry g) (candidates models endpoints) in
  let g' := (rebuild_targets_from_db models endpoints m g).2 in
  gw_provider_registry g' = gw_provider_registry g /\
  gw_config_history g' = gw_config_history g /\
  gw_targets g' =
    if bool_decide (built = []) && bool_decide (m = KeepPrevious) then gw_targets g
    else (fun c => target_of c.1 c.2) <$> built.
Proof.
  cbn zeta. unfold rebuild_targets_from_db. rewrite rebuild_build_candidates.
  destruct (rebuild_candidates_spec (candidates models endpoints)
    {| rb_targets := []; rb_keys := []; rb_skipped := []; rb_gateway := g |})
    as (Ht & _ & _ & Hg & _). cbn zeta in Ht, Hg.
  cbn [rb_targets rb_gateway] in Ht, Hg. rewrite app_nil_l in Ht. rewrite Ht, Hg.
  destruct (built_of (gw_provider_registry g) (candidates models endpoints)) as [|c cs]; cbn [fmap list_fmap].
  - by destruct (bool_decide (m = KeepPrevious)).
  - by rewrite !bool_decide_false by done.
Qed.

Lemma candidate_elem models endpoints m e :
  (m, e) ∈ candidates models endpoints <->
  m ∈ models /\ model_enabled m = true /\ e ∈ endpoints /\ ep_model_id e = model_id m /\ ep_enabled e = true.
Proof.
  unfold candidates. rewrite list_elem_of_In, in_flat_map. split.
  - intros (m' & Hm' & Hc). apply filter_In in Hm' as [Hm' Hen]. apply in_map_iff in Hc as (e' & [= <- <-] & He).
    apply filter_In in He as [He Hf]. apply andb_true_iff in Hf as [Hid%bool_decide_eq_true Hee].
    by rewrite !list_elem_of_In.
  - intros (Hm & Hen & He & Hid & Hee). apply list_elem_of_In in Hm, He. exists m. split; [by apply filter_In|].
    apply in_map_iff. exists e. split; [done|]. apply filter_In. split; [done|].
    by rewrite Hee, bool_decide_true.
Qed.

Lemma all_built r models endpoints : (forall e, e ∈ endpoints -> routable r e) ->
  built_of r (candidates models endpoints) = candidates models endpoints.
Proof.
  intros Hr. unfold built_of. apply forallb_filter_id, forallb_forall. intros [m e] Hc.
  apply list_elem_of_In, candidate_elem in Hc as (_ & _ & He & _ & Hen). by apply (Hr e He).
Qed.

Lemma store_lists t :
  list_models h t = (Ok (live_models t), t) /\ list_endpoints h t = (Ok (live_endpoints t), t).
Proof. split; [apply law_list_models|apply law_list_endpoints]. Qed.

Lemma rebuild_with_live on_empty (st : State) :
  rebuild_with h on_empty st =
    {| app_gateway := (rebuild_targets_from_db (live_models (app_store st)) (live_endpoints (app_store st))
                         (on_empty (app_gateway st)) (app_gateway st)).2;
       app_store := app_store st |}.
Proof.
  unfold rebuild_with. destruct (store_lists (app_store st)) as [Hm He]. by rewrite Hm, He.
Qed.

(** A rebuild puts the targets in step, unless it keeps targets of the database over nothing. *)
Lemma rebuild_in_step on_empty (st : State) :
  (forall e, e ∈ live_endpoints (app_store st) -> routable (gw_provider_registry (app_gateway st)) e) ->
  (forall x, x ∈ ch_entries (gw_config_history (app_gateway st)) -> plain_config (che_config x)) ->
  on_empty (app_gateway st) = OnEmptyApply \/ db_owns_routing (app_gateway st) = false ->
  routing_ok (rebuild_with h on_empty st).
Proof.
  intros Hr Hh Ho. rewrite rebuild_with_live.
  destruct (rebuild_live (live_models (app_store st)) (live_endpoints (app_store st))
    (on_empty (app_gateway st)) (app_gateway st)) as (Hreg & Hhist & Ht).
  rewrite all_built in Ht by done. split; cbn [app_gateway app_store].
  - by rewrite Hreg.
  - unfold follows_db, db_targets. cbn [app_gateway app_store]. unfold db_owns_routing. rewrite Ht.
    destruct (candidates _ _) as [|c cs]; [|by left].
    destruct Ho as [->|Ho]; [by left|]. destruct (on_empty (app_gateway st)); [by left|]. right.
    split; [done|]. exact Ho.
  - by rewrite Hhist.
Qed.

Lemma rebuild_targets_ok (st : State) :
  (forall e, e ∈ live_endpoints (app_store st) -> routable (gw_provider_registry (app_gateway st)) e) ->
  (forall x, x ∈ ch_entries (gw_config_history (app_gateway st)) -> plain_config (che_config x)) ->
  routing_ok (rebuild_targets h st).
Proof.
  intros Hr Hh. apply rebuild_in_step; [done..|]. destruct (db_owns_routing _); [by left|by right].
Qed.

(** *** Handlers *)

Lemma same_refl t : same_rows t t.
Proof. done. Qed.

Lemma same_ok (st st1 : State) : routing_ok st ->
  app_gateway st1 = app_gateway st -> same_rows (app_store st) (app_store st1) -> routing_ok st1.
Proof.
  intros [Hr Hf Hh] Hg [Hm He]. split; [by rewrite Hg, He| |by rewrite Hg].
  unfold follows_db, db_targets in *. by rewrite Hg, Hm, He.
Qed.

Lemma changed_ok (P : ModelEndpoint -> Prop) (st st1 : State) : routing_ok st ->
  app_gateway st1 = app_gateway st -> settles true P (app_store st) (app_store st1) ->
  (forall x, P x -> routable (gw_provider_registry (app_gateway st)) x) ->
  routing_ok (rebuild_targets h st1).
Proof.
  intros [Hr Hf Hh] Hg Hs HP. apply rebuild_targets_ok; rewrite Hg; [|done].
  intros e [He|He]%Hs; [by apply Hr|by apply HP].
Qed.

(** A step that works on the stores only, and settles them. *)
Definition works {A} (ok : result A AdminError -> bool) (P : ModelEndpoint -> Prop)
    (m : State -> result A AdminError * State) (st : State) : Prop :=
  let '(a, st1) := m st in
  app_gateway st1 = app_gateway st /\ settles (ok a) P (app_store st) (app_store st1).

Lemma works_call {A} ok P (m : T -> result A AdminError * T) (st : State) :
  (let '(a, t) := m (app_store st) in settles (ok a) P (app_store st) t) -> works ok P (call m) st.
Proof. unfold works, call. by destruct (m (app_store st)). Qed.

Lemma works_redacted {A} ok P (f : A -> A) m (st : State) :
  (forall r, ok (match r with Ok a => Ok (f a) | Err e => Err e end) = ok r) ->
  works ok P m st -> works ok P (redacted f m) st.
Proof. intros Hok. unfold works, redacted. destruct (m st) as [a st1]. by rewrite Hok. Qed.

Lemma created_ok {A} P (m : State -> result A AdminError * State) st : routing_ok st ->
  works is_ok P m st -> (forall x, P x -> routable (gw_provider_registry (app_gateway st)) x) ->
  routing_ok (created h m st).2.
Proof.
  intros Hst. unfold works, created. destruct (m st) as [[a|e] st1]; intros [Hg Hs] HP;
    [by eapply changed_ok|by eapply same_ok].
Qed.

Lemma updated_ok {A} P (m : State -> result (option A) AdminError * State) st : routing_ok st ->
  works effected P m st -> (forall x, P x -> routable (gw_provider_registry (app_gateway st)) x) ->
  routing_ok (updated h m st).2.
Proof.
  intros Hst. unfold works, updated. destruct (m st) as [[[a|]|e] st1]; intros [Hg Hs] HP;
    [by eapply changed_ok|by eapply same_ok..].
Qed.

Lemma deleted_ok P (m : State -> result bool AdminError * State) st : routing_ok st ->
  works removed P m st -> (forall x, P x -> routable (gw_provider_registry (app_gateway st)) x) ->
  routing_ok (deleted h m st).2.
Proof.
  intros Hst. unfold works, deleted. destruct (m st) as [[[]|e] st1]; intros [Hg Hs] HP;
    [by eapply changed_ok|by eapply same_ok..].
Qed.

(** Reading, whatever is done with what was read. *)
Lemma read_ok {A C} (m : T -> result A AdminError * T) (k : A -> handler C) st : routing_ok st ->
  same_rows (app_store st) (m (app_store st)).2 ->
  (forall a st1, m (app_store st) = (Ok a, app_store st1) -> app_gateway st1 = app_gateway st ->
     routing_ok st1 -> routing_ok (k a st1).2) ->
  routing_ok (handler_bind (store_call m) k st).2.
Proof.
  intros Hst Hs Hk. unfold handler_bind, store_call, call.
  destruct (m (app_store st)) as [[a|e] t1] eqn:E; cbn in Hs |- *.
  - apply Hk; [done..|]. by eapply same_ok.
  - by eapply same_ok.
Qed.

Lemma store_call_ok {A} (m : T -> result A AdminError * T) st : routing_ok st ->
  same_rows (app_store st) (m (app_store st)).2 ->
  routing_ok (store_call (W := W) (S := S) (B := B) (RL := RL) (R := R) (Regex := Regex) m st).2.
Proof.
  intros Hst Hs. unfold store_call, call. destruct (m (app_store st)) as [a t1]. by eapply same_ok.
Qed.

Lemma found_ok {A C} (o : option A) (k : A -> handler C) st :
  (forall a, o = Some a -> routing_ok (k a st).2) -> routing_ok st ->
  routing_ok (handler_bind (found o) k st).2.
Proof. destruct o as [a|]; cbn; [|done]. intros Hk _. by apply Hk. Qed.

Lemma validated_ok {C} t u (k : unit -> handler C) st : routing_ok st ->
  (is_ok (reg_build (gw_provider_registry (app_gateway st)) t u) = true -> routing_ok (k tt st).2) ->
  routing_ok (handler_bind (validate_endpoint_provider t u) k st).2.
Proof.
  intros Hst Hk. unfold handler_bind, validate_endpoint_provider, reg_validate.
  destruct (reg_build _ t u); cbn in *; [by apply Hk|done].
Qed.

Lemma applying_ok {A} (a : A) op st : routing_ok st ->
  (forall r g, op (app_gateway st) = (r, g) ->
     gw_provider_registry g = gw_provider_registry (app_gateway st) /\
     (forall x, x ∈ ch_entries (gw_config_history g) -> plain_config (che_config x)) /\
     (forall e, r = Err e -> g = app_gateway st) /\
     (r = Ok tt -> db_owns_routing g = false)) ->
  routing_ok (applying h a op st).2.
Proof.
  intros Hst Hop. unfold applying. destruct (op (app_gateway st)) as [r g].
  destruct (Hop r g eq_refl) as (Hreg & Hh & He & Ho). destruct r as [[]|e].
  - unfold reassert_db_targets_after_config. apply rebuild_in_step; cbn [app_gateway app_store];
      [rewrite Hreg; by apply Hst|done|by right; apply Ho].
  - rewrite (He e eq_refl). destruct st. exact Hst.
Qed.

(** *** Requests *)

Lemma apply_plain c (g g' : Gateway W S B RL R Regex) :
  apply_config regex_new c g = Ok g' -> plain_config c ->
  gw_provider_registry g' = gw_provider_registry g /\
  gw_config_history g' = gw_config_history g /\ db_owns_routing g' = false.
Proof.
  unfold apply_config. destruct (validate _) as [[]|]; [|done]. intros [= <-] Hc. split_and!; [done..|].
  unfold db_owns_routing. cbn [gw_targets with_routing apply_guardrail_deprecations cfg_targets].
  apply not_true_is_false. intros (t & Ht & Hs)%existsb_exists. apply bool_decide_eq_true in Hs.
  apply list_elem_of_In, Hc in Ht. rewrite Ht in Hs. by destruct Hs.
Qed.

Definition history_plain (g : Gateway W S B RL R Regex) : Prop :=
  forall x, x ∈ ch_entries (gw_config_history g) -> plain_config (che_config x).

Lemma record_plain now c rb (g : Gateway W S B RL R Regex) : history_plain g -> plain_config c ->
  history_plain (with_history (history_record now c rb (gw_config_history g)) g).
Proof.
  intros Hh Hc x. cbn. intros [Hx|Hx]%elem_of_app; [by apply Hh|].
  by apply list_elem_of_singleton in Hx as ->.
Qed.

Lemma reload_step now c (g : Gateway W S B RL R Regex) : history_plain g -> plain_config c ->
  let '(r, g') := reload_config regex_new now c g in
  gw_provider_registry g' = gw_provider_registry g /\ history_plain g' /\
  (forall e, r = Err e -> g' = g) /\ (r = Ok tt -> db_owns_routing g' = false).
Proof.
  intros Hh Hc. unfold reload_config. destruct (apply_config regex_new c g) as [g1|e] eqn:E; [|done].
  destruct (apply_plain _ _ _ E Hc) as (Hr & Hist & Ho). split_and!; [done| |done|done].
  apply record_plain; [|done]. unfold history_plain. by rewrite Hist.
Qed.

Lemma rollback_step now v (g : Gateway W S B RL R Regex) : history_plain g ->
  let '(r, g') := rollback_config regex_new now v g in
  gw_provider_registry g' = gw_provider_registry g /\ history_plain g' /\
  (forall e, r = Err e -> g' = g) /\ (r = Ok tt -> db_owns_routing g' = false).
Proof.
  intros Hh. unfold rollback_config. destruct (find_version v _) as [c|] eqn:Ef; [|done].
  assert (plain_config c) as Hc.
  { unfold find_version in Ef. destruct (find _ _) as [x|] eqn:Ex; [|done]. injection Ef as <-.
    apply Hh. apply find_some in Ex as [Hx _]. by apply list_elem_of_In. }
  destruct (apply_config regex_new c g) as [g1|e] eqn:E; [|done].
  destruct (apply_plain _ _ _ E Hc) as (Hr & Hist & Ho). split_and!; [done| |done|done].
  apply record_plain; [|done]. unfold history_plain. by rewrite Hist.
Qed.

(** A configuration document names no endpoint of the database. *)
Definition plain_request (r : AdminRequest) : Prop :=
  match r with
  | UpdateConfig _ c | ReloadConfig _ (Ok c) => plain_config c
  | _ => True
  end.

Lemma answering_ok {A} (f : A -> AdminAnswer) (m : handler A) st :
  routing_ok (m st).2 -> routing_ok (answering f m st).2.
Proof. unfold answering. by destruct (m st) as [a st1]. Qed.

Lemma pure_ok {A} (a : result A ApiError) (st : State) : routing_ok st -> routing_ok (a, st).2.
Proof. done. Qed.

Lemma no_new (P : ModelEndpoint -> Prop) (r : R) : (forall x, P x -> False) -> forall x, P x -> routable r x.
Proof. intros HP x Hx. destruct (HP x Hx). Qed.

Lemma routable_pair r x (p : string * option string) : pair_of x = p ->
  is_ok (reg_build r p.1 p.2) = true -> routable r x.
Proof. intros <- Hb _. exact Hb. Qed.

(** The writes of endpoints, whose guard may refuse them before the store does. *)
Lemma create_endpoint_works mid r (st : State) :
  works is_ok (fun x => pair_of x = (ce_provider_type r, ce_base_url r))
    (redacted redact_endpoint (call (create_endpoint env h mid r))) st.
Proof.
  apply works_redacted; [by intros []|]. apply works_call. unfold create_endpoint.
  destruct (guard_url env (ce_base_url r)); [apply law_create_endpoint|apply same_refl].
Qed.

Lemma update_endpoint_works id r cur t (st : State) : es_get es id t = (Ok (Some cur), app_store st) ->
  works effected (fun x => pair_of x = effective_routing_pair r cur)
    (redacted (fmap redact_endpoint) (call (update_endpoint env h id r))) st.
Proof.
  intros Hg. apply works_redacted; [by intros [[]|]|]. apply works_call. unfold update_endpoint.
  destruct (guard_url env _); [by eapply law_update_endpoint|apply same_refl].
Qed.

Lemma toggle_works b P id (st : State) :
  (let '(a, t) := es_toggle es id b (app_store st) in settles (effected a) P (app_store st) t) ->
  works effected P (redacted (fmap redact_endpoint) (call (toggle_endpoint h id b))) st.
Proof. intros Hs. apply works_redacted; [by intros [[]|]|]. by apply works_call. Qed.

Lemma update_endpoint_ok id r st : routing_ok st ->
  routing_ok (update_model_endpoint env h id r st).2.
Proof.
  intros Hst. unfold update_model_endpoint. apply read_ok; [done|apply law_get_endpoint|].
  intros o st1 Hget Hg Hst1. apply found_ok; [|done]. intros cur ->.
  apply validated_ok; [done|]. intros Hb. eapply updated_ok; [done|by eapply update_endpoint_works|].
  intros x Hx. exact (routable_pair _ x _ Hx Hb).
Qed.

Lemma toggle_endpoint_ok id b st : routing_ok st ->
  routing_ok (toggle_model_endpoint h id b st).2.
Proof.
  intros Hst. unfold toggle_model_endpoint. destruct (toggle_enabled b).
  - apply read_ok; [done|apply law_get_endpoint|].
    intros o st1 Hget Hg Hst1. apply found_ok; [|done]. intros cur ->.
    apply validated_ok; [done|]. intros Hb. eapply updated_ok; [done| |].
    + apply toggle_works. by eapply law_enable_endpoint.
    + intros x Hx. exact (routable_pair _ x (pair_of cur) Hx Hb).
  - eapply updated_ok; [done|apply toggle_works, law_disable_endpoint|].
    intros x Hx Hen. congruence.
Qed.

Lemma create_endpoint_ok mid r st : routing_ok st ->
  routing_ok (create_model_endpoint env h mid r st).2.
Proof.
  intros Hst. unfold create_model_endpoint. apply validated_ok; [done|]. intros Hb.
  eapply created_ok; [done|apply create_endpoint_works|]. intros x Hx. exact (routable_pair _ x _ Hx Hb).
Qed.

Lemma serve_ok r st : plain_request r -> routing_ok st -> routing_ok (serve r st).2.
Proof.
  intros Hp Hst. destruct r; cbn [Handlers.serve]; apply answering_ok.
  - apply store_call_ok; [done|]. by rewrite (proj1 (store_lists _)).
  - eapply created_ok; [done|apply works_call, law_create_model|by apply no_new].
  - apply read_ok; [done|apply law_get_model|]. by intros [] st1 _ _ ?.
  - eapply updated_ok; [done|apply works_call, law_update_model|by apply no_new].
  - eapply deleted_ok; [done|apply works_call, law_delete_model|by apply no_new].
  - eapply updated_ok; [done|apply works_call, law_toggle_model|by apply no_new].
  - apply read_ok; [done| |done]. by rewrite (proj2 (store_lists _)).
  - apply read_ok; [done|apply law_by_model|done].
  - by apply create_endpoint_ok.
  - apply read_ok; [done|apply law_get_endpoint|]. by intros [] st1 _ _ ?.
  - by apply update_endpoint_ok.
  - eapply deleted_ok; [done|apply works_call, law_delete_endpoint|by apply no_new].
  - by apply toggle_endpoint_ok.
  - done.
  - apply applying_ok; [done|]. intros a g E. pose proof (reload_step now c _ (rk_history _ Hst) Hp) as Hs.
    by rewrite E in Hs.
  - done.
  - apply applying_ok; [done|]. intros a g E. pose proof (rollback_step now version _ (rk_history _ Hst)) as Hs.
    by rewrite E in Hs.
  - destruct loaded as [c|e]; cbn [reload_config_api]; [|done].
    apply applying_ok; [done|]. intros a g E. pose proof (reload_step now c _ (rk_history _ Hst) Hp) as Hs.
    by rewrite E in Hs.
Qed.

(** In step, the live targets of the database are the rows that route. *)
Lemma routing_ok_targets st t : routing_ok st -> is_Some (target_id t) ->
  t ∈ gw_targets (app_gateway st) <->
  exists m e, m ∈ live_models (app_store st) /\ model_enabled m = true /\
    e ∈ live_endpoints (app_store st) /\ ep_model_id e = model_id m /\ ep_enabled e = true /\
    t = target_of m e.
Proof.
  intros Hok Ht.
  assert (t ∈ db_targets (app_store st) <->
    exists m e, m ∈ live_models (app_store st) /\ model_enabled m = true /\
      e ∈ live_endpoints (app_store st) /\ ep_model_id e = model_id m /\ ep_enabled e = true /\
      t = target_of m e) as <-.
  { unfold db_targets. rewrite list_elem_of_fmap. split.
    - intros ([m e] & -> & Hc). apply candidate_elem in Hc. exists m, e. naive_solver.
    - intros (m & e & ? & ? & ? & ? & ? & ->). exists (m, e). split; [done|]. by apply candidate_elem. }
  destruct (rk_follows _ Hok) as [->|[-> Ho]]; [done|]. split; [|by intros ?%not_elem_of_nil].
  intros Hin. exfalso. apply eq_true_false_abs with (2 := Ho). apply existsb_exists. exists t.
  split; [by apply list_elem_of_In|by apply bool_decide_eq_true].
Qed.

(** Routing follows the database. From any state in step, whatever sequence of requests the admin
    API serves (with configuration documents that name no endpoint), the state stays in step:
    every enabled endpoint can be built, and the targets that come from the database are exactly
    the enabled endpoints of the enabled models, each exactly as stored. *)
Theorem routing_follows_database rs st : Forall plain_request rs -> routing_ok st ->
  let st' := serve_all env regex_new h rs st in
  routing_ok st' /\
  forall t, is_Some (target_id t) ->
    t ∈ gw_targets (app_gateway st') <->
    exists m e, m ∈ live_models (app_store st') /\ model_enabled m = true /\
      e ∈ live_endpoints (app_store st') /\ ep_model_id e = model_id m /\ ep_enabled e = true /\
      t = target_of m e.
Proof.
  intros Hp Hst. cbn zeta.
  assert (routing_ok (serve_all env regex_new h rs st)) as Hok.
  { unfold serve_all. revert st Hst. induction Hp as [|r rs Hr _ IH]; intros st Hst; [done|].
    cbn [foldl]. by apply IH, serve_ok. }
  split; [done|]. intros t Ht. by apply routing_ok_targets.
Qed.

End Sync.

(** ** Proofs: the metrics after a change of configuration *)

Section MetricsExposure.
Context {W S B RL R Regex T : Type}.
Context `{CircuitBreakerTrait B} `{RateLimiting RL} `{ProviderRegistry R (Provider W S)}.
Context (regex_new : string -> option Regex) (h : AdminHandlers (T := T)).

Lemma rebuild_admin models endpoints m (g : Gateway W S B RL R Regex) :
  cfg_admin (gw_config (rebuild_targets_from_db models endpoints m g).2) = cfg_admin (gw_config g).
Proof.
  unfold rebuild_targets_from_db. rewrite rebuild_build_candidates.
  destruct (rebuild_candidates_spec (candidates models endpoints)
    {| rb_targets := []; rb_keys := []; rb_skipped := []; rb_gateway := g |})
    as (_ & _ & _ & Hg & _). cbn zeta in Hg. rewrite Hg. by destruct (bool_decide _ && bool_decide _).
Qed.

Lemma rebuild_with_admin on_empty (st : AppState W S B RL R Regex T) :
  cfg_admin (gw_config (app_gateway (rebuild_with h on_empty st))) = cfg_admin (gw_config (app_gateway st)).
Proof.
  unfold rebuild_with. destruct (list_models h (app_store st)) as [models t].
  destruct (list_endpoints h t) as [endpoints t'].
  destruct models, endpoints; cbn [app_gateway]; [apply rebuild_admin|done..].
Qed.

(** Saving a configuration opens the metrics. The master key is left out of every
    serialized configuration, so a document read from the API and put back carries none;
    and [/metrics] asks the live configuration. After the update, without a [METRICS_TOKEN],
    it serves everyone. *)
Theorem config_update_opens_metrics env now c (st st' : AppState W S B RL R Regex T) v authorization metrics :
  env "METRICS_TOKEN" = None -> admin_master_key (cfg_admin c) = None ->
  update_config_api regex_new h now c st = (Ok v, st') ->
  rp_status (metrics_handler env (admin_master_key (cfg_admin (gw_config (app_gateway st'))))
               authorization metrics) = 200.
Proof.
  intros He Hc. unfold update_config_api, applying, reload_config, apply_config.
  destruct (validate _) as [[]|]; [|done]. cbn zeta. intros [= <- <-].
  unfold metrics_handler. rewrite He. unfold reassert_db_targets_after_config. rewrite rebuild_with_admin.
  cbn. by rewrite Hc.
Qed.
End MetricsExposure.
