(* ===== verification/HandlerLaws.v ===== *)
(** * The stores under the admin handlers
    (src/crates/himadri-admin/src/provider_store.rs, postgres_provider_store.rs,
    through their contract in ModelRefine.v)

    Handlers.v proves that routing follows the database from what it calls
    [StoreLaws]. Here the contract that both SQL stores refine ([Module Contract])
    is made into stores of those traits, its identifiers, instants and nonces drawn
    in order, and the laws are proved of it. The admin API's theorems follow at
    concrete requests. *)

From S2P Require Import Prelude CircuitBreaker Str Float Types Json Errors Config NetGuard RateLimiter Strategy Plugin Usage Auditing Sql ModelStore ModelRefine Provider Failover Gateway AdminHandlers Access Http Handlers.

Section ContractStores.
Context `{Cipher}.
Context (uuid_text : Z -> string) (cipher : option string).
(** The n-th draws: of an identifier, of the clock, of a nonce. *)
Context (draw clock : nat -> Z) (nonce : nat -> string).

Record Stored := { sd_maps : Contract.Maps; sd_draws : nat }.

Definition run {A} (unwrap : ModelReply -> option A) (op : nat -> ModelOp) (t : Stored)
    : result A AdminError * Stored :=
  let '(r, m) := Contract.step uuid_text cipher (op (sd_draws t)) (sd_maps t) in
  (match r with
   | Ok reply => match unwrap reply with Some a => Ok a | None => Err Sql.NotFound end
   | Err e => Err e
   end, {| sd_maps := m; sd_draws := S (sd_draws t) |}).

Definition the_model (r : ModelReply) := match r with ReplyModel m => Some m | _ => None end.
Definition a_model (r : ModelReply) := match r with ReplyModelOption m => Some m | _ => None end.
Definition the_endpoint (r : ModelReply) := match r with ReplyEndpoint e => Some e | _ => None end.
Definition an_endpoint (r : ModelReply) := match r with ReplyEndpointOption e => Some e | _ => None end.
Definition the_verdict (r : ModelReply) := match r with ReplyDeleted b => Some b | _ => None end.

Definition rows {A} (m : gmap string A) : list A := snd <$> map_to_list m.
Definition model_rows (t : Stored) : list Model := rows (Contract.models (sd_maps t)).
Definition endpoint_rows (t : Stored) : list ModelEndpoint :=
  decrypt_endpoint cipher <$> rows (Contract.endpoints (sd_maps t)).

Definition contract_models : ModelStoreTrait Stored :=
  {| ms_create r := run the_model (fun n => MCreate (draw n) (clock n) r);
     ms_get id := run a_model (fun _ => MGet id);
     ms_list t := (Ok (model_rows t), t);
     ms_list_enabled t := (Ok (List.filter model_enabled (model_rows t)), t);
     ms_update id r := run a_model (fun n => MUpdate id (clock n) r);
     ms_delete id := run the_verdict (fun _ => MDelete id);
     ms_toggle id b := run a_model (fun n => MToggle id b (clock n)) |}.

Definition contract_endpoints : ModelEndpointStoreTrait Stored :=
  {| es_create mid r := run the_endpoint (fun n => ECreate mid (draw n) (clock n) (nonce n) r);
     es_get id := run an_endpoint (fun _ => EGet id);
     es_list t := (Ok (endpoint_rows t), t);
     es_list_by_model mid t :=
       (Ok (List.filter (fun e => bool_decide (ep_model_id e = mid)) (endpoint_rows t)), t);
     es_update id r := run an_endpoint (fun n => EUpdate id (clock n) (nonce n) r);
     es_delete id := run the_verdict (fun _ => EDelete id);
     es_toggle id b := run an_endpoint (fun n => EToggle id b (clock n)) |}.

Lemma rows_elem {A} (m : gmap string A) x : x ∈ rows m <-> exists i, m !! i = Some x.
Proof.
  unfold rows. rewrite list_elem_of_fmap. split.
  - intros ([i y] & -> & Hy%elem_of_map_to_list). by exists i.
  - intros [i Hi]. exists (i, x). split; [done|]. by apply elem_of_map_to_list.
Qed.

Lemma endpoint_rows_elem t x : x ∈ endpoint_rows t <->
  exists i e, Contract.endpoints (sd_maps t) !! i = Some e /\ x = decrypt_endpoint cipher e.
Proof.
  unfold endpoint_rows. rewrite list_elem_of_fmap. setoid_rewrite rows_elem. naive_solver.
Qed.

(** What a rewritten endpoint brings. *)
Lemma altered_rows f id (m : gmap string ModelEndpoint) i e :
  alter f id m !! i = Some e -> m !! i = Some e \/ i = id /\ exists e0, m !! id = Some e0 /\ e = f e0.
Proof.
  destruct (decide (i = id)) as [->|Hne].
  - rewrite lookup_alter_eq. destruct (m !! id) as [e0|]; cbn; [|done]. intros [= <-]. right. eauto.
  - rewrite lookup_alter_ne by done. by left.
Qed.

Lemma pair_decrypt e : pair_of (decrypt_endpoint cipher e) = pair_of e.
Proof. unfold pair_of. destruct (decrypt_fields cipher e) as (-> & -> & _). done. Qed.

(** The endpoints after [alter f id]: those before, or what [f] makes of the one at [id]. *)
Lemma altered_endpoints f id t t' x :
  Contract.endpoints (sd_maps t') = alter f id (Contract.endpoints (sd_maps t)) ->
  x ∈ endpoint_rows t' -> x ∈ endpoint_rows t \/
    exists e0, Contract.endpoints (sd_maps t) !! id = Some e0 /\ x = decrypt_endpoint cipher (f e0).
Proof.
  intros Ht (i & e & Hi & ->)%endpoint_rows_elem. rewrite Ht in Hi.
  apply altered_rows in Hi as [Hi|(-> & e0 & He0 & ->)].
  - left. apply endpoint_rows_elem. by exists i, e.
  - right. by exists e0.
Qed.

#[export] Instance contract_laws : StoreLaws contract_models contract_endpoints.
Proof.
  refine {| live_models := model_rows; live_endpoints := endpoint_rows |}.
  - done.
  - done.
  - done.
  - done.
  - done.
  - done.
  - intros r t. cbn. auto.
  - intros id r t. cbn. unfold run. cbn. destruct (Contract.models (sd_maps t) !! id); cbn; auto.
  - intros id t. cbn. unfold run. cbn. destruct (Contract.models (sd_maps t) !! id) as [m|] eqn:E; cbn; [|done].
    destruct (model_enabled m); cbn; [done|].
    intros x (i & e & Hi & ->)%endpoint_rows_elem. left. apply endpoint_rows_elem.
    exists i, e. split; [|done]. by apply map_lookup_filter_Some in Hi as [Hi _].
  - intros id b t. cbn. unfold run. cbn. destruct (Contract.models (sd_maps t) !! id) eqn:E; cbn; [auto|].
    split; [|done]. unfold model_rows. cbn. by rewrite alter_absent.
  - intros mid r t. cbn. unfold run. cbn. destruct (Contract.models (sd_maps t) !! mid); cbn; [|done].
    intros x (i & e & Hi & ->)%endpoint_rows_elem. cbn in Hi.
    destruct (decide (i = uuid_text (draw (sd_draws t)))) as [->|Hne].
    + rewrite lookup_insert_eq in Hi. injection Hi as <-. right. by rewrite pair_decrypt.
    + rewrite lookup_insert_ne in Hi by done. left. apply endpoint_rows_elem. by exists i, e.
  - intros id r t cur t1. cbn. unfold run. cbn. intros [= Hg <-]. cbn.
    destruct (Contract.endpoints (sd_maps t) !! id) as [e|] eqn:E; cbn; [|done].
    cbn in Hg. injection Hg as <-. intros x Hx.
    eapply (altered_endpoints _ id) in Hx as [Hx|(e0 & He0 & ->)]; [by left| |reflexivity].
    cbn in He0. rewrite E in He0. injection He0 as <-. right. rewrite pair_decrypt.
    unfold effective_routing_pair. destruct (decrypt_fields cipher e) as (-> & -> & _). done.
  - intros id t. cbn. unfold run. cbn. destruct (Contract.endpoints (sd_maps t) !! id) eqn:E; cbn.
    + intros x (i & e & Hi & ->)%endpoint_rows_elem. cbn in Hi. left. apply endpoint_rows_elem.
      exists i, e. split; [|done]. by apply lookup_delete_Some in Hi as [_ Hi].
    + split; [done|].
      unfold endpoint_rows. cbn. by rewrite delete_id.
  - intros id t. cbn. unfold run. cbn. destruct (Contract.endpoints (sd_maps t) !! id) as [e|] eqn:E; cbn.
    + intros x Hx. eapply (altered_endpoints _ id) in Hx as [Hx|(e0 & He0 & ->)]; [by left| |reflexivity].
      right. by destruct (decrypt_fields cipher (Contract.toggled_endpoint false (clock (sd_draws t)) e0))
        as (_ & _ & _ & ->).
    + split; [done|]. unfold endpoint_rows. cbn. by rewrite alter_absent.
  - intros id t cur t1. cbn. unfold run. cbn. intros [= Hg <-]. cbn.
    destruct (Contract.endpoints (sd_maps t) !! id) as [e|] eqn:E; cbn; [|done].
    cbn in Hg. injection Hg as <-. intros x Hx.
    eapply (altered_endpoints _ id) in Hx as [Hx|(e0 & He0 & ->)]; [by left| |reflexivity].
    cbn in He0. rewrite E in He0. injection He0 as <-. right. by rewrite !pair_decrypt.
Defined.

End ContractStores.

(** ** The theorems at concrete requests *)
Module HandlersDemo.
#[local] Existing Instance ModelDemo.open_cipher.

Definition model_store : ModelStoreTrait Stored := contract_models SqlDemo.uuid None Z.of_nat Z.of_nat.
Definition endpoint_store : ModelEndpointStoreTrait Stored :=
  contract_endpoints SqlDemo.uuid None Z.of_nat Z.of_nat (fun _ => ModelDemo.nonce).

#[export] Instance laws : StoreLaws model_store endpoint_store :=
  contract_laws SqlDemo.uuid None Z.of_nat Z.of_nat (fun _ => ModelDemo.nonce).

Abbreviation demo_state := (AppState unit unit CircuitBreaker unit
  (MapProviderRegistry (P := Provider unit unit)) unit Stored).

Definition handlers : AdminHandlers (T := Stored) :=
  with_model_stores model_store endpoint_store admin_handlers_new.

(** An environment-routed gateway over an empty database. *)
Definition start : demo_state :=
  {| app_gateway := demo_gateway_new;
     app_store := {| sd_maps := ModelDemo.empty; sd_draws := 0 |} |}.

Lemma start_ok : routing_ok model_store endpoint_store start.
Proof.
  split.
  - intros e He. cbn in He. by apply elem_of_nil in He.
  - right. by vm_compute.
  - intros x Hx. apply list_elem_of_singleton in Hx as ->.
    intros t Ht. by apply list_elem_of_singleton in Ht as ->.
Qed.

(** A model, then an endpoint of it. *)
Definition onboarding : list AdminRequest :=
  [CreateModel {| cm_name := "gpt-4o"; cm_display_name := None; cm_enabled := true |};
   CreateEndpoint (SqlDemo.uuid 0)
     {| ce_provider_type := "openai"; ce_base_url := None; ce_api_key := Some "sk-1";
        ce_weight := f64_of_Z 1; ce_enabled := true |}].

Definition after (rs : list AdminRequest) : demo_state :=
  serve_all (fun _ => None) no_regex handlers rs start.

Definition disable : AdminRequest := ToggleEndpoint (SqlDemo.uuid 1) (Some false).

(** The configuration an administrator reads while the endpoint routes. *)
Definition saved : Config := gw_config (app_gateway (after onboarding)).

End HandlersDemo.
#[local] Existing Instance ModelDemo.open_cipher.

Lemma routing_follows_database_witness :
  routing_ok HandlersDemo.model_store HandlersDemo.endpoint_store (HandlersDemo.after HandlersDemo.onboarding) /\
  target_id <$> gw_targets (app_gateway (HandlersDemo.after HandlersDemo.onboarding)) = [Some (SqlDemo.uuid 1)].
Proof.
  split; [|by vm_compute].
  apply (routing_follows_database (fun _ => None) no_regex HandlersDemo.model_store HandlersDemo.endpoint_store
    HandlersDemo.onboarding HandlersDemo.start); [by repeat constructor|exact HandlersDemo.start_ok].
Defined.

(** A configuration document that names the database's endpoints escapes the rule: saved while
    an endpoint routed and put back after it was disabled, it makes the disabled endpoint a
    target again, without a client. *)
Theorem saved_config_revives_endpoint :
  let st := HandlersDemo.after (HandlersDemo.onboarding ++ [HandlersDemo.disable; UpdateConfig 9 HandlersDemo.saved])%list in
  endpoint_rows None (app_store st) <> [] /\
  Forall (fun e => ep_enabled e = false) (endpoint_rows None (app_store st)) /\
  target_id <$> gw_targets (app_gateway st) = [Some (SqlDemo.uuid 1)] /\
  gw_providers (app_gateway st) !! SqlDemo.uuid 1 = None.
Proof. split_and!; [by vm_compute| |by vm_compute..]. repeat constructor. Qed.

Lemma failed_request_keeps_gateway_witness :
  app_gateway (serve (fun _ => None) no_regex HandlersDemo.handlers
    (DeleteModel "x") HandlersDemo.start).2 = app_gateway HandlersDemo.start.
Proof.
  destruct (serve (fun _ => None) no_regex HandlersDemo.handlers (DeleteModel "x") HandlersDemo.start)
    as [[a|e] st'] eqn:E; [by vm_compute in E|].
  exact (failed_request_keeps_gateway (fun _ => None) no_regex HandlersDemo.handlers _ _ _ e E).
Defined.

Lemma answers_hide_keys_witness :
  exists e st', serve (fun _ => None) no_regex HandlersDemo.handlers (GetEndpoint (SqlDemo.uuid 1))
    (HandlersDemo.after HandlersDemo.onboarding) = (Ok (AnswerEndpoint 200 e), st') /\ keyless e.
Proof.
  destruct (serve (fun _ => None) no_regex HandlersDemo.handlers (GetEndpoint (SqlDemo.uuid 1))
    (HandlersDemo.after HandlersDemo.onboarding)) as [[a|e] st'] eqn:E; [|by vm_compute in E].
  pose proof (answers_hide_keys (fun _ => None) no_regex HandlersDemo.handlers _ _ _ a E) as Hk.
  destruct a as [| | |status e| | | |]; try by vm_compute in E.
  assert (status = 200) as ->. { vm_compute in E. by injection E. }
  exists e, st'. split; [done|]. by apply Forall_inv in Hk.
Defined.
