(* ===== verification/Traffic.v ===== *)
(** * Requests and administration at the same time
    (src/crates/himadri/src/gateway/rebuild.rs, config.rs; [with_failover] of route.rs)

    What the calls of the gateway do to the targets, clients, keys, breakers and
    configuration they share, access by access: an insertion into a map, the visit of one of
    its shards by a [retain] or [clear], a lookup, or a section under locks (which Locks.v
    shows to exclude each other) is one step, and the steps of any number of requests and
    administrative calls interleave. A breaker is a cell that a request keeps although the
    map may drop it meanwhile. The order in which a request tries the live targets, and
    what providers answer, are part of the event; the limiter and the strategy, which do not
    decide what client and key a target is called with, are left out. *)

From S2P Require Import Prelude CircuitBreaker Str Float Types Errors Config Provider Failover ModelStore RateLimiter Strategy Gateway Handlers.

(** ** State *)

Record Routing (P : Type) := {
  rt_config : Config;
  rt_targets : list Target;
  rt_providers : gmap string P;
  rt_keys : gmap string string;
  rt_history : ConfigHistory;
}.
Arguments rt_config {P}.
Arguments rt_targets {P}.
Arguments rt_providers {P}.
Arguments rt_keys {P}.
Arguments rt_history {P}.

(** What a rebuild has computed before it touches keys and targets. *)
Record Rebuilt := {
  bt_targets : list Target;
  bt_keys : list (string * string);
  bt_skipped : list SkippedEndpoint;
}.

(** Where an administrative call stands. *)
Inductive AdminPc :=
  | Building (todo : list (Model * ModelEndpoint)) (b : Rebuilt) (on_empty : OnEmpty)
  | InsertingKeys (todo : list (string * string)) (b : Rebuilt)
  | RetainingKeys (shards : list nat) (b : Rebuilt)
  | Swapping (b : Rebuilt)
  | RetainingBreakers (shards : list nat) (b : Rebuilt) (previous : list string)
  | Pruning (todo : list string) (b : Rebuilt)
  | Finding (now version : Z)
  | Applying (now : Z) (config : Config) (rolled_back_from : option Z)
  | ClearingBreakers (shards : list nat) (now : Z) (config : Config) (rolled_back_from : option Z)
  | Recording (now : Z) (config : Config) (rolled_back_from : option Z)
  | Finished (answer : RebuildOutcome + result unit GatewayError).

(** Where a request stands: it has the targets it will try in order, and for the one it
    is trying the cell of its breaker, its client and its key. *)
Inductive RequestPc (P : Type) :=
  | Selecting
  | Trying (todo : list Target)
  | Admitting (t : Target) (cell : nat) (todo : list Target)
  | FindingClient (t : Target) (cell : nat) (todo : list Target)
  | FindingKey (t : Target) (cell : nat) (client : P) (todo : list Target)
  | Calling (t : Target) (cell : nat) (todo : list Target)
  | Done.
Arguments Selecting {P}.
Arguments Trying {P}.
Arguments Admitting {P}.
Arguments FindingClient {P}.
Arguments FindingKey {P}.
Arguments Calling {P}.
Arguments Done {P}.

(** The shared state; the calls in progress; what was begun, and with what client and
    key which target was called, in order. *)
Record Traffic (P B : Type) := {
  tf_routing : Routing P;
  tf_breakers : gmap string nat;
  tf_cells : list B;
  tf_admin : list AdminPc;
  tf_requests : list (RequestPc P);
  tf_ops : list AdminOp;
  tf_calls : list (Target * P * string);
}.
Arguments tf_routing {P B}.
Arguments tf_breakers {P B}.
Arguments tf_cells {P B}.
Arguments tf_admin {P B}.
Arguments tf_requests {P B}.
Arguments tf_ops {P B}.
Arguments tf_calls {P B}.

(** ** Steps *)

Section Steps.
Context {W S B R : Type} `{CircuitBreakerTrait B} `{ProviderRegistry R (Provider W S)}.
(** The shard of a key, of a [DashMap] with [shards] shards. *)
Context (shard_of : string -> nat) (shards : nat).
Context (registry : R) (cb_default : B) (env : string -> option string).

Local Abbreviation provider := (Provider W S).
Local Abbreviation routing := (Routing provider).
Local Abbreviation traffic := (Traffic provider B).

Definition with_keys (keys : gmap string string) (rt : routing) : routing :=
  {| rt_config := rt_config rt; rt_targets := rt_targets rt; rt_providers := rt_providers rt;
     rt_keys := keys; rt_history := rt_history rt |}.

Definition with_clients (clients : gmap string provider) (rt : routing) : routing :=
  {| rt_config := rt_config rt; rt_targets := rt_targets rt; rt_providers := clients;
     rt_keys := rt_keys rt; rt_history := rt_history rt |}.

Definition with_front (config : Config) (targets : list Target) (rt : routing) : routing :=
  {| rt_config := config; rt_targets := targets; rt_providers := rt_providers rt;
     rt_keys := rt_keys rt; rt_history := rt_history rt |}.

Definition with_versions (h : ConfigHistory) (rt : routing) : routing :=
  {| rt_config := rt_config rt; rt_targets := rt_targets rt; rt_providers := rt_providers rt;
     rt_keys := rt_keys rt; rt_history := h |}.

(** [retain(|id, _| ids.contains(id))], as far as one shard goes. *)
Definition retain_shard {A} (ids : list string) (m : gmap string A) (shard : nat) : gmap string A :=
  filter (fun kv => shard_of kv.1 = shard -> kv.1 ∈ ids) m.

(** One endpoint: a client is built and registered, or the endpoint skipped. *)
Definition build_candidate (c : Model * ModelEndpoint) (b : Rebuilt) (clients : gmap string provider)
    : Rebuilt * gmap string provider :=
  match client_of registry c with
  | Ok client =>
      ({| bt_targets := (bt_targets b ++ [target_of c.1 c.2])%list;
          bt_keys := (bt_keys b ++ keys_of c.2)%list; bt_skipped := bt_skipped b |},
       <[ep_id c.2 := client]> clients)
  | Err err =>
      ({| bt_targets := bt_targets b; bt_keys := bt_keys b;
          bt_skipped := (bt_skipped b ++
            [{| sk_endpoint_id := ep_id c.2; sk_provider_type := ep_provider_type c.2;
                sk_reason := provider_error_to_string err |}])%list |}, clients)
  end.

Definition active_ids (b : Rebuilt) : list string := omap target_id (bt_targets b).

Definition stale_ids (previous : list string) (b : Rebuilt) : list string :=
  List.filter (fun id => negb (bool_decide (id ∈ active_ids b))) previous.

Definition kept_previous (b : Rebuilt) (on_empty : OnEmpty) : bool :=
  bool_decide (bt_targets b = []) && bool_decide (on_empty = KeepPrevious).

Definition nothing_built : Rebuilt := {| bt_targets := []; bt_keys := []; bt_skipped := [] |}.

(** How a call begins. *)
Definition start (op : AdminOp) : AdminPc :=
  match op with
  | OpRebuild models endpoints on_empty => Building (candidates models endpoints) nothing_built on_empty
  | OpReload now config => Applying now config None
  | OpRollback now version => Finding now version
  end.

(** The next step of an administrative call; it has none once it has finished. *)
Definition admin_move (pc : AdminPc) (rt : routing) (breakers : gmap string nat)
    : option (AdminPc * routing * gmap string nat) :=
  match pc with
  | Building (c :: todo) b on_empty =>
      let '(b, clients) := build_candidate c b (rt_providers rt) in
      Some (Building todo b on_empty, with_clients clients rt, breakers)
  | Building [] b on_empty =>
      if kept_previous b on_empty then
        Some (Finished (inl {| ro_targets_built := 0; ro_skipped := bt_skipped b; ro_applied := false |}),
              rt, breakers)
      else Some (InsertingKeys (bt_keys b) b, rt, breakers)
  | InsertingKeys ((id, key) :: todo) b =>
      Some (InsertingKeys todo b, with_keys (<[id := key]> (rt_keys rt)) rt, breakers)
  | InsertingKeys [] b => Some (RetainingKeys (seq 0 shards) b, rt, breakers)
  | RetainingKeys (s :: todo) b =>
      Some (RetainingKeys todo b, with_keys (retain_shard (bt_keys b).*1 (rt_keys rt) s) rt, breakers)
  | RetainingKeys [] b => Some (Swapping b, rt, breakers)
  | Swapping b =>
      Some (RetainingBreakers (seq 0 shards) b (omap target_id (rt_targets rt)),
            with_front (with_targets (bt_targets b) (rt_config rt)) (bt_targets b) rt, breakers)
  | RetainingBreakers (s :: todo) b previous =>
      Some (RetainingBreakers todo b previous, rt, retain_shard (active_ids b) breakers s)
  | RetainingBreakers [] b previous => Some (Pruning (stale_ids previous b) b, rt, breakers)
  | Pruning (id :: todo) b => Some (Pruning todo b, with_clients (delete id (rt_providers rt)) rt, breakers)
  | Pruning [] b =>
      Some (Finished (inl {| ro_targets_built := length (bt_targets b); ro_skipped := bt_skipped b;
                             ro_applied := true |}), rt, breakers)
  | Finding now version =>
      match find_version version (rt_history rt) with
      | Some config => Some (Applying now config (Some version), rt, breakers)
      | None =>
          Some (Finished (inr (Err (BadRequest ("Config version " +:+ show_Z version +:+ " not found")))),
                rt, breakers)
      end
  | Applying now config rb =>
      let applied := apply_guardrail_deprecations config in
      match validate applied with
      | Ok _ => Some (ClearingBreakers (seq 0 shards) now config rb,
                      with_front applied (cfg_targets applied) rt, breakers)
      | Err e => Some (Finished (inr (Err (ConfigFailure e))), rt, breakers)
      end
  | ClearingBreakers (s :: todo) now config rb =>
      Some (ClearingBreakers todo now config rb, rt, retain_shard [] breakers s)
  | ClearingBreakers [] now config rb => Some (Recording now config rb, rt, breakers)
  | Recording now config rb =>
      Some (Finished (inr (Ok tt)), with_versions (history_record now config rb (rt_history rt)) rt, breakers)
  | Finished _ => None
  end.

(** What a request's step is given: the order it tries targets in, the time, what the
    provider answered. *)
Inductive Input :=
  | InOrder (ordered : list Target)
  | InTick (now : Z)
  | InAnswer (now : Z) (r : result unit ProviderError).

Definition input_time (i : Input) : Z :=
  match i with InOrder _ => 0 | InTick now | InAnswer now _ => now end.

(** The next step of a request: where it stands then, the breakers it leaves, and the
    call it sends. *)
Definition request_move (i : Input) (pc : RequestPc provider) (rt : routing) (breakers : gmap string nat)
    (cells : list B)
    : option (RequestPc provider * gmap string nat * list B * option (Target * provider * string)) :=
  match pc with
  | Selecting =>
      match i with
      | InOrder ordered =>
          if forallb (fun t => existsb (fun x => bool_decide (x = t)) (rt_targets rt)) ordered
          then Some (Trying ordered, breakers, cells, None) else None
      | _ => None
      end
  | Trying [] => Some (Done, breakers, cells, None)
  | Trying (t :: todo) =>
      match breakers !! routing_key t with
      | Some cell => Some (Admitting t cell todo, breakers, cells, None)
      | None => Some (Admitting t (length cells) todo, <[routing_key t := length cells]> breakers,
                      (cells ++ [cb_default])%list, None)
      end
  | Admitting t cell todo =>
      match cells !! cell with
      | Some cb =>
          let '(ok, cb) := cb_allow (input_time i) cb in
          Some (if ok then FindingClient t cell todo else Trying todo, breakers, <[cell := cb]> cells, None)
      | None => None
      end
  | FindingClient t cell todo =>
      match rt_providers rt !! routing_key t with
      | Some client => Some (FindingKey t cell client todo, breakers, cells, None)
      | None => Some (Trying todo, breakers, cells, None)
      end
  | FindingKey t cell client todo =>
      match get_api_key env (rt_keys rt) t with
      | Ok key => Some (Calling t cell todo, breakers, cells, Some (t, client, key))
      | Err _ => Some (Trying todo, breakers, cells, None)
      end
  | Calling t cell todo =>
      match i, cells !! cell with
      | InAnswer now r, Some cb =>
          Some (match r with
                | Ok _ => Done
                | Err e => if provider_retryable e then Trying todo else Done
                end, breakers, <[cell := record_outcome now r cb]> cells, None)
      | _, _ => None
      end
  | Done => None
  end.

(** What happens: an administrative call begins or goes on, a request arrives or goes on. *)
Inductive TrafficEvent :=
  | Begins (op : AdminOp)
  | Administers (i : nat)
  | Arrives
  | Serves (i : nat) (input : Input).

Definition traffic_exec (e : TrafficEvent) (st : traffic) : option traffic :=
  match e with
  | Begins op =>
      Some {| tf_routing := tf_routing st; tf_breakers := tf_breakers st; tf_cells := tf_cells st;
              tf_admin := (tf_admin st ++ [start op])%list; tf_requests := tf_requests st;
              tf_ops := (tf_ops st ++ [op])%list; tf_calls := tf_calls st |}
  | Administers i =>
      match tf_admin st !! i with
      | Some pc =>
          match admin_move pc (tf_routing st) (tf_breakers st) with
          | Some (pc, rt, breakers) =>
              Some {| tf_routing := rt; tf_breakers := breakers; tf_cells := tf_cells st;
                      tf_admin := <[i := pc]> (tf_admin st); tf_requests := tf_requests st;
                      tf_ops := tf_ops st; tf_calls := tf_calls st |}
          | None => None
          end
      | None => None
      end
  | Arrives =>
      Some {| tf_routing := tf_routing st; tf_breakers := tf_breakers st; tf_cells := tf_cells st;
              tf_admin := tf_admin st; tf_requests := (tf_requests st ++ [Selecting])%list;
              tf_ops := tf_ops st; tf_calls := tf_calls st |}
  | Serves i input =>
      match tf_requests st !! i with
      | Some pc =>
          match request_move input pc (tf_routing st) (tf_breakers st) (tf_cells st) with
          | Some (pc, breakers, cells, call) =>
              Some {| tf_routing := tf_routing st; tf_breakers := breakers; tf_cells := cells;
                      tf_admin := tf_admin st; tf_requests := <[i := pc]> (tf_requests st);
                      tf_ops := tf_ops st; tf_calls := (tf_calls st ++ option_list call)%list |}
          | None => None
          end
      | None => None
      end
  end.

Definition traffic_step (st st' : traffic) : Prop := exists e, traffic_exec e st = Some st'.

Definition is_finished (pc : AdminPc) : bool := match pc with Finished _ => true | _ => false end.

(** No administrative call is in progress. *)
Definition quiet (st : traffic) : Prop := forallb is_finished (tf_admin st) = true.

(** Administrative calls that do not overlap: one begins only when none is in progress. *)
Definition serial_step (st st' : traffic) : Prop :=
  exists e, traffic_exec e st = Some st' /\ (forall op, e = Begins op -> quiet st).

Fixpoint traffic_run (es : list TrafficEvent) (st : traffic) : option traffic :=
  match es with
  | [] => Some st
  | e :: es => match traffic_exec e st with Some st => traffic_run es st | None => None end
  end.

Definition traffic_start (rt : routing) : traffic :=
  {| tf_routing := rt; tf_breakers := ∅; tf_cells := []; tf_admin := []; tf_requests := [];
     tf_ops := []; tf_calls := [] |}.
End Steps.

Definition routing_of {W S B RL R Regex} (g : Gateway W S B RL R Regex) : Routing (Provider W S) :=
  {| rt_config := gw_config g; rt_targets := gw_targets g; rt_providers := gw_providers g;
     rt_keys := gw_provider_keys g; rt_history := gw_config_history g |}.

(** ** An administrative call alone *)

Section Alone.
Context {W S B RL R Regex : Type} `{CircuitBreakerTrait B} `{RateLimiting RL} `{ProviderRegistry R (Provider W S)}.
Context (shard_of : string -> nat) (shards : nat) (registry : R).
Context (shards_cover : forall k, (shard_of k < shards)%nat).

Local Abbreviation provider := (Provider W S).
Local Abbreviation routing := (Routing provider).
Local Abbreviation gateway := (Gateway W S B RL R Regex).
Local Abbreviation admin_move := (admin_move shard_of shards registry).
Local Abbreviation build_candidate := (build_candidate registry).

(** What a call leaves of the routing if nobody else changes it from where it stands. *)
Definition finish_prune (todo : list string) (rt : routing) : routing :=
  with_clients (foldl (fun m id => delete id m) (rt_providers rt) todo) rt.

Definition finish_swap (b : Rebuilt) (rt : routing) : routing :=
  finish_prune (stale_ids (omap target_id (rt_targets rt)) b)
    (with_front (with_targets (bt_targets b) (rt_config rt)) (bt_targets b) rt).

Definition finish_retain (todo : list nat) (b : Rebuilt) (rt : routing) : routing :=
  finish_swap b (with_keys (foldl (retain_shard shard_of (bt_keys b).*1) (rt_keys rt) todo) rt).

Definition finish_insert (todo : list (string * string)) (b : Rebuilt) (rt : routing) : routing :=
  finish_retain (seq 0 shards) b
    (with_keys (run_steps ((fun '(id, key) m => <[id := key]> m) <$> todo) (rt_keys rt)) rt).

Definition build_all (todo : list (Model * ModelEndpoint)) (b : Rebuilt) (clients : gmap string provider)
    : Rebuilt * gmap string provider :=
  foldl (fun '(b, clients) c => build_candidate c b clients) (b, clients) todo.

Definition finish_build (todo : list (Model * ModelEndpoint)) (b : Rebuilt) (on_empty : OnEmpty)
    (rt : routing) : routing :=
  let '(b, clients) := build_all todo b (rt_providers rt) in
  let rt := with_clients clients rt in
  if kept_previous b on_empty then rt else finish_insert (bt_keys b) b rt.

Definition finish_record (now : Z) (config : Config) (rb : option Z) (rt : routing) : routing :=
  with_versions (history_record now config rb (rt_history rt)) rt.

Definition finish_apply (now : Z) (config : Config) (rb : option Z) (rt : routing) : routing :=
  let applied := apply_guardrail_deprecations config in
  match validate applied with
  | Ok _ => finish_record now config rb (with_front applied (cfg_targets applied) rt)
  | Err _ => rt
  end.

Definition settle (pc : AdminPc) (rt : routing) : routing :=
  match pc with
  | Building todo b on_empty => finish_build todo b on_empty rt
  | InsertingKeys todo b => finish_insert todo b rt
  | RetainingKeys todo b => finish_retain todo b rt
  | Swapping b => finish_swap b rt
  | RetainingBreakers _ b previous => finish_prune (stale_ids previous b) rt
  | Pruning todo _ => finish_prune todo rt
  | Finding now version =>
      match find_version version (rt_history rt) with
      | Some config => finish_apply now config (Some version) rt
      | None => rt
      end
  | Applying now config rb => finish_apply now config rb rt
  | ClearingBreakers _ now config rb | Recording now config rb => finish_record now config rb rt
  | Finished _ => rt
  end.

Lemma admin_move_finish pc rt breakers pc' rt' breakers' :
  admin_move pc rt breakers = Some (pc', rt', breakers') -> settle pc' rt' = settle pc rt.
Proof.
  destruct pc as [[|c todo] b m|[|[id key] todo] b|[|s todo] b|b|[|s todo] b prev|[|id todo] b|now v
    |now config rb|[|s todo] now config rb|now config rb|a]; cbn [Traffic.admin_move]; try by intros [= <- <- <-].
  - cbn [settle]. unfold finish_build. cbn [build_all foldl].
    destruct (kept_previous b m) eqn:E; intros [= <- <- <-]; cbn [settle]; by destruct rt.
  - cbn [settle]. unfold finish_build. cbn [build_all foldl].
    destruct (build_candidate c b (rt_providers rt)) as [b' clients] eqn:E. intros [= <- <- <-].
    reflexivity.
  - intros [= <- <- <-]. by destruct rt.
  - cbn [settle]. destruct (find_version v (rt_history rt)); by intros [= <- <- <-].
  - cbn [settle]. unfold finish_apply. destruct (validate _); by intros [= <- <- <-].
Qed.

(** *** Against the sequential operations *)

Lemma retain_shard_lookup {A} ids (m : gmap string A) s k :
  retain_shard shard_of ids m s !! k =
    if decide (shard_of k = s /\ k ∉ ids) then None else m !! k.
Proof.
  unfold retain_shard. rewrite map_lookup_filter. destruct (m !! k) as [x|]; cbn; [|by case_decide].
  case_decide as Hd.
  - rewrite option_guard_False; [done|]. naive_solver.
  - rewrite option_guard_True; [done|]. intros Hs. destruct (decide (k ∈ ids)); naive_solver.
Qed.

(** Visiting every shard is retaining at once. *)
Lemma retain_shards_all {A} ids (m : gmap string A) :
  foldl (retain_shard shard_of ids) m (seq 0 shards) = retain_ids ids m.
Proof.
  assert (forall todo (m : gmap string A) k, foldl (retain_shard shard_of ids) m todo !! k =
    if decide (shard_of k ∈ todo /\ k ∉ ids) then None else m !! k) as Hfold.
  { clear m. induction todo as [|s todo IH]; intros m k; cbn [foldl].
    - rewrite decide_False; [done|]. intros [Hin _]. by apply not_elem_of_nil in Hin.
    - rewrite IH, retain_shard_lookup.
      repeat case_decide; rewrite ?elem_of_cons in *; try done; exfalso; naive_solver. }
  apply map_eq. intros k. rewrite Hfold, retain_ids_lookup.
  assert (shard_of k ∈ seq 0 shards) as Hin by (apply elem_of_seq; specialize (shards_cover k); lia).
  repeat case_decide; naive_solver.
Qed.

Lemma run_key_steps ks (m : gmap string string) :
  run_steps (key_steps ks) m =
    retain_ids ks.*1 (run_steps ((fun '(id, key) m => <[id := key]> m) <$> ks) m).
Proof. unfold run_steps, key_steps. by rewrite foldl_app. Qed.

Lemma prune_stale {A} previous b (m : gmap string A) :
  foldl (fun m id => delete id m) m (stale_ids previous b) = prune_clients previous (active_ids b) m.
Proof.
  unfold stale_ids, prune_clients. revert m. induction previous as [|id previous IH]; intros m; [done|].
  cbn [List.filter foldl]. destruct (decide (id ∈ active_ids b)).
  - rewrite bool_decide_true by done. cbn. apply IH.
  - rewrite bool_decide_false by done. cbn. apply IH.
Qed.

(** The loop of a rebuild, as Gateway.v has it. *)
Lemma build_all_candidates cs (acc : RebuildAcc (W := W) (S := S) (B := B) (RL := RL) (R := R) (Regex := Regex)) :
  gw_provider_registry (rb_gateway acc) = registry ->
  let acc' := foldl rebuild_candidate acc cs in
  build_all cs {| bt_targets := rb_targets acc; bt_keys := rb_keys acc; bt_skipped := rb_skipped acc |}
      (gw_providers (rb_gateway acc)) =
    ({| bt_targets := rb_targets acc'; bt_keys := rb_keys acc'; bt_skipped := rb_skipped acc' |},
     gw_providers (rb_gateway acc')).
Proof.
  revert acc. induction cs as [|c cs IH]; intros acc Hr; [done|]. cbn [foldl].
  assert (gw_provider_registry (rb_gateway (rebuild_candidate acc c)) = registry) as Hr'.
  { unfold rebuild_candidate, rebuild_endpoint. by destruct (reg_build _ _ _). }
  rewrite <- (IH _ Hr'). unfold build_all. cbn [foldl]. f_equal.
  unfold rebuild_candidate, rebuild_endpoint, Traffic.build_candidate, client_of. rewrite Hr.
  by destruct (reg_build registry _ _).
Qed.

Lemma finish_rebuild models endpoints on_empty (g : gateway) : gw_provider_registry g = registry ->
  settle (start (OpRebuild models endpoints on_empty)) (routing_of g) =
    routing_of (rebuild_targets_from_db models endpoints on_empty g).2.
Proof.
  intros Hr. unfold rebuild_targets_from_db. rewrite rebuild_build_candidates.
  destruct (rebuild_candidates_spec (candidates models endpoints)
    {| rb_targets := []; rb_keys := []; rb_skipped := []; rb_gateway := g |}) as (_ & _ & _ & Hg & _).
  pose proof (build_all_candidates (candidates models endpoints)
    {| rb_targets := []; rb_keys := []; rb_skipped := []; rb_gateway := g |} Hr) as Hb.
  cbn zeta in Hg, Hb. cbn [rb_targets rb_keys rb_skipped rb_gateway] in Hg, Hb.
  set (acc := foldl rebuild_candidate _ _) in *.
  cbn [start settle]. unfold finish_build, nothing_built. cbn [routing_of rt_providers]. rewrite Hb.
  rewrite Hg. unfold kept_previous. cbn [bt_targets].
  destruct (bool_decide _ && bool_decide _) eqn:E; [by destruct g|].
  unfold finish_insert, finish_retain, finish_swap, finish_prune.
  cbn [with_keys with_clients with_front rt_config rt_targets rt_providers rt_keys rt_history bt_keys bt_targets].
  rewrite prune_stale, retain_shards_all, <- run_key_steps. reflexivity.
Qed.

Context (regex_new : string -> option Regex).

Lemma finish_applied now config rb (g : gateway) :
  finish_apply now config rb (routing_of g) =
    match apply_config regex_new config g with
    | Ok g' => routing_of (with_history (history_record now config rb (gw_config_history g')) g')
    | Err _ => routing_of g
    end.
Proof. unfold finish_apply, apply_config. by destruct (validate _) as [[]|]. Qed.

(** A call alone does what the operation of Gateway.v does. *)
Lemma finish_start op (g : gateway) : gw_provider_registry g = registry ->
  settle (start op) (routing_of g) = routing_of (admin_step regex_new g op) /\
  gw_provider_registry (admin_step regex_new g op) = registry.
Proof.
  intros Hr. destruct op as [now config|now version|models endpoints on_empty]; cbn [admin_step].
  - cbn [start settle]. rewrite finish_applied. unfold reload_config.
    destruct (apply_config regex_new config g) as [g'|] eqn:E; [|done]. split; [done|].
    unfold apply_config in E. destruct (validate _) as [[]|]; [|done]. by injection E as <-.
  - cbn [start settle]. unfold rollback_config. cbn [routing_of rt_history].
    destruct (find_version version (gw_config_history g)) as [config|]; [|done].
    change (Build_Routing _ _ _ _ _ _) with (routing_of g). rewrite finish_applied.
    destruct (apply_config regex_new config g) as [g'|] eqn:E; [|done]. split; [done|].
    unfold apply_config in E. destruct (validate _) as [[]|]; [|done]. by injection E as <-.
  - split; [by apply finish_rebuild|]. unfold rebuild_targets_from_db. rewrite rebuild_build_candidates.
    destruct (rebuild_candidates_spec (candidates models endpoints)
      {| rb_targets := []; rb_keys := []; rb_skipped := []; rb_gateway := g |}) as (_ & _ & _ & Hg & _).
    cbn zeta in Hg. rewrite Hg. by destruct (bool_decide _ && bool_decide _).
Qed.
End Alone.

(** ** Invariants of every interleaving *)

Section Invariants.
Context {W S B R : Type} `{CircuitBreakerTrait B} `{ProviderRegistry R (Provider W S)}.
Context (shard_of : string -> nat) (shards : nat).
Context (registry : R) (cb_default : B) (env : string -> option string).

Local Abbreviation provider := (Provider W S).
Local Abbreviation routing := (Routing provider).
Local Abbreviation traffic := (Traffic provider B).
Local Abbreviation admin_move := (admin_move shard_of shards registry).
Local Abbreviation request_move := (request_move cb_default env).
Local Abbreviation traffic_step := (traffic_step shard_of shards registry cb_default env).

(** What holds of the shared state, of each administrative call, of each request and of
    each call sent, given what was begun: established by every beginning and kept by every
    step. *)
Lemma traffic_invariant (I : list AdminOp -> routing -> Prop) (A : list AdminOp -> AdminPc -> Prop)
    (C : list AdminOp -> RequestPc provider -> Prop) (D : list AdminOp -> Target * provider * string -> Prop)
    rt0 st :
  I [] rt0 -> (forall ops op, A (ops ++ [op])%list (start op)) ->
  (forall ops op rt, I ops rt -> I (ops ++ [op])%list rt) ->
  (forall ops op pc, A ops pc -> A (ops ++ [op])%list pc) ->
  (forall ops op pc, C ops pc -> C (ops ++ [op])%list pc) ->
  (forall ops op c, D ops c -> D (ops ++ [op])%list c) ->
  (forall ops, C ops Selecting) ->
  (forall ops pc rt br pc' rt' br', I ops rt -> A ops pc ->
     admin_move pc rt br = Some (pc', rt', br') -> I ops rt' /\ A ops pc') ->
  (forall ops i pc rt br cells pc' br' cells' call, I ops rt -> C ops pc ->
     request_move i pc rt br cells = Some (pc', br', cells', call) ->
     C ops pc' /\ forall c, call = Some c -> D ops c) ->
  rtc traffic_step (traffic_start rt0) st ->
  I (tf_ops st) (tf_routing st) /\ Forall (A (tf_ops st)) (tf_admin st) /\
  Forall (C (tf_ops st)) (tf_requests st) /\ Forall (D (tf_ops st)) (tf_calls st).
Proof.
  intros HI HA Imon Amon Cmon Dmon HC Hadmin Hreq Hrun.
  assert (I (tf_ops (traffic_start (B := B) rt0)) (tf_routing (traffic_start (B := B) rt0)) /\
    Forall (A (tf_ops (traffic_start (B := B) rt0))) (tf_admin (traffic_start (B := B) rt0)) /\
    Forall (C (tf_ops (traffic_start (B := B) rt0))) (tf_requests (traffic_start (B := B) rt0)) /\
    Forall (D (tf_ops (traffic_start (B := B) rt0))) (tf_calls (traffic_start (B := B) rt0))) as Hst by (split_and!; done).
  induction Hrun as [st|st st1 st2 Hs Hrun IH]; [done|]. apply IH. clear IH Hrun st2.
  destruct Hst as (Hi & Ha & Hc & Hd), Hs as [[op|i| |i input] He]; cbn [traffic_exec] in He.
  - injection He as <-. cbn [tf_ops tf_routing tf_admin tf_requests tf_calls]. split_and!.
    + by apply Imon.
    + apply Forall_app. split; [eapply Forall_impl; [exact Ha|by intros; apply Amon]|by apply Forall_singleton].
    + eapply Forall_impl; [exact Hc|]. intros; by apply Cmon.
    + eapply Forall_impl; [exact Hd|]. intros; by apply Dmon.
  - destruct (tf_admin st !! i) as [pc|] eqn:Ei; [|done].
    destruct (Traffic.admin_move _ _ _ pc _ _) as [[[pc' rt'] br']|] eqn:Em; [|done]. injection He as <-.
    cbn [tf_ops tf_routing tf_admin tf_requests tf_calls].
    destruct (Hadmin _ _ _ _ _ _ _ Hi (Forall_lookup_1 _ _ _ _ Ha Ei) Em).
    split_and!; [done|by apply Forall_insert|done|done].
  - injection He as <-. cbn [tf_ops tf_routing tf_admin tf_requests tf_calls]. split_and!; [done|done| |done].
    apply Forall_app. split; [done|]. by apply Forall_singleton.
  - destruct (tf_requests st !! i) as [pc|] eqn:Ei; [|done].
    destruct (Traffic.request_move _ _ _ pc _ _ _) as [[[[pc' br'] cells'] call]|] eqn:Em; [|done].
    injection He as <-. cbn [tf_ops tf_routing tf_admin tf_requests tf_calls].
    destruct (Hreq _ _ _ _ _ _ _ _ _ _ Hi (Forall_lookup_1 _ _ _ _ Hc Ei) Em) as [Hc' Hcall].
    split_and!; [done|done|by apply Forall_insert|]. apply Forall_app. split; [done|].
    destruct call as [c|]; [|constructor]. apply Forall_singleton. by apply Hcall.
Qed.

(** *** Credentials *)

(** The endpoints some rebuild was begun with. *)
Definition listed (ops : list AdminOp) (c : Model * ModelEndpoint) : Prop :=
  exists models endpoints on_empty, OpRebuild models endpoints on_empty ∈ ops /\ c ∈ candidates models endpoints.

(** The client was registered under [id] at the start, or built for that endpoint. *)
Definition client_of_endpoint (rt0 : routing) (ops : list AdminOp) (id : string) (client : provider) : Prop :=
  rt_providers rt0 !! id = Some client \/
  exists c, listed ops c /\ ep_id c.2 = id /\ client_of registry c = Ok client.

(** The key was that of [id] at the start, or that of the endpoint. *)
Definition key_of_endpoint (rt0 : routing) (ops : list AdminOp) (id key : string) : Prop :=
  rt_keys rt0 !! id = Some key \/
  exists c, listed ops c /\ ep_id c.2 = id /\ ep_api_key c.2 = Some key.

Lemma listed_more ops op c : listed ops c -> listed (ops ++ [op])%list c.
Proof. intros (ms & es & m & Hin & Hc). exists ms, es, m. split; [apply elem_of_app; by left|done]. Qed.

Lemma client_more rt0 ops op id p : client_of_endpoint rt0 ops id p -> client_of_endpoint rt0 (ops ++ [op])%list id p.
Proof. intros [|(c & Hc & ?)]; [by left|right]. exists c. eauto using listed_more. Qed.

Lemma key_more rt0 ops op id k : key_of_endpoint rt0 ops id k -> key_of_endpoint rt0 (ops ++ [op])%list id k.
Proof. intros [|(c & Hc & ?)]; [by left|right]. exists c. eauto using listed_more. Qed.

Definition sourced (rt0 rt : routing) (ops : list AdminOp) : Prop :=
  (forall id p, rt_providers rt !! id = Some p -> client_of_endpoint rt0 ops id p) /\
  (forall id k, rt_keys rt !! id = Some k -> key_of_endpoint rt0 ops id k).

Definition keys_sourced (rt0 : routing) (ops : list AdminOp) (ks : list (string * string)) : Prop :=
  forall id k, (id, k) ∈ ks -> key_of_endpoint rt0 ops id k.

Definition pc_sourced (rt0 : routing) (ops : list AdminOp) (pc : AdminPc) : Prop :=
  match pc with
  | Building todo b _ => (forall c, c ∈ todo -> listed ops c) /\ keys_sourced rt0 ops (bt_keys b)
  | InsertingKeys todo _ => keys_sourced rt0 ops todo
  | _ => True
  end.

Lemma start_sourced rt0 ops op : pc_sourced rt0 (ops ++ [op])%list (start op).
Proof.
  destruct op as [now c|now v|ms es m]; cbn; [done..|]. split.
  - intros c Hc. exists ms, es, m. split; [apply elem_of_app; right; by left|done].
  - intros id k Hin. by apply not_elem_of_nil in Hin.
Qed.

Lemma keys_of_sourced rt0 ops c id k : listed ops c -> (id, k) ∈ keys_of c.2 -> key_of_endpoint rt0 ops id k.
Proof.
  intros Hc Hin. right. exists c. split; [done|]. unfold keys_of in Hin.
  destruct (ep_api_key c.2) as [key|]; [|by apply not_elem_of_nil in Hin].
  destruct (str_is_empty key); [by apply not_elem_of_nil in Hin|].
  apply list_elem_of_singleton in Hin. by injection Hin as -> ->.
Qed.

Lemma retain_shard_Some {A} ids (m : gmap string A) s k x :
  retain_shard shard_of ids m s !! k = Some x -> m !! k = Some x.
Proof. unfold retain_shard. by intros [? _]%map_lookup_filter_Some. Qed.

Lemma admin_sourced rt0 ops pc rt br pc' rt' br' : sourced rt0 rt ops -> pc_sourced rt0 ops pc ->
  admin_move pc rt br = Some (pc', rt', br') -> sourced rt0 rt' ops /\ pc_sourced rt0 ops pc'.
Proof.
  intros [Hp Hk] Hpc.
  destruct pc as [[|c todo] b m|[|[id key] todo] b|[|s todo] b|b|[|s todo] b prev|[|id todo] b|now v
    |now config rb|[|s todo] now config rb|now config rb|a]; cbn [Traffic.admin_move pc_sourced] in *;
    try (by intros [= <- <- <-]).
  - destruct (kept_previous b m); intros [= <- <- <-]; [done|]. split; [done|]. apply Hpc.
  - destruct Hpc as [Hc Hb]. unfold build_candidate. destruct (client_of registry c) as [client|err] eqn:Ec;
      intros [= <- <- <-].
    + split; [split; [|done]|split; [by intros x Hx; apply Hc; right|]]; cbn.
      * intros id p. rewrite lookup_insert. case_decide as Hid; [|apply Hp]. intros [= <-]. right.
        exists c. split; [apply Hc; by left|done].
      * intros id k [Hin|Hin]%elem_of_app; [by apply Hb|]. eapply keys_of_sourced; [|exact Hin].
        apply Hc. by left.
    + by split; [|split; [by intros x Hx; apply Hc; right|]].
  - intros [= <- <- <-]. split; [split; [done|]|by intros i k Hin; apply Hpc; right]. cbn.
    intros i k. rewrite lookup_insert. case_decide as Hid; [|apply Hk]. intros [= <-]. subst i.
    apply Hpc. by left.
  - intros [= <- <- <-]. split; [split; [done|]|done]. cbn. intros i k Hi. eapply Hk, retain_shard_Some, Hi.
  - intros [= <- <- <-]. split; [split; [|done]|done]. cbn. intros i p [_ Hi]%lookup_delete_Some. by apply Hp.
  - destruct (find_version v _); by intros [= <- <- <-].
  - destruct (validate _); by intros [= <- <- <-].
Qed.

End Invariants.

(** *** Endpoints that every rebuild keeps *)

Section Kept.
Context {W S B R : Type} `{CircuitBreakerTrait B} `{ProviderRegistry R (Provider W S)}.
Context (shard_of : string -> nat) (shards : nat).
Context (registry : R) (cb_default : B) (env : string -> option string).

Local Abbreviation provider := (Provider W S).
Local Abbreviation routing := (Routing provider).
Local Abbreviation admin_move := (admin_move shard_of shards registry).
Local Abbreviation traffic_step := (traffic_step shard_of shards registry cb_default env).

(** The endpoint is enabled, can be built, and has a key. *)
Definition keyed_candidate (id : string) (c : Model * ModelEndpoint) : Prop :=
  ep_id c.2 = id /\ is_ok (client_of registry c) = true /\ exists k, ep_api_key c.2 = Some k /\ k <> "".

Definition keeps (id : string) (op : AdminOp) : Prop :=
  match op with
  | OpRebuild models endpoints _ => exists c, c ∈ candidates models endpoints /\ keyed_candidate id c
  | _ => True
  end.

Definition has_key (id : string) (rt : routing) : Prop :=
  exists k, rt_keys rt !! id = Some k /\ k <> "".

Definition serves (id : string) (rt : routing) : Prop :=
  has_key id rt /\ is_Some (rt_providers rt !! id).

Definition no_empty_key (ks : list (string * string)) : Prop := forall id k, (id, k) ∈ ks -> k <> "".

Definition pc_keeps (id : string) (pc : AdminPc) : Prop :=
  match pc with
  | Building todo b _ => no_empty_key (bt_keys b) /\
      ((exists c, c ∈ todo /\ keyed_candidate id c) \/ (id ∈ (bt_keys b).*1 /\ id ∈ active_ids b))
  | InsertingKeys todo b => no_empty_key todo /\ id ∈ (bt_keys b).*1 /\ id ∈ active_ids b
  | RetainingKeys _ b => id ∈ (bt_keys b).*1 /\ id ∈ active_ids b
  | Swapping b | RetainingBreakers _ b _ => id ∈ active_ids b
  | Pruning todo _ => id ∉ todo
  | _ => True
  end.

Lemma keys_of_nonempty e : no_empty_key (keys_of e).
Proof.
  intros id k. unfold keys_of, str_is_empty. destruct (ep_api_key e) as [key|]; [|by intros ?%not_elem_of_nil].
  case_bool_decide; [by intros ?%not_elem_of_nil|]. by intros [= -> ->]%list_elem_of_singleton.
Qed.

Lemma keyed_candidate_key id c : keyed_candidate id c -> id ∈ (keys_of c.2).*1.
Proof.
  intros (Hid & _ & k & Hk & Hne). unfold keys_of, str_is_empty. rewrite Hk, bool_decide_false by done.
  cbn. rewrite Hid. by left.
Qed.

Lemma kept_not_stale id previous b : id ∈ active_ids b -> id ∉ stale_ids previous b.
Proof.
  intros Ha [_ Hn]%list_elem_of_In%filter_In. by rewrite bool_decide_true in Hn.
Qed.

(** A candidate that is built adds its target and its key. *)
Lemma build_keeps id c b (clients : gmap string provider) :
  no_empty_key (bt_keys b) ->
  let '(b', clients') := build_candidate registry c b clients in
  no_empty_key (bt_keys b') /\
  (id ∈ (bt_keys b).*1 /\ id ∈ active_ids b -> id ∈ (bt_keys b').*1 /\ id ∈ active_ids b') /\
  (keyed_candidate id c -> id ∈ (bt_keys b').*1 /\ id ∈ active_ids b') /\
  (is_Some (clients !! id) -> is_Some (clients' !! id)).
Proof.
  intros Hne. unfold build_candidate. destruct (client_of registry c) as [client|err] eqn:Ec.
  - unfold active_ids. cbn [bt_targets bt_keys]. rewrite fmap_app, omap_app. split_and!.
    + intros i k [Hin|Hin]%elem_of_app; [by eapply Hne|by eapply keys_of_nonempty].
    + intros [H1 H2]. split; apply elem_of_app; by left.
    + intros Hk. split; apply elem_of_app; right; [by apply keyed_candidate_key|].
      destruct Hk as [Hid _]. cbn. rewrite Hid. by left.
    + intros Hs. rewrite lookup_insert. by case_decide.
  - split_and!; try done. intros (_ & Hok & _). by rewrite Ec in Hok.
Qed.

Lemma serves_keys id (rt : routing) ks : serves id rt -> (exists k, ks !! id = Some k /\ k <> "") ->
  serves id (with_keys ks rt).
Proof. by intros [_ ?] ?. Qed.

Lemma admin_keeps id pc rt br pc' rt' br' : serves id rt -> pc_keeps id pc ->
  admin_move pc rt br = Some (pc', rt', br') -> serves id rt' /\ pc_keeps id pc'.
Proof.
  intros Hs Hpc.
  destruct pc as [[|c todo] b m|[|[i key] todo] b|[|s todo] b|b|[|s todo] b prev|[|i todo] b|now v
    |now config rb|[|s todo] now config rb|now config rb|a]; cbn [Traffic.admin_move pc_keeps] in *;
    try (by intros [= <- <- <-]).
  - destruct Hpc as [Hne [(c & Hin & _)|Hb]]; [by apply not_elem_of_nil in Hin|].
    destruct (kept_previous b m); intros [= <- <- <-]; by split.
  - destruct Hpc as [Hne Hb]. pose proof (build_keeps id c b (rt_providers rt) Hne) as Hstep.
    destruct (build_candidate registry c b (rt_providers rt)) as [b' clients].
    destruct Hstep as (Hne' & Hold & Hnew & Hcl). intros [= <- <- <-]. destruct Hs as [Hk Hc].
    split; [by split; [|by apply Hcl]|]. split; [done|]. destruct Hb as [(x & Hx & Hkx)|Hb]; [|by right; apply Hold].
    apply elem_of_cons in Hx as [->|Hx]; [by right; apply Hnew|left; by exists x].
  - intros [= <- <- <-]. split; [done|apply Hpc].
  - destruct Hpc as (Hne & Hk & Ha). intros [= <- <- <-]. split.
    + apply serves_keys; [done|]. rewrite lookup_insert. case_decide; [|apply Hs].
      exists key. split; [done|]. apply (Hne i). by left.
    + split_and!; [|done|done]. intros j k Hin. apply (Hne j). by right.
  - intros [= <- <- <-]. split; [done|apply Hpc].
  - destruct Hpc as [Hk Ha]. intros [= <- <- <-]. split; [|done]. apply serves_keys; [done|].
    rewrite retain_shard_lookup. rewrite decide_False by naive_solver. apply Hs.
  - intros [= <- <- <-]. split; [done|]. by apply kept_not_stale.
  - apply not_elem_of_cons in Hpc as [Hi Hpc]. intros [= <- <- <-]. split; [|done].
    destruct Hs as [Hk Hc]. split; [done|]. cbn. by rewrite lookup_delete_ne by done.
  - destruct (find_version v _); by intros [= <- <- <-].
  - destruct (validate _); by intros [= <- <- <-].
Qed.

Lemma start_keeps id op : keeps id op -> pc_keeps id (start op).
Proof.
  destruct op as [now c|now v|ms es m]; cbn; [done..|]. intros Hk. split; [|by left].
  intros i k Hin. by apply not_elem_of_nil in Hin.
Qed.

(** C10: A kept endpoint is never without its key. While every rebuild lists an endpoint
    as enabled, buildable and with a key, then however rebuilds, reloads, rollbacks and
    requests overlap, a client and a key are in place for it at every moment, and no
    request is sent to it with an empty key. *)
Theorem kept_endpoint_keeps_key (rt0 : routing) id st :
  serves id rt0 -> rtc traffic_step (traffic_start rt0) st -> Forall (keeps id) (tf_ops st) ->
  serves id (tf_routing st) /\
  forall t client key, (t, client, key) ∈ tf_calls st -> routing_key t = id ->
    target_api_key_env t = None -> key <> "".
Proof.
  intros Hserves Hrun Hops.
  destruct (traffic_invariant shard_of shards registry cb_default env
    (fun ops rt => Forall (keeps id) ops -> serves id rt)
    (fun ops pc => Forall (keeps id) ops -> pc_keeps id pc)
    (fun _ _ => True)
    (fun ops c => Forall (keeps id) ops -> routing_key c.1.1 = id -> target_api_key_env c.1.1 = None -> c.2 <> "")
    rt0 st) as (Hi & _ & _ & Hd); try done.
  - intros ops op [_ [Hk _]%Forall_cons]%Forall_app. by apply start_keeps.
  - intros ops op rt Hi [Hk _]%Forall_app. by apply Hi.
  - intros ops op pc Hi [Hk _]%Forall_app. by apply Hi.
  - intros ops op pc Hi [Hk _]%Forall_app. by apply Hi.
  - intros ops pc rt br pc' rt' br' Hi Ha Hm. split; intros Hk;
      destruct (admin_keeps id pc rt br pc' rt' br'); auto.
  - intros ops i pc rt br cells pc' br' cells' call Hi _ Hm. split; [done|]. intros [[t client] key] ->.
    cbn. intros Hk Hid Henv. destruct (Hi Hk) as [(k & Hkey & Hne) _]. unfold Traffic.request_move in Hm.
    destruct pc as [|[|x todo]|x cell todo|x cell todo|x cell p todo|x cell todo|]; try done.
    + destruct i; [|done..]. by destruct (forallb _ _).
    + by destruct (br !! _).
    + destruct (cells !! cell); [|done]. by destruct (cb_allow _ _) as [[] cb].
    + by destruct (rt_providers rt !! routing_key x).
    + unfold get_api_key in Hm. destruct (target_api_key_env x) as [v|] eqn:Ev.
      * destruct (env v); cbn in Hm; [|done]. injection Hm as _ _ _ -> -> ->. congruence.
      * destruct (rt_keys rt !! routing_key x) as [k'|] eqn:Ek; injection Hm as _ _ _ -> -> <-; congruence.
    + destruct i; [done..|]. by destruct (cells !! cell).
  - split; [by apply Hi|]. intros t client key Hin Hid Henv.
    exact (proj1 (Forall_forall _ _) Hd _ Hin Hops Hid Henv).
Qed.
End Kept.

(** ** Administrative calls that do not overlap *)

Section Serial.
Context {W S B BG RL R Regex : Type} `{CircuitBreakerTrait B} `{RateLimiting RL} `{ProviderRegistry R (Provider W S)}.
Context (regex_new : string -> option Regex).
Context (shard_of : string -> nat) (shards : nat).
Context (registry : R) (cb_default : B) (env : string -> option string).

Local Abbreviation provider := (Provider W S).
Local Abbreviation routing := (Routing provider).
Local Abbreviation traffic := (Traffic provider B).
Local Abbreviation gateway := (Gateway W S BG RL R Regex).
Local Abbreviation admin_move := (admin_move shard_of shards registry).
Local Abbreviation settle := (settle shard_of shards registry).
Local Abbreviation traffic_exec := (traffic_exec shard_of shards registry cb_default env).
Local Abbreviation serial_step := (serial_step shard_of shards registry cb_default env).
Local Abbreviation admin_run := (admin_run regex_new).

(** The configuration and the targets, which change together. *)
Definition front (rt : routing) : Config * list Target := (rt_config rt, rt_targets rt).

(** Whether the call has yet to exchange them. *)
Definition ahead (pc : AdminPc) : bool :=
  match pc with
  | Building _ _ _ | InsertingKeys _ _ | RetainingKeys _ _ | Swapping _ | Finding _ _ | Applying _ _ _ => true
  | _ => false
  end.

Lemma admin_move_ahead pc rt br pc' rt' br' : admin_move pc rt br = Some (pc', rt', br') ->
  ahead pc' = true -> ahead pc = true /\ front rt' = front rt.
Proof.
  destruct pc as [[|c todo] b m|[|[i key] todo] b|[|s todo] b|b|[|s todo] b prev|[|i todo] b|now v
    |now config rb|[|s todo] now config rb|now config rb|a]; cbn [Traffic.admin_move];
    try (by intros [= <- <- <-]).
  - destruct (kept_previous b m); by intros [= <- <- <-].
  - destruct (build_candidate _ _ _ _). by intros [= <- <- <-].
  - destruct (find_version v _); by intros [= <- <- <-].
  - destruct (validate _); by intros [= <- <- <-].
Qed.

Lemma finish_front pc rt : ahead pc = false -> front (settle pc rt) = front rt.
Proof. by destruct pc. Qed.

(** *** What every step leaves alone *)

(** A property of the routing, what was begun and the administrative calls in progress, kept
    by each beginning in quiet and by each administrative step, holds of every state. *)
Lemma serial_invariant (I : routing -> list AdminOp -> list AdminPc -> Prop) rt0 st :
  I rt0 [] [] ->
  (forall rt ops pcs op, I rt ops pcs -> forallb is_finished pcs = true ->
     I rt (ops ++ [op])%list (pcs ++ [start op])%list) ->
  (forall rt ops pcs i pc br pc' rt' br', I rt ops pcs -> pcs !! i = Some pc ->
     admin_move pc rt br = Some (pc', rt', br') -> I rt' ops (<[i := pc']> pcs)) ->
  rtc serial_step (traffic_start rt0) st -> I (tf_routing st) (tf_ops st) (tf_admin st).
Proof.
  intros HI Hbegin Hadmin Hrun.
  assert (I (tf_routing (traffic_start (B := B) rt0)) (tf_ops (traffic_start (B := B) rt0))
    (tf_admin (traffic_start (B := B) rt0))) as Hst by done.
  induction Hrun as [st|st st1 st2 [e [He Hq]] Hrun IH]; [done|]. apply IH. clear IH Hrun st2.
  destruct e as [op|i| |i input]; cbn [Traffic.traffic_exec] in He.
  - injection He as <-. cbn. apply Hbegin; [done|]. by eapply Hq.
  - destruct (tf_admin st !! i) as [pc|] eqn:Ei; [|done].
    destruct (Traffic.admin_move _ _ _ pc _ _) as [[[pc' rt'] br']|] eqn:Em; [|done]. injection He as <-.
    by eapply Hadmin.
  - by injection He as <-.
  - destruct (tf_requests st !! i) as [pc|]; [|done].
    destruct (Traffic.request_move _ _ _ _ _ _ _) as [[[[? ?] ?] ?]|]; [|done]. by injection He as <-.
Qed.

(** All calls but the last have finished; the last one, from where it stands, leads to what
    the operations do in sequence. *)
Definition in_sequence (g : gateway) (rt : routing) (ops : list AdminOp) (pcs : list AdminPc) : Prop :=
  (ops = [] /\ pcs = [] /\ rt = routing_of g) \/
  exists ops' op pcs' pc, ops = (ops' ++ [op])%list /\ pcs = (pcs' ++ [pc])%list /\
    forallb is_finished pcs' = true /\ settle pc rt = routing_of (admin_run ops g) /\
    (ahead pc = true -> front rt = front (routing_of (admin_run ops' g))).

Lemma finished_stuck pc rt br : is_finished pc = true -> admin_move pc rt br = None.
Proof. by destruct pc. Qed.

Lemma active_is_last (pcs : list AdminPc) pc i x rt br y : forallb is_finished pcs = true ->
  (pcs ++ [pc])%list !! i = Some x -> admin_move x rt br = Some y -> i = length pcs /\ x = pc.
Proof.
  intros Hf Hi Hm. apply lookup_app_Some in Hi as [Hi|[Hle Hi]].
  - apply list_elem_of_lookup_2, list_elem_of_In in Hi. rewrite forallb_forall in Hf.
    apply Hf in Hi. by rewrite finished_stuck in Hm.
  - destruct (i - length pcs)%nat as [|n] eqn:E; cbn in Hi; [|by destruct n].
    injection Hi as <-. split; [lia|done].
Qed.

Lemma all_finished_last (pcs : list AdminPc) pc : forallb is_finished (pcs ++ [pc]) = true ->
  is_finished pc = true.
Proof. rewrite forallb_app. cbn. by intros [_ [Hlast _]%andb_prop]%andb_prop. Qed.

Lemma finish_finished pc rt : is_finished pc = true -> settle pc rt = rt.
Proof. by destruct pc. Qed.

Context (shards_cover : forall k, (shard_of k < shards)%nat).

Lemma admin_run_registry ops (g : gateway) : gw_provider_registry g = registry ->
  gw_provider_registry (admin_run ops g) = registry.
Proof.
  revert g. induction ops as [|op ops IH]; intros g Hg; [done|]. apply IH.
  by apply (finish_start shard_of shards registry shards_cover regex_new op g).
Qed.

Lemma quiet_in_sequence g rt ops pcs : in_sequence g rt ops pcs -> forallb is_finished pcs = true ->
  rt = routing_of (admin_run ops g).
Proof.
  intros [(-> & -> & ->)|(ops' & op & pcs' & pc & -> & -> & _ & Hfin & _)] Hf; [done|].
  by rewrite finish_finished in Hfin by by eapply all_finished_last.
Qed.

Lemma serial_in_sequence (g : gateway) st : gw_provider_registry g = registry ->
  rtc serial_step (traffic_start (routing_of g)) st ->
  in_sequence g (tf_routing st) (tf_ops st) (tf_admin st).
Proof.
  intros Hg. apply serial_invariant.
  - by left.
  - intros rt ops pcs op Hseq Hf. right. exists ops, op, pcs, (start op). split_and!; [done..|done| |].
    + rewrite (quiet_in_sequence _ _ _ _ Hseq Hf). unfold Gateway.admin_run. rewrite foldl_app. cbn [foldl].
      by apply (finish_start shard_of shards registry shards_cover regex_new), admin_run_registry.
    + intros _. by rewrite (quiet_in_sequence _ _ _ _ Hseq Hf).
  - intros rt ops pcs i x br pc' rt' br' [(-> & -> & ->)|Hseq] Hi Hm; [done|].
    destruct Hseq as (ops' & op & pcs' & pc & -> & -> & Hf & Hfin & Hfront).
    destruct (active_is_last _ _ _ _ _ _ _ Hf Hi Hm) as [-> ->]. right.
    exists ops', op, pcs', pc'. split_and!; [done| |done| |].
    + by rewrite insert_app_r_alt, Nat.sub_diag by lia.
    + by rewrite (admin_move_finish _ _ _ _ _ _ _ _ _ Hm).
    + intros Ha. destruct (admin_move_ahead _ _ _ _ _ _ Hm Ha) as [Ha' ->]. by apply Hfront.
Qed.

(** C7: Administration is atomic to requests. When administrative calls do not overlap, then
    whatever requests do between their steps: the configuration and the targets a request
    sees are always those of the operations begun, run one after the other, with or without
    the last; and when no call is in progress, targets, clients, keys, configuration and
    history are exactly what the operations leave in sequence. *)
Theorem administration_linearizes (g : gateway) st :
  gw_provider_registry g = registry -> rtc serial_step (traffic_start (routing_of g)) st ->
  (exists ops, (ops = tf_ops st \/ ops = removelast (tf_ops st)) /\
     front (tf_routing st) = front (routing_of (admin_run ops g))) /\
  (quiet st -> tf_routing st = routing_of (admin_run (tf_ops st) g)).
Proof.
  intros Hg Hrun. pose proof (serial_in_sequence g st Hg Hrun) as Hseq. split.
  - destruct Hseq as [(-> & _ & ->)|(ops & op & pcs & pc & Hops & _ & _ & Hfin & Hfront)].
    + exists []. split; [by left|done].
    + destruct (ahead pc) eqn:Ea.
      * exists ops. rewrite Hops. split; [right; by rewrite removelast_last|by apply Hfront].
      * exists (tf_ops st). split; [by left|]. by rewrite <- Hfin, finish_front.
  - by apply quiet_in_sequence.
Qed.

(** *** Clients *)

(** Every target that is an endpoint has a client. *)
Definition resolves (targets : list Target) (clients : gmap string provider) : Prop :=
  forall t id, t ∈ targets -> target_id t = Some id -> is_Some (clients !! id).

Definition plain_op (op : AdminOp) : Prop :=
  match op with OpReload _ c => plain_config c | _ => True end.

Definition pc_resolves (rt : routing) (pc : AdminPc) : Prop :=
  match pc with
  | Building _ b _ | InsertingKeys _ b | RetainingKeys _ b | Swapping b => resolves (bt_targets b) (rt_providers rt)
  | RetainingBreakers _ b _ => bt_targets b = rt_targets rt
  | Pruning todo b => bt_targets b = rt_targets rt /\ forall id, id ∈ todo -> id ∉ active_ids b
  | Applying _ c _ | ClearingBreakers _ _ c _ | Recording _ c _ => plain_config c
  | Finding _ _ | Finished _ => True
  end.

Definition versions_plain (rt : routing) : Prop :=
  forall e, e ∈ ch_entries (rt_history rt) -> plain_config (che_config e).

Lemma build_resolves c b (clients : gmap string provider) ts :
  let '(b', clients') := build_candidate registry c b clients in
  (resolves (bt_targets b) clients -> resolves (bt_targets b') clients') /\
  (resolves ts clients -> resolves ts clients').
Proof.
  unfold build_candidate. destruct (client_of registry c) as [client|err]; [|done]. split.
  - intros Hr t id [Ht| ->%list_elem_of_singleton]%elem_of_app Hid; rewrite lookup_insert; case_decide; try done;
      [by eapply Hr|]. cbn in Hid. congruence.
  - intros Hr t id Ht Hid. rewrite lookup_insert. case_decide; [done|]. by eapply Hr.
Qed.

Lemma found_plain v (rt : routing) c : versions_plain rt -> find_version v (rt_history rt) = Some c -> plain_config c.
Proof.
  unfold find_version. intros Hp Hf. destruct (find _ _) as [x|] eqn:Ex; [|done]. injection Hf as <-.
  apply Hp. apply find_some in Ex as [Hx _]. by apply list_elem_of_In.
Qed.

Lemma plain_resolves c (clients : gmap string provider) : plain_config c -> resolves (cfg_targets c) clients.
Proof. intros Hp t id Ht Hid. rewrite (Hp t Ht) in Hid. done. Qed.

Lemma admin_resolves pc rt br pc' rt' br' :
  resolves (rt_targets rt) (rt_providers rt) -> versions_plain rt -> pc_resolves rt pc ->
  admin_move pc rt br = Some (pc', rt', br') ->
  resolves (rt_targets rt') (rt_providers rt') /\ versions_plain rt' /\ pc_resolves rt' pc'.
Proof.
  intros Hr Hv Hpc.
  destruct pc as [[|c todo] b m|[|[i key] todo] b|[|s todo] b|b|[|s todo] b prev|[|i todo] b|now v
    |now config rb|[|s todo] now config rb|now config rb|a]; cbn [Traffic.admin_move pc_resolves] in *;
    try (by intros [= <- <- <-]).
  - destruct (kept_previous b m); by intros [= <- <- <-].
  - pose proof (build_resolves c b (rt_providers rt) (rt_targets rt)) as Hb.
    destruct (build_candidate registry c b (rt_providers rt)) as [b' clients]. intros [= <- <- <-].
    split_and!; [by apply Hb|done|by apply Hb].
  - intros [= <- <- <-]. split_and!; [done|done|]. split; [done|].
    by intros id [_ Hn%negb_true_iff%bool_decide_eq_false]%list_elem_of_In%filter_In.
  - destruct Hpc as [Hb Hs]. intros [= <- <- <-]. split_and!; [|done|].
    + intros t id Ht Hid. cbn in Ht |- *. rewrite lookup_delete_ne; [by eapply Hr|]. intros <-.
      apply (Hs i); [by left|]. unfold active_ids. rewrite Hb. apply list_elem_of_omap. by exists t.
    + split; [done|]. intros id Hid. apply Hs. by right.
  - destruct (find_version v _) as [c|] eqn:Ef; intros [= <- <- <-]; [|done].
    split_and!; [done|done|]. by eapply found_plain.
  - destruct (validate _); intros [= <- <- <-]; [|done]. split_and!; [|done|done].
    by apply (plain_resolves config).
  - intros [= <- <- <-]. split_and!; [done| |done]. intros e [He|He]%elem_of_app; [by apply Hv|].
    by apply list_elem_of_singleton in He as ->.
Qed.

(** C34: Live endpoints resolve. When administrative calls, rebuilds, reloads and rollbacks
    alike, do not overlap, and no configuration that they apply or that the history
    records names an endpoint, then at every moment, in the middle of a rebuild too, every
    live target of the database has its client in place. *)
Theorem live_targets_resolve (rt0 : routing) st :
  resolves (rt_targets rt0) (rt_providers rt0) -> versions_plain rt0 ->
  rtc serial_step (traffic_start rt0) st -> Forall plain_op (tf_ops st) ->
  resolves (rt_targets (tf_routing st)) (rt_providers (tf_routing st)).
Proof.
  intros Hr0 Hv0 Hrun Hops.
  pose proof (serial_invariant (fun rt ops pcs => Forall plain_op ops ->
    resolves (rt_targets rt) (rt_providers rt) /\ versions_plain rt /\
    (pcs = [] \/ exists pcs' pc, pcs = (pcs' ++ [pc])%list /\ forallb is_finished pcs' = true /\ pc_resolves rt pc))
    rt0 st) as Hinv.
  apply Hinv; [..|done|done]; clear Hinv Hrun Hops st.
  - intros _. split_and!; [done|done|by left].
  - intros rt ops pcs op Hi Hf [Hops [Hop _]%Forall_cons]%Forall_app.
    destruct (Hi Hops) as (Hr & Hv & _). split_and!; [done|done|right].
    exists pcs, (start op). split_and!; [done|done|]. destruct op; cbn; [done|done|].
    intros t id Ht. by apply not_elem_of_nil in Ht.
  - intros rt ops pcs i x br pc' rt' br' Hi Hx Hm Hops.
    destruct (Hi Hops) as (Hr & Hv & [->|(pcs' & pc & -> & Hf & Hpc)]); [done|].
    destruct (active_is_last _ _ _ _ _ _ _ Hf Hx Hm) as [-> ->].
    destruct (admin_resolves _ _ _ _ _ _ Hr Hv Hpc Hm) as (Hr' & Hv' & Hpc').
    split_and!; [done|done|right]. exists pcs', pc'. split_and!; [|done|done].
    by rewrite insert_app_r_alt, Nat.sub_diag by lia.
Qed.
End Serial.

(** ** Races *)

(** Clients that remember the URL they were built for. *)
Record UrlRegistry := {}.

Definition url_client (url : string) : Provider unit unit :=
  {| prov_name := url; prov_display_name := url; prov_supported_models := [];
     prov_complete := fun _ _ w => (Err (PRateLimited 60), w);
     prov_complete_stream := fun _ _ w => (Ok tt, w); prov_embed := default_embed url |}.

#[export] Instance url_registry : ProviderRegistry UrlRegistry (Provider unit unit) :=
  {| reg_build _ t u := Ok (url_client (default t u)) |}.

Local Abbreviation race_traffic := (Traffic (Provider unit unit) CircuitBreaker).

Definition race_model : Model :=
  {| model_id := "m"; model_name := "gpt"; model_display_name := None; model_enabled := true;
     model_created_at := 0; model_updated_at := 0 |}.

Definition race_endpoint (id url key : string) (enabled : bool) : ModelEndpoint :=
  {| ep_id := id; ep_model_id := "m"; ep_provider_type := "openai"; ep_base_url := Some url;
     ep_api_key := Some key; ep_weight := f64_of_Z 1; ep_enabled := enabled; ep_created_at := 0; ep_updated_at := 0 |}.

Definition race_target (id url : string) : Target := target_of race_model (race_endpoint id url "" true).

(** One endpoint routes, with its client and its key. *)
Definition race_start : race_traffic :=
  traffic_start
    {| rt_config := with_targets [race_target "e1" "old"] default_config;
       rt_targets := [race_target "e1" "old"];
       rt_providers := {[ "e1" := url_client "old" ]}; rt_keys := {[ "e1" := "sk-1" ]};
       rt_history := history_default |}.

(** A map of one shard, and a closed breaker. *)
Abbreviation race_run :=
  (traffic_run (fun _ => 0%nat) 1 Build_UrlRegistry (breaker_new default_breaker_config) (fun _ => None)).

(** What was called: the endpoint, the URL of the client, the key. *)
Definition called (st : race_traffic) : list (option string * string * string) :=
  (fun '(t, client, key) => (target_id t, prov_name client, key)) <$> tf_calls st.

Definition moves_of (i n : nat) : list TrafficEvent := replicate n (Administers i).

(** A request [i] from its arrival to its call. *)
Definition whole_request (i : nat) (ordered : list Target) : list TrafficEvent :=
  [Arrives; Serves i (InOrder ordered); Serves i (InTick 0); Serves i (InTick 0); Serves i (InTick 0);
   Serves i (InTick 0)].

Definition rebuild_of (es : list ModelEndpoint) : AdminOp := OpRebuild [race_model] es OnEmptyApply.

(** A request can be sent with an empty key to an endpoint that is being removed: its key
    goes before its target and its client do. The comment of the source says that a request
    never finds a key missing. *)
Lemma removed_endpoint_called_without_key :
  (called <$> race_run (Begins (rebuild_of [race_endpoint "e1" "old" "sk-1" false]) :: moves_of 0 3 ++
    whole_request 0 [race_target "e1" "old"]) race_start) =
  Some [(Some "e1", "old", "")].
Proof. reflexivity. Qed.

(** An endpoint that gets a new URL and a new key: a request in the middle of the
    rebuild sends the old key to the new URL. *)
Lemma old_key_sent_to_new_url :
  (called <$> race_run (Begins (rebuild_of [race_endpoint "e1" "new" "sk-2" true]) :: moves_of 0 1 ++
    whole_request 0 [race_target "e1" "old"]) race_start) =
  Some [(Some "e1", "new", "sk-1")].
Proof. reflexivity. Qed.

(** Two rebuilds that overlap: the first was given the endpoints before one was added, and
    retains only their keys after the second has inserted its own. When both have
    finished, the added endpoint routes, has its client, and has no key. *)
Lemma overlapping_rebuilds_lose_key :
  let older := [race_endpoint "e1" "old" "sk-1" true] in
  let newer := (older ++ [race_endpoint "e2" "url" "sk-2" true])%list in
  ((fun st => (forallb is_finished (tf_admin st), target_id <$> rt_targets (tf_routing st),
               rt_keys (tf_routing st) !! "e2", called st)) <$>
    race_run ([Begins (rebuild_of older); Begins (rebuild_of newer)] ++ moves_of 1 8 ++ moves_of 0 10 ++
      moves_of 1 4 ++ whole_request 0 [race_target "e2" "url"]) race_start) =
  Some (true, [Some "e1"; Some "e2"], None, [(Some "e2", "url", "")]).
Proof. vm_compute. reflexivity. Qed.

(** And the one that finishes last decides, whichever read the database last: here the
    endpoint added by the later call is not routed. *)
Lemma overlapping_rebuilds_stale :
  let older := [race_endpoint "e1" "old" "sk-1" true] in
  let newer := (older ++ [race_endpoint "e2" "url" "sk-2" true])%list in
  ((fun st => (forallb is_finished (tf_admin st), target_id <$> rt_targets (tf_routing st))) <$>
    race_run ([Begins (rebuild_of older); Begins (rebuild_of newer)] ++ moves_of 1 12 ++ moves_of 0 11)
      race_start) =
  Some (true, [Some "e1"]).
Proof. vm_compute. reflexivity. Qed.

(** ** Witnesses *)

Section Running.
Context {W S B R : Type} `{CircuitBreakerTrait B} `{ProviderRegistry R (Provider W S)}.
Context (shard_of : string -> nat) (shards : nat).
Context (registry : R) (cb_default : B) (env : string -> option string).

Local Abbreviation traffic := (Traffic (Provider W S) B).

Lemma traffic_run_steps es (st st' : traffic) :
  traffic_run shard_of shards registry cb_default env es st = Some st' ->
  rtc (traffic_step shard_of shards registry cb_default env) st st'.
Proof.
  revert st. induction es as [|e es IH]; intros st; cbn [traffic_run]; [by intros [= <-]|].
  destruct (traffic_exec _ _ _ _ _ e st) as [st1|] eqn:E; [|done]. intros Hr.
  eapply rtc_l; [by exists e|by apply IH].
Qed.

(** Whether each call begins in quiet. *)
Fixpoint serial_events (es : list TrafficEvent) (st : traffic) : bool :=
  match es with
  | [] => true
  | e :: es =>
      match e with Begins _ => forallb is_finished (tf_admin st) | _ => true end &&
      match traffic_exec shard_of shards registry cb_default env e st with
      | Some st => serial_events es st
      | None => true
      end
  end.

Lemma traffic_run_serial es (st st' : traffic) :
  traffic_run shard_of shards registry cb_default env es st = Some st' -> serial_events es st = true ->
  rtc (serial_step shard_of shards registry cb_default env) st st'.
Proof.
  revert st. induction es as [|e es IH]; intros st; cbn [traffic_run serial_events]; [by intros [= <-]|].
  destruct (traffic_exec _ _ _ _ _ e st) as [st1|] eqn:E; [|done]. intros Hr [Hq Hs]%andb_prop.
  eapply rtc_l; [|by apply IH]. exists e. split; [done|]. by intros op ->.
Qed.
End Running.

Definition race_state (es : list TrafficEvent) : Traffic (Provider unit unit) CircuitBreaker :=
  default race_start (race_run es race_start).

Definition ran (o : option (Traffic (Provider unit unit) CircuitBreaker)) : bool :=
  match o with Some _ => true | None => false end.

Lemma race_state_run es : ran (race_run es race_start) = true -> race_run es race_start = Some (race_state es).
Proof. unfold race_state. by destruct (race_run es race_start). Qed.

Definition race_routing : Routing (Provider unit unit) := tf_routing race_start.

(** A rebuild that changes URL and key of the endpoint, and a request in its middle. *)
Definition demo_overlap : list TrafficEvent :=
  (Begins (rebuild_of [race_endpoint "e1" "new" "sk-2" true]) :: moves_of 0 1 ++
   whole_request 0 [race_target "e1" "old"])%list.


Lemma kept_endpoint_keeps_key_witness :
  serves "e1" (tf_routing (race_state demo_overlap)) /\ "sk-1" <> "".
Proof.
  destruct (kept_endpoint_keeps_key (fun _ => 0%nat) 1 Build_UrlRegistry
    (breaker_new default_breaker_config) (fun _ => None) race_routing "e1" (race_state demo_overlap))
    as [Hs Hk].
  - split; [by exists "sk-1"|by eexists].
  - apply (traffic_run_steps _ _ _ _ _ demo_overlap). apply race_state_run. by vm_compute.
  - repeat constructor. exists (race_model, race_endpoint "e1" "new" "sk-2" true). split; [by left|].
    split_and!; [done|done|by exists "sk-2"].
  - split; [done|]. apply (Hk (race_target "e1" "old") (url_client "new") "sk-1"); [|done|done].
    assert (tf_calls (race_state demo_overlap) = [(race_target "e1" "old", url_client "new", "sk-1")]) as ->
      by (by vm_compute). by left.
Defined.

Definition race_gateway : Gateway unit unit CircuitBreaker unit UrlRegistry unit :=
  register_provider_as "e1" (url_client "old")
    (gateway_new no_regex 0 Build_UrlRegistry (fun _ _ => tt) (fun _ => no_auditor) 0
       (with_targets [race_target "e1" "old"] default_config)).

Definition demo_serial : list TrafficEvent :=
  (Begins (rebuild_of [race_endpoint "e1" "new" "sk-2" true]) :: moves_of 0 10 ++
   Begins (rebuild_of []) :: moves_of 1 9)%list.

Definition serial_state : Traffic (Provider unit unit) CircuitBreaker :=
  default race_start (race_run demo_serial (traffic_start (routing_of race_gateway))).

Lemma serial_state_run :
  race_run demo_serial (traffic_start (routing_of race_gateway)) = Some serial_state.
Proof.
  assert (ran (race_run demo_serial (traffic_start (routing_of race_gateway))) = true) as Hr by (by vm_compute).
  unfold serial_state. by destruct (race_run demo_serial _).
Qed.

Lemma serial_state_reached :
  rtc (serial_step (fun _ => 0%nat) 1 Build_UrlRegistry (breaker_new default_breaker_config) (fun _ => None))
    (traffic_start (routing_of race_gateway)) serial_state.
Proof.
  refine (traffic_run_serial (fun _ => 0%nat) 1 Build_UrlRegistry (breaker_new default_breaker_config)
    (fun _ => None) demo_serial _ _ serial_state_run _). by vm_compute.
Qed.

Lemma serial_state_quiet : quiet serial_state.
Proof. by vm_compute. Qed.

Lemma administration_linearizes_witness :
  tf_routing serial_state = routing_of (admin_run no_regex (tf_ops serial_state) race_gateway).
Proof.
  apply (administration_linearizes (B := CircuitBreaker) no_regex (fun _ => 0%nat) 1 Build_UrlRegistry
    (breaker_new default_breaker_config) (fun _ => None) (fun _ => Nat.lt_0_succ 0) race_gateway serial_state).
  - reflexivity.
  - exact serial_state_reached.
  - exact serial_state_quiet.
Defined.

Lemma live_targets_resolve_witness :
  resolves (rt_targets (tf_routing (race_state demo_overlap))) (rt_providers (tf_routing (race_state demo_overlap))).
Proof.
  apply (live_targets_resolve (fun _ => 0%nat) 1 Build_UrlRegistry
    (breaker_new default_breaker_config) (fun _ => None) race_routing).
  - intros t id ->%list_elem_of_singleton [= <-]. by eexists.
  - intros e He. by apply not_elem_of_nil in He.
  - apply (traffic_run_serial _ _ _ _ _ demo_overlap); [|by vm_compute]. apply race_state_run. by vm_compute.
  - by repeat constructor.
Defined.
