(* ===== verification/Wire.v ===== *)
(** * Wiring the process
    (src/crates/himadri/src/wire/mode.rs, wire/plugins.rs, and the provider
    registration of src/crates/himadri/src/main.rs)

    What the environment decides when the process starts: where routing comes from,
    which providers are registered, which plugins run on every request and in which
    order. [PluginSettings] is what wire/plugins.rs parses from the environment and
    [build] composes the pipeline from it; the state the plugins share (counters,
    spend, metrics, the cache, the live configuration) is the record [Process]. The
    outside world of the process is [X]: its clocks and its random numbers are read
    from it. *)

From S2P Require Import Prelude Str Float Types Json Errors Config NetGuard Plugin Pii FixedWindow Budget Cache Provider Gateway.

(** ** The routing source (wire/mode.rs) *)

Inductive ProviderSource := Auto | Db.

#[export] Instance ProviderSource_eq_dec : EqDecision ProviderSource.
Proof. solve_decision. Defined.

Definition PROVIDER_SOURCE_VAR : string := "HIMADRI_PROVIDER_SOURCE".

Definition provider_source_parse (raw : string) : result ProviderSource string :=
  let v := to_ascii_lowercase (trim raw) in
  if decide (v = "" \/ v = "auto") then Ok Auto
  else if decide (v = "db" \/ v = "database") then Ok Db
  else Err (PROVIDER_SOURCE_VAR +:+ " has unrecognized value '" +:+ v +:+ "' (expected 'auto' or 'db')").

(** ** The environment variables of the providers (wire/providers.rs) *)

Definition OPENAI_BASE_URL : string := "OPENAI_BASE_URL".
Definition OPENAI_SECONDARY_BASE_URL : string := "OPENAI_SECONDARY_BASE_URL".
Definition AZURE_OPENAI_API_KEY : string := "AZURE_OPENAI_API_KEY".
Definition AZURE_OPENAI_ENDPOINT : string := "AZURE_OPENAI_ENDPOINT".
Definition AZURE_OPENAI_DEPLOYMENT : string := "AZURE_OPENAI_DEPLOYMENT".
Definition AZURE_OPENAI_API_VERSION : string := "AZURE_OPENAI_API_VERSION".

(** [non_preset_env::ALL] *)
Definition non_preset_env_all : list string :=
  [OPENAI_BASE_URL; OPENAI_SECONDARY_BASE_URL; AZURE_OPENAI_API_KEY; AZURE_OPENAI_ENDPOINT;
   AZURE_OPENAI_DEPLOYMENT; AZURE_OPENAI_API_VERSION].

Section Environment.
Context (env : string -> option string) (to_uppercase : string -> string).

Definition provider_source_from_env : result ProviderSource string :=
  match env PROVIDER_SOURCE_VAR with
  | Some raw => provider_source_parse raw
  | None => Ok Auto
  end.

Definition inert_provider_env_vars (is_set : string -> bool) : list string :=
  List.filter is_set ((api_key_env_var to_uppercase <$> PRESETS.*1) ++ non_preset_env_all)%list.

Definition inert_provider_env_vars_from_env : list string :=
  inert_provider_env_vars (fun var => match env var with Some _ => true | None => false end).
End Environment.

(** ** Registering the environment's providers (main.rs) *)

Definition with_base_url (base_url : string) (c : OpenAiCompatibleConfig) : OpenAiCompatibleConfig :=
  {| oc_name := oc_name c; oc_display_name := oc_display_name c; oc_base_url := base_url;
     oc_auth_method := oc_auth_method c; oc_chat_completions_path := oc_chat_completions_path c;
     oc_extra_headers := oc_extra_headers c; oc_models := oc_models c |}.

Definition secondary_config (base_url : string) : OpenAiCompatibleConfig :=
  {| oc_name := "openai-secondary"; oc_display_name := "OpenAI Secondary"; oc_base_url := base_url;
     oc_auth_method := oc_auth_method preset_openai;
     oc_chat_completions_path := oc_chat_completions_path preset_openai;
     oc_extra_headers := oc_extra_headers preset_openai; oc_models := oc_models preset_openai |}.

Section Registration.
Context {W S B RL R Regex : Type}.
Context (env : string -> option string) (to_uppercase : string -> string).
(** [OpenAiCompatibleProvider::new], [AnthropicProvider::new], [GeminiProvider::new]
    (Clients.v has the clients themselves). *)
Context (compatible : OpenAiCompatibleConfig -> Provider W S).
Context (anthropic gemini : option string -> Provider W S).

Local Abbreviation gateway := (Gateway W S B RL R Regex).

Definition register_openai (g : gateway) : gateway :=
  register_provider (compatible
    match env OPENAI_BASE_URL with
    | Some base_url => with_base_url base_url preset_openai
    | None => preset_openai
    end) g.

Definition register_secondary (g : gateway) : gateway :=
  match env OPENAI_SECONDARY_BASE_URL with
  | Some base_url => register_provider (compatible (secondary_config base_url)) g
  | None => g
  end.

Definition register_azure (g : gateway) : gateway :=
  match env AZURE_OPENAI_API_KEY, env AZURE_OPENAI_ENDPOINT, env AZURE_OPENAI_DEPLOYMENT with
  | Some _, Some base_url, Some deployment =>
      register_provider (compatible (compatible_azure base_url deployment
        (default "2024-10-21" (env AZURE_OPENAI_API_VERSION)))) g
  | _, _, _ => g
  end.

Definition register_preset (g : gateway) (row : string * OpenAiCompatibleConfig) : gateway :=
  if decide (row.1 = "openai") then g
  else match env (api_key_env_var to_uppercase row.1) with
       | None => g
       | Some _ => register_provider (compatible row.2) g
       end.

Definition register_providers_from_env (g : gateway) : gateway :=
  let g := register_openai g in
  let g := register_secondary g in
  let g := register_provider (anthropic None) g in
  let g := register_provider (gemini None) g in
  let g := register_azure g in
  foldl register_preset g PRESETS.
End Registration.

(** ** Plugin settings (wire/plugins.rs) *)

(** [str::parse::<u32>] *)
Definition parse_u32 (s : string) : option Z :=
  n ← parse_u64 s; if n <? 2 ^ 32 then Some n else None.

Record CacheSettings := { cs_ttl_secs : Z; cs_max_entries : Z }.

Record PluginSettings := {
  pl_word_filter : list string;
  pl_max_tokens_limit : option Z;
  pl_budget_spend_limit_usd : option f64;
  pl_budget_input_per_m : option f64;
  pl_budget_output_per_m : option f64;
  pl_rate_limit_key_rpm : option Z;
  pl_rate_limit_ip_rpm : option Z;
  pl_cache : option CacheSettings;
  pl_pii_defaults : option PiiGuardrailSettings;
  pl_pii_response_defaults : option PiiResponseSettings;
}.

Section Settings.
Context (env : string -> option string).
Context (parse_f64 : string -> option f64) (parse_f32 : string -> option f32).

Definition plugin_settings_from_env : PluginSettings :=
  {| pl_word_filter := match env "WORD_FILTER_BLOCKLIST" with Some v => split_csv v | None => [] end;
     pl_max_tokens_limit := parse_var env parse_u32 "MAX_TOKENS_LIMIT";
     pl_budget_spend_limit_usd := parse_var env parse_f64 "BUDGET_SPEND_LIMIT_USD";
     pl_budget_input_per_m := parse_var env parse_f64 "BUDGET_INPUT_PER_M_TOKENS";
     pl_budget_output_per_m := parse_var env parse_f64 "BUDGET_OUTPUT_PER_M_TOKENS";
     pl_rate_limit_key_rpm := parse_var env parse_u64 "RATE_LIMIT_KEY_RPM";
     pl_rate_limit_ip_rpm := parse_var env parse_u64 "RATE_LIMIT_IP_RPM";
     pl_cache := (fun ttl => {| cs_ttl_secs := ttl;
                                cs_max_entries := default 10000 (parse_var env parse_u64 "CACHE_MAX_ENTRIES") |})
                 <$> parse_var env parse_u64 "CACHE_TTL_SECS";
     pl_pii_defaults := settings_from_env env parse_f32;
     pl_pii_response_defaults := response_settings_from_env env parse_f32 |}.
End Settings.

(** A team of an organisation, or the organisation itself, with guardrails of which
    [f] holds. *)
Definition org_states (f : OrgGuardrailConfig -> bool) (c : Config) : bool :=
  existsb (fun '(_, org) =>
      f (org_guardrails org) ||
      existsb (fun '(_, team) => f (team_guardrails team)) (map_to_list (org_teams org)))
    (map_to_list (cfg_orgs c)).

Definition config_mentions_pii (c : Config) : bool :=
  pii_enabled (gr_pii (cfg_guardrails c)) ||
  org_states (fun g => match og_pii g with Some _ => true | None => false end) c.

Definition config_mentions_pii_response (c : Config) : bool :=
  negb (bool_decide (pii_response_mode (gr_pii (cfg_guardrails c)) = PiiResponseOff)) ||
  org_states (fun g => match og_pii g with
                       | Some pii => negb (bool_decide (pii_response_mode pii = PiiResponseOff))
                       | None => false
                       end) c.

(** ** The state the plugins share *)

Record Process (X C : Type) := {
  pr_config : Config;
  pr_metrics : PiiMetrics;
  pr_spend : gmap string SpendStore;
  pr_limits : RateLimitWorld;
  pr_cache : C;
  pr_outside : X;
}.
Arguments pr_config {X C}.
Arguments pr_metrics {X C}.
Arguments pr_spend {X C}.
Arguments pr_limits {X C}.
Arguments pr_cache {X C}.
Arguments pr_outside {X C}.

Section Build.
Context {X C E : Type} `{PiiEngine E} `{CacheStore C}.
(** The clocks of a budget entry, of the four rate-limit checks and of the cache,
    and [rand::random]. *)
Context (now : X -> Z) (checks : X -> Z * Z * Z * Z) (cached_now : X -> Z) (random : X -> Z).
Context (spend_iter : gmap string SpendEntry -> list (string * SpendEntry)).
Context (hash : string -> Z) (map_keys : gmap string FixedWindowCounter -> list string).
Context (to_lowercase : string -> string) (digest : Value -> string).
(** [RedactCoreEngine::new] over [EngineSecrets::from_env], and moka's constructor
    from the capacity and the lifetime. *)
Context (engine : result E PiiError) (moka_new : Z -> Z -> C).

Local Abbreviation process := (Process X C).

Definition with_metrics (f : PiiMetrics -> PiiMetrics) (w : process) : process :=
  {| pr_config := pr_config w; pr_metrics := f (pr_metrics w); pr_spend := pr_spend w;
     pr_limits := pr_limits w; pr_cache := pr_cache w; pr_outside := pr_outside w |}.

Definition with_spend (s : gmap string SpendStore) (w : process) : process :=
  {| pr_config := pr_config w; pr_metrics := pr_metrics w; pr_spend := s;
     pr_limits := pr_limits w; pr_cache := pr_cache w; pr_outside := pr_outside w |}.

Definition with_limits (l : RateLimitWorld) (w : process) : process :=
  {| pr_config := pr_config w; pr_metrics := pr_metrics w; pr_spend := pr_spend w;
     pr_limits := l; pr_cache := pr_cache w; pr_outside := pr_outside w |}.

Definition with_cache (c : C) (w : process) : process :=
  {| pr_config := pr_config w; pr_metrics := pr_metrics w; pr_spend := pr_spend w;
     pr_limits := pr_limits w; pr_cache := c; pr_outside := pr_outside w |}.

(** The plugins over the whole process. *)
Definition wired_guardrail (e : E) (defaults : option PiiGuardrailSettings) : Plugin process :=
  PiiGuardrailPlugin e (Some pr_config) (Some with_metrics) defaults.

Definition wired_response_guardrail (e : E) (defaults : option PiiResponseSettings)
    : ResponseGuardrail process :=
  PiiResponseGuardrail e (Some pr_config) (Some with_metrics) defaults.

Definition wired_budget (p : BudgetPlugin) : Plugin process :=
  {| plugin_name := "budget"; plugin_type := Middleware; plugin_stage := BeforeRequest;
     also_after_request := true;
     plugin_execute := fun ctx w =>
       let '(r, (ctx, s)) :=
         plugin_execute (budget_plugin spend_iter (now (pr_outside w)) p) ctx (pr_spend w) in
       (r, (ctx, with_spend s w)) |}.

(** The checks panic on a store that is not there; [limits_ready] says that the
    ones of the plugin always are. *)
Definition rate_limit_panics : PluginError := PluginInternal "rate limit store missing".

Definition wired_rate_limit (p : RateLimitPluginState) : Plugin process :=
  {| plugin_name := "rate-limit"; plugin_type := Middleware; plugin_stage := BeforeRequest;
     also_after_request := false;
     plugin_execute := fun ctx w =>
       let '(t_global, t_key, t_user, t_ip) := checks (pr_outside w) in
       match rate_limit_execute hash (random (pr_outside w)) map_keys p t_global t_key t_user t_ip
               ctx (pr_limits w) with
       | Some (r, l) => (r, (ctx, with_limits l w))
       | None => (Err rate_limit_panics, (ctx, w))
       end |}.

Definition wired_cache : ResponseCache process :=
  {| rc_key := cache_key digest;
     rc_get := fun key w => let '(r, c) := cache_get key (pr_cache w) in (r, with_cache c w);
     rc_insert := fun key response w =>
       with_cache (cache_insert (cached_now (pr_outside w)) key response (pr_cache w)) w |}.

(** ** Composition *)

Record WiredPlugins := {
  wi_manager : PluginManager process;
  wi_response_cache : option (ResponseCache process);
}.

Definition guardrails_configured (s : PluginSettings) (c : Config) : bool :=
  bool_decide (is_Some (pl_pii_defaults s)) || bool_decide (is_Some (pl_pii_response_defaults s)) ||
  config_mentions_pii c || config_mentions_pii_response c.

(** [Err] is the panic that stops the process. *)
Definition add_guardrails (s : PluginSettings) (c : Config) (m : PluginManager process)
    : result (PluginManager process) string :=
  match engine with
  | Ok e =>
      Ok (register_response_guardrail (wired_response_guardrail e (pl_pii_response_defaults s))
            (register (wired_guardrail e (pl_pii_defaults s)) m))
  | Err e =>
      if guardrails_configured s c then
        Err ("PII guardrail configured but engine failed to build: " +:+ pii_error_to_string e)
      else Ok m
  end.

Definition add_word_filter (s : PluginSettings) (m : PluginManager process) : PluginManager process :=
  match pl_word_filter s with
  | [] => m
  | words => register (WordFilterPlugin to_lowercase words) m
  end.

Definition add_max_token (s : PluginSettings) (m : PluginManager process) : PluginManager process :=
  match pl_max_tokens_limit s with Some limit => register (MaxTokenPlugin limit) m | None => m end.

Definition budget_wanted (s : PluginSettings) : bool :=
  bool_decide (is_Some (pl_budget_spend_limit_usd s)) ||
  bool_decide (is_Some (pl_budget_input_per_m s)) || bool_decide (is_Some (pl_budget_output_per_m s)).

Definition budget_config (s : PluginSettings) : BudgetConfig :=
  {| bc_store_id := None; bc_spend_limit_usd := Some (default f64_zero (pl_budget_spend_limit_usd s));
     bc_input_per_m_tokens := pl_budget_input_per_m s;
     bc_output_per_m_tokens := pl_budget_output_per_m s; bc_max_keys := None |}.

Definition add_budget (s : PluginSettings) (m : PluginManager process) (w : process)
    : PluginManager process * process :=
  if budget_wanted s then
    let '(r, spend) := budget_new (budget_config s) (pr_spend w) in
    (match r with Ok p => register (wired_budget p) m | Err _ => m end, with_spend spend w)
  else (m, w).

Definition rate_limit_wanted (s : PluginSettings) : bool :=
  bool_decide (is_Some (pl_rate_limit_key_rpm s)) || bool_decide (is_Some (pl_rate_limit_ip_rpm s)).

Definition rate_limit_config (s : PluginSettings) : RateLimitSettings :=
  {| rls_store_id := None; rls_requests_per_second := None; rls_key_rpm := pl_rate_limit_key_rpm s;
     rls_user_rpm := None; rls_ip_rpm := pl_rate_limit_ip_rpm s; rls_cfg_max_keys := None |}.

Definition add_rate_limit (s : PluginSettings) (m : PluginManager process) (w : process)
    : PluginManager process * process :=
  if rate_limit_wanted s then
    let '(p, l) := rate_limit_new (rate_limit_config s) (rlw_stores (pr_limits w)) in
    (register (wired_rate_limit p) m, with_limits l w)
  else (m, w).

Definition build (s : PluginSettings) (c : Config) (w : process)
    : result (WiredPlugins * process) string :=
  let? m := add_guardrails s c manager_new in
  let m := add_word_filter s m in
  let m := add_max_token s m in
  let m := register RequestLoggerPlugin m in
  let '(m, w) := add_budget s m w in
  let '(m, w) := add_rate_limit s m w in
  match pl_cache s with
  | Some c => Ok ({| wi_manager := m; wi_response_cache := Some wired_cache |},
                  with_cache (moka_new (cs_max_entries c) (cs_ttl_secs c)) w)
  | None => Ok ({| wi_manager := m; wi_response_cache := None |}, w)
  end.
End Build.

(** ** The rate limiter never panics *)

(** A registry whose stores all have their shards. *)
Definition shards_ok (s : RateLimiterStore) : Prop :=
  rls_num_shards s <> 0%nat /\ length (rls_shards s) = rls_num_shards s.

Definition stores_ok (stores : gmap string RateLimiterStore) : Prop := map_Forall (fun _ => shards_ok) stores.

(** The store of a scope, if the plugin limits it, is registered. *)
Definition registered (stores : gmap string RateLimiterStore) (o : option string) : Prop :=
  forall name, o = Some name -> is_Some (stores !! name).

Record limits_ready (p : RateLimitPluginState) (l : RateLimitWorld) : Prop := {
  lr_stores : stores_ok (rlw_stores l);
  lr_key : registered (rlw_stores l) (rlp_key_store p);
  lr_user : registered (rlw_stores l) (rlp_user_store p);
  lr_ip : registered (rlw_stores l) (rlp_ip_store p);
}.

Lemma shards_lookup (hash : string -> Z) key s : shards_ok s ->
  exists i m, rls_shard_index hash key s = Some i /\ rls_shards s !! i = Some m.
Proof.
  intros [Hn Hl]. unfold rls_shard_index. rewrite decide_False by done.
  eexists. destruct (lookup_lt_is_Some_2 (rls_shards s)
    (Z.to_nat (wrap_u64 (hash key) mod Z.of_nat (rls_num_shards s)))) as [m Hm].
  - rewrite Hl. pose proof (Z.mod_pos_bound (wrap_u64 (hash key)) (Z.of_nat (rls_num_shards s))). lia.
  - by exists m.
Qed.

Lemma rls_allow_total hash random map_keys now key s : shards_ok s ->
  exists ok s', rls_allow hash random map_keys now key s = Some (ok, s') /\ shards_ok s'.
Proof.
  intros Hs. destruct (shards_lookup hash key s Hs) as (i & m & Hi & Hm).
  unfold rls_allow. rewrite Hi, Hm.
  assert (forall x, shards_ok (with_rls_shards (<[i := x]> (rls_shards s)) s)) as Hok.
  { intros x. destruct Hs. split; [done|]. cbn. by rewrite length_insert. }
  destruct (m !! key); [destruct (fw_allow _ _)|destruct (fw_allow _ _)]; eauto.
Qed.

Section Ready.
Context (hash : string -> Z) (map_keys : gmap string FixedWindowCounter -> list string).

Lemma store_check_total random now store id l :
  stores_ok (rlw_stores l) -> registered (rlw_stores l) store ->
  exists ok l', store_check hash random map_keys now store id l = Some (ok, l') /\
    stores_ok (rlw_stores l') /\ forall o, registered (rlw_stores l) o -> registered (rlw_stores l') o.
Proof.
  intros Hok Hreg. unfold store_check.
  destruct store as [name|]; [|by eauto]. destruct id as [id|]; [|by eauto].
  destruct (Hreg name eq_refl) as [s Hs]. rewrite Hs.
  destruct (rls_allow_total hash random map_keys now id s (Hok _ _ Hs)) as (ok & s' & -> & Hs').
  eexists _, _. split; [done|]. cbn. split; [by apply map_Forall_insert_2|].
  intros o Ho n Hn. apply lookup_insert_is_Some. destruct (decide (name = n)); [by left|]. right. eauto.
Qed.

(** A check succeeds or stops the plugin; either way it is ready for the next. *)
Lemma rate_limit_execute_ready random p t1 t2 t3 t4 ctx l : limits_ready p l ->
  exists r l', rate_limit_execute hash random map_keys p t1 t2 t3 t4 ctx l = Some (r, l') /\
    limits_ready p l'.
Proof.
  intros [Hok Hk Hu Hi]. unfold rate_limit_execute.
  destruct (match rlw_global l with Some _ => _ | None => _ end) as [ok l0] eqn:Eg.
  assert (rlw_stores l0 = rlw_stores l) as Hl0.
  { destruct (rlw_global l); [destruct (fw_allow _ _)|]; by simplify_eq. }
  rewrite <- Hl0 in Hok, Hk, Hu, Hi. clear Eg Hl0.
  destruct ok; cbn [negb]; [|by eexists _, _; split; [done|constructor]].
  destruct (store_check_total random t2 (rlp_key_store p) (rl_get_api_key ctx) l0) as ([] & l1 & -> & Hok1 & H1);
    [done..| |by eexists _, _; split; [done|constructor; auto]].
  destruct (store_check_total random t3 (rlp_user_store p) (rl_get_user_id ctx) l1) as ([] & l2 & -> & Hok2 & H2);
    [by auto..| |by eexists _, _; split; [done|constructor; auto]].
  match goal with |- context [store_check _ _ _ t4 _ ?id l2] =>
    destruct (store_check_total random t4 (rlp_ip_store p) id l2) as ([] & l3 & -> & Hok3 & H3) end;
    [by auto..| |]; (eexists _, _; split; [done|constructor; auto]).
Qed.

Lemma make_store_ready scope id rpm n stores o stores' : stores_ok stores ->
  make_store scope id rpm n stores = (o, stores') ->
  stores_ok stores' /\ registered stores' o /\ forall o', registered stores o' -> registered stores' o'.
Proof.
  intros Hok. unfold make_store. destruct rpm as [rpm|]; [|intros [= <- <-]; by split_and!].
  intros [= <- <-]. unfold get_or_create. destruct (stores !! _) as [s|] eqn:Es; cbn.
  - split_and!; [done| |done]. intros ? [= <-]. by rewrite Es.
  - split_and!.
    + apply map_Forall_insert_2; [|done]. split; [done|]. apply length_replicate.
    + intros ? [= <-]. rewrite lookup_insert_eq. eauto.
    + intros o Ho name Hn. apply lookup_insert_is_Some'. right. eauto.
Qed.

Lemma rate_limit_new_ready cfg stores : stores_ok stores ->
  limits_ready (rate_limit_new cfg stores).1 (rate_limit_new cfg stores).2.
Proof.
  intros Hok. unfold rate_limit_new.
  destruct (make_store "key" _ _ _ _) as [k s1] eqn:E1.
  destruct (make_store "user" _ _ _ _) as [u s2] eqn:E2.
  destruct (make_store "ip" _ _ _ _) as [i s3] eqn:E3.
  apply make_store_ready in E1 as (Hok1 & Hk & _); [|done].
  apply make_store_ready in E2 as (Hok2 & Hu & H2); [|done].
  apply make_store_ready in E3 as (Hok3 & Hi & H3); [|done].
  by constructor; cbn; auto.
Qed.
End Ready.

(** ** The pipeline *)

(** What a budget needs to be enforced: a limit that is not negative, and a price
    where the limit is positive. *)
Definition budget_enforceable (s : PluginSettings) : bool :=
  let limit := default f64_zero (pl_budget_spend_limit_usd s) in
  let free o := f64_eqb (default f64_zero o) f64_zero in
  budget_wanted s && negb (f64_ltb limit f64_zero) &&
  negb (f64_ltb f64_zero limit && free (pl_budget_input_per_m s) && free (pl_budget_output_per_m s)).

Definition when {A} (b : bool) (x : A) : list A := if b then [x] else [].

Lemma filter_when {A} (P : A -> Prop) `{!forall x, Decision (P x)} b x :
  filter P (when b x) = when (b && bool_decide (P x)) x.
Proof.
  destruct b; [|done]. cbn [when]. rewrite filter_cons, filter_nil.
  by case_decide as Hp; [rewrite bool_decide_true|rewrite bool_decide_false].
Qed.

Section Pipeline.
Context {X C E : Type} `{PiiEngine E} `{CacheStore C}.
Context (now : X -> Z) (checks : X -> Z * Z * Z * Z) (cached_now : X -> Z) (random : X -> Z).
Context (spend_iter : gmap string SpendEntry -> list (string * SpendEntry)).
Context (hash : string -> Z) (map_keys : gmap string FixedWindowCounter -> list string).
Context (to_lowercase : string -> string) (digest : Value -> string) (moka_new : Z -> Z -> C).

Local Abbreviation process := (Process X C).
Local Abbreviation build_with engine :=
  (build now checks cached_now random spend_iter hash map_keys to_lowercase digest engine moka_new).

(** The two plugins that have a state of their own, as [build] leaves them. *)
Definition the_budget (s : PluginSettings) (w : process) : list (Plugin process) :=
  if budget_wanted s then
    match (budget_new (budget_config s) (pr_spend w)).1 with
    | Ok p => [wired_budget now spend_iter p]
    | Err _ => []
    end
  else [].

Definition the_rate_limit (s : PluginSettings) (w : process) : list (Plugin process) :=
  if rate_limit_wanted s then
    [wired_rate_limit checks random hash map_keys
       (rate_limit_new (rate_limit_config s) (rlw_stores (pr_limits w))).1]
  else [].

Definition downstream (s : PluginSettings) (w : process) : list (Plugin process) :=
  (match pl_word_filter s with [] => [] | words => [WordFilterPlugin to_lowercase words] end ++
   match pl_max_tokens_limit s with Some limit => [MaxTokenPlugin limit] | None => [] end ++
   [RequestLoggerPlugin] ++ the_budget s w ++ the_rate_limit s w)%list.

Definition register_all_of (ps : list (Plugin process)) (m : PluginManager process) : PluginManager process :=
  foldl (fun m p => register p m) m ps.

Lemma register_all_guardrails ps m :
  pm_response_guardrails (register_all_of ps m) = pm_response_guardrails m.
Proof.
  revert m. unfold register_all_of. induction ps as [|p ps IH]; intros m; cbn; [done|].
  rewrite IH. unfold register. by destruct (_ && _).
Qed.

Lemma the_budget_names s w :
  plugin_name <$> the_budget s w = when (budget_enforceable s) "budget" /\
  Forall (fun p => plugin_stage p = BeforeRequest /\ also_after_request p = true) (the_budget s w).
Proof.
  unfold the_budget, budget_enforceable. destruct (budget_wanted s); [|done].
  unfold budget_new. cbn [budget_config bc_spend_limit_usd bc_input_per_m_tokens bc_output_per_m_tokens default].
  destruct (f64_ltb _ f64_zero); cbn [andb negb]; [done|].
  destruct (f64_ltb _ _ && _ && _); cbn; [done|]. split; [done|]. by constructor.
Qed.

Lemma add_budget_pipeline s m w : exists w',
  add_budget now spend_iter s m w = (register_all_of (the_budget s w) m, w') /\ pr_limits w' = pr_limits w.
Proof.
  unfold add_budget, the_budget. destruct (budget_wanted s); [|by eexists].
  destruct (budget_new _ _) as [[p|err] spend]; by eexists.
Qed.

Lemma add_rate_limit_pipeline s m w : exists w',
  add_rate_limit checks random hash map_keys s m w = (register_all_of (the_rate_limit s w) m, w').
Proof.
  unfold add_rate_limit, the_rate_limit. destruct (rate_limit_wanted s); [|by eexists].
  destruct (rate_limit_new _ _). by eexists.
Qed.

Lemma the_rate_limit_limits s w w' : pr_limits w' = pr_limits w ->
  the_rate_limit s w' = the_rate_limit s w.
Proof. unfold the_rate_limit. by intros ->. Qed.

(** The rest of the pipeline, after whatever [m] holds. *)
Lemma add_rest_pipeline s m w : exists m1 w1 w2,
  add_budget now spend_iter s
    (register RequestLoggerPlugin (add_max_token s (add_word_filter to_lowercase s m))) w = (m1, w1) /\
  add_rate_limit checks random hash map_keys s m1 w1 = (register_all_of (downstream s w) m, w2).
Proof.
  match goal with |- context [add_budget _ _ s ?m0 w] =>
    destruct (add_budget_pipeline s m0 w) as (w1 & Hb & Hl) end.
  destruct (add_rate_limit_pipeline s (add_budget now spend_iter s
    (register RequestLoggerPlugin (add_max_token s (add_word_filter to_lowercase s m))) w).1 w1) as (w2 & Hr).
  eexists _, w1, w2. split; [exact Hb|]. rewrite Hb in Hr. cbn [fst] in Hr. rewrite Hr. f_equal.
  rewrite (the_rate_limit_limits s w w1 Hl).
  unfold downstream, register_all_of, add_max_token, add_word_filter. rewrite !foldl_app.
  by destruct (pl_word_filter s), (pl_max_tokens_limit s).
Qed.

(** What [build] registers, as one list. *)
Lemma build_pipeline s c w e : exists wired w',
  build_with (Ok e) s c w = Ok (wired, w') /\
  wi_manager wired = register_all_of (downstream s w)
    (register_response_guardrail (wired_response_guardrail e (pl_pii_response_defaults s))
       (register (wired_guardrail e (pl_pii_defaults s)) manager_new)) /\
  wi_response_cache wired = match pl_cache s with
                            | Some _ => Some (wired_cache cached_now digest)
                            | None => None
                            end.
Proof.
  unfold build. cbn [add_guardrails].
  match goal with |- context [add_word_filter _ s ?m] =>
    destruct (add_rest_pipeline s m w) as (m1 & w1 & w2 & -> & ->) end.
  destruct (pl_cache s); by eexists _, _.
Qed.

(** The pipeline a configuration gives. When the engine builds, the plugins that see a
    request before it is sent are the PII guardrail first, then the word filter, the
    token cap, the budget and the rate limit, each exactly when its settings ask for it
    and, for the budget, when it could be enforced; the logger and the budget see the
    response, and the response guardrail and the cache are there as configured. *)
Theorem wired_stage_names s c w e :
  exists wired w', build_with (Ok e) s c w = Ok (wired, w') /\
  stage_names BeforeRequest (wi_manager wired) =
    ("pii-guardrail" :: when (negb (bool_decide (pl_word_filter s = []))) "word-filter" ++
     when (bool_decide (is_Some (pl_max_tokens_limit s))) "max-token" ++
     when (budget_enforceable s) "budget" ++ when (rate_limit_wanted s) "rate-limit")%list /\
  stage_names AfterRequest (wi_manager wired) =
    ("request-logger" :: when (budget_enforceable s) "budget") /\
  stage_names AfterResponse (wi_manager wired) = [] /\ stage_names OnError (wi_manager wired) = [] /\
  response_guardrail_names (wi_manager wired) = ["pii-response-guardrail"] /\
  (is_Some (wi_response_cache wired) <-> is_Some (pl_cache s)).
Proof.
  destruct (build_pipeline s c w e) as (wired & w' & Hb & Hm & Hc).
  exists wired, w'. split; [done|]. rewrite Hm, Hc. clear Hb Hm Hc.
  assert (forall st m, stage_names st (register_all_of (downstream s w) m) =
    stage_names st m ++ (plugin_name <$> filter (runs_in st) (downstream s w)))%list as Hn.
  { intros st m. unfold stage_names, register_all_of. by rewrite register_all, fmap_app. }
  rewrite !Hn. unfold downstream. rewrite !filter_app, !fmap_app.
  destruct (the_budget_names s w) as [Hbn Hbs].
  assert (forall st, plugin_name <$> filter (runs_in st) (the_budget s w) =
    if bool_decide (st = BeforeRequest \/ st = AfterRequest) then when (budget_enforceable s) "budget" else []) as Hb.
  { intros st. rewrite <- Hbn. revert Hbs. unfold the_budget. destruct (budget_wanted s); [|by destruct (bool_decide _)].
    destruct (budget_new _ _).1; [|by destruct (bool_decide _)].
    intros _. by destruct st. }
  rewrite !Hb.
  assert (forall st, plugin_name <$> filter (runs_in st) (the_rate_limit s w) =
    if bool_decide (st = BeforeRequest) then when (rate_limit_wanted s) "rate-limit" else []) as Hr.
  { intros st. unfold the_rate_limit. destruct (rate_limit_wanted s); by destruct st. }
  rewrite !Hr. clear Hn Hbn Hbs Hb Hr.
  split_and!; [destruct (pl_word_filter s), (pl_max_tokens_limit s); cbn -[budget_enforceable when];
    by rewrite ?app_nil_r..| |].
  { unfold response_guardrail_names. by rewrite register_all_guardrails. }
  destruct (pl_cache s); split; intros []; try done; by eexists.
Qed.

(** A configuration that mentions no scanning gives no principal any. *)
Lemma scoped_pii_stated c o t pii (f : OrgGuardrailConfig -> bool) :
  scoped_pii_section c o t = Some pii -> (forall g, og_pii g = Some pii -> f g = true) -> org_states f c = true.
Proof.
  unfold scoped_pii_section, scopes. intros Hs Hf.
  destruct o as [oid|]; [|done]. destruct (cfg_orgs c !! oid) as [org|] eqn:Eo; [|done].
  apply existsb_exists. exists (oid, org).
  split; [by apply list_elem_of_In, elem_of_map_to_list|]. apply orb_true_iff.
  destruct t as [tid|]; [destruct (org_teams org !! tid) as [team|] eqn:Et|]; cbn in Hs.
  - destruct (og_pii (team_guardrails team)) as [p|] eqn:Ep.
    + injection Hs as ->. right. apply existsb_exists. exists (tid, team).
      split; [by apply list_elem_of_In, elem_of_map_to_list|]. by apply Hf.
    + left. apply Hf. by destruct (og_pii (org_guardrails org)).
  - left. apply Hf. by destruct (og_pii (org_guardrails org)).
  - left. apply Hf. by destruct (og_pii (org_guardrails org)).
Qed.

Lemma unmentioned_unscanned s c ctx (w : process) :
  guardrails_configured s c = false -> pr_config w = c ->
  effective_settings (Some pr_config) (pl_pii_defaults s) ctx w = None /\
  effective_response_settings (Some pr_config) (pl_pii_response_defaults s) ctx w = None.
Proof.
  unfold guardrails_configured, config_mentions_pii, config_mentions_pii_response.
  rewrite !orb_false_iff, !bool_decide_eq_false, negb_false_iff, bool_decide_eq_true.
  intros [[[Hd Hr] [Hg Ho]] [Hgr Hor]] Hc.
  apply eq_None_not_Some in Hd, Hr. unfold effective_settings, effective_response_settings. rewrite Hc.
  destruct (scoped_pii_section c (ctx_org_id ctx) (ctx_team_id ctx)) as [pii|] eqn:Es.
  - exfalso. apply (scoped_pii_stated _ _ _ _ (fun g => match og_pii g with Some _ => true | None => false end))
      in Es; [congruence|]. by intros g ->.
  - rewrite Hg, Hd, Hr. split; [done|]. unfold active_response. rewrite Hgr.
    by rewrite andb_false_r.
Qed.

(** What counts as asking for PII scanning, of the environment or of the configuration:
    a default mode in the environment, a global section that scans requests or
    responses, or a section of any organisation or team, even one that is switched
    off: it can be switched on while the process runs. *)
Inductive mentions_scanning (s : PluginSettings) (c : Config) : Prop :=
  | EnvScansRequests : is_Some (pl_pii_defaults s) -> mentions_scanning s c
  | EnvScansResponses : is_Some (pl_pii_response_defaults s) -> mentions_scanning s c
  | GlobalScansRequests : pii_enabled (gr_pii (cfg_guardrails c)) = true -> mentions_scanning s c
  | GlobalScansResponses :
      pii_response_mode (gr_pii (cfg_guardrails c)) <> PiiResponseOff -> mentions_scanning s c
  | OrgSection oid org :
      cfg_orgs c !! oid = Some org -> is_Some (og_pii (org_guardrails org)) -> mentions_scanning s c
  | TeamSection oid org tid team :
      cfg_orgs c !! oid = Some org -> org_teams org !! tid = Some team ->
      is_Some (og_pii (team_guardrails team)) -> mentions_scanning s c.

Lemma org_states_true f c : org_states f c = true <->
  exists oid org, cfg_orgs c !! oid = Some org /\
    (f (org_guardrails org) = true \/
     exists tid team, org_teams org !! tid = Some team /\ f (team_guardrails team) = true).
Proof.
  unfold org_states. rewrite existsb_exists. split.
  - intros ([oid org] & Hin%list_elem_of_In%elem_of_map_to_list & Hf). exists oid, org. split; [done|].
    apply orb_true_iff in Hf as [Hf|Hf]; [by left|right].
    apply existsb_exists in Hf as ([tid team] & Ht%list_elem_of_In%elem_of_map_to_list & Hf). eauto.
  - intros (oid & org & Ho & Hf). exists (oid, org).
    split; [by apply list_elem_of_In, elem_of_map_to_list|]. apply orb_true_iff.
    destruct Hf as [Hf|(tid & team & Ht & Hf)]; [by left|right]. apply existsb_exists.
    exists (tid, team). by split; [apply list_elem_of_In, elem_of_map_to_list|].
Qed.

Lemma guardrails_configured_mentions s c : guardrails_configured s c = true <-> mentions_scanning s c.
Proof.
  unfold guardrails_configured, config_mentions_pii, config_mentions_pii_response.
  rewrite !orb_true_iff, !bool_decide_eq_true, negb_true_iff, bool_decide_eq_false, !org_states_true.
  split.
  - intros [[[Hs|Hs]|[Hs|(oid & org & Ho & Hs)]]|[Hs|(oid & org & Ho & Hs)]]; eauto using mentions_scanning.
    + destruct Hs as [Hf|(tid & team & Ht & Hf)];
        [eapply OrgSection|eapply TeamSection]; eauto; by case_match.
    + destruct Hs as [Hf|(tid & team & Ht & Hf)];
        [eapply OrgSection|eapply TeamSection]; eauto; by case_match.
  - intros [Hs|Hs|Hs|Hs|oid org Ho [pii Hp]|oid org tid team Ho Ht [pii Hp]]; [tauto..| |];
      left; right; right; exists oid, org; (split; [done|]).
    + left. by rewrite Hp.
    + right. exists tid, team. by rewrite Hp.
Qed.

(** C22: A guardrail somebody asked for is never silently missing. When the engine
    cannot be built, the process refuses to start exactly if PII scanning is mentioned
    anywhere: by the environment, by the global section, or by a section of any
    organisation or team, switched on or off. When it does start, nothing mentions
    scanning, the guardrails are all that is missing from the pipeline, and under that
    configuration no principal's requests or responses would have been scanned. *)
Theorem guardrails_fail_closed s c w err :
  match build_with (Err err) s c w with
  | Err _ => mentions_scanning s c
  | Ok (wired, _) =>
      ~ mentions_scanning s c /\
      pm_response_guardrails (wi_manager wired) = [] /\
      (forall st, stage_plugins st (wi_manager wired) = filter (runs_in st) (downstream s w)) /\
      forall ctx (w' : process), pr_config w' = c ->
        effective_settings (Some pr_config) (pl_pii_defaults s) ctx w' = None /\
        effective_response_settings (Some pr_config) (pl_pii_response_defaults s) ctx w' = None
  end.
Proof.
  unfold build. cbn [add_guardrails].
  destruct (guardrails_configured s c) eqn:Ec; [by apply guardrails_configured_mentions|].
  destruct (add_rest_pipeline s manager_new w) as (m1 & w1 & w2 & -> & ->).
  assert (~ mentions_scanning s c) as Hm.
  { intros Hm%guardrails_configured_mentions. by rewrite Ec in Hm. }
  destruct (pl_cache s); cbn [wi_manager]; rewrite register_all_guardrails; (split; [done|]); (split; [done|]);
    (split; [|eauto using unmentioned_unscanned]);
    intros st; unfold register_all_of; rewrite register_all; by destruct st.
Qed.

(** ** What the guardrail leaves is what the rest sees *)

(** A plugin that looks at the request and changes nothing of it. *)
Definition keeps_context (p : Plugin process) : Prop :=
  forall ctx w, (plugin_execute p ctx w).2.1 = ctx.

Lemma run_keeps_context ps ctx w : Forall keeps_context ps ->
  (run_until_error ps ctx w).2.1 = ctx.
Proof.
  intros Hps. revert ctx w. induction Hps as [|p ps Hp _ IH]; intros ctx w; [done|]. cbn [run_until_error].
  specialize (Hp ctx w). destruct (plugin_execute p ctx w) as [[[]|err] [ctx' w']]; cbn in Hp |- *; subst; auto.
Qed.

Lemma downstream_keeps s w : Forall keeps_context (downstream s w).
Proof.
  unfold downstream. repeat apply Forall_app_2.
  - destruct (pl_word_filter s); repeat constructor. intros ctx w'. cbn. unfold word_filter_execute.
    by destruct (first_blocked _ _).
  - destruct (pl_max_tokens_limit s); repeat constructor. intros ctx w'. cbn. unfold max_token_execute.
    destruct (req_max_tokens _); [|done]. by destruct (_ <? _).
  - by repeat constructor.
  - unfold the_budget. destruct (budget_wanted s); [|done]. destruct (budget_new _ _).1 as [p|]; repeat constructor.
    intros ctx w'. cbn. unfold budget_execute.
    destruct (spend_key ctx), (pr_spend w' !! bp_store_id p); try done. by destruct (ctx_response ctx).
  - unfold the_rate_limit. destruct (rate_limit_wanted s); repeat constructor. intros ctx w'. cbn.
    destruct (checks _) as [[[t1 t2] t3] t4]. by destruct (rate_limit_execute _ _ _ _ _ _ _ _ _ _) as [[]|].
Qed.

End Pipeline.

Section RateLimitRuns.
Context (hash : string -> Z) (map_keys : gmap string FixedWindowCounter -> list string).

(** A call of the plugin: the random number and the clock readings it draws, and
    the request. *)
Record RateCall := { call_random : Z; call_clocks : Z * Z * Z * Z; call_ctx : PluginContext }.

Fixpoint rate_limit_run (p : RateLimitPluginState) (calls : list RateCall) (l : RateLimitWorld)
    : option (list (result unit PluginError) * RateLimitWorld) :=
  match calls with
  | [] => Some ([], l)
  | c :: calls =>
      let '(t1, t2, t3, t4) := call_clocks c in
      match rate_limit_execute hash (call_random c) map_keys p t1 t2 t3 t4 (call_ctx c) l with
      | Some (r, l) =>
          match rate_limit_run p calls l with Some (rs, l) => Some (r :: rs, l) | None => None end
      | None => None
      end
  end.

(** A rate limiter made by its constructor over a sound registry answers every call, on
    any requests and any clock readings: the branches that would panic are never taken. *)
Theorem rate_limit_never_panics cfg stores calls :
  stores_ok stores ->
  is_Some (rate_limit_run (rate_limit_new cfg stores).1 calls (rate_limit_new cfg stores).2).
Proof.
  intros Hok. pose proof (rate_limit_new_ready cfg stores Hok) as Hr.
  destruct (rate_limit_new cfg stores) as [p l]. cbn [fst snd] in Hr |- *.
  revert l Hr. induction calls as [|c calls IH]; intros l Hr; [by eexists|]. cbn [rate_limit_run].
  destruct (call_clocks c) as [[[t1 t2] t3] t4].
  destruct (rate_limit_execute_ready hash map_keys (call_random c) p t1 t2 t3 t4 (call_ctx c) l Hr)
    as (r & l' & -> & Hr').
  destruct (IH l' Hr') as [[rs l''] ->]. by eexists.
Qed.
End RateLimitRuns.

(** ** What registration reads *)

Section RegistrationProofs.
Context {W S B RL R Regex : Type} (to_uppercase : string -> string).
Context (compatible : OpenAiCompatibleConfig -> Provider W S).
Context (anthropic gemini : option string -> Provider W S).

Local Abbreviation gateway := (Gateway W S B RL R Regex).
Local Abbreviation registration env :=
  (register_providers_from_env (B := B) (RL := RL) (R := R) (Regex := Regex) env to_uppercase compatible
     anthropic gemini).
Local Abbreviation candidates := ((api_key_env_var to_uppercase <$> PRESETS.*1) ++ non_preset_env_all)%list.

Lemma registration_agrees (env env' : string -> option string) :
  (forall v, v ∈ candidates -> env v = env' v) -> forall g : gateway, registration env g = registration env' g.
Proof.
  intros Hv g.
  assert (forall v, v ∈ non_preset_env_all -> env v = env' v) as Hn.
  { intros v Hin. apply Hv, elem_of_app. by right. }
  assert (forall row, row ∈ PRESETS ->
    env (api_key_env_var to_uppercase row.1) = env' (api_key_env_var to_uppercase row.1)) as Hp.
  { intros row Hin. apply Hv, elem_of_app. left. by do 2 apply list_elem_of_fmap_2. }
  unfold register_providers_from_env, register_openai, register_secondary, register_azure.
  rewrite !(Hn _) by (cbn; set_solver).
  generalize PRESETS, Hp. clear. intros l Hp.
  match goal with |- foldl _ ?g0 _ = _ => generalize g0 end. clear g.
  induction l as [|row l IH]; intros g; [done|]. cbn [foldl].
  rewrite IH by (intros; apply Hp; by right). f_equal. unfold register_preset.
  by rewrite (Hp row) by left.
Qed.

(** The list the operator is warned from is complete. Registration reads no
    variable but the candidates of [inert_provider_env_vars], so it depends on nothing
    else in the environment; and when the warning names none, the environment
    registers exactly what an empty one would. *)
Theorem registration_reads_listed (env : string -> option string) (g : gateway) :
  (forall env', (forall v, v ∈ candidates -> env v = env' v) -> registration env g = registration env' g) /\
  (inert_provider_env_vars_from_env env to_uppercase = [] -> registration env g = registration (fun _ => None) g).
Proof.
  split; [intros env' Hv; by apply registration_agrees|].
  intros Hi. apply registration_agrees. intros v Hin.
  destruct (env v) eqn:Ev; [|done]. exfalso.
  unfold inert_provider_env_vars_from_env, inert_provider_env_vars in Hi.
  assert (In v (List.filter (fun var => match env var with Some _ => true | None => false end) candidates)) as H.
  { apply filter_In. rewrite Ev. split; [|done]. by apply list_elem_of_In. }
  rewrite Hi in H. done.
Qed.

(** Every client goes under its own name. *)
Context (compatible_name : forall c, prov_name (compatible c) = oc_name c).
Context (anthropic_name : forall u, prov_name (anthropic u) = "anthropic").
Context (gemini_name : forall u, prov_name (gemini u) = "gemini").

Lemma register_lookup (p : Provider W S) (g : gateway) k :
  is_Some (gw_providers (register_provider p g) !! k) <-> k = prov_name p \/ is_Some (gw_providers g !! k).
Proof. cbn. rewrite lookup_insert_is_Some'. naive_solver. Qed.

Lemma register_presets_lookup env (l : list (string * OpenAiCompatibleConfig)) (g : gateway) k :
  Forall (fun row => oc_name row.2 = row.1) l ->
  is_Some (gw_providers (foldl (register_preset env to_uppercase compatible) g l) !! k) <->
  is_Some (gw_providers g !! k) \/
  (k ∈ l.*1 /\ k <> "openai" /\ is_Some (env (api_key_env_var to_uppercase k))).
Proof.
  intros Hl. revert g. induction Hl as [|[t c] l Hc _ IH]; intros g; cbn [foldl].
  { split; [by left|]. intros [?|[?%not_elem_of_nil ?]]; done. }
  rewrite IH. cbn in Hc |- *. rewrite elem_of_cons. unfold register_preset. cbn.
  case_decide as Ht; [naive_solver|].
  destruct (env (api_key_env_var to_uppercase t)) eqn:Ee.
  - rewrite register_lookup, compatible_name, Hc. split; naive_solver.
  - split; [naive_solver|]. intros [?|([->|?] & ? & [? He])]; [naive_solver|congruence|naive_solver].
Qed.

(** The providers the environment registers: OpenAI, Anthropic and Gemini always, the
    second OpenAI upstream when its URL is set, Azure when its key, endpoint and
    deployment are, a preset vendor when its key is. *)
Theorem registered_providers env (g : gateway) k :
  is_Some (gw_providers (registration env g) !! k) <->
  is_Some (gw_providers g !! k) \/ k ∈ ["openai"; "anthropic"; "gemini"] \/
  (k = "openai-secondary" /\ is_Some (env OPENAI_SECONDARY_BASE_URL)) \/
  (k = "azure-openai" /\ is_Some (env AZURE_OPENAI_API_KEY) /\ is_Some (env AZURE_OPENAI_ENDPOINT) /\
     is_Some (env AZURE_OPENAI_DEPLOYMENT)) \/
  (k ∈ PRESETS.*1 /\ k <> "openai" /\ is_Some (env (api_key_env_var to_uppercase k))).
Proof.
  unfold register_providers_from_env. rewrite register_presets_lookup by (by repeat constructor).
  assert (forall g : gateway, is_Some (gw_providers (register_azure env compatible g) !! k) <->
    is_Some (gw_providers g !! k) \/ (k = "azure-openai" /\ is_Some (env AZURE_OPENAI_API_KEY) /\
      is_Some (env AZURE_OPENAI_ENDPOINT) /\ is_Some (env AZURE_OPENAI_DEPLOYMENT))) as ->.
  { intros g0. unfold register_azure.
    destruct (env AZURE_OPENAI_API_KEY), (env AZURE_OPENAI_ENDPOINT), (env AZURE_OPENAI_DEPLOYMENT);
      rewrite ?register_lookup, ?compatible_name; cbn [oc_name compatible_azure];
      rewrite ?is_Some_alt; naive_solver. }
  rewrite !register_lookup, anthropic_name, gemini_name. unfold register_secondary.
  assert (is_Some (gw_providers (register_openai env compatible g) !! k) <->
    k = "openai" \/ is_Some (gw_providers g !! k)) as Ho.
  { unfold register_openai. rewrite register_lookup, compatible_name.
    by destruct (env OPENAI_BASE_URL). }
  destruct (env OPENAI_SECONDARY_BASE_URL); rewrite ?register_lookup, ?compatible_name, Ho;
    cbn [oc_name secondary_config]; rewrite !elem_of_cons, ?is_Some_alt, elem_of_nil; naive_solver.
Qed.
End RegistrationProofs.

(** ** Examples *)

(** A mode nobody defined leaves the guardrail off: the variable is there, but nothing
    counts as configured, and no request is scanned. *)
Theorem mistyped_mode_disables (env : string -> option string) parse_f64 parse_f32 (w : Process unit unit) ctx :
  env = (fun v => if decide (v = "GUARDRAILS_PII_MODE") then Some "redacted" else None) ->
  pr_config w = default_config ->
  let s := plugin_settings_from_env env parse_f64 parse_f32 in
  guardrails_configured s default_config = false /\
  effective_settings (Some pr_config) (pl_pii_defaults s) ctx w = None.
Proof.
  intros -> Hw s. assert (guardrails_configured s default_config = false) as Hc.
  { unfold s. vm_compute. reflexivity. }
  split; [done|]. by apply (unmentioned_unscanned s default_config ctx w).
Qed.

Module WireDemo.
#[local] Instance no_engine : PiiEngine unit :=
  {| pe_scan := fun _ _ _ => Ok []; pe_redact := fun _ text _ => Ok {| out_text := text; out_replaced := [] |} |}.
#[local] Instance no_cache : CacheStore unit := {| cs_get := fun _ c => (None, c); cs_insert := fun _ _ c => c |}.

Definition process : Process unit unit :=
  {| pr_config := default_config;
     pr_metrics := {| pm_detections := ∅; pm_blocked := ∅; pm_engine_errors := 0 |};
     pr_spend := ∅; pr_limits := {| rlw_global := None; rlw_stores := ∅ |};
     pr_cache := tt; pr_outside := tt |}.

(** Every opt-in plugin on. *)
Definition settings : PluginSettings :=
  {| pl_word_filter := ["blocked"]; pl_max_tokens_limit := Some 4096;
     pl_budget_spend_limit_usd := Some (f64_of_Z 100); pl_budget_input_per_m := Some (f64_of_Z 1);
     pl_budget_output_per_m := Some (f64_of_Z 2); pl_rate_limit_key_rpm := Some 60;
     pl_rate_limit_ip_rpm := Some 120; pl_cache := Some {| cs_ttl_secs := 30; cs_max_entries := 500 |};
     pl_pii_defaults := None; pl_pii_response_defaults := None |}.

Definition wired : result (WiredPlugins * Process unit unit) string :=
  build (fun _ => 0) (fun _ => (0, 0, 0, 0)) (fun _ => 0) (fun _ => 0) map_to_list (fun _ => 0)
    (fun m => (map_to_list m).*1) (fun s => s) (fun _ => "") (Ok tt) (fun _ _ => tt) settings default_config
    process.

(** The two pipelines of the source's test. *)
Example full_pipeline : match wired with
  | Ok (wi, _) =>
      stage_names BeforeRequest (wi_manager wi) =
        ["pii-guardrail"; "word-filter"; "max-token"; "budget"; "rate-limit"] /\
      stage_names AfterRequest (wi_manager wi) = ["request-logger"; "budget"]
  | Err _ => False
  end.
Proof. vm_compute. by split. Qed.

Lemma mistyped_mode_disables_witness :
  exists s, guardrails_configured s default_config = false.
Proof.
  eexists. apply (mistyped_mode_disables _ (fun _ => None) (fun _ => None) process
    (demo_context []) eq_refl eq_refl).
Defined.
End WireDemo.
