(* ===== verification/LogSql.v ===== *)
(** * The request log in Postgres
    (src/crates/himadri-admin/src/postgres_backends.rs, migrations/postgres/001_initial.sql)

    [PostgresRequestLogStore] takes entries on the request path into a bounded queue and
    returns; a task of its own moves them into the table. The store is therefore three
    places an entry can be in: the queue, the hand of the writer, the table. The steps of
    writers, of the task and of the two maintenance calls interleave freely; the theorems
    are about every interleaving. A query is built as text with numbered placeholders
    and, separately, a list of values: [holds] says what the database makes of the two. *)

From Stdlib Require Import Permutation Sorting.Sorted.
From stdpp Require Import sorting.
From S2P Require Import Prelude Str Sql Usage.

(** ** Rows *)

(** [u32 as i32] and back *)
Definition as_i32 (x : Z) : Z := if x <? 2 ^ 31 then x else x - 2 ^ 32.
Definition i32_as_u32 (x : Z) : Z := x mod 2 ^ 32.

(** [usize as i64] *)
Definition as_i64 (x : Z) : Z := if x <? 2 ^ 63 then x else x - 2 ^ 64.

Record RequestLogRow := {
  lw_trace_id : string;
  lw_stage : string;
  lw_model : string;
  lw_provider : string;
  lw_prompt_tokens : Z;
  lw_completion_tokens : Z;
  lw_total_tokens : Z;
  lw_error_message : option string;
  lw_created_at : Z;
}.

(** The values bound to the [INSERT], and the entry made of a row. *)
Definition row_of_entry (e : RequestLogEntry) : RequestLogRow :=
  {| lw_trace_id := le_trace_id e; lw_stage := le_stage e; lw_model := le_model e;
     lw_provider := le_provider e; lw_prompt_tokens := as_i32 (le_prompt_tokens e);
     lw_completion_tokens := as_i32 (le_completion_tokens e);
     lw_total_tokens := as_i32 (le_total_tokens e); lw_error_message := le_error_message e;
     lw_created_at := le_created_at e |}.

Definition entry_of_row (r : RequestLogRow) : RequestLogEntry :=
  {| le_trace_id := lw_trace_id r; le_stage := lw_stage r; le_model := lw_model r;
     le_provider := lw_provider r; le_prompt_tokens := i32_as_u32 (lw_prompt_tokens r);
     le_completion_tokens := i32_as_u32 (lw_completion_tokens r);
     le_total_tokens := i32_as_u32 (lw_total_tokens r); le_error_message := lw_error_message r;
     le_created_at := lw_created_at r |}.

(** The columns' lengths. *)
Definition row_fits (r : RequestLogRow) : bool :=
  text_fits 255 (lw_trace_id r) && text_fits 50 (lw_stage r) && text_fits 255 (lw_model r) &&
  text_fits 255 (lw_provider r) && match lw_error_message r with Some m => no_nul m | None => true end.

(** ** Queries *)

Inductive Column := ColModel | ColProvider | ColCreatedAt.
Inductive Comparison := CompareEq | CompareGe | CompareLt.

(** [column op $n] *)
Record Condition := { cond_column : Column; cond_op : Comparison; cond_param : nat }.

Inductive Param := ParamText (s : string) | ParamTime (t : Z).

Definition condition_text (c : Condition) : string :=
  match cond_column c with ColModel => "model" | ColProvider => "provider" | ColCreatedAt => "created_at" end +:+
  match cond_op c with CompareEq => " = $" | CompareGe => " >= $" | CompareLt => " < $" end +:+
  show_Z (Z.of_nat (cond_param c)).

(** [if present { conditions.push(...); param_count += 1 }] *)
Definition push_condition (present : bool) (column : Column) (op : Comparison)
    (st : list Condition * nat) : list Condition * nat :=
  if present
  then ((st.1 ++ [{| cond_column := column; cond_op := op; cond_param := st.2 |}])%list, S st.2)
  else st.

Definition present {A} (o : option A) : bool := match o with Some _ => true | None => false end.

(** The conditions on the model, the provider and an instant, and their values. *)
Definition conditions_for (model provider : option string) (time : option Z) (op : Comparison)
    : list Condition :=
  (push_condition (present time) ColCreatedAt op
     (push_condition (present provider) ColProvider CompareEq
        (push_condition (present model) ColModel CompareEq ([], 1%nat)))).1.

Definition binds_for (model provider : option string) (time : option Z) : list Param :=
  (match model with Some m => [ParamText m] | None => [] end ++
   match provider with Some p => [ParamText p] | None => [] end ++
   match time with Some t => [ParamTime t] | None => [] end)%list.

Definition where_clause (conditions : list Condition) : string :=
  match conditions with [] => "" | _ => "WHERE " +:+ join " AND " (condition_text <$> conditions) end.

Definition list_conditions (q : RequestLogQuery) : list Condition :=
  conditions_for (rq_model q) (rq_provider q) (rq_since q) CompareGe.
Definition list_binds (q : RequestLogQuery) : list Param :=
  binds_for (rq_model q) (rq_provider q) (rq_since q).
Definition list_limit (q : RequestLogQuery) : Z := as_i64 (Z.of_nat (default 100%nat (rq_limit q))).
Definition list_offset (q : RequestLogQuery) : Z := as_i64 (Z.of_nat (default 0%nat (rq_offset q))).

Definition count_query (q : RequestLogQuery) : string :=
  "SELECT COUNT(*) FROM request_logs " +:+ where_clause (list_conditions q).
Definition data_query (q : RequestLogQuery) : string :=
  "SELECT trace_id, stage, model, provider, prompt_tokens, completion_tokens, total_tokens, error_message, created_at FROM request_logs "
  +:+ where_clause (list_conditions q) +:+ " ORDER BY created_at DESC LIMIT " +:+ show_Z (list_limit q)
  +:+ " OFFSET " +:+ show_Z (list_offset q).

Definition delete_conditions (q : MaintenanceQuery) : list Condition :=
  conditions_for (mq_model q) (mq_provider q) (mq_before q) CompareLt.
Definition delete_binds (q : MaintenanceQuery) : list Param :=
  binds_for (mq_model q) (mq_provider q) (mq_before q).
Definition delete_sql (q : MaintenanceQuery) : string :=
  "DELETE FROM request_logs " +:+ where_clause (delete_conditions q).

(** What the database makes of a condition: [$n] is the n-th value bound. A value of
    the wrong type is an error there; it selects nothing here. *)
Definition holds_one (params : list Param) (r : RequestLogRow) (c : Condition) : bool :=
  match cond_param c with
  | O => false
  | S i =>
      match cond_column c, cond_op c, params !! i with
      | ColModel, CompareEq, Some (ParamText s) => bool_decide (lw_model r = s)
      | ColProvider, CompareEq, Some (ParamText s) => bool_decide (lw_provider r = s)
      | ColCreatedAt, CompareGe, Some (ParamTime t) => t <=? lw_created_at r
      | ColCreatedAt, CompareLt, Some (ParamTime t) => lw_created_at r <? t
      | _, _, _ => false
      end
  end.

Definition holds (conditions : list Condition) (params : list Param) (r : RequestLogRow) : bool :=
  forallb (holds_one params r) conditions.

(** ** The store *)

Definition REQUEST_LOG_QUEUE_CAPACITY : Z := 8192.

Record PostgresRequestLogStore := {
  pgl_queue : list RequestLogEntry;
  (** what the writer has taken and not yet inserted *)
  pgl_in_flight : option RequestLogEntry;
  pgl_dropped : Z;
  pgl_db : Db (list RequestLogRow);
}.

Definition pg_log_new (db : Db (list RequestLogRow)) : PostgresRequestLogStore :=
  {| pgl_queue := []; pgl_in_flight := None; pgl_dropped := 0; pgl_db := db |}.

Definition with_db (db : Db (list RequestLogRow)) (l : PostgresRequestLogStore) : PostgresRequestLogStore :=
  {| pgl_queue := pgl_queue l; pgl_in_flight := pgl_in_flight l; pgl_dropped := pgl_dropped l; pgl_db := db |}.

(** [write]: never waits. *)
Definition pg_log_write (e : RequestLogEntry) (l : PostgresRequestLogStore)
    : result unit string * PostgresRequestLogStore :=
  if Z.of_nat (length (pgl_queue l)) <? REQUEST_LOG_QUEUE_CAPACITY then
    (Ok tt, {| pgl_queue := (pgl_queue l ++ [e])%list; pgl_in_flight := pgl_in_flight l;
               pgl_dropped := pgl_dropped l; pgl_db := pgl_db l |})
  else
    (Err "request log queue full",
     {| pgl_queue := pgl_queue l; pgl_in_flight := pgl_in_flight l;
        pgl_dropped := wrap_u64 (pgl_dropped l + 1); pgl_db := pgl_db l |}).

(** The task: [receiver.recv()] of a writer with empty hands, and the [INSERT] of what
    it holds, whose failure is only logged. *)
Definition pg_log_recv (l : PostgresRequestLogStore) : option PostgresRequestLogStore :=
  match pgl_in_flight l, pgl_queue l with
  | None, e :: queue =>
      Some {| pgl_queue := queue; pgl_in_flight := Some e; pgl_dropped := pgl_dropped l; pgl_db := pgl_db l |}
  | _, _ => None
  end.

Definition insert_entry (e : RequestLogEntry) : Sql (list RequestLogRow) unit :=
  insert_row (forallb row_fits) (row_of_entry e).

Definition pg_log_insert (l : PostgresRequestLogStore) : option PostgresRequestLogStore :=
  match pgl_in_flight l with
  | Some e =>
      Some {| pgl_queue := pgl_queue l; pgl_in_flight := None; pgl_dropped := pgl_dropped l;
              pgl_db := (insert_entry e (pgl_db l)).2 |}
  | None => None
  end.

(** [e.to_string()] *)
Definition sql_error_text (e : SqlError) : string :=
  match e with
  | RowNotFound => "no rows returned by a query that expected to return at least one row"
  | Database m => m
  end.

Section Listing.
(** [ORDER BY created_at DESC]: the order of equal instants is the database's. *)
Context (order_by : list RequestLogRow -> list RequestLogRow).

Definition select_page (conditions : list Condition) (params : list Param) (limit offset : Z)
    : Sql (list RequestLogRow) (list RequestLogRow) :=
  statement (fun rows =>
    if limit <? 0 then Err "LIMIT must not be negative"
    else if offset <? 0 then Err "OFFSET must not be negative"
    else Ok (take (Z.to_nat limit) (drop (Z.to_nat offset)
               (order_by (List.filter (holds conditions params) rows))), rows)).

Definition select_count (conditions : list Condition) (params : list Param)
    : Sql (list RequestLogRow) nat :=
  statement (fun rows => Ok (length (List.filter (holds conditions params) rows), rows)).

Definition pg_log_list_sql (q : RequestLogQuery) : Sql (list RequestLogRow) RequestLogListResult :=
  let! count := select_count (list_conditions q) (list_binds q) in
  let! rows := select_page (list_conditions q) (list_binds q) (list_limit q) (list_offset q) in
  sql_ret {| rl_data := entry_of_row <$> rows; rl_total := count |}.

Definition pg_log_list (q : RequestLogQuery) (l : PostgresRequestLogStore)
    : result RequestLogListResult string * PostgresRequestLogStore :=
  let '(r, db) := pg_log_list_sql q (pgl_db l) in (map_err sql_error_text r, with_db db l).

Definition pg_log_delete (q : MaintenanceQuery) (l : PostgresRequestLogStore)
    : result nat string * PostgresRequestLogStore :=
  let '(r, db) := delete_where (holds (delete_conditions q) (delete_binds q)) (pgl_db l) in
  (map_err sql_error_text r, with_db db l).

Definition pg_log_count (l : PostgresRequestLogStore) : nat * PostgresRequestLogStore :=
  let '(r, db) := select_count [] [] (pgl_db l) in
  (match r with Ok n => n | Err _ => 0%nat end, with_db db l).
End Listing.

(** ** Interleavings *)

(** What happens to the store: a writer's call and its answer, a step of the task, a
    deletion. *)
Inductive LogEvent :=
  | Wrote (e : RequestLogEntry) (r : result unit string)
  | Received
  | Inserted
  | Deleted (q : MaintenanceQuery).

Inductive log_step : PostgresRequestLogStore -> LogEvent -> PostgresRequestLogStore -> Prop :=
  | step_write e r l l' : pg_log_write e l = (r, l') -> log_step l (Wrote e r) l'
  | step_recv l l' : pg_log_recv l = Some l' -> log_step l Received l'
  | step_insert l l' : pg_log_insert l = Some l' -> log_step l Inserted l'
  | step_delete q l : log_step l (Deleted q) (pg_log_delete q l).2.

Inductive log_run : PostgresRequestLogStore -> list LogEvent -> PostgresRequestLogStore -> Prop :=
  | run_nil l : log_run l [] l
  | run_snoc l evs l1 ev l2 : log_run l evs l1 -> log_step l1 ev l2 -> log_run l (evs ++ [ev]) l2.

(** ** Queries mean what they say *)

(** The placeholders are numbered as the values are bound: what the database makes of a
    query is the conjunction of its model, its provider and its instant, whichever of
    them it has. *)
Definition matches (model provider : option string) (time : Z -> bool) (r : RequestLogRow) : bool :=
  field_is model (lw_model r) && field_is provider (lw_provider r) && time (lw_created_at r).

Lemma list_holds q r :
  holds (list_conditions q) (list_binds q) r =
    matches (rq_model q) (rq_provider q)
      (fun t => match rq_since q with Some since => since <=? t | None => true end) r.
Proof.
  unfold holds, matches, list_conditions, list_binds, conditions_for, binds_for, push_condition.
  destruct (rq_model q), (rq_provider q), (rq_since q); cbn; by rewrite ?andb_true_r, ?andb_assoc.
Qed.

Lemma delete_holds q r :
  holds (delete_conditions q) (delete_binds q) r =
    matches (mq_model q) (mq_provider q)
      (fun t => match mq_before q with Some before => t <? before | None => true end) r.
Proof.
  unfold holds, matches, delete_conditions, delete_binds, conditions_for, binds_for, push_condition.
  destruct (mq_model q), (mq_provider q), (mq_before q); cbn; by rewrite ?andb_true_r, ?andb_assoc.
Qed.

(** *** Counts survive the signed column *)

Definition u32_ok (x : Z) : Prop := 0 <= x < 2 ^ 32.

Record entry_ok (e : RequestLogEntry) : Prop := {
  eo_prompt : u32_ok (le_prompt_tokens e);
  eo_completion : u32_ok (le_completion_tokens e);
  eo_total : u32_ok (le_total_tokens e);
}.

Lemma i32_round x : u32_ok x -> i32_as_u32 (as_i32 x) = x.
Proof.
  unfold u32_ok, i32_as_u32, as_i32. intros Hx. destruct (Z.ltb_spec x (2 ^ 31)).
  - apply Z.mod_small. lia.
  - rewrite <- (Z.mod_small x (2 ^ 32)) at 2 by lia.
    rewrite <- (Z.mod_add (x - 2 ^ 32) 1) by lia. f_equal. lia.
Qed.

(** An entry comes back from its row as it was written, counts past the range of the
    column's signed type included. *)
Lemma row_round_trip e : entry_ok e -> entry_of_row (row_of_entry e) = e.
Proof.
  intros [Hp Hc Ht]. unfold entry_of_row, row_of_entry. cbn. rewrite !i32_round by done. by destruct e.
Qed.

(** ** Every interleaving *)

(** The entries the store took and those it refused, in order. *)
Definition accepted (evs : list LogEvent) : list RequestLogEntry :=
  omap (fun ev => match ev with Wrote e (Ok _) => Some e | _ => None end) evs.
Definition refused (evs : list LogEvent) : list RequestLogEntry :=
  omap (fun ev => match ev with Wrote e (Err _) => Some e | _ => None end) evs.
Definition deletes (evs : list LogEvent) : list MaintenanceQuery :=
  omap (fun ev => match ev with Deleted q => Some q | _ => None end) evs.

(** The rows that entries make, those the table has room for. *)
Definition stored_rows (es : list RequestLogEntry) : list RequestLogRow :=
  List.filter row_fits (row_of_entry <$> es).

Definition in_hand (l : PostgresRequestLogStore) : list RequestLogEntry :=
  match pgl_in_flight l with Some e => [e] | None => [] end.

(** Where the accepted entries are: [delivered] to the table, in the writer's hand, or
    waiting, in the order they were accepted. *)
Record log_ok (evs : list LogEvent) (l : PostgresRequestLogStore) (delivered : list RequestLogEntry) : Prop := {
  lo_split : accepted evs = (delivered ++ in_hand l ++ pgl_queue l)%list;
  lo_bound : Z.of_nat (length (pgl_queue l)) <= REQUEST_LOG_QUEUE_CAPACITY;
  lo_dropped : pgl_dropped l = wrap_u64 (Z.of_nat (length (refused evs)));
  lo_refused : refused evs = [] \/ REQUEST_LOG_QUEUE_CAPACITY <= Z.of_nat (length (accepted evs));
  lo_sound : db_faults (pgl_db l) = [];
  lo_fits : forallb row_fits (db_table (pgl_db l)) = true;
  lo_sublist : sublist (db_table (pgl_db l)) (stored_rows delivered);
  lo_table : deletes evs = [] -> db_table (pgl_db l) = stored_rows delivered;
}.

Lemma accepted_snoc evs ev : accepted (evs ++ [ev]) =
  (accepted evs ++ match ev with Wrote e (Ok _) => [e] | _ => [] end)%list.
Proof. unfold accepted. rewrite omap_app. f_equal. by destruct ev as [e []| | |]. Qed.

Lemma refused_snoc evs ev : refused (evs ++ [ev]) =
  (refused evs ++ match ev with Wrote e (Err _) => [e] | _ => [] end)%list.
Proof. unfold refused. rewrite omap_app. f_equal. by destruct ev as [e []| | |]. Qed.

Lemma deletes_snoc evs ev : deletes (evs ++ [ev]) =
  (deletes evs ++ match ev with Deleted q => [q] | _ => [] end)%list.
Proof. unfold deletes. rewrite omap_app. f_equal. by destruct ev as [e []| | |]. Qed.

Lemma stored_rows_snoc es e : stored_rows (es ++ [e]) =
  (stored_rows es ++ if row_fits (row_of_entry e) then [row_of_entry e] else [])%list.
Proof. unfold stored_rows. rewrite fmap_app, List.filter_app. cbn. by destruct (row_fits _). Qed.

(** An [INSERT] over a sound connection adds the row, or nothing when it does not fit. *)
Lemma insert_entry_table e db : db_faults db = [] -> forallb row_fits (db_table db) = true ->
  (insert_entry e db).2 =
    {| db_table := (db_table db ++ if row_fits (row_of_entry e) then [row_of_entry e] else [])%list;
       db_faults := [] |}.
Proof.
  intros Hf Ht. unfold insert_entry, insert_row, statement. rewrite Hf. cbn [head tail].
  rewrite forallb_app, Ht. cbn [forallb andb]. rewrite andb_true_r.
  destruct (row_fits (row_of_entry e)); cbn; by rewrite ?app_nil_r.
Qed.

Lemma delete_table (p : RequestLogRow -> bool) db : db_faults db = [] ->
  (delete_where p db).2 =
    {| db_table := filter (fun r => ~ p r) (db_table db); db_faults := [] |}.
Proof. intros Hf. unfold delete_where, statement. by rewrite Hf. Qed.

Lemma filter_sublist (p : RequestLogRow -> bool) l : sublist (filter (fun r => ~ p r) l) l.
Proof.
  induction l as [|x l IH]; [constructor|]. rewrite filter_cons.
  case_decide; by constructor.
Qed.

Lemma forallb_sublist {A} (p : A -> bool) l k : sublist l k -> forallb p k = true -> forallb p l = true.
Proof.
  intros Hs Hk. apply forallb_forall. intros x Hx. eapply forallb_forall; [exact Hk|].
  apply list_elem_of_In. apply list_elem_of_In in Hx. by eapply elem_of_sublist.
Qed.

Lemma log_step_ok evs l delivered ev l' : log_ok evs l delivered -> log_step l ev l' ->
  exists delivered', log_ok (evs ++ [ev]) l' delivered'.
Proof.
  intros [Hs Hb Hd Hr Hf Hfit Hsub Ht] Hstep.
  destruct Hstep as [e r l l' Hw|l l' Hw|l l' Hw|q l].
  - exists delivered. unfold pg_log_write in Hw.
    destruct (Z.ltb_spec (Z.of_nat (length (pgl_queue l))) REQUEST_LOG_QUEUE_CAPACITY) as [Hlt|Hge];
      injection Hw as <- <-; split; cbn [pgl_queue pgl_dropped pgl_db in_hand pgl_in_flight];
      rewrite ?accepted_snoc, ?refused_snoc, ?deletes_snoc, ?app_nil_r; try done.
    + rewrite Hs. unfold in_hand. by rewrite <- !(assoc_L (++)%list).
    + rewrite length_app. cbn. lia.
    + rewrite length_app. destruct Hr; [by left|right; lia].
    + rewrite Hd, length_app. unfold wrap_u64. rewrite Zplus_mod_idemp_l. f_equal. cbn. lia.
    + right. rewrite Hs, !length_app. lia.
  - exists delivered. unfold pg_log_recv in Hw.
    destruct (pgl_in_flight l) eqn:Ei; [done|]. destruct (pgl_queue l) as [|e queue] eqn:Eq; [done|].
    injection Hw as <-. unfold in_hand in Hs. rewrite Ei in Hs.
    split; rewrite ?accepted_snoc, ?refused_snoc, ?deletes_snoc, ?app_nil_r; cbn in *; try done. lia.
  - unfold pg_log_insert in Hw. destruct (pgl_in_flight l) as [e|] eqn:Ei; [|done]. injection Hw as <-.
    exists (delivered ++ [e])%list. unfold in_hand in Hs. rewrite Ei in Hs.
    pose proof (insert_entry_table e (pgl_db l) Hf Hfit) as Hins.
    split; rewrite ?accepted_snoc, ?refused_snoc, ?deletes_snoc, ?app_nil_r; cbn [pgl_db pgl_queue pgl_dropped];
      rewrite ?Hins; cbn [db_table db_faults]; try done.
    + rewrite Hs. by rewrite <- (assoc_L (++)%list).
    + rewrite forallb_app, Hfit. destruct (row_fits (row_of_entry e)) eqn:Er; cbn; by rewrite ?Er.
    + rewrite stored_rows_snoc. by apply sublist_app.
    + intros Hn. by rewrite stored_rows_snoc, Ht.
  - exists delivered. unfold pg_log_delete.
    destruct (delete_where _ (pgl_db l)) as [r db] eqn:Ed.
    pose proof (delete_table (holds (delete_conditions q) (delete_binds q)) (pgl_db l) Hf) as Hdel.
    rewrite Ed in Hdel. cbn [snd] in Hdel. subst db.
    split; rewrite ?accepted_snoc, ?refused_snoc, ?deletes_snoc, ?app_nil_r; cbn; try done.
    + eapply forallb_sublist; [apply filter_sublist|done].
    + etrans; [apply filter_sublist|done].
    + by intros [_ ?]%app_nil.
Qed.

Lemma log_run_ok evs l : log_run (pg_log_new {| db_table := []; db_faults := [] |}) evs l ->
  exists delivered, log_ok evs l delivered.
Proof.
  remember (pg_log_new _) as l0 eqn:E. intros Hrun. revert E.
  induction Hrun as [l|l evs l1 ev l2 Hrun IH Hstep]; intros ->.
  - exists []. split; try done; by left.
  - destruct (IH eq_refl) as [delivered Hok]. by eapply log_step_ok.
Qed.

(** C25: The log loses nothing it took. Whatever the interleaving of requests, the writer
    and deletions, over a connection that holds: the entries accepted are, in order, those
    delivered to the database, the one in the writer's hand and those waiting; at most
    the capacity waits, a burst no longer than it is never refused, and every refusal is
    counted. The table holds, in that order, rows of delivered entries only, and all that
    fit its columns as long as nothing is deleted. *)
Theorem request_log_conservation evs l :
  log_run (pg_log_new {| db_table := []; db_faults := [] |}) evs l ->
  exists delivered, accepted evs = (delivered ++ in_hand l ++ pgl_queue l)%list /\
    Z.of_nat (length (pgl_queue l)) <= REQUEST_LOG_QUEUE_CAPACITY /\
    (Z.of_nat (length (accepted evs) + length (refused evs)) <= REQUEST_LOG_QUEUE_CAPACITY -> refused evs = []) /\
    pgl_dropped l = wrap_u64 (Z.of_nat (length (refused evs))) /\
    sublist (db_table (pgl_db l)) (stored_rows delivered) /\
    (deletes evs = [] -> db_table (pgl_db l) = stored_rows delivered).
Proof.
  intros Hrun. destruct (log_run_ok evs l Hrun) as [delivered [Hs Hb Hd Hr _ _ Hsub Ht]].
  exists delivered. split_and!; try done. intros Hle. destruct Hr as [|Hr]; [done|].
  apply length_zero_iff_nil. lia.
Qed.

(** ** The queue drains *)

(** One turn of the task. *)
Definition writer_turn (l : PostgresRequestLogStore) : PostgresRequestLogStore :=
  match pg_log_insert l with
  | Some l' => l'
  | None => default l (pg_log_recv l)
  end.

Lemma insert_turn e l : pgl_in_flight l = Some e -> db_faults (pgl_db l) = [] ->
  forallb row_fits (db_table (pgl_db l)) = true ->
  let l' := writer_turn l in
  pgl_in_flight l' = None /\ pgl_queue l' = pgl_queue l /\ db_faults (pgl_db l') = [] /\
  db_table (pgl_db l') = (db_table (pgl_db l) ++ stored_rows [e])%list /\
  forallb row_fits (db_table (pgl_db l')) = true.
Proof.
  intros Hi Hf Hfit. unfold writer_turn, pg_log_insert. rewrite Hi. cbn [pgl_in_flight pgl_queue pgl_db].
  rewrite insert_entry_table by done. cbn [db_table db_faults]. unfold stored_rows. cbn.
  split_and!; [done..| |]; destruct (row_fits (row_of_entry e)) eqn:Er; cbn; rewrite ?app_nil_r; try done.
  rewrite forallb_app, Hfit. cbn. by rewrite Er.
Qed.

(** C26: What was accepted reaches the table. From any state, over a connection that
    holds, the writer alone empties its hand and the queue in two turns an entry, and
    the table then has, after what it had, a row for each of them that fits, in order. *)
Theorem request_log_drains l :
  db_faults (pgl_db l) = [] -> forallb row_fits (db_table (pgl_db l)) = true ->
  let l' := Nat.iter (2 * length (pgl_queue l) + 1) writer_turn l in
  pgl_queue l' = [] /\ pgl_in_flight l' = None /\
  db_table (pgl_db l') = (db_table (pgl_db l) ++ stored_rows (in_hand l ++ pgl_queue l))%list.
Proof.
  intros Hf Hfit. cbn zeta.
  assert (forall l, pgl_in_flight l = None -> pgl_queue l = [] -> writer_turn l = l) as Hidle.
  { intros l0 Hi Hq. unfold writer_turn, pg_log_insert, pg_log_recv. by rewrite Hi, Hq. }
  assert (forall n l, length (pgl_queue l) = n -> pgl_in_flight l = None ->
    db_faults (pgl_db l) = [] -> forallb row_fits (db_table (pgl_db l)) = true ->
    let l' := Nat.iter (2 * n) writer_turn l in
    pgl_queue l' = [] /\ pgl_in_flight l' = None /\
    db_table (pgl_db l') = (db_table (pgl_db l) ++ stored_rows (pgl_queue l))%list) as Hdrain.
  { clear. induction n as [|n IH]; intros l Hn Hi Hf Hfit; cbn zeta.
    - apply length_zero_iff_nil in Hn. cbn. rewrite Hn. cbn. by rewrite app_nil_r.
    - destruct (pgl_queue l) as [|e queue] eqn:Hq; [done|]. injection Hn as Hn.
      replace (2 * S n)%nat with (2 * n + 2)%nat by lia. rewrite Nat.iter_add. cbn [Nat.iter nat_rect].
      assert (writer_turn l = {| pgl_queue := queue; pgl_in_flight := Some e; pgl_dropped := pgl_dropped l;
                                 pgl_db := pgl_db l |}) as ->.
      { unfold writer_turn, pg_log_insert, pg_log_recv. by rewrite Hi, Hq. }
      match goal with |- context [writer_turn ?l1] =>
        destruct (insert_turn e l1) as (Hi' & Hq' & Hf' & Ht' & Hfit'); [done..|] end.
      cbn [pgl_queue pgl_db] in Hq', Ht'.
      edestruct IH as (H1 & H2 & H3); [by rewrite Hq'|done..|]. split_and!; [done|done|].
      rewrite H3, Ht', Hq', <- (assoc_L (++)%list). f_equal. unfold stored_rows.
      by rewrite <- List.filter_app. }
  destruct (pgl_in_flight l) as [e|] eqn:Hi.
  - destruct (insert_turn e l Hi Hf Hfit) as (Hi' & Hq' & Hf' & Ht' & Hfit').
    rewrite Nat.iter_add. cbn [Nat.iter nat_rect].
    edestruct Hdrain as (H1 & H2 & H3); [by rewrite Hq'|done..|]. split_and!; [done|done|].
    unfold in_hand. rewrite H3, Ht', Hq', Hi, <- (assoc_L (++)%list). f_equal. unfold stored_rows.
    by rewrite <- List.filter_app.
  - rewrite Nat.add_comm, Nat.iter_add. cbn [Nat.iter nat_rect].
    edestruct (Hdrain (length (pgl_queue l)) l) as (H1 & H2 & H3); [done..|].
    rewrite Hidle by done. unfold in_hand. by rewrite Hi.
Qed.

(** ** Listing *)

Section ListingProofs.
Context (order_by : list RequestLogRow -> list RequestLogRow).
(** [ORDER BY] sorts what it is given. *)
Context (order_perm : forall rows, Permutation (order_by rows) rows).
Context (order_sorted : forall rows,
  StronglySorted (fun a b => lw_created_at b <= lw_created_at a) (order_by rows)).

Lemma rows_sorted rows :
  StronglySorted (fun a b => lw_created_at b <= lw_created_at a) rows ->
  StronglySorted (fun a b => le_created_at b <= le_created_at a) (entry_of_row <$> rows).
Proof.
  induction 1 as [|r rows _ IH Hall]; [constructor|]. cbn. constructor; [done|].
  apply Forall_fmap. by eapply Forall_impl.
Qed.

(** A page of the log. Over a connection that holds, a listing whose limit and offset
    an [i64] can hold answers the number of entries with the model, the provider and the
    instant asked for, and the page of them at its offset, newest first, each read back
    as it was written. The stage asked for plays no part. *)
Theorem pg_listing q es l :
  db_faults (pgl_db l) = [] -> db_table (pgl_db l) = row_of_entry <$> es -> Forall entry_ok es ->
  Z.of_nat (default 100%nat (rq_limit q)) < 2 ^ 63 -> Z.of_nat (default 0%nat (rq_offset q)) < 2 ^ 63 ->
  let asked e := matches (rq_model q) (rq_provider q)
    (fun t => match rq_since q with Some since => since <=? t | None => true end) (row_of_entry e) in
  exists ordered data, Permutation ordered (List.filter asked es) /\
    StronglySorted (fun a b => le_created_at b <= le_created_at a) ordered /\
    data = take (default 100%nat (rq_limit q)) (drop (default 0%nat (rq_offset q)) ordered) /\
    (pg_log_list order_by q l).1 = Ok {| rl_data := data; rl_total := length (List.filter asked es) |}.
Proof.
  intros Hf Ht Hes Hlim Hoff asked. set (selected := List.filter (holds (list_conditions q) (list_binds q)) (row_of_entry <$> es)).
  assert (selected = row_of_entry <$> List.filter asked es) as Hsel.
  { unfold selected, asked. clear -q. induction es as [|e es IH]; [done|]. cbn [fmap list_fmap List.filter].
    rewrite list_holds. destruct (matches _ _ _ _); [|done]. cbn. by f_equal. }
  assert (Forall entry_ok (List.filter asked es)) as Hok.
  { apply Forall_forall. intros e He. apply list_elem_of_In, filter_In in He as [He _].
    apply list_elem_of_In in He. by eapply Forall_forall in Hes. }
  exists (entry_of_row <$> order_by selected), (entry_of_row <$> take (default 100%nat (rq_limit q))
    (drop (default 0%nat (rq_offset q)) (order_by selected))).
  split_and!.
  - rewrite (order_perm selected), Hsel, <- list_fmap_compose.
    rewrite <- (list_fmap_id (List.filter asked es)) at 2. apply Permutation_refl', list_fmap_ext.
    intros i e He. cbn. apply row_round_trip. eapply Forall_lookup in Hok; eauto.
  - apply rows_sorted, order_sorted.
  - by rewrite fmap_take, fmap_drop.
  - unfold pg_log_list, pg_log_list_sql, sql_bind, select_count, select_page, statement, list_limit, list_offset, as_i64.
    rewrite Hf, Ht. cbn [head tail db_table db_faults].
    destruct (Z.ltb_spec (Z.of_nat (default 100%nat (rq_limit q))) (2 ^ 63)); [|lia].
    destruct (Z.ltb_spec (Z.of_nat (default 0%nat (rq_offset q))) (2 ^ 63)); [|lia].
    rewrite !(proj2 (Z.ltb_ge _ 0)) by lia. cbn. fold selected. rewrite !Nat2Z.id. repeat f_equal.
    by rewrite Hsel, length_fmap.
Qed.
End ListingProofs.

(** ** Where the two logs differ *)
Module LogDemo.
Definition entry (stage model : string) (t : Z) : RequestLogEntry :=
  {| le_trace_id := "t"; le_stage := stage; le_model := model; le_provider := "openai";
     le_prompt_tokens := 1; le_completion_tokens := 1; le_total_tokens := 2; le_error_message := None;
     le_created_at := t |}.

Definition query (limit : option nat) (stage : option string) : RequestLogQuery :=
  {| rq_limit := limit; rq_offset := None; rq_stage := stage; rq_model := None; rq_provider := None;
     rq_since := None |}.

Definition empty : Db (list RequestLogRow) := {| db_table := []; db_faults := [] |}.

(** Two entries, written, taken and inserted. *)
Definition events : list LogEvent :=
  [Wrote (entry "ok" "a" 1) (Ok tt); Wrote (entry "error" "a" 2) (Ok tt); Received; Inserted; Received; Inserted].

Definition write (e : RequestLogEntry) (l : PostgresRequestLogStore) := (pg_log_write e l).2.

Definition after_events : PostgresRequestLogStore :=
  Nat.iter 5 writer_turn (write (entry "error" "a" 2) (write (entry "ok" "a" 1) (pg_log_new empty))).

(** An order newest first, for distinct instants in writing order. *)
Definition newest_first (rows : list RequestLogRow) : list RequestLogRow := reverse rows.

Definition memory : InMemoryRequestLogStore :=
  {| rls_entries := [entry "ok" "a" 1; entry "error" "a" 2]; rls_max_entries := DEFAULT_MAX_ENTRIES |}.

Definition data (r : result RequestLogListResult string) : list RequestLogEntry :=
  match r with Ok r => rl_data r | Err _ => [] end.

Definition long_model : string := String.concat "" (replicate 256 "m").
End LogDemo.

(** The same two entries in both logs: asked for one, the memory log gives the oldest and
    the Postgres log the newest; asked for the errors, the memory log gives the one and
    the Postgres log both. *)
Theorem logs_disagree :
  (pgl_db LogDemo.after_events = {| db_table := row_of_entry <$> rls_entries LogDemo.memory; db_faults := [] |}) /\
  LogDemo.data (request_log_list (LogDemo.query (Some 1%nat) None) LogDemo.memory) = [LogDemo.entry "ok" "a" 1] /\
  LogDemo.data (pg_log_list LogDemo.newest_first (LogDemo.query (Some 1%nat) None) LogDemo.after_events).1 =
    [LogDemo.entry "error" "a" 2] /\
  length (LogDemo.data (request_log_list (LogDemo.query None (Some "error")) LogDemo.memory)) = 1%nat /\
  length (LogDemo.data (pg_log_list LogDemo.newest_first (LogDemo.query None (Some "error")) LogDemo.after_events).1) = 2%nat.
Proof. by vm_compute. Qed.

(** A request whose model has a name of 256 characters is accepted by the log and leaves
    no row: the column is shorter than what a client may send. *)
Theorem long_model_unlogged :
  let e := LogDemo.entry "ok" LogDemo.long_model 1 in
  (pg_log_write e (pg_log_new LogDemo.empty)).1 = Ok tt /\
  db_table (pgl_db (Nat.iter 3 writer_turn (LogDemo.write e (pg_log_new LogDemo.empty)))) = [].
Proof. by vm_compute. Qed.

(** ** The theorems at concrete logs *)

Lemma log_run_cons l ev l1 evs l2 : log_step l ev l1 -> log_run l1 evs l2 -> log_run l (ev :: evs) l2.
Proof.
  intros Hstep Hrun. induction Hrun as [l1|l1 evs l2 ev' l3 _ IH Hs].
  - exact (run_snoc _ [] _ _ _ (run_nil l) Hstep).
  - rewrite app_comm_cons. econstructor; [by apply IH|done].
Qed.

Lemma request_log_conservation_witness :
  log_run (pg_log_new LogDemo.empty) LogDemo.events LogDemo.after_events /\
  db_table (pgl_db LogDemo.after_events) = row_of_entry <$> [LogDemo.entry "ok" "a" 1; LogDemo.entry "error" "a" 2].
Proof.
  assert (log_run (pg_log_new LogDemo.empty) LogDemo.events LogDemo.after_events) as Hrun.
  { unfold LogDemo.events.
    do 2 (eapply log_run_cons; [by apply step_write|]).
    do 2 (eapply log_run_cons; [by apply step_recv|]; eapply log_run_cons; [by apply step_insert|]).
    apply run_nil. }
  split; [exact Hrun|].
  destruct (request_log_conservation LogDemo.events LogDemo.after_events Hrun)
    as (delivered & Hs & _ & _ & _ & _ & Ht).
  rewrite (Ht eq_refl). change (accepted LogDemo.events = (delivered ++ [] ++ [])%list) in Hs.
  rewrite app_nil_r in Hs. by rewrite <- Hs.
Defined.

Lemma request_log_drains_witness :
  let l := LogDemo.write (LogDemo.entry "error" "a" 2) (LogDemo.write (LogDemo.entry "ok" "a" 1) (pg_log_new LogDemo.empty)) in
  length (pgl_queue l) = 2%nat /\ pgl_queue (Nat.iter (2 * length (pgl_queue l) + 1) writer_turn l) = [].
Proof. intros l. split; [done|]. apply (request_log_drains l); by vm_compute. Defined.

(** An order by merging. *)
Definition newer (a b : RequestLogRow) : Prop := lw_created_at b <= lw_created_at a.

#[local] Instance newer_dec : RelDecision newer.
Proof. intros a b. unfold newer. apply _. Defined.

#[local] Instance newer_total : Total newer.
Proof. intros a b. unfold newer. lia. Qed.

#[local] Instance newer_trans : Transitive newer.
Proof. intros a b c. unfold newer. lia. Qed.

Lemma pg_listing_witness :
  let l := Nat.iter 3 writer_turn (LogDemo.write (LogDemo.entry "ok" "a" 1) (pg_log_new LogDemo.empty)) in
  exists ordered, Permutation ordered [LogDemo.entry "ok" "a" 1] /\
    (pg_log_list (merge_sort newer) (LogDemo.query None None) l).1 =
      Ok {| rl_data := take 100 ordered; rl_total := 1 |}.
Proof.
  intros l.
  destruct (pg_listing (merge_sort newer) (merge_sort_Permutation newer) (StronglySorted_merge_sort newer)
    (LogDemo.query None None) [LogDemo.entry "ok" "a" 1] l) as (ordered & data & Hp & _ & Hd & Hl);
    [by vm_compute|by vm_compute| |by vm_compute..|].
  - repeat constructor; cbn; lia.
  - exists ordered. split; [exact Hp|]. by rewrite Hl, Hd.
Defined.
