(* ===== verification/Startup.v ===== *)
(** * Starting the process
    (src/crates/himadri/src/main.rs, src/crates/himadri-admin/src/provider_backend.rs)

    From the command line and the environment to a gateway that serves. [preflight]
    refuses unsafe settings before anything is built, [build_gateway] and [build_admin]
    assemble the parts, and [boot] runs the whole of [main] up to the listening socket.
    A failure is an [Exit]: the status and the message the process ends with. Opening
    databases, the network and random secrets are arguments. The router and its layers
    are in Router.v. *)

From S2P Require Import Prelude CircuitBreaker Str Float Types Json Errors Config NetGuard RateLimiter Strategy Plugin Pii FixedWindow Budget Cache Sql Jwt KeyStore KeySql KeyRefine ModelStore ModelRefine Provider Failover Auditing Gateway AdminHandlers Access Http Handlers HandlerLaws Wire.

(** ** The command line *)

Record CliArgs := { cli_migrate : bool; cli_port : option string }.

Definition cli_default : CliArgs := {| cli_migrate := false; cli_port := None |}.

(** How the process ends early. *)
Record Exit := { exit_code : Z; exit_message : string }.

Definition fatal (m : string) : Exit := {| exit_code := 1; exit_message := m |}.

Definition newline : string := String (Ascii.ascii_of_nat 10) "".

Definition cli_help (version : string) : string :=
  "himadri " +:+ version +:+ newline +:+ newline +:+ "USAGE:" +:+ newline +:+
  "    himadri [OPTIONS]" +:+ newline +:+ newline +:+ "OPTIONS:" +:+ newline +:+
  "    --migrate        Migrate the database (DATABASE_URL) to the latest schema version before starting" +:+
  newline +:+ "    --port <PORT>    Listen port (overrides the PORT env var; default 8080)" +:+ newline +:+
  "    -h, --help       Print this help".

(** [--port] takes the next argument, if there is one, whatever it is. *)
Fixpoint parse_cli_args (version : string) (args : list string) (cli : CliArgs) : result CliArgs Exit :=
  match args with
  | [] => Ok cli
  | arg :: args =>
      if decide (arg = "--migrate") then
        parse_cli_args version args {| cli_migrate := true; cli_port := cli_port cli |}
      else if decide (arg = "--port") then
        match args with
        | [] => Ok {| cli_migrate := cli_migrate cli; cli_port := None |}
        | port :: args => parse_cli_args version args {| cli_migrate := cli_migrate cli; cli_port := Some port |}
        end
      else if decide (arg = "--help" \/ arg = "-h") then
        Err {| exit_code := 0; exit_message := cli_help version |}
      else Err {| exit_code := 2; exit_message := "Unknown argument: " +:+ arg +:+ " (see --help)" |}
  end.

(** ** Before anything is built *)

Definition env_is_nondev_deployment (value : option string) : bool :=
  match value with
  | Some v => bool_decide (to_ascii_lowercase (trim v) ∈ ["production"; "prod"; "staging"])
  | None => false
  end.

Definition master_key_configured (c : Config) : bool :=
  match admin_master_key (cfg_admin c) with
  | Some k => negb (str_is_empty (trim k))
  | None => false
  end.

Definition with_master_key (key : string) (c : Config) : Config :=
  {| cfg_strategy := cfg_strategy c; cfg_targets := cfg_targets c; cfg_observability := cfg_observability c;
     cfg_rate_limit := cfg_rate_limit c; cfg_admin := {| admin_master_key := Some key |};
     cfg_orgs := cfg_orgs c; cfg_cors := cfg_cors c; cfg_rbac := cfg_rbac c;
     cfg_guardrails := cfg_guardrails c |}.

Section Environment.
Context (env : string -> option string).

(** [var("RUST_ENV").or_else(|_| var("HIMADRI_ENV")).ok()] *)
Definition deployment : option string :=
  match env "RUST_ENV" with Some v => Some v | None => env "HIMADRI_ENV" end.

Definition auth_is_required : bool :=
  flag_is_truthy env "REQUIRE_AUTH" || env_is_nondev_deployment deployment.

Definition strict (source : ProviderSource) : bool := bool_decide (source = Wire.Db).

(** The configuration and the routing source the process starts with. *)
Definition preflight (loaded : result Config Errors.ConfigError) : result (Config * ProviderSource) Exit :=
  let? config := map_err (fun e => fatal ("Failed to load config: " +:+ config_error_to_string e)) loaded in
  let config := match env "MASTER_KEY" with Some key => with_master_key key config | None => config end in
  if auth_is_required && negb (master_key_configured config) then
    Err (fatal ("FATAL: MASTER_KEY is required when REQUIRE_AUTH=1 or RUST_ENV/HIMADRI_ENV is production|prod|staging. "
                +:+ "Refusing to start with authentication bypassed."))
  else
    let? source := map_err (fun e => fatal ("FATAL: " +:+ e)) (provider_source_from_env env) in
    if strict source && bool_decide (env "DATABASE_URL" = None) then
      Err (fatal ("FATAL: " +:+ PROVIDER_SOURCE_VAR +:+
                  "=db requires DATABASE_URL — there is no database to route from."))
    else Ok (config, source).
End Environment.

(** ** Opening the model stores (provider_backend.rs) *)

Section Backend.
Context {T Pool : Type} (postgres_enabled sqlite_enabled : bool).
Context (pg_connect sqlite_connect : string -> result Pool string).
Context (pg_migrate sqlite_migrate : Pool -> result unit string).
(** The two stores over a pool (ModelStore.v has their statements). *)
Context (pg_stores sqlite_stores : Pool -> option string -> ModelStoreTrait T * ModelEndpointStoreTrait T).

Definition open_stores (connect : string -> result Pool string) (migrate : Pool -> result unit string)
    (stores : Pool -> option string -> ModelStoreTrait T * ModelEndpointStoreTrait T)
    (url : string) (cipher : option string) : option (ModelStoreTrait T * ModelEndpointStoreTrait T) :=
  match connect url with
  | Ok pool => match migrate pool with Ok _ => Some (stores pool cipher) | Err _ => None end
  | Err _ => None
  end.

Definition connect_model_stores (database_url : string) (cipher : option string)
    : option (ModelStoreTrait T * ModelEndpointStoreTrait T) :=
  if postgres_enabled && starts_with "postgres" database_url then
    open_stores pg_connect pg_migrate pg_stores database_url cipher
  else if sqlite_enabled && starts_with "sqlite" database_url then
    open_stores sqlite_connect sqlite_migrate sqlite_stores (sqlite_url database_url) cipher
  else None.

Definition migrate_with (name : string) (connect : string -> result Pool string)
    (migrate : Pool -> result unit string) (url : string) : result unit string :=
  let? pool := map_err (fun e => "failed to connect to " +:+ name +:+ ": " +:+ e) (connect url) in
  map_err (fun e => name +:+ " migration failed: " +:+ e) (migrate pool).

Definition migrate_to_latest (database_url : string) : result unit string :=
  if postgres_enabled && starts_with "postgres" database_url then
    migrate_with "Postgres" pg_connect pg_migrate database_url
  else if sqlite_enabled && starts_with "sqlite" database_url then
    migrate_with "SQLite" sqlite_connect sqlite_migrate (sqlite_url database_url)
  else Err ("unsupported DATABASE_URL scheme (expected sqlite:// or postgres://): " +:+ database_url).
End Backend.

(** The [--migrate] step, which fails hard. *)
Definition run_migration (env : string -> option string) (migrate : string -> result unit string)
    (cli : CliArgs) : result unit Exit :=
  if cli_migrate cli then
    match env "DATABASE_URL" with
    | Some url => map_err (fun e => fatal ("--migrate failed: " +:+ e)) (migrate url)
    | None => Err (fatal "--migrate requires DATABASE_URL to be set")
    end
  else Ok tt.

(** ** Discovering the OIDC issuer *)

Section Discovery.
Context {N : Type} (env : string -> option string).
Context (get_jwks : string -> N -> result (list Jwk) string * N).
Context (get_config : string -> N -> result (result string string) string * N).

Definition init_jwt_discovery (now : Z) (n : N) : result (option OidcDiscovery) Exit * N :=
  match env "JWT_ISSUER" with
  | Some issuer =>
      if str_is_empty issuer then (Ok None, n)
      else
        let audience := default "" (env "JWT_AUDIENCE") in
        if str_is_empty audience then
          (Err (fatal ("JWT_ISSUER is set but JWT_AUDIENCE is empty; set JWT_AUDIENCE to the expected `aud` claim "
                       +:+ "(typically the OAuth client id)")), n)
        else
          match oidc_new get_jwks get_config issuer audience (env "JWT_JWKS_URI") now n with
          | (Ok discovery, n) => (Ok (Some discovery), n)
          | (Err _, n) => (Ok None, n)
          end
  | None => (Ok None, n)
  end.
End Discovery.

(** The lines that announce the source of routing. *)
Definition log_provider_routing_mode (env : string -> option string) (to_uppercase : string -> string)
    (source : ProviderSource) (db_routing_active : bool) : list string :=
  let inert := inert_provider_env_vars_from_env env to_uppercase in
  let unless_empty (m : string) := match inert with [] => [] | _ => [m +:+ join ", " inert] end in
  match source with
  | Wire.Db =>
      ("Provider routing: database (strict)" ::
       (if db_routing_active then []
        else ["strict database routing has no targets yet; nothing will route until models/endpoints are configured via the admin API"])
       ++ unless_empty ("provider env vars are ignored under " +:+ PROVIDER_SOURCE_VAR +:+ "=db: "))%list
  | Auto =>
      if db_routing_active then
        ("Provider routing: database" ::
         unless_empty ("provider env vars set but not used for routing while the database provides targets " +:+
                       "(they remain the routing fallback if it stops): "))
      else match env "DATABASE_URL" with
           | Some _ => ["Provider routing: environment/config (database routing configured but has no targets yet)"]
           | None => ["Provider routing: environment/config"]
           end
  end.

(** *** What the checks guarantee *)

(** The process goes on exactly with a configuration that loaded, under the key of the
    environment if there is one; that key is not blank where authentication is required;
    the routing source was spelled right; and a strict source has a database. *)
Theorem preflight_spec env loaded config source :
  preflight env loaded = Ok (config, source) <->
  exists c, loaded = Ok c /\
    config = match env "MASTER_KEY" with Some key => with_master_key key c | None => c end /\
    (auth_is_required env = true -> master_key_configured config = true) /\
    provider_source_from_env env = Ok source /\ (source = Wire.Db -> is_Some (env "DATABASE_URL")).
Proof.
  unfold preflight. destruct loaded as [c|e]; cbn [map_err]; [|naive_solver].
  set (cfg := match env "MASTER_KEY" with Some _ => _ | None => c end).
  destruct (auth_is_required env && negb (master_key_configured cfg)) eqn:Ea.
  { split; [done|]. intros (c' & [= <-] & -> & Hm & _).
    apply andb_true_iff in Ea as [Ha Hn%negb_true_iff]. specialize (Hm Ha). subst cfg. congruence. }
  destruct (provider_source_from_env env) as [src|e]; cbn [map_err]; [|naive_solver].
  unfold strict. destruct (bool_decide (src = Wire.Db) && bool_decide (env "DATABASE_URL" = None)) eqn:Es.
  - split; [done|]. intros (c' & _ & _ & _ & [= <-] & Hd).
    apply andb_true_iff in Es as [Hsrc%bool_decide_eq_true Hn%bool_decide_eq_true].
    destruct (Hd Hsrc) as [u Hu]. congruence.
  - split.
    + intros [= <- <-]. exists c. split_and!; try done.
      * intros Ha. rewrite Ha in Ea. by destruct (master_key_configured cfg).
      * intros ->. rewrite bool_decide_true in Es by done. apply bool_decide_eq_false in Es.
        by apply not_eq_None_Some in Es.
    + by intros (c' & [= <-] & -> & _ & [= ->] & _).
Qed.

Lemma preflight_targets env loaded config source : preflight env loaded = Ok (config, source) ->
  exists c, loaded = Ok c /\ cfg_targets config = cfg_targets c.
Proof.
  unfold preflight. destruct loaded as [c|]; [|done]. cbn [map_err].
  destruct (_ && _); [done|]. destruct (map_err _ _); [|done]. destruct (_ && _); [done|].
  intros [= <- _]. exists c. split; [done|]. by destruct (env "MASTER_KEY").
Qed.

(** The deployment is named by one variable: [RUST_ENV], when it is set at all, hides
    [HIMADRI_ENV], and a process its operator calls production starts with
    authentication bypassed. *)
Theorem rust_env_hides_production env :
  env "REQUIRE_AUTH" = None -> env "RUST_ENV" = Some "" -> env "HIMADRI_ENV" = Some "production" ->
  env "MASTER_KEY" = None -> env PROVIDER_SOURCE_VAR = None ->
  preflight env (Ok default_config) = Ok (default_config, Auto).
Proof.
  intros Hr Hru Hh Hm Hp. unfold preflight, auth_is_required, flag_is_truthy, deployment, provider_source_from_env.
  by rewrite Hr, Hru, Hm, Hp.
Qed.

(** Clients after a rebuild: those that were there and those of endpoints built now. *)
Lemma rebuild_clients {W S B RL R Regex} `{ProviderRegistry R (Provider W S)} models endpoints m
    (g : Gateway W S B RL R Regex) k :
  is_Some (gw_providers (rebuild_targets_from_db models endpoints m g).2 !! k) ->
  is_Some (gw_providers g !! k) \/
  k ∈ (fun c => ep_id c.2) <$> built_of (gw_provider_registry g) (candidates models endpoints).
Proof.
  unfold rebuild_targets_from_db. rewrite rebuild_build_candidates.
  destruct (rebuild_candidates_spec (candidates models endpoints)
    {| rb_targets := []; rb_keys := []; rb_skipped := []; rb_gateway := g |})
    as (_ & _ & _ & _ & _ & Hout). cbn zeta in Hout. cbn [rb_gateway] in Hout. set (acc := foldl _ _ _) in *.
  intros Hk. destruct (decide (k ∈ (fun c => ep_id c.2) <$>
    built_of (gw_provider_registry g) (candidates models endpoints))) as [|Hn]; [by right|left].
  rewrite <- (Hout k Hn). destruct (_ && _); [exact Hk|].
  cbn [snd gw_providers with_routing] in Hk. rewrite prune_clients_lookup in Hk.
  case_decide; [by destruct Hk|exact Hk].
Qed.

(** ** Assembly *)

Section Boot.
Context {X C E S B RL Regex T Pool N : Type}.
Context `{PiiEngine E} `{CacheStore C} `{CircuitBreakerTrait B} `{RateLimiting RL}.
Context (env : string -> option string) (to_uppercase to_lowercase : string -> string).
Context (parse_f64 : string -> option f64) (parse_f32 : string -> option f32).

(** What the plugins draw from outside, and the libraries behind them (Wire.v). *)
Context (now : X -> Z) (checks : X -> Z * Z * Z * Z) (cached_now : X -> Z) (random : X -> Z).
Context (spend_iter : gmap string SpendEntry -> list (string * SpendEntry)).
Context (hash : string -> Z) (map_keys : gmap string FixedWindowCounter -> list string).
Context (digest : Value -> string) (engine : result E PiiError) (moka_new : Z -> Z -> C).

Local Abbreviation process := (Process X C).
Local Abbreviation registry := (MapProviderRegistry (P := Provider process S)).
Local Abbreviation gateway := (Gateway process S B RL registry Regex).

(** The clients, the parts of a fresh gateway, and the Postgres log. *)
Context (compatible : OpenAiCompatibleConfig -> Provider process S).
Context (anthropic gemini : option string -> Provider process S).
Context (regex_new : string -> option Regex) (limiter_new : Z -> Z -> RL).
Context (auditor : nat -> RequestAuditor process) (request_log : nat).
Context (postgres_enabled sqlite_enabled : bool) (pg_log_store : string -> result nat string).

Definition with_config (c : Config) (w : process) : process :=
  {| pr_config := c; pr_metrics := pr_metrics w; pr_spend := pr_spend w; pr_limits := pr_limits w;
     pr_cache := pr_cache w; pr_outside := pr_outside w |}.

(** The log store, when the database is Postgres and opens. *)
Definition attach_request_log (g : gateway) : gateway :=
  match env "DATABASE_URL" with
  | Some url =>
      if postgres_enabled && starts_with "postgres" url then
        match pg_log_store url with Ok log => set_request_log_store log g | Err _ => g end
      else g
  | None => g
  end.

(** The plugins read the configuration through the gateway's handle. *)
Definition build_gateway (started : Z) (config : Config) (source : ProviderSource) (w : process)
    : result (gateway * process) Exit :=
  let g := gateway_new regex_new started (build_provider_registry compatible anthropic gemini) limiter_new
             auditor request_log config in
  let g := if strict source then g
           else register_providers_from_env env to_uppercase compatible anthropic gemini g in
  match build now checks cached_now random spend_iter hash map_keys to_lowercase digest engine moka_new
          (plugin_settings_from_env env parse_f64 parse_f32) config (with_config config w) with
  | Err panic => Err {| exit_code := 101; exit_message := panic |}
  | Ok (wired, w) =>
      let g := set_plugin_manager (wi_manager wired) g in
      let g := match wi_response_cache wired with Some c => set_response_cache c g | None => g end in
      Ok (attach_request_log g, w)
  end.

Context (connect_postgres : string -> result (Sql.Db (list ApiKeyRow)) string).
Context (connect_sqlite : string -> result (Sql.Db (list SqliteApiKeyRow)) string).
Context (pg_connect sqlite_connect : string -> result Pool string).
Context (pg_migrate sqlite_migrate : Pool -> result unit string).
Context (pg_stores sqlite_stores : Pool -> option string -> ModelStoreTrait T * ModelEndpointStoreTrait T).
Context `{Cipher}.

Local Abbreviation connect_stores :=
  (connect_model_stores postgres_enabled sqlite_enabled pg_connect sqlite_connect pg_migrate sqlite_migrate
     pg_stores sqlite_stores).

Definition build_admin (config : Config) : AdminHandlers (T := T) * AuthMiddleware :=
  let store := backend_new postgres_enabled sqlite_enabled connect_postgres connect_sqlite (env "DATABASE_URL") in
  let admin :=
    match env "DATABASE_URL" with
    | Some url =>
        match connect_stores url (cipher_from_env env) with
        | Some (models, endpoints) => with_model_stores models endpoints admin_handlers_new
        | None => admin_handlers_new
        end
    | None => admin_handlers_new
    end in
  (admin, {| am_store := store; am_master_key := admin_master_key (cfg_admin config) |}).

#[local] Instance boot_registry : ProviderRegistry registry (Provider process S) :=
  map_provider_registry compatible.

(** The targets of the database over those of the file, unless there are none. *)
Definition startup_sync (admin : AdminHandlers (T := T)) (st : AppState process S B RL registry Regex T)
    : AppState process S B RL registry Regex T :=
  rebuild_with admin (fun _ => KeepPrevious) st.

Record Booted := {
  bo_source : ProviderSource;
  bo_state : AppState process S B RL registry Regex T;
  bo_admin : AdminHandlers (T := T);
  bo_process : process;
  bo_auth : CombinedAuth;
  bo_address : string;
}.

Context (get_jwks : string -> N -> result (list Jwk) string * N).
Context (get_config : string -> N -> result (result string string) string * N).

(** [main] up to the socket: the instants of the gateway and of the discovery, the
    login's secret and the audit log are drawn on the way. *)
Definition boot (started now_secs : Z) (secret : string) (audit : AuditLog) (cli : CliArgs)
    (loaded : result Config Errors.ConfigError) (t : T) (w : process) (n : N) : result Booted Exit :=
  let? (config, source) := preflight env loaded in
  let? _ := run_migration env (migrate_to_latest postgres_enabled sqlite_enabled pg_connect sqlite_connect
                                 pg_migrate sqlite_migrate) cli in
  let? (g, w) := build_gateway started config source w in
  let '(admin, auth) := build_admin config in
  if strict source && negb (has_model_stores admin) then
    Err (fatal ("FATAL: " +:+ PROVIDER_SOURCE_VAR +:+ "=db requires a working database, but the model/endpoint stores "
                +:+ "could not be connected — check DATABASE_URL and that the server is reachable. "
                +:+ "Refusing to start: strict mode registers no env providers, so nothing could route."))
  else
    let st := startup_sync admin {| app_gateway := g; app_store := t |} in
    let '(jwt, _) := init_jwt_discovery env get_jwks get_config now_secs n in
    let? jwt := jwt in
    let login := admin_login_from_env env secret in
    Ok {| bo_source := source; bo_state := st; bo_admin := admin; bo_process := w;
          bo_auth := {| ca_api_key := auth; ca_jwt := jwt; ca_admin_login := login; ca_audit := Some audit |};
          bo_address := "0.0.0.0:" +:+ match cli_port cli with
                                      | Some port => port
                                      | None => default "8080" (env "PORT")
                                      end |}.

(** ** Proofs *)

(** Registration adds clients and changes nothing else. *)
Lemma registration_only_providers (g : gateway) : exists ps,
  register_providers_from_env env to_uppercase compatible anthropic gemini g = with_providers ps g.
Proof.
  assert (forall ps p, register_provider p (with_providers ps g) = with_providers (<[prov_name p := p]> ps) g) as Hr
    by done.
  enough (forall ps, exists ps', register_providers_from_env env to_uppercase compatible anthropic gemini
    (with_providers ps g) = with_providers ps' g) as Hall.
  { destruct (Hall (gw_providers g)) as [ps Hps]. rewrite with_providers_same in Hps. by exists ps. }
  intros ps0. unfold register_providers_from_env, register_openai, register_secondary, register_azure.
  rewrite Hr.
  assert (forall l ps, exists ps', foldl (register_preset env to_uppercase compatible) (with_providers ps g) l =
    with_providers ps' g) as Hl.
  { induction l as [|row l IH]; intros ps; cbn [foldl]; [by eexists|]. unfold register_preset at 2.
    case_decide; [apply IH|]. destruct (env _); [rewrite Hr|]; apply IH. }
  destruct (env OPENAI_SECONDARY_BASE_URL), (env AZURE_OPENAI_API_KEY), (env AZURE_OPENAI_ENDPOINT),
    (env AZURE_OPENAI_DEPLOYMENT); rewrite ?Hr; apply Hl.
Qed.

(** What assembling the gateway fixes, before any row of the database is read. *)
Lemma build_gateway_fields started config source w g w' :
  build_gateway started config source w = Ok (g, w') ->
  gw_targets g = cfg_targets config /\ gw_config g = config /\
  gw_provider_registry g = build_provider_registry compatible anthropic gemini /\
  gw_config_history g = history_record started config None history_default /\
  (strict source = true -> gw_providers g = ∅).
Proof.
  unfold build_gateway. destruct (build _ _ _ _ _ _ _ _ _ _ _ _ _ _) as [[wired w1]|]; [|done].
  assert (forall (P : gateway -> Prop) g0, (forall log, P (set_request_log_store log g0)) -> P g0 ->
    P (attach_request_log g0)) as Hattach.
  { intros P g0 Hs Hn. unfold attach_request_log. destruct (env "DATABASE_URL"); [|done].
    destruct (_ && _); [|done]. by destruct (pg_log_store _). }
  destruct (strict source).
  - intros [= <- <-]. apply Hattach; [intros log|]; by destruct (wi_response_cache wired).
  - match goal with |- context [register_providers_from_env _ _ _ _ _ ?g0] =>
      destruct (registration_only_providers g0) as [ps ->] end.
    intros [= <- <-]. apply Hattach; [intros log|]; by destruct (wi_response_cache wired).
Qed.

Section Booting.
Context (started now_secs : Z) (secret : string) (audit : AuditLog) (cli : CliArgs).
Context (loaded : result Config Errors.ConfigError) (t : T) (w : process) (n : N).

Local Abbreviation started_as b := (boot started now_secs secret audit cli loaded t w n = Ok b).

Lemma boot_inv b : started_as b ->
  exists config g,
    preflight env loaded = Ok (config, bo_source b) /\
    (exists w', build_gateway started config (bo_source b) w = Ok (g, w')) /\
    bo_admin b = (build_admin config).1 /\ ca_api_key (bo_auth b) = (build_admin config).2 /\
    bo_state b = startup_sync (bo_admin b) {| app_gateway := g; app_store := t |} /\
    (strict (bo_source b) = true -> has_model_stores (bo_admin b) = true).
Proof.
  unfold boot. destruct (preflight env loaded) as [[config source]|]; [|done].
  destruct (run_migration _ _ _); [|done].
  destruct (build_gateway started config source w) as [[g w']|] eqn:Eg; [|done].
  destruct (build_admin config) as [admin auth] eqn:Ea.
  destruct (strict source && negb (has_model_stores admin)) eqn:Es; [done|].
  destruct (init_jwt_discovery _ _ _ _ _) as [[jwt|] n']; [|done].
  intros [= <-]. exists config, g. rewrite Ea. cbn [bo_source bo_state bo_admin bo_auth ca_api_key fst snd].
  split_and!; try done; [by eexists|].
  intros Hs. rewrite Hs in Es. by apply negb_false_iff in Es.
Qed.

(** C14: A process that must require authentication does. When [REQUIRE_AUTH] or the
    deployment's name asks for it, a process that starts has a master key that is not
    blank, and no request is let through without a bearer token. *)
Theorem required_auth_enforced b
    `{TimeText, JsonText, JwtLibrary} {Key : Type} (sha256_hex : string -> string) (uuid_text : Z -> string)
    (replace_all : Pattern -> string -> string -> string)
    (decode_header : string -> result (option string) string) (key_from_jwk : Jwk -> result Key string)
    (jwt_decode : string -> Key -> Validation -> Z -> result JwtClaims JwtErrorKind)
    (kind_message : JwtErrorKind -> string) :
  started_as b -> auth_is_required env = true ->
  (exists key, am_master_key (ca_api_key (bo_auth b)) = Some key /\ trim key <> "") /\
  forall authorization ip k ctx a,
    combined_middleware sha256_hex uuid_text replace_all decode_header key_from_jwk jwt_decode kind_message
      (required_roles env) authorization ip k (bo_auth b) = (Proceed ctx, a) ->
    exists token, authorization = Some ("Bearer " +:+ token).
Proof.
  intros Hb Hreq. destruct (boot_inv b Hb) as (config & g & Hp & _ & _ & Hk & _).
  assert (master_key_configured config = true) as Hm.
  { unfold preflight in Hp. destruct (map_err _ loaded) as [c|]; [|done]. rewrite Hreq in Hp. cbn [andb] in Hp.
    destruct (master_key_configured (match env "MASTER_KEY" with Some key => _ | None => c end)) eqn:Em; [|done].
    cbn [negb] in Hp. destruct (map_err _ (provider_source_from_env env)) as [s|]; [|done].
    destruct (_ && _); [done|]. injection Hp as <- _. done. }
  unfold master_key_configured in Hm.
  destruct (admin_master_key (cfg_admin config)) as [key|] eqn:Ek; [|done].
  apply negb_true_iff, bool_decide_eq_false in Hm.
  assert (am_master_key (ca_api_key (bo_auth b)) = Some key) as Hkey by (rewrite Hk; exact Ek).
  split; [by exists key|]. intros authorization ip k ctx a. unfold combined_middleware, is_bypass.
  rewrite Hkey, !andb_false_r. destruct (bearer_token authorization) as [token|] eqn:Et; [|done]. intros _.
  unfold bearer_token in Et. destruct authorization as [v|]; [|done]. exists token.
  by apply strip_prefix_Some in Et as ->.
Qed.
(** C15: A strict process routes by the database alone. Started with the database as its
    source, it has its stores connected, and every client it holds is that of an enabled
    endpoint the database listed: no variable and no file put one there. *)
Theorem strict_boot_isolated b : started_as b -> bo_source b = Wire.Db ->
  has_model_stores (bo_admin b) = true /\
  forall k, is_Some (gw_providers (app_gateway (bo_state b)) !! k) ->
    exists endpoints t' e, list_endpoints (bo_admin b) (list_models (bo_admin b) t).2 = (Ok endpoints, t') /\
      e ∈ endpoints /\ ep_enabled e = true /\ ep_id e = k.
Proof.
  intros Hb Hs. destruct (boot_inv b Hb) as (config & g & _ & [w' Hg] & _ & _ & Hst & Hstores).
  rewrite Hs in Hstores, Hg. split; [by apply Hstores|]. intros k.
  apply build_gateway_fields in Hg as (_ & _ & _ & _ & Hnone). specialize (Hnone eq_refl).
  rewrite Hst. unfold startup_sync, rebuild_with. cbn [app_store app_gateway].
  destruct (list_models (bo_admin b) t) as [models t1]. cbn [snd].
  destruct (list_endpoints (bo_admin b) t1) as [endpoints t2] eqn:Ee.
  destruct models as [models|], endpoints as [endpoints|]; cbn [app_gateway]; rewrite ?Hnone, ?lookup_empty;
    try by intros [].
  intros [Hk|Hk]%rebuild_clients; [rewrite Hnone, lookup_empty in Hk; by destruct Hk|].
  apply list_elem_of_fmap in Hk as ([m e] & -> & Hc). unfold built_of in Hc.
  apply list_elem_of_In, filter_In in Hc as [Hc%list_elem_of_In _].
  apply candidate_elem in Hc as (_ & _ & He & _ & Hen). by exists endpoints, t2, e.
Qed.

(** A started process is in step with its database. Over stores that keep their
    contract, with a file that names no endpoint of the database and rows its registry
    can build, it starts where the admin API keeps it: the live targets are those of the
    database, or those of the file while the database has none. *)
Theorem boot_in_step b ms es `{!StoreLaws ms es} c :
  started_as b -> bo_admin b = with_model_stores ms es admin_handlers_new ->
  loaded = Ok c -> plain_config c ->
  (forall e, e ∈ live_endpoints t -> routable (build_provider_registry compatible anthropic gemini) e) ->
  routing_ok ms es (bo_state b) /\
  gw_targets (app_gateway (bo_state b)) =
    match db_targets ms es t with [] => cfg_targets c | targets => targets end.
Proof.
  intros Hb Ha Hc Hplain Hr. destruct (boot_inv b Hb) as (config & g & Hp & [w' Hg] & _ & _ & Hst & _).
  apply build_gateway_fields in Hg as (Ht & _ & Hreg & Hhist & _).
  apply preflight_targets in Hp as (c' & Hc' & Htargets). rewrite Hc in Hc'. injection Hc' as <-.
  assert (plain_config config) as Hpl. { intros x. rewrite Htargets. apply Hplain. }
  rewrite Hst, Ha. unfold startup_sync. split.
  - apply rebuild_in_step; cbn [app_gateway app_store].
    + intros e He. rewrite Hreg. by apply Hr.
    + rewrite Hhist. intros x Hx. apply list_elem_of_singleton in Hx as ->. exact Hpl.
    + right. unfold db_owns_routing. rewrite Ht. apply not_true_is_false.
      intros (x & Hx & Hs)%existsb_exists. apply bool_decide_eq_true in Hs.
      apply list_elem_of_In, Hpl in Hx. rewrite Hx in Hs. by destruct Hs.
  - rewrite (rebuild_with_live ms es). cbn [app_gateway app_store].
    destruct (rebuild_live (live_models t) (live_endpoints t) KeepPrevious g) as (_ & _ & ->).
    rewrite all_built by (rewrite Hreg; exact Hr). rewrite Ht, Htargets. unfold db_targets.
    by destruct (candidates _ _).
Qed.
End Booting.
End Boot.

(** ** The theorems at concrete processes *)
Module StartupDemo.
#[local] Existing Instances WireDemo.no_engine WireDemo.no_cache demo_limiting ModelDemo.open_cipher.

(** A strict production process over a SQLite database. *)
Definition env (v : string) : option string :=
  if decide (v = "RUST_ENV") then Some "production"
  else if decide (v = "MASTER_KEY") then Some "mk"
  else if decide (v = PROVIDER_SOURCE_VAR) then Some "db"
  else if decide (v = "DATABASE_URL") then Some "sqlite:gw.db"
  else if decide (v = "GROQ_API_KEY") then Some "gsk"
  else None.

Definition client (name : string) : Provider (Process unit unit) unit :=
  {| prov_name := name; prov_display_name := name; prov_supported_models := [];
     prov_complete := fun _ _ w => (Err (PRateLimited 60), w);
     prov_complete_stream := fun _ _ w => (Ok tt, w); prov_embed := default_embed name |}.

Definition compatible (c : OpenAiCompatibleConfig) := client (oc_name c).

Definition auditor : RequestAuditor (Process unit unit) :=
  {| record_full := fun _ _ s => s; record_accounting := fun _ _ s => s |}.

(** The rows of the database when the process starts. *)
Definition rows : Stored := app_store (HandlersDemo.after HandlersDemo.onboarding).

Definition upper (s : string) : string := to_ascii_uppercase s.

Definition config : Config := demo_config "openai".

Definition started :=
  boot (B := CircuitBreaker) (RL := unit) (Pool := unit) (N := unit) env upper (fun s => s)
    (fun _ => None) (fun _ => None) (fun _ => 0) (fun _ => (0, 0, 0, 0)) (fun _ => 0) (fun _ => 0)
    map_to_list (fun _ => 0) (fun m => (map_to_list m).*1) (fun _ => "") (Ok tt) (fun _ _ => tt)
    compatible (fun _ => client "anthropic") (fun _ => client "gemini") no_regex (fun _ _ => tt)
    (fun _ => auditor) 0%nat true true (fun _ => Err "") (fun _ => Err "") (fun _ => Err "")
    (fun _ => Err "") (fun _ => Ok tt) (fun _ => Ok tt) (fun _ => Ok tt)
    (fun _ _ => (HandlersDemo.model_store, HandlersDemo.endpoint_store))
    (fun _ _ => (HandlersDemo.model_store, HandlersDemo.endpoint_store))
    (fun _ n => (Err "", n)) (fun _ n => (Err "", n)) 0 0 "secret" (audit_new true) cli_default (Ok config) rows
    WireDemo.process tt.

(** What it starts with: the database's one endpoint, and no client but its own. *)
Example strict_start : match started with
  | Ok b => target_id <$> gw_targets (app_gateway (bo_state b)) = [Some (SqlDemo.uuid 1)] /\
            (map_to_list (gw_providers (app_gateway (bo_state b)))).*1 = [SqlDemo.uuid 1] /\
            bo_address b = "0.0.0.0:8080"
  | Err _ => False
  end.
Proof. vm_compute. by split_and!. Qed.

Lemma admin_of_start : match started with
  | Ok b => bo_admin b = with_model_stores HandlersDemo.model_store HandlersDemo.endpoint_store admin_handlers_new
  | Err _ => False
  end.
Proof. reflexivity. Qed.

Lemma rows_routable e : e ∈ live_endpoints (ms := HandlersDemo.model_store) (es := HandlersDemo.endpoint_store) rows ->
  @routable _ _ _ (map_provider_registry compatible)
    (build_provider_registry compatible (fun _ => client "anthropic") (fun _ => client "gemini")) e.
Proof.
  intros He _. apply list_elem_of_In in He. revert e He. apply forallb_forall. by vm_compute.
Qed.

(** The gate in front of it, with no token library behind it. *)
#[local] Existing Instances SqlDemo.time_text RefineDemo.json_text JwtDemo.demo_jwt.
Definition gate {S B RL Regex} (b : Booted (X := unit) (C := unit) (S := S) (B := B) (RL := RL) (Regex := Regex) (T := Stored))
    (authorization : option string) : Decision * CombinedAuth :=
  combined_middleware (Key := unit) (fun s => s) SqlDemo.uuid (fun _ s _ => s)
    (fun _ => Err "") (fun _ => Err "") (fun _ _ _ _ => Err (KOther "")) (fun _ => "") (required_roles env)
    authorization None AccessDemo.clock (bo_auth b).

Lemma starts : is_ok started = true.
Proof. by vm_compute. Qed.

End StartupDemo.

#[local] Existing Instances WireDemo.no_engine WireDemo.no_cache demo_limiting ModelDemo.open_cipher
  SqlDemo.time_text RefineDemo.json_text JwtDemo.demo_jwt.

Lemma required_auth_enforced_witness :
  exists b, StartupDemo.started = Ok b /\ auth_is_required StartupDemo.env = true /\
    forall ctx a, StartupDemo.gate b None <> (Proceed ctx, a).
Proof.
  pose proof StartupDemo.starts as Hs. destruct StartupDemo.started as [b|e] eqn:E; [|done].
  exists b. split; [done|]. split; [done|]. intros ctx a Hg. unfold StartupDemo.started in E.
  edestruct @required_auth_enforced as [_ Hall]; [exact E|reflexivity|].
  apply Hall in Hg as [token Ht]. discriminate.
Defined.

Lemma strict_boot_isolated_witness :
  exists b, StartupDemo.started = Ok b /\ has_model_stores (bo_admin b) = true /\
    forall k, is_Some (gw_providers (app_gateway (bo_state b)) !! k) ->
      exists endpoints t' e, list_endpoints (bo_admin b) (list_models (bo_admin b) StartupDemo.rows).2 =
        (Ok endpoints, t') /\ e ∈ endpoints /\ ep_enabled e = true /\ ep_id e = k.
Proof.
  pose proof StartupDemo.starts as Hs.
  assert (match StartupDemo.started with Ok b => bo_source b | Err _ => Auto end = Wire.Db) as Hd by (by vm_compute).
  destruct StartupDemo.started as [b|e] eqn:E; [|done]. exists b. split; [done|].
  unfold StartupDemo.started in E. eapply strict_boot_isolated; [exact E|exact Hd].
Defined.

Lemma boot_in_step_witness :
  exists b, StartupDemo.started = Ok b /\
    target_id <$> gw_targets (app_gateway (bo_state b)) = [Some (SqlDemo.uuid 1)].
Proof.
  pose proof StartupDemo.starts as Hs. pose proof StartupDemo.admin_of_start as Ha.
  destruct StartupDemo.started as [b|e] eqn:E; [|done]. exists b. split; [done|].
  unfold StartupDemo.started in E.
  edestruct @boot_in_step as [_ Ht]; [exact E|exact Ha|reflexivity| |exact StartupDemo.rows_routable|].
  - intros t Ht. by apply list_elem_of_singleton in Ht as ->.
  - rewrite Ht. by vm_compute.
Defined.
