(* ===== verification/Server.v ===== *)
(** * The process under requests
    (src/crates/himadri/src/main.rs, [build_router]; handlers.rs; combined_auth.rs)

    What Startup.v assembles, answering: a request is matched to its route, goes through
    the layers of the route, and is handled by the handler of its endpoint. [Server] is all
    that outlives a request: the gateway and the model stores, the authentication with its
    key store, and the world. Three cells are shared in the source and are one cell here:
    the key store of the admin handlers is the one that authenticates, the audit log of the
    authentication is the gateway's, and the plugins read the configuration the gateway
    writes. Extractors, the JSON of answers and the layers of CORS and tracing are outside. *)

From S2P Require Import Prelude Str Float Config Types Errors KeyStore KeySql Sql Jwt KeyRefine ModelStore Provider NetGuard CircuitBreaker RateLimiter Usage Auditing Policy Strategy Plugin Failover Gateway AdminHandlers Access Http Proxy Router Route Stream Api Handlers HandlerLaws ModelRefine.

(** ** Requests *)

Record HttpRequest := {
  hr_method : Method;
  hr_path : string;
  hr_query : option string;
  hr_peer : IpAddr;
  hr_headers : Headers;
  hr_body : option string;
}.

(** Axum's extractors: a value, or the rejection that is answered instead. *)
Record Extractors := {
  ex_param : string -> result string Reply;
  ex_version : string -> result Z Reply;
  ex_chat : HttpRequest -> result ChatCompletionRequest Reply;
  ex_legacy : HttpRequest -> result LegacyCompletionRequest Reply;
  ex_embedding : HttpRequest -> result EmbeddingRequest Reply;
  ex_login : HttpRequest -> result DevAdminLoginRequest Reply;
  ex_create_key : HttpRequest -> result CreateApiKeyRequest Reply;
  ex_update_key : HttpRequest -> result UpdateApiKeyRequest Reply;
  ex_create_model : HttpRequest -> result CreateModelRequest Reply;
  ex_update_model : HttpRequest -> result UpdateModelRequest Reply;
  ex_create_endpoint : HttpRequest -> result CreateModelEndpointRequest Reply;
  ex_update_endpoint : HttpRequest -> result UpdateModelEndpointRequest Reply;
  ex_toggle : HttpRequest -> result (option bool) Reply;
  ex_config : HttpRequest -> result Config Reply;
  ex_log_query : HttpRequest -> result RequestLogQuery Reply;
  ex_maintenance : HttpRequest -> result MaintenanceQuery Reply;
}.

(** What a request draws: the clocks, two random identifiers, and the file that a reload
    would read. *)
Record Draws := {
  dr_clock : Clock;
  dr_now : Z;
  dr_id : Z;
  dr_secret : Z;
  dr_loaded : result Config ConfigError;
}.

(** ** Answers *)

Inductive Served (S : Type) :=
  | SReply (r : Reply)
  | SApi (a : ApiAnswer S)
  | SPassed (p : Passed)
  | SAdmin (r : result AdminAnswer ApiError)
  | SLogin (r : result IssuedAdminToken ApiError)
  | SModels (l : ModelListResponse)
  | SKeys (r : result (list ApiKey) ApiError)
  | SKey (r : result (Z * ApiKey) ApiError)
  | SStatus (r : result Z ApiError)
  | SDashboard (d : DashboardSummary)
  | SUsage (u : Z * Z * f64 * f64 * f64 * list ModelUsage * list ProviderUsage)
  | SKeyUsage (u : UsageStats)
  | SLogs (r : result RequestLogListResult ApiError)
  | SValue (r : result Value ApiError).
Arguments SReply {S}.
Arguments SApi {S}.
Arguments SPassed {S}.
Arguments SAdmin {S}.
Arguments SLogin {S}.
Arguments SModels {S}.
Arguments SKeys {S}.
Arguments SKey {S}.
Arguments SStatus {S}.
Arguments SDashboard {S}.
Arguments SUsage {S}.
Arguments SKeyUsage {S}.
Arguments SLogs {S}.
Arguments SValue {S}.

Section Server.
Context {W S B RL R Regex T : Type}.
Context `{CircuitBreakerTrait B} `{RateLimiting RL} `{ProviderRegistry R (Provider W S)}.

Record Server := {
  sv_app : AppState W S B RL R Regex T;
  sv_auth : CombinedAuth;
  sv_world : W;
}.

(** The libraries behind the handlers (see the files of each). *)
Context `{TimeText, JsonText, JwtLibrary}.
Context (sha256_hex : string -> string) (uuid_text : Z -> string) (parse_uuid : string -> option Z).
Context (replace_all : Pattern -> string -> string -> string).
Context {Key : Type}.
Context (decode_header : string -> result (option string) string).
Context (key_from_jwk : Jwk -> result Key string).
Context (jwt_decode : string -> Key -> Validation -> Z -> result JwtClaims JwtErrorKind).
Context (kind_message : JwtErrorKind -> string).
Context (cb_default : B) (out : Outside W Regex) (log_event : (Z -> AuditEvent) -> W -> W).
Context (to_str : string -> option string) (chunk_to_string : StreamChunk -> result string string).
Context (value_to_string serde_error : Value -> string).
Context (parse_method : string -> option string) (send : Upstream -> W -> result Fetched string * W).
Context (regex_new : string -> option Regex) (timestamp : Z -> Z).
Context (order_by : forall Row, (Row -> Row -> bool) -> list Row -> list Row).
Context (entries : gmap string ApiKey -> list ApiKey) (iter : gmap string agg -> list (string * agg)).
Context (iter_set : gset string -> list string).
Context (provider_names : gmap string (Provider W S) -> list string).

(** Where the world keeps what the handlers share with the gateway: the metrics, the usage
    records, the logs by the gateway's handle, the audit log, the configuration. *)
Context (metrics_of : W -> string) (usage_of : W -> UsageStore) (logs : nat -> RequestLogStore W).
Context (audit_of : W -> AuditLog) (put_audit : AuditLog -> W -> W) (share_config : Config -> W -> W).

Context (ex : Extractors) (version : string).
(** What the CORS layer answers by itself, to a preflight. *)
Context (preflight_answer : HttpRequest -> option Reply).
Context (h : AdminHandlers (T := T)).

Local Abbreviation env := (out_env out).
Local Abbreviation served := (Served S * Server)%type.

(** ** State *)

Definition sv_gateway (sv : Server) : Gateway W S B RL R Regex := app_gateway (sv_app sv).
Definition sv_keys (sv : Server) : StoreBackend := am_store (ca_api_key (sv_auth sv)).

Definition with_path (s : Gateway W S B RL R Regex * W) (sv : Server) : Server :=
  {| sv_app := {| app_gateway := s.1; app_store := app_store (sv_app sv) |};
     sv_auth := sv_auth sv; sv_world := s.2 |}.

Definition with_world (w : W) (sv : Server) : Server :=
  {| sv_app := sv_app sv; sv_auth := sv_auth sv; sv_world := w |}.

Definition with_keys (b : StoreBackend) (sv : Server) : Server :=
  {| sv_app := sv_app sv; sv_auth := with_api_key (with_store b (ca_api_key (sv_auth sv))) (sv_auth sv);
     sv_world := sv_world sv |}.

(** [CombinedAuth] holds the gateway's audit log. *)
Definition with_auth (a : CombinedAuth) (sv : Server) : Server :=
  {| sv_app := sv_app sv; sv_auth := a;
     sv_world := match ca_audit a with Some l => put_audit l (sv_world sv) | None => sv_world sv end |}.

Definition auth_of (sv : Server) : CombinedAuth :=
  {| ca_api_key := ca_api_key (sv_auth sv); ca_jwt := ca_jwt (sv_auth sv);
     ca_admin_login := ca_admin_login (sv_auth sv);
     ca_audit := (fun _ => audit_of (sv_world sv)) <$> ca_audit (sv_auth sv) |}.

(** ** Handling *)

Definition extracting {A} (r : result A Reply) (k : A -> served) (sv : Server) : served :=
  match r with Ok a => k a | Err reply => (SReply reply, sv) end.

(** The i-th segment of the path, which the route captured. *)
Definition path_param (i : nat) (r : HttpRequest) : result string Reply :=
  ex_param ex (default "" (path_segments (hr_path r) !! i)).

Definition admin_call (r : AdminRequest) (sv : Server) : served :=
  let '(a, st) := serve env regex_new h r (sv_app sv) in
  (SAdmin a, {| sv_app := st; sv_auth := sv_auth sv;
                sv_world := share_config (gw_config (app_gateway st)) (sv_world sv) |}).

Definition key_call {A} (f : A -> Served S) (m : StoreBackend -> A * StoreBackend) (sv : Server) : served :=
  let '(a, b) := m (sv_keys sv) in (f a, with_keys b sv).

Definition found_key (r : result ApiKey ApiError) : Served S :=
  SKey (match r with Ok k => Ok (200, k) | Err e => Err e end).

Definition header_text (name : string) (r : HttpRequest) : option string :=
  header_get name (hr_headers r) ≫= to_str.

Definition method_text (m : Method) : string :=
  match m with
  | GET => "GET" | HEAD => "HEAD" | POST => "POST" | PUT => "PUT" | DELETE => "DELETE"
  | OtherMethod name => name
  end.

(** The handler of an endpoint, on a request that passed the layers as [ctx]. *)
Definition handle (e : Endpoint) (ctx : option AuthContext) (r : HttpRequest) (d : Draws) (sv : Server)
    : served :=
  let g := sv_gateway sv in
  let w := sv_world sv in
  let id := path_param 2 r in
  let peer := hr_peer r in
  let headers := hr_headers r in
  match e with
  | EHealth => (SValue (Ok (health version)), sv)
  | EMetrics =>
      (SReply (metrics_handler env (admin_master_key (cfg_admin (gw_config g))) (header_text "authorization" r)
                 (metrics_of w)), sv)
  | EListModels =>
      let '(l, t) := list_models_handler timestamp h (provider_names (gw_providers g)) g (app_store (sv_app sv)) in
      (SModels l, {| sv_app := {| app_gateway := g; app_store := t |}; sv_auth := sv_auth sv; sv_world := w |})
  | ELogin =>
      extracting (ex_login ex r) (fun body =>
        let '(a, log) := dev_admin_login to_str replace_all (ca_admin_login (sv_auth sv)) peer headers body
                           (dr_clock d) (audit_of w) in
        (SLogin a, with_world (put_audit log w) sv)) sv
  | EChatCompletions =>
      extracting (ex_chat ex r) (fun body =>
        let '(a, s) := chat_completions cb_default out log_event to_str chunk_to_string body ctx peer headers g w in
        (SApi a, with_path s sv)) sv
  | ECompletions =>
      extracting (ex_legacy ex r) (fun body =>
        let '(a, s) := completions cb_default out log_event to_str value_to_string serde_error body ctx peer
                         headers g w in
        (SApi a, with_path s sv)) sv
  | EEmbeddings =>
      extracting (ex_embedding ex r) (fun body =>
        let '(a, s) := embeddings out body ctx g w in (SReply a, with_path s sv)) sv
  | EPassthrough =>
      let '(a, w) := passthrough env parse_method send (method_text (hr_method r)) (hr_path r) headers
                       (hr_body r) g w in
      (SPassed a, with_world w sv)
  | EListKeys => key_call SKeys (list_keys_api uuid_text order_by entries) sv
  | ECreateKey =>
      extracting (ex_create_key ex r) (fun body =>
        key_call SKey (create_key_api sha256_hex uuid_text (dr_id d) (dr_secret d) (dr_now d) body) sv) sv
  | EGetKey => extracting id (fun i => key_call found_key (get_key_api uuid_text parse_uuid i) sv) sv
  | EUpdateKey =>
      extracting id (fun i => extracting (ex_update_key ex r) (fun body =>
        key_call found_key (update_key_api uuid_text parse_uuid i body) sv) sv) sv
  | EDeleteKey => extracting id (fun i => key_call SStatus (delete_key_api parse_uuid i) sv) sv
  | ERevokeKey => extracting id (fun i => key_call SStatus (revoke_key_api parse_uuid i) sv) sv
  | ERotateKey =>
      extracting id (fun i =>
        key_call found_key (rotate_key_api sha256_hex uuid_text parse_uuid i (dr_secret d)) sv) sv
  | EListModelsApi => admin_call ListModels sv
  | ECreateModel => extracting (ex_create_model ex r) (fun body => admin_call (CreateModel body) sv) sv
  | EGetModel => extracting id (fun i => admin_call (GetModel i) sv) sv
  | EUpdateModel =>
      extracting id (fun i => extracting (ex_update_model ex r) (fun body =>
        admin_call (UpdateModel i body) sv) sv) sv
  | EDeleteModel => extracting id (fun i => admin_call (DeleteModel i) sv) sv
  | EToggleModel =>
      extracting id (fun i => extracting (ex_toggle ex r) (fun b => admin_call (ToggleModel i b) sv) sv) sv
  | EListAllModelEndpoints => admin_call ListAllEndpoints sv
  | EListModelEndpoints => extracting id (fun i => admin_call (ListModelEndpoints i) sv) sv
  | ECreateModelEndpoint =>
      extracting id (fun i => extracting (ex_create_endpoint ex r) (fun body =>
        admin_call (CreateEndpoint i body) sv) sv) sv
  | EGetModelEndpoint => extracting id (fun i => admin_call (GetEndpoint i) sv) sv
  | EUpdateModelEndpoint =>
      extracting id (fun i => extracting (ex_update_endpoint ex r) (fun body =>
        admin_call (UpdateEndpoint i body) sv) sv) sv
  | EDeleteModelEndpoint => extracting id (fun i => admin_call (DeleteEndpoint i) sv) sv
  | EToggleModelEndpoint =>
      extracting id (fun i => extracting (ex_toggle ex r) (fun b => admin_call (ToggleEndpoint i b) sv) sv) sv
  | EKnownProviders => (SValue (Ok known_providers), sv)
  | EDashboard =>
      key_call (fun keys => SDashboard (dashboard iter keys (usage_of w)))
        (backend_list uuid_text order_by entries) sv
  | EUsageStats => (SUsage (usage_stats iter (usage_of w)), sv)
  | EKeyUsageStats => extracting id (fun i => (SKeyUsage (key_usage_stats iter_set i (usage_of w)), sv)) sv
  | EGetConfig => admin_call GetConfig sv
  | EUpdateConfig => extracting (ex_config ex r) (fun c => admin_call (UpdateConfig (dr_now d) c) sv) sv
  | EConfigHistory => admin_call ConfigHistoryOf sv
  | EConfigRollback =>
      extracting (ex_version ex (default "" (path_segments (hr_path r) !! 3%nat))) (fun v =>
        admin_call (RollbackConfig (dr_now d) v) sv) sv
  | EListLogs =>
      extracting (ex_log_query ex r) (fun q =>
        (SLogs (list_logs (H := logs (gw_request_log g)) q w), sv)) sv
  | EDeleteLogs =>
      extracting (ex_maintenance ex r) (fun q =>
        let '(a, w) := delete_logs (H := logs (gw_request_log g)) q w in (SValue a, with_world w sv)) sv
  | EReloadConfig => admin_call (ReloadConfig (dr_now d) (dr_loaded d)) sv
  end.

Definition method_not_allowed : Reply :=
  {| rp_status := 405; rp_retry_after := None; rp_body := BodyText "" |}.

(** The layers of a route, and then what runs behind them. *)
Definition guarded (gate : Gate) (k : option AuthContext -> Server -> served) (r : HttpRequest) (d : Draws)
    (sv : Server) : served :=
  let '(c, a) := enter sha256_hex uuid_text replace_all decode_header key_from_jwk jwt_decode kind_message
                   (required_roles env) gate (header_text "authorization" r) (Some (show_ip (hr_peer r)))
                   (dr_clock d) (auth_of sv) in
  let sv := with_auth a sv in
  match c with Ok ctx => k ctx sv | Err reply => (SReply reply, sv) end.

Definition serve_request (r : HttpRequest) (d : Draws) (sv : Server) : served :=
  match preflight_answer r with
  | Some reply => (SReply reply, sv)
  | None =>
      match dispatch_request (hr_method r) (hr_path r) with
      | Matched gate e => guarded gate (fun ctx => handle e ctx r d) r d sv
      | MethodNotAllowed gate => guarded gate (fun _ sv => (SReply method_not_allowed, sv)) r d sv
      end
  end.

Definition serve_requests (rs : list (HttpRequest * Draws)) (sv : Server) : Server :=
  foldl (fun sv r => (serve_request r.1 r.2 sv).2) sv rs.

End Server.

(** ** What the request paths leave alone *)

Section Paths.
Context {W S B RL R Regex T : Type}.
Context `{CircuitBreakerTrait B} `{RateLimiting RL}.
Context (cb_default : B) (out : Outside W Regex) (log_event : (Z -> AuditEvent) -> W -> W).

(** What administration sets: everything but the limiter, the breakers and the latencies. *)
Definition administered (g : Gateway W S B RL R Regex) :=
  (gw_config g, gw_providers g, gw_provider_registry g, gw_plugin_manager g, gw_targets g,
   gw_provider_keys g, gw_request_log g, gw_response_cache g, gw_config_history g, gw_request_auditor g).

Lemma prepare_request_keeps request auth ip g w :
  let '(_, (g', _)) := prepare_request out request auth ip g w in administered g' = administered g.
Proof.
  unfold prepare_request. destruct (check_rate_limits _ _ _ _) as [limits l].
  destruct (let? _ := limits in _) as [[]|e]; [|done]. destruct (out_uuid out w) as [id w1].
  by destruct (run_before _ _ _) as [[[]|e] [ctx w2]].
Qed.

Lemma dispatch_keeps request auth g w :
  administered (dispatch cb_default out request auth g w).2.1 = administered g.
Proof.
  unfold dispatch. destruct (cache_lookup out request auth g w) as [[r|] w1]; [done|].
  destruct (select_targets out request auth g w1) as [ordered|e]; [|done].
  by destruct (with_failover _ _ _ _ _ _ _ _ _) as [[[[t res] lat]|] st].
Qed.

Lemma finish_keeps answer auth ctx (g : Gateway W S B RL R Regex) w : (finish out answer auth ctx g w).2.1 = g.
Proof.
  unfold finish. destruct answer as [[t res] lat]. destruct (run_after _ _ _) as [ctx1 w1].
  destruct (guard_response _ _ _ _) as [v w2]. by destruct v, res.
Qed.

Lemma route_keeps request auth ip g w :
  administered (route cb_default out request auth ip g w).2.1 = administered g.
Proof.
  unfold route. pose proof (prepare_request_keeps request auth ip g w) as Hp.
  destruct (prepare_request _ _ _ _ _ _) as [[ctx|e] [g1 w1]]; [|by destruct (out_uuid out w1)].
  rewrite <- Hp. pose proof (dispatch_keeps (ctx_request ctx) auth g1 w1) as Hd.
  destruct (dispatch _ _ _ _ _ _) as [[a|e] [g2 w2]]; cbn in Hd |- *; [|done].
  by rewrite finish_keeps.
Qed.

Lemma route_stream_keeps request auth ip g w :
  administered (route_stream cb_default out log_event request auth ip g w).2.1 = administered g.
Proof.
  unfold route_stream. pose proof (prepare_request_keeps request auth ip g w) as Hp.
  destruct (prepare_request _ _ _ _ _ _) as [[ctx|e] [g1 w1]]; [|done].
  destruct (select_targets _ _ _ _ _) as [ordered|e]; [|done].
  by destruct (with_failover _ _ _ _ _ _ _ _ _) as [[[[t []] lat]|] st].
Qed.

Lemma embed_keeps request auth (g : Gateway W S B RL R Regex) w :
  administered (embed out request auth g w).2.1 = administered g.
Proof.
  unfold embed. destruct (check_rate_limits _ _ _ _) as [limits l].
  destruct (let? _ := limits in _) as [[]|e]; [|done]. destruct (gw_targets _) as [|t ts]; [done|].
  destruct (filter_targets_by_rbac _ _ _); [|done]. by destruct (embed_loop _ _ _ _ _ _).
Qed.

Context (to_str : string -> option string) (chunk_to_string : StreamChunk -> result string string).
Context (value_to_string serde_error : Value -> string).

Lemma chat_keeps request auth peer headers g w :
  administered (chat_completions cb_default out log_event to_str chunk_to_string request auth peer headers g w).2.1
  = administered g.
Proof.
  unfold chat_completions. destruct (req_stream request).
  - pose proof (route_stream_keeps request auth (resolve_remote_ip to_str peer headers) g w) as Hk.
    by destruct (route_stream _ _ _ _ _ _ _ _) as [[[]|] s].
  - pose proof (route_keeps request auth (resolve_remote_ip to_str peer headers) g w) as Hk.
    by destruct (route _ _ _ _ _ _ _) as [[] s].
Qed.

Lemma completions_keeps request auth peer headers g w :
  administered (completions cb_default out log_event to_str value_to_string serde_error request auth peer
    headers g w).2.1 = administered g.
Proof.
  unfold completions. destruct (legacy_to_chat serde_error request) as [chat|]; [|done].
  destruct (lc_stream request).
  - pose proof (route_stream_keeps chat auth (resolve_remote_ip to_str peer headers) g w) as Hk.
    by destruct (route_stream _ _ _ _ _ _ _ _) as [[[]|] s].
  - pose proof (route_keeps chat auth (resolve_remote_ip to_str peer headers) g w) as Hk.
    by destruct (route _ _ _ _ _ _ _) as [[] s].
Qed.

Lemma embeddings_keeps request auth (g : Gateway W S B RL R Regex) w :
  administered (embeddings out request auth g w).2.1 = administered g.
Proof.
  unfold embeddings. pose proof (embed_keeps request auth g w) as Hk. by destruct (embed _ _ _ _ _) as [[] s].
Qed.
End Paths.

(** ** What the layers leave alone *)

(** The same principals: those that configure authentication, and the keys, but for the
    record of their use. *)
Record same_principals (sha256_hex : string -> string) (a a' : CombinedAuth) : Prop := {
  sp_jwt : ca_jwt a' = ca_jwt a;
  sp_login : ca_admin_login a' = ca_admin_login a;
  sp_master : am_master_key (ca_api_key a') = am_master_key (ca_api_key a);
  sp_keys : same_backend sha256_hex (am_store (ca_api_key a)) (am_store (ca_api_key a'));
}.

Section Layers.
Context `{TimeText, JsonText, JwtLibrary}.
Context (sha256_hex : string -> string) (uuid_text : Z -> string).
Context (replace_all : Pattern -> string -> string -> string).
Context {Key : Type}.
Context (decode_header : string -> result (option string) string).
Context (key_from_jwk : Jwk -> result Key string).
Context (jwt_decode : string -> Key -> Validation -> Z -> result JwtClaims JwtErrorKind).
Context (kind_message : JwtErrorKind -> string).
Context (required : list string).

Local Abbreviation enter := (enter sha256_hex uuid_text replace_all decode_header key_from_jwk jwt_decode
  kind_message required).
Local Abbreviation middleware := (combined_middleware sha256_hex uuid_text replace_all decode_header
  key_from_jwk jwt_decode kind_message required).

Local Abbreviation same_principals := (same_principals sha256_hex).

Lemma authenticate_keeps token now m :
  let m' := (authenticate sha256_hex uuid_text token now m).2 in
  am_master_key m' = am_master_key m /\ same_backend sha256_hex (am_store m) (am_store m').
Proof.
  pose proof (validate_keeps sha256_hex uuid_text token now (am_store m)) as Hv.
  pose proof (same_backend_refl sha256_hex (am_store m)) as Hr. unfold authenticate.
  destruct (backend_validate sha256_hex uuid_text token now (am_store m)) as [[[key|]|] b]; cbn in Hv;
    destruct (am_master_key m) as [mk|] eqn:Em; try destruct (constant_time_eq token mk); cbn; by rewrite ?Em.
Qed.

Lemma same_principals_refl a : same_principals a a.
Proof. split; try done. apply same_backend_refl. Qed.

Lemma middleware_keeps authorization ip k a : same_principals a (middleware authorization ip k a).2.
Proof.
  pose proof (same_principals_refl a) as Hr. unfold combined_middleware.
  destruct (_ && _); [done|]. destruct (bearer_token authorization) as [token|]; [|by destruct Hr].
  destruct (login_context _ _ _ _); [done|]. unfold require_roles.
  destruct (oidc_context _ _ _ _ _ _ _); [destruct (enforce_required_roles _ _); [done|by destruct Hr]|].
  pose proof (authenticate_keeps token (ck_instant k) (ca_api_key a)) as [Hm Hk].
  destruct (authenticate _ _ _ _ _) as [[[ctx|]|] m]; cbn in Hm, Hk; [|by split|by split].
  by destruct (enforce_required_roles _ _); split.
Qed.

Lemma enter_keeps gate authorization ip k a : same_principals a (enter gate authorization ip k a).2.
Proof.
  pose proof (middleware_keeps authorization ip k a) as Hm. unfold Router.enter, admin_gate.
  destruct gate; [apply same_principals_refl|..]; by destruct (middleware _ _ _ _) as [[] a'].
Qed.

(** Who gets through the gate of the admin routes. *)
Lemma enter_admin authorization ip k a ctx a' : backend_ok (am_store (ca_api_key a)) ->
  ~ (ca_jwt a = None /\ ca_admin_login a = None /\ am_master_key (ca_api_key a) = None) ->
  enter AdminOnly authorization ip k a = (Ok ctx, a') ->
  exists token, authorization = Some ("Bearer " +:+ token) /\
    admin_token sha256_hex uuid_text decode_header key_from_jwk jwt_decode kind_message token k a.
Proof.
  intros Hok Hconf. cbn [Router.enter]. destruct (admin_gate _ _ _ _ _ _ _ _ _ _ _ _) as [[c|] a1] eqn:Eg; [|done].
  intros _. apply gate_open in Eg as [Hm Hadm]. by eapply admin_gate_token.
Qed.
End Layers.

(** ** The process under any requests *)

(** Listing the models and endpoints of the admin handlers' stores, if they have any,
    whether it succeeds or fails, leaves what is stored: [rows] of the stores' state. *)
Class ReadsKeep {T X : Type} (h : AdminHandlers (T := T)) (rows : T -> X) := {
  list_enabled_keeps s t : ah_model_store h = Some s -> rows (ms_list_enabled s t).2 = rows t;
  list_endpoints_keeps s t : ah_model_endpoint_store h = Some s -> rows (es_list s t).2 = rows t;
}.

(** Without stores there is nothing to keep; stores that obey their laws do keep it. *)
#[export] Instance no_stores_keep {T X : Type} (rows : T -> X) : ReadsKeep admin_handlers_new rows.
Proof. by split. Qed.

Definition live_rows {T : Type} (ms : ModelStoreTrait T) (es : ModelEndpointStoreTrait T) `{!StoreLaws ms es}
    (t : T) : list Model * list ModelEndpoint := (live_models t, live_endpoints t).

#[export] Instance laws_keep {T : Type} (ms : ModelStoreTrait T) (es : ModelEndpointStoreTrait T)
    `{!StoreLaws ms es} : ReadsKeep (with_model_stores ms es admin_handlers_new) (live_rows ms es).
Proof.
  split; intros s t [= <-]; unfold live_rows.
  - by destruct (law_list_enabled t) as [-> ->].
  - by rewrite law_list_endpoints.
Qed.

Section Runs.
Context {W S B RL R Regex T : Type}.
Context `{CircuitBreakerTrait B} `{RateLimiting RL} `{ProviderRegistry R (Provider W S)}.
Context `{TimeText, JsonText, JwtLibrary}.
Context (sha256_hex : string -> string) (uuid_text : Z -> string) (parse_uuid : string -> option Z).
Context (replace_all : Pattern -> string -> string -> string).
Context {Key : Type}.
Context (decode_header : string -> result (option string) string).
Context (key_from_jwk : Jwk -> result Key string).
Context (jwt_decode : string -> Key -> Validation -> Z -> result JwtClaims JwtErrorKind).
Context (kind_message : JwtErrorKind -> string).
Context (cb_default : B) (out : Outside W Regex) (log_event : (Z -> AuditEvent) -> W -> W).
Context (to_str : string -> option string) (chunk_to_string : StreamChunk -> result string string).
Context (value_to_string serde_error : Value -> string).
Context (parse_method : string -> option string) (send : Upstream -> W -> result Fetched string * W).
Context (regex_new : string -> option Regex) (timestamp : Z -> Z).
Context (order_by : forall Row, (Row -> Row -> bool) -> list Row -> list Row).
Context (entries : gmap string ApiKey -> list ApiKey) (iter : gmap string agg -> list (string * agg)).
Context (iter_set : gset string -> list string).
Context (provider_names : gmap string (Provider W S) -> list string).

(** Where the world keeps what the handlers share with the gateway: the metrics, the usage
    records, the logs by the gateway's handle, the audit log, the configuration. *)
Context (metrics_of : W -> string) (usage_of : W -> UsageStore) (logs : nat -> RequestLogStore W).
Context (audit_of : W -> AuditLog) (put_audit : AuditLog -> W -> W) (share_config : Config -> W -> W).

Context (ex : Extractors) (version : string).
(** What the CORS layer answers by itself, to a preflight. *)
Context (preflight_answer : HttpRequest -> option Reply).

Local Abbreviation server := (Server (W := W) (S := S) (B := B) (RL := RL) (R := R) (Regex := Regex) (T := T)).
(** *** Who disturbs what *)
Section Disturbing.
Context {X : Type} (h : AdminHandlers (T := T)) (rows : T -> X) `{!ReadsKeep h rows}.

Local Abbreviation handle := (handle sha256_hex uuid_text parse_uuid replace_all cb_default out log_event to_str
  chunk_to_string value_to_string serde_error parse_method send regex_new timestamp order_by entries iter
  iter_set provider_names metrics_of usage_of logs audit_of put_audit share_config ex version h).
Local Abbreviation serve_request := (serve_request sha256_hex uuid_text parse_uuid replace_all decode_header
  key_from_jwk jwt_decode kind_message cb_default out log_event to_str chunk_to_string value_to_string serde_error
  parse_method send regex_new timestamp order_by entries iter iter_set provider_names metrics_of usage_of logs
  audit_of put_audit share_config ex version preflight_answer h).
Local Abbreviation serve_requests := (serve_requests sha256_hex uuid_text parse_uuid replace_all decode_header
  key_from_jwk jwt_decode kind_message cb_default out log_event to_str chunk_to_string value_to_string serde_error
  parse_method send regex_new timestamp order_by entries iter iter_set provider_names metrics_of usage_of logs
  audit_of put_audit share_config ex version preflight_answer h).

(** What only administration changes is as it was. *)
Record undisturbed (sv sv' : server) : Prop := {
  ud_gateway : administered (sv_gateway sv') = administered (sv_gateway sv);
  ud_rows : rows (app_store (sv_app sv')) = rows (app_store (sv_app sv));
}.

Lemma undisturbed_refl sv : undisturbed sv sv.
Proof. by split. Qed.

Lemma list_models_rows names (g : Gateway W S B RL R Regex) t :
  rows (list_models_handler timestamp h names g t).2 = rows t.
Proof.
  unfold list_models_handler, list_enabled_models_for_api, list_enabled_models, list_endpoints.
  assert (rows (match ah_model_store h with Some s => ms_list_enabled s t | None => (Ok [], t) end).2 = rows t)
    as Hm by (destruct (ah_model_store h) as [m|] eqn:E; [by apply list_enabled_keeps|done]).
  destruct (match ah_model_store h with Some s => ms_list_enabled s t | None => (Ok [], t) end) as [[models|e] t1];
    cbn in Hm |- *; [|done].
  destruct (ah_model_endpoint_store h) as [m|] eqn:E; [|done].
  pose proof (list_endpoints_keeps m t1 E) as He. destruct (es_list m t1) as [[l|e] t2]; cbn in *; congruence.
Qed.

(** The handlers without the admin gate disturb nothing, and leave authentication as it is. *)
Lemma open_handlers_keep e ctx r d sv : gate_of e <> AdminOnly ->
  undisturbed sv (handle e ctx r d sv).2 /\ sv_auth (handle e ctx r d sv).2 = sv_auth sv.
Proof.
  assert (forall A (x : result A Reply) (k : A -> Served S * server),
    (forall a, undisturbed sv (k a).2 /\ sv_auth (k a).2 = sv_auth sv) ->
    undisturbed sv (extracting x k sv).2 /\ sv_auth (extracting x k sv).2 = sv_auth sv) as Hex.
  { intros A [a|reply] k Hk; [apply Hk|]. by split; [apply undisturbed_refl|]. }
  assert (forall g w, administered g = administered (sv_gateway sv) ->
    undisturbed sv (with_path (g, w) sv)) as Hpath by (by split).
  intros Hg. destruct e; try (exfalso; by apply Hg); cbn [Server.handle]; try (apply Hex; intros body).
  - by split; [apply undisturbed_refl|].
  - by split; [apply undisturbed_refl|].
  - pose proof (list_models_rows (provider_names (gw_providers (sv_gateway sv))) (sv_gateway sv)
      (app_store (sv_app sv))) as Hl.
    destruct (list_models_handler _ _ _ _ _) as [l t]. by split; [split|].
  - destruct (dev_admin_login _ _ _ _ _ _ _ _) as [a l]. by split; [split|].
  - pose proof (chat_keeps cb_default out log_event to_str chunk_to_string body ctx (hr_peer r) (hr_headers r)
      (sv_gateway sv) (sv_world sv)) as Hk.
    destruct (chat_completions _ _ _ _ _ _ _ _ _ _ _) as [a [g w]]. split; [by apply Hpath|done].
  - pose proof (completions_keeps cb_default out log_event to_str value_to_string serde_error body ctx (hr_peer r)
      (hr_headers r) (sv_gateway sv) (sv_world sv)) as Hk.
    destruct (completions _ _ _ _ _ _ _ _ _ _ _ _) as [a [g w]]. split; [by apply Hpath|done].
  - pose proof (embeddings_keeps out body ctx (sv_gateway sv) (sv_world sv)) as Hk.
    destruct (embeddings _ _ _ _ _) as [a [g w]]. split; [by apply Hpath|done].
  - destruct (passthrough _ _ _ _ _ _ _ _ _) as [a w]. by split; [split|].
Qed.

Lemma guarded_cases gate (k : option AuthContext -> server -> Served S * server) r d sv :
  exists a, a = (enter sha256_hex uuid_text replace_all decode_header key_from_jwk jwt_decode kind_message
    (required_roles (out_env out)) gate (header_text to_str "authorization" r) (Some (show_ip (hr_peer r)))
    (dr_clock d) (auth_of audit_of sv)) /\
  guarded sha256_hex uuid_text replace_all decode_header key_from_jwk jwt_decode kind_message out to_str audit_of
    put_audit gate k r d sv =
  match a.1 with
  | Ok ctx => k ctx (with_auth put_audit a.2 sv)
  | Err reply => (SReply reply, with_auth put_audit a.2 sv)
  end.
Proof. eexists. split; [done|]. unfold guarded. by destruct (enter _ _ _ _ _ _ _ _ _ _ _ _) as [[] a]. Qed.

Lemma with_auth_undisturbed a sv : undisturbed sv (with_auth put_audit a sv).
Proof. by split. Qed.

(** C13: Only administrators administer. When any way to authenticate is configured, a request,
    on whatever path, either carries an administrator's token (the master key, a token
    of the login or of the provider with an admin role or scope, or an enabled admin
    key), or leaves as they were the configuration and its history, the targets, clients,
    provider keys, plugins and cache of the gateway, the models and endpoints of the
    database, and the API keys but for the record of their use. The key store may be the
    one in memory, whose index is right as its operations keep it, SQLite or Postgres, and
    its connection may fail at any statement. *)
Theorem only_admins_administer r d (sv : server) :
  backend_ok (sv_keys sv) ->
  ~ (ca_jwt (sv_auth sv) = None /\ ca_admin_login (sv_auth sv) = None /\
     am_master_key (ca_api_key (sv_auth sv)) = None) ->
  let sv' := (serve_request r d sv).2 in
  (exists token, header_text to_str "authorization" r = Some ("Bearer " +:+ token) /\
     admin_token sha256_hex uuid_text decode_header key_from_jwk jwt_decode kind_message token (dr_clock d)
       (sv_auth sv)) \/
  undisturbed sv sv' /\ same_principals sha256_hex (sv_auth sv) (sv_auth sv').
Proof.
  intros Hok Hconf. cbn zeta. unfold Server.serve_request.
  destruct (preflight_answer r); [by right; split; [apply undisturbed_refl|apply same_principals_refl]|].
  assert (forall gate (k : option AuthContext -> server -> Served S * server),
    (gate <> AdminOnly -> forall ctx sv1, undisturbed sv1 (k ctx sv1).2 /\ sv_auth (k ctx sv1).2 = sv_auth sv1) ->
    let sv' := (guarded sha256_hex uuid_text replace_all decode_header key_from_jwk jwt_decode kind_message out
      to_str audit_of put_audit gate k r d sv).2 in
    (exists token, header_text to_str "authorization" r = Some ("Bearer " +:+ token) /\
       admin_token sha256_hex uuid_text decode_header key_from_jwk jwt_decode kind_message token (dr_clock d)
       (sv_auth sv))
    \/ undisturbed sv sv' /\ same_principals sha256_hex (sv_auth sv) (sv_auth sv')) as Hguard.
  { intros gate k Hk. cbn zeta. destruct (guarded_cases gate k r d sv) as (a & Ha & ->).
    pose proof (enter_keeps sha256_hex uuid_text replace_all decode_header key_from_jwk jwt_decode kind_message
      (required_roles (out_env out)) gate (header_text to_str "authorization" r) (Some (show_ip (hr_peer r)))
      (dr_clock d) (auth_of audit_of sv)) as Hkeep. rewrite <- Ha in Hkeep.
    assert (same_principals sha256_hex (sv_auth sv) a.2) as Hp by (by destruct Hkeep; split).
    destruct a as [[ctx|reply] a]; cbn [fst snd] in *; [|right; split; [apply with_auth_undisturbed|done]].
    destruct (decide (gate = AdminOnly)) as [->|Hg].
    - left. symmetry in Ha. apply (enter_admin sha256_hex uuid_text replace_all decode_header key_from_jwk jwt_decode
        kind_message) in Ha as (token & Ht & Hadm); [|done..].
      exists token. split; [done|]. destruct Hadm;
        [by apply AdminMaster|by eapply AdminByLogin|by eapply AdminByOidc|by eapply AdminByKey].
    - right. destruct (Hk Hg ctx (with_auth put_audit a sv)) as [[Hu1 Hu2] ->]. by split; [split|]. }
  destruct (dispatch_request (hr_method r) (hr_path r)) as [gate e|gate] eqn:Ed.
  - apply Hguard. intros Hg ctx sv1. apply open_handlers_keep. intros He. apply Hg.
    apply dispatch_route in Ed as [[-> ->]|(x & Hin & -> & _)]; [done|]. by rewrite (routes_gated _ _ Hin).
  - apply Hguard. intros _ ctx sv1. by split; [apply undisturbed_refl|].
Qed.

End Disturbing.

(** *** Routing *)
Section Follows.
Context (ms : ModelStoreTrait T) (es : ModelEndpointStoreTrait T) `{!StoreLaws ms es}.

Local Abbreviation h := (with_model_stores ms es admin_handlers_new).
Local Abbreviation handle := (handle sha256_hex uuid_text parse_uuid replace_all cb_default out log_event to_str
  chunk_to_string value_to_string serde_error parse_method send regex_new timestamp order_by entries iter
  iter_set provider_names metrics_of usage_of logs audit_of put_audit share_config ex version h).
Local Abbreviation serve_request := (serve_request sha256_hex uuid_text parse_uuid replace_all decode_header
  key_from_jwk jwt_decode kind_message cb_default out log_event to_str chunk_to_string value_to_string serde_error
  parse_method send regex_new timestamp order_by entries iter iter_set provider_names metrics_of usage_of logs
  audit_of put_audit share_config ex version preflight_answer h).
Local Abbreviation serve_requests := (serve_requests sha256_hex uuid_text parse_uuid replace_all decode_header
  key_from_jwk jwt_decode kind_message cb_default out log_event to_str chunk_to_string value_to_string serde_error
  parse_method send regex_new timestamp order_by entries iter iter_set provider_names metrics_of usage_of logs
  audit_of put_audit share_config ex version preflight_answer h).

Local Abbreviation undisturbed := (undisturbed (live_rows ms es)).

Lemma undisturbed_ok sv sv' : undisturbed sv sv' ->
  routing_ok ms es (sv_app sv) -> routing_ok ms es (sv_app sv').
Proof.
  intros [Hg [= Hm He]] Hok. unfold sv_gateway, administered in Hg. injection Hg as Hc _ Hreg _ Ht _ _ _ Hh _.
  destruct Hok as [Hrt Hf Hhist]. split; [by rewrite Hreg, He| |by rewrite Hh].
  unfold follows_db, db_owns_routing, db_targets in *. by rewrite Ht, Hm, He.
Qed.


(** A request whose configuration document, if it has one, names no endpoint. *)
Definition plain_http (x : HttpRequest * Draws) : Prop :=
  (forall c, ex_config ex x.1 = Ok c -> plain_config c) /\ (forall c, dr_loaded x.2 = Ok c -> plain_config c).

Lemma handle_ok e ctx r d sv : plain_http (r, d) -> routing_ok ms es (sv_app sv) ->
  routing_ok ms es (sv_app (handle e ctx r d sv).2).
Proof.
  intros [Hc Hl] Hok. destruct (decide (gate_of e = AdminOnly)) as [Hg|Hg];
    [|apply (undisturbed_ok sv); [unshelve (eapply proj1, open_handlers_keep, Hg); exact _|done]].
  assert (forall a, plain_request a -> routing_ok ms es (sv_app (admin_call out regex_new share_config h a sv).2))
    as Hadmin.
  { intros a Ha. unfold admin_call. pose proof (serve_ok (out_env out) regex_new ms es a (sv_app sv) Ha Hok) as Hs.
    by destruct (serve _ _ _ _ _) as [x st]. }
  assert (forall A (x : result A Reply) (k : A -> Served S * server),
    (forall a, x = Ok a -> routing_ok ms es (sv_app (k a).2)) ->
    routing_ok ms es (sv_app (extracting x k sv).2)) as Hex.
  { intros A [a|reply] k Hk; [by apply Hk|done]. }
  assert (forall A (f : A -> Served S) m, routing_ok ms es (sv_app (key_call f m sv).2)) as Hkey.
  { intros A f m. unfold key_call. by destruct (m (sv_keys sv)). }
  destruct e; try (by vm_compute in Hg); cbn [Server.handle]; repeat (apply Hex; intros ? ?);
    try apply Hkey; try (apply Hadmin; done); try done.
  - apply Hadmin. by apply Hc.
  - by destruct (delete_logs _ _).
  - apply Hadmin. destruct (dr_loaded d) as [c|] eqn:El; [by apply Hl|done].
Qed.

Lemma serve_request_ok r d sv : plain_http (r, d) -> routing_ok ms es (sv_app sv) ->
  routing_ok ms es (sv_app (serve_request r d sv).2).
Proof.
  intros Hp Hok. unfold Server.serve_request. destruct (preflight_answer r); [done|].
  destruct (dispatch_request _ _) as [gate e|gate];
    match goal with |- context [guarded _ _ _ _ _ _ _ _ _ _ _ ?gate ?k r d sv] =>
      destruct (guarded_cases gate k r d sv) as (a & _ & ->) end;
    destruct a as [[ctx|reply] a]; cbn [fst snd]; try done. by apply handle_ok.
Qed.

Lemma serve_requests_ok rs sv : Forall plain_http rs -> routing_ok ms es (sv_app sv) ->
  routing_ok ms es (sv_app (serve_requests rs sv)).
Proof.
  intros Hp. revert sv. induction Hp as [|[r d] rs Hr _ IH]; intros sv Hok; [done|].
  cbn. by apply IH, serve_request_ok.
Qed.

End Follows.
End Runs.

(** ** The theorems at concrete requests *)
Module ServerDemo.
#[local] Existing Instances demo_limiting ModelDemo.open_cipher SqlDemo.time_text RefineDemo.json_text
  JwtDemo.demo_jwt.

Definition bad_request : Reply := {| rp_status := 400; rp_retry_after := None; rp_body := BodyText "" |}.

Definition extractors : Extractors :=
  {| ex_param := Ok; ex_version := fun _ => Err bad_request; ex_chat := fun _ => Err bad_request;
     ex_legacy := fun _ => Err bad_request; ex_embedding := fun _ => Err bad_request; ex_login := fun _ => Err bad_request;
     ex_create_key := fun _ => Err bad_request; ex_update_key := fun _ => Err bad_request;
     ex_create_model := fun _ => Ok {| cm_name := "gpt-4o"; cm_display_name := None; cm_enabled := true |};
     ex_update_model := fun _ => Err bad_request;
     ex_create_endpoint := fun _ =>
       Ok {| ce_provider_type := "openai"; ce_base_url := None; ce_api_key := Some "sk-1";
             ce_weight := f64_of_Z 1; ce_enabled := true |};
     ex_update_endpoint := fun _ => Err bad_request; ex_toggle := fun _ => Ok (Some false);
     ex_config := fun _ => Err bad_request; ex_log_query := fun _ => Err bad_request;
     ex_maintenance := fun _ => Err bad_request |}.

Definition outside : Outside unit unit :=
  {| out_now_micros := fun _ => 0; out_now_ms := fun _ => 0; out_instant_ns := fun _ => 0;
     out_uuid := fun w => ("id", w);
     out_stamp := fun w => ({| stamp_audit_now := 0; stamp_usage_now := 0; stamp_log_now := 0;
                               stamp_usage_id := "u"; stamp_trace_id := "t" |}, w);
     out_gen_range := fun _ _ _ => None; out_cache_hit := fun w => w; out_cache_miss := fun w => w;
     out_env := fun _ => None; out_to_lowercase := fun s => s; out_is_match := fun _ _ => false |}.

Definition no_logs : RequestLogStore unit :=
  {| log_write := fun _ w => (Ok tt, w); log_list := fun _ _ => Err ""; log_delete := fun _ w => (Err "", w);
     log_count := fun _ => 0%nat |}.

(** The first identifier of the database's draws would be the empty path segment. *)
Definition server : Server (T := Stored) :=
  {| sv_app := {| app_gateway := app_gateway HandlersDemo.start;
                  app_store := {| sd_maps := ModelDemo.empty; sd_draws := 1 |} |};
     sv_auth := AccessDemo.auth; sv_world := tt |}.

Lemma server_ok : routing_ok HandlersDemo.model_store HandlersDemo.endpoint_store (sv_app server).
Proof. by apply (same_ok _ _ HandlersDemo.start); [exact HandlersDemo.start_ok| |]. Qed.

Definition request (authorization : option string) (m : Method) (path : string) : HttpRequest * Draws :=
  ({| hr_method := m; hr_path := path; hr_query := None; hr_peer := V4 [8; 8; 8; 8];
      hr_headers := match authorization with Some v => [("authorization", v)] | None => [] end; hr_body := None |},
   {| dr_clock := AccessDemo.clock; dr_now := 0; dr_id := 0; dr_secret := 0; dr_loaded := Ok (demo_config "openai") |}).

(** An administrator adds a model and an endpoint of it; an anonymous client tries to
    disable it, and lists the models. *)
Definition session : list (HttpRequest * Draws) :=
  [request (Some "Bearer mk") POST "/admin/models";
   request (Some "Bearer mk") POST ("/admin/models/" +:+ SqlDemo.uuid 1 +:+ "/endpoints");
   request None POST ("/admin/endpoints/" +:+ SqlDemo.uuid 2 +:+ "/toggle");
   request None GET "/v1/models"].

Definition serve_one (x : HttpRequest * Draws) :=
  serve_request (Key := unit) (fun s => s) SqlDemo.uuid (fun _ => None) (fun _ s _ => s)
    (fun _ => Err "") (fun _ => Err "") (fun _ _ _ _ => Err (KOther "")) (fun _ => "")
    (breaker_new default_breaker_config) outside (fun _ w => w)
    Some (fun _ => Err "") (fun _ => "") (fun _ => "") Some (fun _ w => (Err "", w)) no_regex (fun s => s)
    (fun _ _ l => l) (fun m => (map_to_list m).*2) map_to_list elements (fun m => (map_to_list m).*1)
    (fun _ => "") (fun _ => usage_store_new []) (fun _ => no_logs) (fun _ => audit_new true) (fun _ w => w)
    (fun _ w => w) extractors "0" (fun _ => None)
    (with_model_stores HandlersDemo.model_store HandlersDemo.endpoint_store admin_handlers_new) x.1 x.2.

Definition after (rs : list (HttpRequest * Draws)) : Server :=
  foldl (fun sv x => (serve_one x sv).2) server rs.
End ServerDemo.

#[local] Existing Instances demo_limiting ModelDemo.open_cipher SqlDemo.time_text RefineDemo.json_text
  JwtDemo.demo_jwt.


(** The anonymous attempt to disable the endpoint. *)
Lemma only_admins_administer_witness :
  let sv := ServerDemo.after ServerDemo.session in
  let x := ServerDemo.request None POST ("/admin/endpoints/" +:+ SqlDemo.uuid 2 +:+ "/toggle") in
  gw_targets (sv_gateway (ServerDemo.serve_one x sv).2) = gw_targets (sv_gateway sv).
Proof.
  cbn zeta. set (sv := ServerDemo.after ServerDemo.session).
  destruct (only_admins_administer (fun s => s) SqlDemo.uuid (fun _ => None) (fun _ s _ => s) (Key := unit)
    (fun _ => Err "") (fun _ => Err "") (fun _ _ _ _ => Err (KOther "")) (fun _ => "")
    (breaker_new default_breaker_config) ServerDemo.outside (fun _ w => w)
    Some (fun _ => Err "") (fun _ => "") (fun _ => "") Some (fun _ w => (Err "", w)) no_regex (fun s => s)
    (fun _ _ l => l) (fun m => (map_to_list m).*2) map_to_list elements (fun m => (map_to_list m).*1)
    (fun _ => "") (fun _ => usage_store_new []) (fun _ => ServerDemo.no_logs) (fun _ => audit_new true)
    (fun _ w => w) (fun _ w => w) ServerDemo.extractors "0" (fun _ => None)
    (with_model_stores HandlersDemo.model_store HandlersDemo.endpoint_store admin_handlers_new)
    (live_rows HandlersDemo.model_store HandlersDemo.endpoint_store)
    (ServerDemo.request None POST ("/admin/endpoints/" +:+ SqlDemo.uuid 2 +:+ "/toggle")).1
    (ServerDemo.request None POST ("/admin/endpoints/" +:+ SqlDemo.uuid 2 +:+ "/toggle")).2 sv)
    as [(token & Ht & _)|[[Hg _] _]].
  - assert (sv_keys sv = Memory key_store_new) as -> by by vm_compute. exact store_new_ok.
  - intros [_ [_ Hn]]. by vm_compute in Hn.
  - by vm_compute in Ht.
  - unfold ServerDemo.serve_one. revert Hg. unfold administered.
    generalize (sv_gateway sv) as g. intros g. match goal with |- context [sv_gateway ?x.2] => generalize (sv_gateway x.2) end.
    intros g1 Hg. congruence.
Defined.
